(** * Backtest simulation and scoring engine

    A shallow embedding of [runBacktest], [getForecastWithRetries] and
    [calculateAggregateScores] (services/backtestService.ts, the last part
    of src/services/geminiService.ts), together with the properties of the
    backtest loop and of the scoring engine that the design document
    states.

    Modelling conventions.
    - A JavaScript [number] is an exact rational ([Q]); [null] and
      [undefined] are [None].  [Math.sqrt] is a parameter of the
      development: no property below depends on how it rounds.  An
      ordering between a mean and its terms holds of exact means and can
      fail after rounding: none is stated.
    - A string is the sequence of the bytes of its UTF-8 encoding.
      Searching, splitting and replacing a substring work on the bytes;
      [trim] knows the encodings of the white space characters;
      [toLowerCase] changes the letters A to Z only, which the searches
      made after it cannot tell from the full conversion.
    - A [Record<string, V>] is an association list in insertion order
      (the order [Object.entries] enumerates string keys that are not
      array indices); assignment overwrites in place or appends.  Keys are
      model identifiers and model names: none is the name of a member of
      [Object.prototype].
    - A [throw] is an explicit error result.
    - The language models are oracles: a call is indexed by the tick, the
      slot of the model in the forecaster list and the attempt number, and
      receives the arguments the prompt is built from.  Every call and
      every back-off sleep is logged in a trace.  An answer is taken at
      its declared type, [ForecastResult] or [JudgeResult]: the loop is
      modelled for answers whose fields are of these types. *)

From Stdlib Require Import List String Ascii Bool Arith ZArith QArith Qminmax Lia Lqa.
From Stdlib Require Import Sorted Permutation DecimalString.
Import ListNotations.
Local Open Scope string_scope.
Local Open Scope list_scope.
Local Open Scope Q_scope.

Set Implicit Arguments.

(** ** JavaScript strings *)

Module JsString.

(** [String.prototype.toLowerCase] on the letters A to Z.  Lower-casing
    any other character cannot create an occurrence of the substrings
    that are searched for afterwards ('rate limit', '500', '502', '503',
    '504', 'overloaded'). *)
Definition lowerAscii (c : ascii) : ascii :=
  let n := nat_of_ascii c in
  if (65 <=? n)%nat && (n <=? 90)%nat then ascii_of_nat (n + 32) else c.

Fixpoint toLowerCase (s : string) : string :=
  match s with
  | EmptyString => EmptyString
  | String c r => String (lowerAscii c) (toLowerCase r)
  end.

(** [s.includes(sub)]. *)
Fixpoint includes (s sub : string) : bool :=
  String.prefix sub s ||
  match s with
  | EmptyString => false
  | String _ r => includes r sub
  end.

Fixpoint drop (n : nat) (s : string) : string :=
  match n, s with
  | O, _ => s
  | S k, EmptyString => EmptyString
  | S k, String _ r => drop k r
  end.

(** [s.replace(pat, '')] for a string pattern: only the first
    occurrence is removed. *)
Fixpoint removeFirst (pat s : string) : string :=
  if String.prefix pat s then drop (String.length pat) s
  else match s with
       | EmptyString => EmptyString
       | String c r => String c (removeFirst pat r)
       end.

(** A string is held as the bytes of its UTF-8 encoding.  The
    characters that [String.prototype.trim] removes are the white space
    and line terminator code points of ECMAScript: U+0009 to U+000D,
    U+0020, U+00A0, U+1680, U+2000 to U+200A, U+2028, U+2029, U+202F,
    U+205F, U+3000 and U+FEFF, here by their encodings. *)
Definition ofBytes (l : list nat) : string :=
  fold_right (fun n s => String (ascii_of_nat n) s) EmptyString l.

Definition whiteSpace : list string :=
  map ofBytes
    [[9]; [10]; [11]; [12]; [13]; [32];
     [194; 160];
     [225; 154; 128];
     [226; 128; 128]; [226; 128; 129]; [226; 128; 130]; [226; 128; 131];
     [226; 128; 132]; [226; 128; 133]; [226; 128; 134]; [226; 128; 135];
     [226; 128; 136]; [226; 128; 137]; [226; 128; 138];
     [226; 128; 168]; [226; 128; 169]; [226; 128; 175];
     [226; 129; 159];
     [227; 128; 128];
     [239; 187; 191]]%nat.

Fixpoint startsWith (w s : string) : bool :=
  match w, s with
  | EmptyString, _ => true
  | String a w', String b s' => Ascii.eqb a b && startsWith w' s'
  | String _ _, EmptyString => false
  end.

(** The number of bytes of the white space character that [s] opens
    with, 0 when it opens with none. *)
Definition spaceWidth (s : string) : nat :=
  match find (fun w => startsWith w s) whiteSpace with
  | Some w => String.length w
  | None => 0
  end.

(** Leading white space is dropped one character at a time; [fuel]
    bounds the characters left. *)
Fixpoint trimStartGo (fuel : nat) (s : string) : string :=
  match fuel with
  | O => s
  | S fuel' =>
      match spaceWidth s with
      | O => s
      | S k => trimStartGo fuel' (drop (S k) s)
      end
  end.

Definition trimStart (s : string) : string := trimStartGo (String.length s) s.

(** A string of white space only. *)
Definition isBlank (s : string) : bool :=
  match trimStart s with EmptyString => true | _ => false end.

(** Trailing white space is dropped: the longest suffix made of white
    space only collapses to the empty string. *)
Fixpoint trimEnd (s : string) : string :=
  match s with
  | EmptyString => EmptyString
  | String c r => if isBlank s then EmptyString else String c (trimEnd r)
  end.

Definition trim (s : string) : string := trimEnd (trimStart s).

(** [s.split(sep)] for a non-empty separator. *)
Fixpoint splitGo (sep s : string) (skip : nat) (acc : string) : list string :=
  match s with
  | EmptyString => [acc]
  | String c r =>
      match skip with
      | S k => splitGo sep r k acc
      | O =>
          if String.prefix sep s
          then acc :: splitGo sep r (String.length sep - 1) EmptyString
          else splitGo sep r 0 (acc ++ String c EmptyString)
      end
  end.

Definition split (sep s : string) : list string := splitGo sep s 0 EmptyString.

(** Truthiness of a string: only the empty string is falsy. *)
Definition truthy (s : string) : bool :=
  match s with EmptyString => false | _ => true end.

End JsString.

(** The bytes with which a white space character can open, and those
    with which one can close. *)
Definition opensSpace (c : ascii) : bool :=
  existsb
    (fun w => match w with String a _ => Ascii.eqb a c | EmptyString => true end)
    JsString.whiteSpace.

Fixpoint lastByte (s : string) : option ascii :=
  match s with
  | EmptyString => None
  | String c r => match lastByte r with None => Some c | found => found end
  end.

Definition closesSpace (c : ascii) : bool :=
  existsb
    (fun w => match lastByte w with Some a => Ascii.eqb a c | None => true end)
    JsString.whiteSpace.

(** ** Records used as dictionaries *)

Section Dict.
Variable V : Type.

Definition Dict := list (string * V).

Fixpoint dict_get (d : Dict) (k : string) : option V :=
  match d with
  | [] => None
  | (k', v) :: r => if String.eqb k' k then Some v else dict_get r k
  end.

(** [d[k] = v]: an existing key keeps its place. *)
Fixpoint dict_set (d : Dict) (k : string) (v : V) : Dict :=
  match d with
  | [] => [(k, v)]
  | (k', v') :: r =>
      if String.eqb k' k then (k', v) :: r else (k', v') :: dict_set r k v
  end.

Definition dict_keys (d : Dict) : list string := map fst d.
Definition dict_values (d : Dict) : list V := map snd d.
End Dict.

(** ** Data model (types.ts) *)

Record Observation := {
  obs_title : string;
  value : option Q;
  obs_unit : string
}.

Record Peer := {
  peer_title : string;
  peer_value : option Q;
  peer_unit : string;
  relationship : Q
}.

Record Tick := {
  date : string;
  country : string;
  indicator : string;
  primary : Observation;
  peers : list Peer
}.

Record ForecastResult := {
  prediction : Q;
  fc_unit : string;
  rationale : string;
  confidence : Q
}.

Record JudgeResult := {
  accuracy : Q;
  jr_error : Q;
  feedback : string
}.

Record BacktestTickResult := {
  tickIndex : nat;
  tickData : Tick;
  forecasts : Dict ForecastResult;
  evaluations : Dict JudgeResult
}.

Record ModelBenchmark := {
  modelId : string;
  modelName : option string;
  provider : string;
  completionRate : Q;
  directionalAccuracy : Q;
  rmse : Q;
  brierScore : Q;
  avgConfidence : Q;
  compositeScore : Q;
  predictions : nat
}.

Inductive ExclusionReason := InsufficientCoverage | Failed.

(** [ex_metrics] holds the fields that [{...bench, reason, totalTicks}]
    copies from the benchmark; a model reported as [Failed] has none. *)
Record ExcludedModel := {
  ex_modelId : string;
  ex_modelName : option string;
  ex_provider : string;
  ex_reason : ExclusionReason;
  ex_message : option string;
  ex_predictions : nat;
  ex_totalTicks : Z;
  ex_metrics : option ModelBenchmark
}.

Record BacktestResults := {
  res_compositeScore : Q;
  overallDirectionalAccuracy : Q;
  overallMagnitudeRmse : Q;
  overallAvgConfidence : Q;
  topPerformers : list ModelBenchmark;
  excludedModels : list ExcludedModel
}.

(** constants.ts *)
Definition PARTICIPATION_THRESHOLD : Q := 80.

(** ** Aggregate scoring engine: [calculateAggregateScores] *)

Definition Qltb (x y : Q) : bool := negb (Qle_bool y x).

(** [Math.sign] *)
Definition Math_sign (x : Q) : Z := Z.sgn (Qnum x).

(** [Math.min(...l)] and [Math.max(...l)].  On an empty argument list
    JavaScript yields an infinity; the engine reads the range only while
    scoring a model that has a sample, when the list is not empty. *)
Definition Math_min (l : list Q) : Q :=
  match l with [] => 0 | x :: r => fold_left Qmin r x end.
Definition Math_max (l : list Q) : Q :=
  match l with [] => 0 | x :: r => fold_left Qmax r x end.

(** [modelId.split('::')] destructured as [[provider, modelName]]. *)
Definition splitModelId (modelId : string) : string * option string :=
  match JsString.split "::" modelId with
  | [] => (EmptyString, None)
  | [p] => (p, None)
  | p :: n :: _ => (p, Some n)
  end.

(** A property key: [undefined] is converted to the string "undefined". *)
Definition keyOf (k : option string) : string :=
  match k with Some s => s | None => "undefined" end.

(** [errors[modelName] || fallback] *)
Definition errorOr (errors : Dict string) (name : option string) (fallback : string) : string :=
  match dict_get errors (keyOf name) with
  | Some m => if JsString.truthy m then m else fallback
  | None => fallback
  end.

(** The four parallel arrays kept per model in [statsByModel]. *)
Record ModelStats := {
  s_predictions : list Q;
  s_confidences : list Q;
  s_actuals : list Q;
  s_prevActuals : list Q
}.

Definition emptyStats : ModelStats :=
  {| s_predictions := []; s_confidences := []; s_actuals := []; s_prevActuals := [] |}.

Definition initStats (allAttemptedModels : list string) : Dict ModelStats :=
  fold_left (fun d m => dict_set d m emptyStats) allAttemptedModels [].

(** Body of [Object.entries(result.forecasts).forEach(...)]. *)
Definition pushSample (currentActual prevActual : Q)
    (statsByModel : Dict ModelStats) (entry : string * ForecastResult) : Dict ModelStats :=
  let (m, forecast) := entry in
  match dict_get statsByModel m with
  | Some s =>
      dict_set statsByModel m
        {| s_predictions := s_predictions s ++ [prediction forecast];
           s_confidences := s_confidences s ++ [confidence forecast];
           s_actuals := s_actuals s ++ [currentActual];
           s_prevActuals := s_prevActuals s ++ [prevActual] |}
  | None => statsByModel
  end.

(** [ticks[i + 1]?.primary.value] *)
Definition nextValue (ticks : list Tick) (i : nat) : option Q :=
  match nth_error ticks (S i) with
  | Some t => value (primary t)
  | None => None
  end.

(** The loop [for (let i = 0; i < tickResults.length; i++)], entered at
    index [i] with the results from [i] on.  [ticks[i].primary] throws a
    TypeError when [ticks[i]] is undefined: the result is [None]. *)
Fixpoint collectSeries (ticks : list Tick) (i : nat) (results : list BacktestTickResult)
    (statsByModel : Dict ModelStats) : option (Dict ModelStats) :=
  match results with
  | [] => Some statsByModel
  | result :: rest =>
      match nth_error ticks i with
      | None => None
      | Some t =>
          match value (primary t), nextValue ticks i with
          | Some prevActual, Some currentActual =>
              collectSeries ticks (S i) rest
                (fold_left (pushSample currentActual prevActual) (forecasts result) statsByModel)
          | _, _ => collectSeries ticks (S i) rest statsByModel
          end
      end
  end.

(** Accumulators of the per-sample loop. *)
Record Sums := {
  correctDirections : nat;
  squaredErrorSum : Q;
  brierScoreSum : Q
}.

Definition outcome (pred actual prevActual : Q) : bool :=
  let predictedDirection := Math_sign (pred - prevActual) in
  let actualDirection := Math_sign (actual - prevActual) in
  (predictedDirection =? actualDirection)%Z
  || ((actualDirection =? 0)%Z && (predictedDirection =? 0)%Z).

Definition sampleStep (stats : ModelStats) (acc : Sums) (i : nat) : Sums :=
  let pred := nth i (s_predictions stats) 0 in
  let actual := nth i (s_actuals stats) 0 in
  let prevActual := nth i (s_prevActuals stats) 0 in
  let conf := nth i (s_confidences stats) 0 in
  let o := outcome pred actual prevActual in
  {| correctDirections := if o then S (correctDirections acc) else correctDirections acc;
     squaredErrorSum := squaredErrorSum acc + (actual - pred) ^ 2;
     brierScoreSum := brierScoreSum acc + (conf - (if o then 1 else 0)) ^ 2 |}.

Definition sampleLoop (stats : ModelStats) (n : nat) : Sums :=
  fold_left (sampleStep stats) (seq 0 n)
    {| correctDirections := 0; squaredErrorSum := 0; brierScoreSum := 0 |}.

Definition ofNat (n : nat) : Q := inject_Z (Z.of_nat n).

(** The normalised components of the composite score. *)
Definition normRmseOf (actualsRange rmse : Q) : Q :=
  if Qltb 0 actualsRange then 1 - Qmin 1 (rmse / actualsRange) else 0.

Definition composite (normDirAcc normRmse normConfidence brier : Q) : Q :=
  ((4 # 10) * normDirAcc + (3 # 10) * normRmse + (2 # 10) * normConfidence
   + (1 # 10) * (1 - brier)) * 100.

Section Scoring.
Variable Math_sqrt : Q -> Q.

(** One iteration of [for (const modelId of allAttemptedModels)] for a
    model with [n > 0] samples. *)
Definition benchmarkOf (totalPossibleTicks : Z) (actualsRange : Q)
    (m : string) (stats : ModelStats) : ModelBenchmark :=
  let n := List.length (s_predictions stats) in
  let sums := sampleLoop stats n in
  let directionalAccuracy := (ofNat (correctDirections sums) / ofNat n) * 100 in
  let rmse := Math_sqrt (squaredErrorSum sums / ofNat n) in
  let brierScore := brierScoreSum sums / ofNat n in
  let avgConfidence := fold_left Qplus (s_confidences stats) 0 / ofNat n * 100 in
  let normDirAcc := directionalAccuracy / 100 in
  let normRmse := normRmseOf actualsRange rmse in
  let normConfidence := avgConfidence / 100 in
  let compositeScore := composite normDirAcc normRmse normConfidence brierScore in
  {| modelId := m;
     modelName := snd (splitModelId m);
     provider := fst (splitModelId m);
     completionRate := (ofNat n / inject_Z totalPossibleTicks) * 100;
     directionalAccuracy := directionalAccuracy;
     rmse := rmse;
     brierScore := brierScore;
     avgConfidence := avgConfidence;
     compositeScore := compositeScore;
     predictions := n |}.

Definition statsOf (statsByModel : Dict ModelStats) (m : string) : ModelStats :=
  match dict_get statsByModel m with Some s => s | None => emptyStats end.

(** [maxActual - minActual] over the actuals of every model. *)
Definition actualsRangeOf (statsByModel : Dict ModelStats) : Q :=
  let allActualValues := flat_map s_actuals (dict_values statsByModel) in
  Math_max allActualValues - Math_min allActualValues.

Definition computeBenchmarks (totalPossibleTicks : Z) (statsByModel : Dict ModelStats)
    (allAttemptedModels : list string) : list ModelBenchmark :=
  let actualsRange := actualsRangeOf statsByModel in
  flat_map
    (fun m =>
       let stats := statsOf statsByModel m in
       match s_predictions stats with
       | [] => []
       | _ => [benchmarkOf totalPossibleTicks actualsRange m stats]
       end)
    allAttemptedModels.

Definition insufficientCoverage (totalPossibleTicks : Z) (bench : ModelBenchmark) : ExcludedModel
    :=
  {| ex_modelId := modelId bench;
     ex_modelName := modelName bench;
     ex_provider := provider bench;
     ex_reason := InsufficientCoverage;
     ex_message := None;
     ex_predictions := predictions bench;
     ex_totalTicks := totalPossibleTicks;
     ex_metrics := Some bench |}.

Definition failedModel (name : option string) (message : string) (totalTicks : Z)
    (m : string) : ExcludedModel :=
  {| ex_modelId := m;
     ex_modelName := name;
     ex_provider := fst (splitModelId m);
     ex_reason := Failed;
     ex_message := Some message;
     ex_predictions := 0;
     ex_totalTicks := totalTicks;
     ex_metrics := None |}.

Definition belowThreshold (bench : ModelBenchmark) : bool :=
  Qltb (completionRate bench) PARTICIPATION_THRESHOLD.

(** [topPerformers.sort((a, b) => b.compositeScore - a.compositeScore)]:
    a stable sort, here by insertion from the right. *)
Fixpoint insertDesc (x : ModelBenchmark) (l : list ModelBenchmark) : list ModelBenchmark :=
  match l with
  | [] => [x]
  | y :: r =>
      if Qltb (compositeScore x) (compositeScore y)
      then y :: insertDesc x r
      else x :: l
  end.

Definition sortDesc (l : list ModelBenchmark) : list ModelBenchmark :=
  fold_right insertDesc [] l.

Definition avg (arr : list Q) : Q :=
  match arr with
  | [] => 0
  | _ => fold_left Qplus arr 0 / ofNat (List.length arr)
  end.

Definition emptyResults : BacktestResults :=
  {| res_compositeScore := 0;
     overallDirectionalAccuracy := 0;
     overallMagnitudeRmse := 0;
     overallAvgConfidence := 0;
     topPerformers := [];
     excludedModels := [] |}.

Definition withExcluded (r : BacktestResults) (ex : list ExcludedModel) : BacktestResults :=
  {| res_compositeScore := res_compositeScore r;
     overallDirectionalAccuracy := overallDirectionalAccuracy r;
     overallMagnitudeRmse := overallMagnitudeRmse r;
     overallAvgConfidence := overallAvgConfidence r;
     topPerformers := topPerformers r;
     excludedModels := ex |}.

Definition totalTicksOf (ticks : list Tick) : Z := Z.of_nat (List.length ticks) - 1.

(** The models of [allAttemptedModels] that have no benchmark. *)
Definition failedModels (errors : Dict string) (totalPossibleTicks : Z)
    (benchmarks : list ModelBenchmark) (allAttemptedModels : list string) : list ExcludedModel :=
  flat_map
    (fun m =>
       if existsb (String.eqb m) (map modelId benchmarks) then []
       else [failedModel (snd (splitModelId m))
               (errorOr errors (snd (splitModelId m)) "Model failed to produce any valid output.")
               totalPossibleTicks m])
    allAttemptedModels.

Definition summarize (benchmarks : list ModelBenchmark) (failed : list ExcludedModel)
    (totalPossibleTicks : Z) : BacktestResults :=
  let excluded :=
    map (insufficientCoverage totalPossibleTicks) (filter belowThreshold benchmarks) ++ failed in
  let top := sortDesc (filter (fun b => negb (belowThreshold b)) benchmarks) in
  match top with
  | [] => withExcluded emptyResults excluded
  | _ =>
      {| res_compositeScore := avg (map compositeScore top);
         overallDirectionalAccuracy := avg (map directionalAccuracy top);
         overallMagnitudeRmse := avg (map rmse top);
         overallAvgConfidence := avg (map avgConfidence top);
         topPerformers := top;
         excludedModels := excluded |}
  end.

(** [None] stands for the TypeError of [collectSeries]. *)
Definition calculateAggregateScores (ticks : list Tick) (tickResults : list BacktestTickResult)
    (allAttemptedModels : list string) (errors : Dict string) : option BacktestResults :=
  match tickResults with
  | [] =>
      Some (withExcluded emptyResults
        (map (fun m =>
                let name := snd (splitModelId m) in
                failedModel
                  (Some (match name with
                         | Some s => if JsString.truthy s then s else m
                         | None => m
                         end))
                  (errorOr errors name "No successful predictions were generated.")
                  (totalTicksOf ticks) m)
             allAttemptedModels))
  | _ =>
      let totalPossibleTicks := totalTicksOf ticks in
      match collectSeries ticks 0 tickResults (initStats allAttemptedModels) with
      | None => None
      | Some statsByModel =>
          let benchmarks := computeBenchmarks totalPossibleTicks statsByModel allAttemptedModels
              in
          Some (summarize benchmarks
                  (failedModels errors totalPossibleTicks benchmarks allAttemptedModels)
                  totalPossibleTicks)
      end
  end.

End Scoring.

(** ** Simulation loop: [getForecastWithRetries] and [runBacktest] *)

Record SimulationOptions := {
  maxPredictions : nat;
  skipPredictedTicks : bool
}.

(** The fields of [Configuration] that the backtest reads. *)
Record Configuration := {
  llmSelections : Dict (list string);
  judgeModel : string;
  forecastPrompt : string;
  judgePrompt : string;
  feedbackLimit : nat;
  simulationOptions : SimulationOptions
}.

(** What a rejected promise carries: an [Error] with its message, or any
    other value with its string conversion. *)
Inductive Thrown :=
| ErrorObj (message : string)
| OtherValue (text : string).

Inductive Outcome (A : Type) :=
| Fulfilled (v : A)
| Rejected (reason : Thrown).
Arguments Fulfilled {A} v.
Arguments Rejected {A} reason.

Record PerformanceEntry := {
  pe_prediction : Q;
  pe_actual : Q;
  pe_error : Q
}.

(** Arguments of [buildForecastPrompt] and of [buildJudgePrompt]: the
    prompt text is a function of them. *)
Record ForecastRequest := {
  fq_basePrompt : string;
  fq_currentTick : Tick;
  fq_nextTickDate : string;
  fq_pastFeedback : list string;
  fq_feedbackLimit : nat
}.

Record JudgeRequest := {
  jq_basePrompt : string;
  jq_modelName : string;
  jq_tickIndex : nat;
  jq_tick : Tick;
  jq_nextTickDate : string;
  jq_forecast : ForecastResult;
  jq_actualValue : Q;
  jq_pastPerformance : list PerformanceEntry;
  jq_feedbackLimit : nat
}.

(** Observable effects of a run, in the order the orchestrating flow
    produces them: within a phase every call is issued before any settled
    result is processed. *)
Inductive Event :=
| ForecastCall (tick slot : nat) (m : string) (attempt : nat)
| RetrySleep (tick slot : nat) (m : string) (attempts : nat) (delay : Q)
| ForecastFailed (tick : nat) (m : string) (errorMessage : string)
| JudgeCall (tick : nat) (m : string)
| EvaluationFailed (tick : nat) (m : string) (errorMessage : string)
| LoopEnded (tick : nat).

Definition tickOf (e : Event) : nat :=
  match e with
  | ForecastCall t _ _ _ | RetrySleep t _ _ _ _ | ForecastFailed t _ _
  | JudgeCall t _ | EvaluationFailed t _ _ | LoopEnded t => t
  end.

Definition isForecastCallFor (m : string) (e : Event) : bool :=
  match e with ForecastCall _ _ m' _ => String.eqb m' m | _ => false end.

Definition isJudgeCallFor (m : string) (e : Event) : bool :=
  match e with JudgeCall _ m' => String.eqb m' m | _ => false end.

Definition isForecastCall (e : Event) : bool :=
  match e with ForecastCall _ _ _ _ => true | _ => false end.

Record RunState := {
  modelFeedbackHistory : Dict (list string);
  modelPerformanceHistory : Dict (list PerformanceEntry);
  tickResults : list BacktestTickResult;
  persistentModelErrors : Dict string;
  trace : list Event
}.

(** Results of [Promise.all] over a phase. *)
Inductive Settled (A : Type) :=
| SSkipped (m : string)
| SFulfilled (m : string) (v : A)
| SRejected (m : string) (reason : Thrown).
Arguments SSkipped {A} m.
Arguments SFulfilled {A} m v.
Arguments SRejected {A} m reason.

Inductive Flow := Continue | Break.

Definition maxRetries : nat := 3.

Definition thrownText (e : Thrown) : string :=
  match e with ErrorObj msg => msg | OtherValue t => t end.

Definition isRetryable (e : Thrown) : bool :=
  let errorMessage := JsString.toLowerCase (thrownText e) in
  JsString.includes errorMessage "rate limit"
  || JsString.includes errorMessage "500"
  || JsString.includes errorMessage "502"
  || JsString.includes errorMessage "503"
  || JsString.includes errorMessage "504"
  || JsString.includes errorMessage "overloaded".

(** [Math.pow(2, attempts) * 1000 + Math.random() * 1000], milliseconds. *)
Definition backoffDelay (attempts : nat) (random : Q) : Q :=
  2 ^ Z.of_nat attempts * 1000 + random * 1000.

(** [arr.slice(-limit)]: [-0] is [0], so a limit of zero keeps the whole
    array. *)
Definition sliceLast (A : Type) (limit : nat) (arr : list A) : list A :=
  match limit with
  | O => arr
  | _ => skipn (List.length arr - limit) arr
  end.

Definition historyOf (A : Type) (d : Dict (list A)) (m : string) : list A :=
  match dict_get d m with Some l => l | None => [] end.

(** [if (persistentModelErrors[modelId])] *)
Definition hasError (errors : Dict string) (m : string) : bool :=
  match dict_get errors m with
  | Some e => JsString.truthy e
  | None => false
  end.

(** [if (!persistentModelErrors[id]) persistentModelErrors[id] = msg] *)
Definition recordError (errors : Dict string) (m msg : string) : Dict string :=
  if hasError errors m then errors else dict_set errors m msg.

(** [errorMessage.replace(`[${modelId.split('::')[1]}]`, '').trim()] *)
Definition cleanMessage (m errorMessage : string) : string :=
  JsString.trim
    (JsString.removeFirst ("[" ++ keyOf (snd (splitModelId m)) ++ "]")%string errorMessage).

Definition forecastErrorMessage (reason : Thrown) : string :=
  match reason with ErrorObj msg => msg | OtherValue _ => "Unknown forecast error" end.

Definition evaluationErrorMessage (reason : Thrown) : string :=
  match reason with ErrorObj msg => msg | OtherValue _ => "Unknown evaluation error" end.

Definition forecasterModelsOf (config : Configuration) : list string :=
  flat_map
    (fun entry : string * list string =>
       map (fun model => (fst entry ++ "::" ++ model)%string) (snd entry))
    (llmSelections config).

Definition formatErrors (persistent : Dict string) : Dict string :=
  fold_left
    (fun d (entry : string * string) =>
       dict_set d (keyOf (snd (splitModelId (fst entry)))) (snd entry))
    persistent [].

Section Simulation.
Variable Math_sqrt : Q -> Q.

(** [generateJsonContent] as called for a forecaster (tick, slot,
    number of earlier attempts) and for the judge (tick, judge model). *)
Variable generateForecast :
  nat -> nat -> nat -> ForecastRequest -> string -> Outcome ForecastResult.
Variable generateJudgement : nat -> JudgeRequest -> string -> Outcome JudgeResult.

(** [Math.random()] as drawn for a retry of the given call. *)
Variable Math_random : nat -> nat -> nat -> Q.

Section Retry.
Variables (tick slot : nat) (prompt : ForecastRequest) (m : string).

Definition maxRetriesExceeded : Outcome ForecastResult :=
  Rejected (ErrorObj ("Max retries exceeded for " ++ m)%string).

(** The [while (attempts < maxRetries)] loop; [fuel] bounds the
    iterations left. *)
Fixpoint retryLoop (fuel attempts : nat) : Outcome ForecastResult * list Event :=
  match fuel with
  | O => (maxRetriesExceeded, [])
  | S fuel' =>
      if (attempts <? maxRetries)%nat then
        match generateForecast tick slot attempts prompt m with
        | Fulfilled v => (Fulfilled v, [ForecastCall tick slot m attempts])
        | Rejected error =>
            if isRetryable error && (attempts <? maxRetries - 1)%nat then
              let attempts' := S attempts in
              let delay := backoffDelay attempts' (Math_random tick slot attempts) in
              let (r, evs) := retryLoop fuel' attempts' in
              (r, ForecastCall tick slot m attempts
                    :: RetrySleep tick slot m attempts' delay :: evs)
            else (Rejected error, [ForecastCall tick slot m attempts])
        end
      else (maxRetriesExceeded, [])
  end.

Definition getForecastWithRetries : Outcome ForecastResult * list Event :=
  retryLoop maxRetries 0.

(** The trace of [n] failed attempts, each followed by its back-off,
    starting with attempt number [first]. *)
Definition retryEvents (first n : nat) : list Event :=
  flat_map
    (fun a =>
       [ForecastCall tick slot m a;
        RetrySleep tick slot m (S a) (backoffDelay (S a) (Math_random tick slot a))])
    (seq first n).
End Retry.

Section Tick.
Variables (config : Configuration) (forecasterModels : list string).
Variables (i : nat) (currentTick nextTick : Tick).

(** One element of [forecastPromises]; the error map is the one at
    the start of the tick. *)
Definition forecastPromise (st : RunState) (slot : nat) (m : string)
    : Settled ForecastResult * list Event :=
  if hasError (persistentModelErrors st) m then (SSkipped m, [])
  else
    let pastFeedback :=
      sliceLast (feedbackLimit config) (historyOf (modelFeedbackHistory st) m) in
    let prompt :=
      {| fq_basePrompt := forecastPrompt config;
         fq_currentTick := currentTick;
         fq_nextTickDate := date nextTick;
         fq_pastFeedback := pastFeedback;
         fq_feedbackLimit := feedbackLimit config |} in
    match getForecastWithRetries i slot prompt m with
    | (Fulfilled v, evs) => (SFulfilled m v, evs)
    | (Rejected reason, evs) => (SRejected m reason, evs)
    end.

Fixpoint forecastPromises (st : RunState) (slot : nat) (models : list string)
    : list (Settled ForecastResult) * list Event :=
  match models with
  | [] => ([], [])
  | m :: rest =>
      let (r, evs) := forecastPromise st slot m in
      let (rs, evs') := forecastPromises st (S slot) rest in
      (r :: rs, evs ++ evs')
  end.

(** [for (const result of forecastSettledResults)] *)
Definition settleForecast
    (acc : Dict ForecastResult * Dict string * list Event)
    (result : Settled ForecastResult)
    : Dict ForecastResult * Dict string * list Event :=
  let '(tickForecasts, errors, evs) := acc in
  match result with
  | SFulfilled m v => (dict_set tickForecasts m v, errors, evs)
  | SRejected m reason =>
      let errorMessage := forecastErrorMessage reason in
      (tickForecasts,
       recordError errors m (cleanMessage m errorMessage),
       evs ++ [ForecastFailed i m errorMessage])
  | SSkipped _ => acc
  end.

(** One element of [evaluationPromises]. *)
Definition evaluationPromise (st : RunState) (actualValue : Q)
    (entry : string * ForecastResult) : Settled JudgeResult * list Event :=
  let (m, forecast) := entry in
  let pastPerformance :=
    sliceLast (feedbackLimit config) (historyOf (modelPerformanceHistory st) m) in
  let prompt :=
    {| jq_basePrompt := judgePrompt config;
       jq_modelName := m;
       jq_tickIndex := i + 1;
       jq_tick := currentTick;
       jq_nextTickDate := date nextTick;
       jq_forecast := forecast;
       jq_actualValue := actualValue;
       jq_pastPerformance := pastPerformance;
       jq_feedbackLimit := feedbackLimit config |} in
  match generateJudgement i prompt (judgeModel config) with
  | Fulfilled v => (SFulfilled m v, [JudgeCall i m])
  | Rejected reason => (SRejected m reason, [JudgeCall i m])
  end.

(** State threaded through [for (const result of evaluationSettledResults)]. *)
Record EvalAcc := {
  ea_evaluations : Dict JudgeResult;
  ea_feedback : Dict (list string);
  ea_performance : Dict (list PerformanceEntry);
  ea_errors : Dict string;
  ea_events : list Event
}.

Definition settleEvaluation (successfulForecasts : Dict ForecastResult) (actualValue : Q)
    (acc : EvalAcc) (result : Settled JudgeResult) : EvalAcc :=
  match result with
  | SFulfilled m v =>
      let predicted :=
        match dict_get successfulForecasts m with
        | Some f => prediction f
        | None => 0
        end in
      {| ea_evaluations := dict_set (ea_evaluations acc) m v;
         ea_feedback :=
           dict_set (ea_feedback acc) m (historyOf (ea_feedback acc) m ++ [feedback v]);
         ea_performance :=
           dict_set (ea_performance acc) m
             (historyOf (ea_performance acc) m
              ++ [{| pe_prediction := predicted;
                     pe_actual := actualValue;
                     pe_error := jr_error v |}]);
         ea_errors := ea_errors acc;
         ea_events := ea_events acc |}
  | SRejected m reason =>
      let errorMessage := evaluationErrorMessage reason in
      {| ea_evaluations := ea_evaluations acc;
         ea_feedback := ea_feedback acc;
         ea_performance := ea_performance acc;
         ea_errors :=
           recordError (ea_errors acc) m ("Evaluation failed: " ++ errorMessage)%string;
         ea_events := ea_events acc ++ [EvaluationFailed i m errorMessage] |}
  | SSkipped _ => acc
  end.

(** The forecast step of the loop body: the state after it and this
    tick's forecast map. *)
Definition forecastPhase (st : RunState) : RunState * Dict ForecastResult :=
  let (settled, calls) := forecastPromises st 0 forecasterModels in
  let '(tickForecasts, errors, logs) :=
    fold_left settleForecast settled ([], persistentModelErrors st, []) in
  ({| modelFeedbackHistory := modelFeedbackHistory st;
      modelPerformanceHistory := modelPerformanceHistory st;
      tickResults := tickResults st;
      persistentModelErrors := errors;
      trace := trace st ++ calls ++ logs |},
   tickForecasts).

(** The evaluation step and the commit of the tick result. *)
Definition evaluationPhase (st : RunState) (tickForecasts : Dict ForecastResult)
    (actualValue : Q) : RunState :=
  let promises := map (evaluationPromise st actualValue) tickForecasts in
  let settled := map fst promises in
  let calls := flat_map snd promises in
  let acc :=
    fold_left (settleEvaluation tickForecasts actualValue) settled
      {| ea_evaluations := [];
         ea_feedback := modelFeedbackHistory st;
         ea_performance := modelPerformanceHistory st;
         ea_errors := persistentModelErrors st;
         ea_events := [] |} in
  {| modelFeedbackHistory := ea_feedback acc;
     modelPerformanceHistory := ea_performance acc;
     tickResults :=
       match ea_evaluations acc with
       | [] => tickResults st
       | _ =>
           tickResults st
           ++ [{| tickIndex := i;
                  tickData := currentTick;
                  forecasts := tickForecasts;
                  evaluations := ea_evaluations acc |}]
       end;
     persistentModelErrors := ea_errors acc;
     trace := trace st ++ calls ++ ea_events acc |}.
End Tick.

Definition logEnding (i : nat) (st : RunState) : RunState :=
  {| modelFeedbackHistory := modelFeedbackHistory st;
     modelPerformanceHistory := modelPerformanceHistory st;
     tickResults := tickResults st;
     persistentModelErrors := persistentModelErrors st;
     trace := trace st ++ [LoopEnded i] |}.

(** The body of [for (let i = 0; i < maxTicksToProcess; i++)]. *)
Definition processTick (config : Configuration) (forecasterModels : list string)
    (ticks : list Tick) (i : nat) (st : RunState) : Flow * RunState :=
  match nth_error ticks i, nth_error ticks (i + 1) with
  | Some currentTick, Some nextTick =>
      let (st1, tickForecasts) :=
        forecastPhase config forecasterModels i currentTick nextTick st in
      match value (primary nextTick) with
      | None => (Break, logEnding i st1)
      | Some actualValue =>
          (Continue,
           evaluationPhase config i currentTick nextTick st1 tickForecasts actualValue)
      end
  | _, _ => (Break, st)
  end.

Fixpoint forLoop (config : Configuration) (forecasterModels : list string)
    (ticks : list Tick) (n i : nat) (st : RunState) : RunState :=
  match n with
  | O => st
  | S n' =>
      match processTick config forecasterModels ticks i st with
      | (Break, st') => st'
      | (Continue, st') => forLoop config forecasterModels ticks n' (S i) st'
      end
  end.

Definition initialState (forecasterModels : list string) : RunState :=
  {| modelFeedbackHistory := fold_left (fun d m => dict_set d m []) forecasterModels [];
     modelPerformanceHistory := fold_left (fun d m => dict_set d m []) forecasterModels [];
     tickResults := [];
     persistentModelErrors := [];
     trace := [] |}.

Definition maxTicksToProcess (config : Configuration) (ticks : list Tick) : nat :=
  Nat.min (List.length ticks - 1) (maxPredictions (simulationOptions config)).

(** The state of the run once the loop has gone through at most [k]
    iterations. *)
Definition progress (config : Configuration) (ticks : list Tick) (k : nat) : RunState :=
  forLoop config (forecasterModelsOf config) ticks k 0
    (initialState (forecasterModelsOf config)).

(** The state in which [runBacktest] leaves its loop. *)
Definition simulate (config : Configuration) (ticks : list Tick) : RunState :=
  progress config ticks (maxTicksToProcess config ticks).

Inductive RunResult :=
| Threw (message : string)
| Returned (results : BacktestResults) (results_ticks : list BacktestTickResult).

Definition runBacktest (config : Configuration) (ticks : list Tick) : RunResult :=
  let forecasterModels := forecasterModelsOf config in
  if negb (JsString.truthy (judgeModel config))
  then Threw "A judge model must be selected to run a backtest."
  else if (List.length forecasterModels =? 0)%nat
  then Threw "At least one forecaster model must be selected."
  else if (List.length ticks <? 2)%nat
  then Threw "At least two data ticks are required to run a backtest."
  else
    let st := simulate config ticks in
    match calculateAggregateScores Math_sqrt ticks (tickResults st) forecasterModels
            (formatErrors (persistentModelErrors st)) with
    | Some results => Returned results (tickResults st)
    | None => Threw "TypeError"
    end.

End Simulation.

(** ** The scoring engine over a heap

    The four arguments of [calculateAggregateScores] are JavaScript
    objects that the caller keeps using, and the engine works by
    mutation: it assigns to a field of [emptyResults], fills
    [statsByModel], pushes to [benchmarks], [topPerformers] and
    [excludedModels] and sorts [topPerformers] in place.  Here every
    object lives at an address of a heap, the arguments are addresses,
    and every statement that reads or writes an object is a read or a
    write of the heap.  An array or a record is one cell; an array that
    is built and never touched again ([Object.entries], [new Set]) is a
    value of its own. *)

Inductive Cell :=
| TicksArray (v : list Tick)
| TickResultsArray (v : list BacktestTickResult)
| ModelsArray (v : list string)
| ErrorsRecord (v : Dict string)
| StatsRecord (v : Dict ModelStats)
| BenchmarksArray (v : list ModelBenchmark)
| ExcludedArray (v : list ExcludedModel)
| ResultsObject (v : BacktestResults).

Definition Heap := list Cell.

(** A computation returns a value, or [None] when it throws, and the
    heap it leaves behind. *)
Definition Eff (A : Type) : Type := Heap -> option A * Heap.

Definition eret (A : Type) (a : A) : Eff A := fun h => (Some a, h).

Definition ebind (A B : Type) (c : Eff A) (k : A -> Eff B) : Eff B :=
  fun h =>
    match c h with
    | (Some a, h') => k a h'
    | (None, h') => (None, h')
    end.

Definition ethrow (A : Type) : Eff A := fun h => (None, h).

Notation "x <- c ;; k" := (ebind c (fun x => k))
  (at level 61, c at next level, right associativity).

(** A new object gets the next free address. *)
Definition alloc (c : Cell) : Eff nat := fun h => (Some (List.length h), h ++ [c]).

Definition load (a : nat) : Eff Cell :=
  fun h =>
    match nth_error h a with
    | Some c => (Some c, h)
    | None => (None, h)
    end.

Definition update (a : nat) (c : Cell) (h : Heap) : Heap :=
  firstn a h ++ c :: skipn (S a) h.

Definition store (a : nat) (c : Cell) : Eff unit :=
  fun h => if (a <? List.length h)%nat then (Some tt, update a c h) else (None, h).

Definition asTicks (c : Cell) : option (list Tick) :=
  match c with TicksArray v => Some v | _ => None end.
Definition asTickResults (c : Cell) : option (list BacktestTickResult) :=
  match c with TickResultsArray v => Some v | _ => None end.
Definition asModels (c : Cell) : option (list string) :=
  match c with ModelsArray v => Some v | _ => None end.
Definition asErrors (c : Cell) : option (Dict string) :=
  match c with ErrorsRecord v => Some v | _ => None end.
Definition asStats (c : Cell) : option (Dict ModelStats) :=
  match c with StatsRecord v => Some v | _ => None end.
Definition asBenchmarks (c : Cell) : option (list ModelBenchmark) :=
  match c with BenchmarksArray v => Some v | _ => None end.
Definition asExcluded (c : Cell) : option (list ExcludedModel) :=
  match c with ExcludedArray v => Some v | _ => None end.
Definition asResults (c : Cell) : option BacktestResults :=
  match c with ResultsObject v => Some v | _ => None end.

(** The object at an address, read at the type the code uses it at. *)
Definition read (A : Type) (as_ : Cell -> option A) (a : nat) : Eff A :=
  c <- load a ;;
  match as_ c with
  | Some v => eret v
  | None => ethrow _
  end.

(** [arr[i]] where the element must exist. *)
Definition element (A : Type) (as_ : Cell -> option (list A)) (a i : nat) : Eff A :=
  l <- read as_ a ;;
  match nth_error l i with
  | Some x => eret x
  | None => ethrow _
  end.

Definition lengthOf (A : Type) (as_ : Cell -> option (list A)) (a : nat) : Eff nat :=
  l <- read as_ a ;; eret (List.length l).

(** A loop over the indices below a bound that is evaluated again
    before every pass; [fuel] bounds the passes. *)
Fixpoint eloop (fuel : nat) (bound : Eff nat) (body : nat -> Eff unit) (i : nat) : Eff unit :=
  match fuel with
  | O => ethrow _
  | S fuel' =>
      n <- bound ;;
      if (i <? n)%nat then _ <- body i ;; eloop fuel' bound body (S i) else eret tt
  end.

(** [arr.forEach(step)]: the range is fixed before the first call, the
    elements are read as the loop reaches them. *)
Definition forEach (A : Type) (as_ : Cell -> option (list A)) (a : nat)
    (step : A -> Eff unit) : Eff unit :=
  n <- lengthOf as_ a ;;
  eloop (S n) (eret n) (fun i => x <- element as_ a i ;; step x) 0.

(** [for (const x of arr)]: the length is read again on every pass. *)
Definition forOf (A : Type) (as_ : Cell -> option (list A)) (a : nat)
    (step : A -> Eff unit) : Eff unit :=
  n <- lengthOf as_ a ;;
  eloop (S n) (lengthOf as_ a) (fun i => x <- element as_ a i ;; step x) 0.

(** A loop over a list that is a value of its own, as the array that
    [Object.entries] builds. *)
Fixpoint efold (A : Type) (step : A -> Eff unit) (l : list A) : Eff unit :=
  match l with
  | [] => eret tt
  | x :: r => _ <- step x ;; efold step r
  end.

(** [arr.push(x)] *)
Definition pushBenchmark (a : nat) (x : ModelBenchmark) : Eff unit :=
  l <- read asBenchmarks a ;; store a (BenchmarksArray (l ++ [x])).
Definition pushExcluded (a : nat) (x : ExcludedModel) : Eff unit :=
  l <- read asExcluded a ;; store a (ExcludedArray (l ++ [x])).

Section ScoringOverHeap.
Variable Math_sqrt : Q -> Q.
(** The addresses of the four arguments. *)
Variables (ticks tickResults allAttemptedModels errors : nat).

(** [ticks.length - 1] *)
Definition totalTicksH : Eff Z :=
  n <- lengthOf asTicks ticks ;; eret (Z.of_nat n - 1)%Z.

(** [errors[modelName] || fallback] *)
Definition errorsOr (name : option string) (fallback : string) : Eff string :=
  d <- read asErrors errors ;; eret (errorOr d name fallback).

(** [ticks[i].primary.value]: throws when [ticks[i]] is undefined. *)
Definition ticks_primary_value (i : nat) : Eff (option Q) :=
  t <- element asTicks ticks i ;; eret (value (primary t)).

(** [ticks[i + 1]?.primary.value] *)
Definition ticks_next_value (i : nat) : Eff (option Q) :=
  l <- read asTicks ticks ;; eret (nextValue l i).

(** The body of [for (let i = 0; i < tickResults.length; i++)]. *)
Definition collectStepH (statsByModel : nat) (i : nat) : Eff unit :=
  result <- element asTickResults tickResults i ;;
  prevActual <- ticks_primary_value i ;;
  currentActual <- ticks_next_value i ;;
  match prevActual, currentActual with
  | Some p, Some a =>
      efold
        (fun entry =>
           d <- read asStats statsByModel ;;
           store statsByModel (StatsRecord (pushSample a p d entry)))
        (forecasts result)
  | _, _ => eret tt
  end.

(** The return path of [if (tickResults.length === 0)]. *)
Definition emptyPathH (emptyResults_ : nat) : Eff BacktestResults :=
  mapped <- alloc (ExcludedArray []) ;;
  _ <- forEach asModels allAttemptedModels
         (fun m =>
            let name := snd (splitModelId m) in
            message <- errorsOr name "No successful predictions were generated." ;;
            total <- totalTicksH ;;
            pushExcluded mapped
              (failedModel
                 (Some (match name with
                        | Some s => if JsString.truthy s then s else m
                        | None => m
                        end))
                 message total m)) ;;
  excluded <- read asExcluded mapped ;;
  r <- read asResults emptyResults_ ;;
  _ <- store emptyResults_ (ResultsObject (withExcluded r excluded)) ;;
  read asResults emptyResults_.

Definition calculateAggregateScoresH : Eff BacktestResults :=
  emptyResults_ <- alloc (ResultsObject emptyResults) ;;
  len <- lengthOf asTickResults tickResults ;;
  if (len =? 0)%nat then emptyPathH emptyResults_
  else
    totalPossibleTicks <- totalTicksH ;;
    statsByModel <- alloc (StatsRecord []) ;;
    _ <- forEach asModels allAttemptedModels
           (fun m =>
              d <- read asStats statsByModel ;;
              store statsByModel (StatsRecord (dict_set d m emptyStats))) ;;
    n <- lengthOf asTickResults tickResults ;;
    _ <- eloop (S n) (lengthOf asTickResults tickResults) (collectStepH statsByModel) 0 ;;
    d <- read asStats statsByModel ;;
    let actualsRange := actualsRangeOf d in
    benchmarks <- alloc (BenchmarksArray []) ;;
    _ <- forOf asModels allAttemptedModels
           (fun m =>
              d <- read asStats statsByModel ;;
              let stats := statsOf d m in
              match s_predictions stats with
              | [] => eret tt
              | _ =>
                  pushBenchmark benchmarks
                    (benchmarkOf Math_sqrt totalPossibleTicks actualsRange m stats)
              end) ;;
    topPerformers_ <- alloc (BenchmarksArray []) ;;
    excludedModels_ <- alloc (ExcludedArray []) ;;
    _ <- forEach asBenchmarks benchmarks
           (fun bench =>
              if belowThreshold bench
              then pushExcluded excludedModels_ (insufficientCoverage totalPossibleTicks bench)
              else pushBenchmark topPerformers_ bench) ;;
    bs <- read asBenchmarks benchmarks ;;
    let benchmarkedModels := map modelId bs in
    _ <- forEach asModels allAttemptedModels
           (fun m =>
              if existsb (String.eqb m) benchmarkedModels then eret tt
              else
                message <- errorsOr (snd (splitModelId m))
                             "Model failed to produce any valid output." ;;
                pushExcluded excludedModels_
                  (failedModel (snd (splitModelId m)) message totalPossibleTicks m)) ;;
    top <- read asBenchmarks topPerformers_ ;;
    _ <- store topPerformers_ (BenchmarksArray (sortDesc top)) ;;
    top <- read asBenchmarks topPerformers_ ;;
    excluded <- read asExcluded excludedModels_ ;;
    match top with
    | [] => r <- read asResults emptyResults_ ;; eret (withExcluded r excluded)
    | _ =>
        eret
          {| res_compositeScore := avg (map compositeScore top);
             overallDirectionalAccuracy := avg (map directionalAccuracy top);
             overallMagnitudeRmse := avg (map rmse top);
             overallAvgConfidence := avg (map avgConfidence top);
             topPerformers := top;
             excludedModels := excluded |}
    end.
End ScoringOverHeap.

(** ** Reference series for the extraction step *)

(** One collected sample: [(prediction, confidence, actualNext, actualPrev)]. *)
Record Sample := {
  sm_prediction : Q;
  sm_confidence : Q;
  sm_actualNext : Q;
  sm_actualPrev : Q
}.

Definition appendSamples (s : ModelStats) (l : list Sample) : ModelStats :=
  {| s_predictions := s_predictions s ++ map sm_prediction l;
     s_confidences := s_confidences s ++ map sm_confidence l;
     s_actuals := s_actuals s ++ map sm_actualNext l;
     s_prevActuals := s_prevActuals s ++ map sm_actualPrev l |}.

(** The samples that the forecasts of one tick result give model [m],
    for given previous and next actual values. *)
Definition samplesFor (m : string) (prev next : option Q)
    (entries : Dict ForecastResult) : list Sample :=
  match prev, next with
  | Some p, Some a =>
      flat_map
        (fun entry : string * ForecastResult =>
           if String.eqb (fst entry) m
           then [{| sm_prediction := prediction (snd entry);
                    sm_confidence := confidence (snd entry);
                    sm_actualNext := a;
                    sm_actualPrev := p |}]
           else [])
        entries
  | _, _ => []
  end.

(** The series of [m] when every tick result is scored against the tick
    it records: previous actual from its own [tickData], next actual from
    the tick at [tickIndex + 1]. *)
Definition seriesByTickIndex (ticks : list Tick) (m : string)
    (results : list BacktestTickResult) : list Sample :=
  flat_map
    (fun r => samplesFor m (value (primary (tickData r))) (nextValue ticks (tickIndex r))
                (forecasts r))
    results.

(** The series of [m] when the result stored at list position [i] is
    scored against [ticks[i]] and [ticks[i + 1]]. *)
Fixpoint seriesByPosition (ticks : list Tick) (m : string) (i : nat)
    (results : list BacktestTickResult) : list Sample :=
  match results with
  | [] => []
  | r :: rest =>
      samplesFor m
        (match nth_error ticks i with Some t => value (primary t) | None => None end)
        (nextValue ticks i) (forecasts r)
      ++ seriesByPosition ticks m (S i) rest
  end.

(** A tick result sits at the list position of the tick it records. *)
Definition alignedAt (ticks : list Tick) (i : nat) (r : BacktestTickResult) : Prop :=
  tickIndex r = i /\ nth_error ticks i = Some (tickData r).

Fixpoint aligned (ticks : list Tick) (i : nat) (results : list BacktestTickResult) : Prop :=
  match results with
  | [] => True
  | r :: rest => alignedAt ticks i r /\ aligned ticks (S i) rest
  end.

(** A benchmark that the result reports: a top performer, or a model
    excluded for insufficient coverage together with its metrics. *)
Definition reported (res : BacktestResults) (b : ModelBenchmark) : Prop :=
  In b (topPerformers res)
  \/ exists e, In e (excludedModels res)
               /\ ex_reason e = InsufficientCoverage /\ ex_metrics e = Some b.

(** ** Concrete runs used to exercise the statements *)

Module Scenario.

Definition tickOn (d : string) (v : option Q) : Tick :=
  {| date := d; country := "United States"; indicator := "GDP Growth Rate";
     primary := {| obs_title := "GDP Growth Rate"; value := v; obs_unit := "percent" |};
     peers := [] |}.

Definition forecastOf (p c : Q) : ForecastResult :=
  {| prediction := p; fc_unit := "percent"; rationale := "trend"; confidence := c |}.

Definition verdict (a e : Q) : JudgeResult :=
  {| accuracy := a; jr_error := e; feedback := "noted" |}.

(** A rational square root, exact to six decimals. *)
Definition sqrtApprox (q : Q) : Q :=
  inject_Z (Z.sqrt (Qnum q * 1000000000000 / Zpos (Qden q))) / 1000000.

Definition alpha : string := "OpenRouter::alpha".
Definition beta : string := "OpenRouter::beta".

Definition t0 := tickOn "2024-01-01" (Some 100).
Definition t1 := tickOn "2024-04-01" (Some 110).
Definition t2 := tickOn "2024-07-01" (Some 105).
Definition tNull := tickOn "2024-07-01" None.

(** Three ticks, every one with a value; [alpha] forecast on both
    steps and was evaluated on both. *)
Definition ticks3 : list Tick := [t0; t1; t2].

Definition result0 : BacktestTickResult :=
  {| tickIndex := 0; tickData := t0;
     forecasts := [(alpha, forecastOf 105 (8 # 10))];
     evaluations := [(alpha, verdict (5 # 10) 5)] |}.

Definition result1 : BacktestTickResult :=
  {| tickIndex := 1; tickData := t1;
     forecasts := [(alpha, forecastOf 108 (6 # 10))];
     evaluations := [(alpha, verdict (7 # 10) 3)] |}.

Definition results3 : list BacktestTickResult := [result0; result1].

(** The same ticks when nothing was committed for tick 0: the only
    tick result records tick 1 and sits at list position 0. *)
Definition resultsLate : list BacktestTickResult := [result1].

(** Three ticks where the first value is missing: tick 0 is forecast
    and judged against tick 1, and its tick result has no previous
    actual. *)
Definition tMissing := tickOn "2024-01-01" None.
Definition ticksOpen : list Tick := [tMissing; t1; t2].

Definition resultOpen : BacktestTickResult :=
  {| tickIndex := 0; tickData := tMissing;
     forecasts := [(alpha, forecastOf 105 (8 # 10))];
     evaluations := [(alpha, verdict (5 # 10) 5)] |}.

Definition resultsOpen : list BacktestTickResult := [resultOpen; result1].


(** Six ticks and a model with a sample on four of the five steps. *)
Definition steady (i : nat) (t : Tick) : BacktestTickResult :=
  {| tickIndex := i; tickData := t;
     forecasts := [(alpha, forecastOf 105 (8 # 10))];
     evaluations := [(alpha, verdict (5 # 10) 5)] |}.

Definition ticks6 : list Tick := [t0; t1; t2; t1; t0; t2].
Definition results4 : list BacktestTickResult :=
  [steady 0 t0; steady 1 t1; steady 2 t2; steady 3 t1].

End Scenario.

(** The tick results that the extraction step passes over, read against
    the tick each of them records. *)
Definition isSkipped (ticks : list Tick) (r : BacktestTickResult) : bool :=
  match value (primary (tickData r)), nextValue ticks (tickIndex r) with
  | Some _, Some _ => false
  | _, _ => true
  end.

(** A completion-rate denominator that leaves the skipped tick results
    out, as the design document words it. *)
Definition denominatorWithoutSkipped (ticks : list Tick)
    (results : list BacktestTickResult) : Z :=
  totalTicksOf ticks - Z.of_nat (List.length (filter (isSkipped ticks) results)).

Definition summaryIsZero (res : BacktestResults) : Prop :=
  res_compositeScore res = 0 /\ overallDirectionalAccuracy res = 0
  /\ overallMagnitudeRmse res = 0 /\ overallAvgConfidence res = 0.

Module Report.
Import Scenario.

Definition orEmpty (r : option BacktestResults) : BacktestResults :=
  match r with Some res => res | None => emptyResults end.

Definition firstBenchmark (l : list ModelBenchmark) : ModelBenchmark :=
  hd {| modelId := ""; modelName := None; provider := ""; completionRate := 0;
        directionalAccuracy := 0; rmse := 0; brierScore := 0; avgConfidence := 0;
        compositeScore := 0; predictions := 0 |} l.

Definition metricsOf (l : list ExcludedModel) : list ModelBenchmark :=
  flat_map (fun e => match ex_metrics e with Some b => [b] | None => [] end) l.

Definition report3 := orEmpty (calculateAggregateScores sqrtApprox ticks3 results3 [alpha] []).
Definition bench3 := firstBenchmark (topPerformers report3).

Definition reportOpen :=
  orEmpty (calculateAggregateScores sqrtApprox ticksOpen resultsOpen [alpha] []).
Definition benchOpen := firstBenchmark (metricsOf (excludedModels reportOpen)).

Definition report80 :=
  orEmpty (calculateAggregateScores sqrtApprox ticks6 results4 [alpha] []).
Definition bench80 := firstBenchmark (topPerformers report80).
Definition stats80 : Dict ModelStats :=
  match collectSeries ticks6 0 results4 (initStats [alpha]) with
  | Some s => s
  | None => []
  end.


Definition reportNone :=
  orEmpty (calculateAggregateScores sqrtApprox ticks3 [] [alpha; beta] []).
(** A heap that holds the arguments of the first report. *)
Definition heap3 : Heap :=
[TicksArray ticks3; TickResultsArray results3; ModelsArray [alpha]; ErrorsRecord []].
End Report.

(** Oracles and configurations for concrete runs. *)
Module Run.
Import Scenario.

Definition config2 : Configuration :=
  {| llmSelections := [("OpenRouter", ["alpha"; "beta"])];
     judgeModel := "OpenRouter::judge";
     forecastPrompt := "Forecast [INDICATOR] for [COUNTRY] on [NEXT_DATE].";
     judgePrompt := "Score [MODEL_NAME]: [PREDICTION] against [ACTUAL_VALUE].";
     feedbackLimit := 3;
     simulationOptions := {| maxPredictions := 10; skipPredictedTicks := false |} |}.

(** Five ticks; the value of the tick at index 3 is missing. *)
Definition ticks5 : list Tick := [t0; t1; t2; tNull; t1].

Definition steadyForecaster (tick slot attempt : nat) (prompt : ForecastRequest)
    (m : string) : Outcome ForecastResult :=
  Fulfilled (forecastOf 105 (8 # 10)).

Definition fairJudge (tick : nat) (prompt : JudgeRequest) (judge : string)
    : Outcome JudgeResult :=
  Fulfilled (verdict (5 # 10) 5).

Definition halfJitter (tick slot attempt : nat) : Q := 1 # 2.

(** [beta] is refused by its provider on every call. *)
Definition lockedOut (tick slot attempt : nat) (prompt : ForecastRequest)
    (m : string) : Outcome ForecastResult :=
  if String.eqb m beta
  then Rejected (ErrorObj "[beta] Invalid API Key provided for OpenRouter.")
  else Fulfilled (forecastOf 105 (8 # 10)).


(** The same failure with a no-break space (U+00A0) after the tag. *)
Definition noBreakFailure (tick slot attempt : nat) (prompt : ForecastRequest)
  (m : string) : Outcome ForecastResult :=
if String.eqb m beta && (tick =? 0)%nat
then Rejected (ErrorObj ("[beta]" ++ JsString.ofBytes [194; 160]%nat))
else Fulfilled (forecastOf 105 (8 # 10)).

(** A single forecaster, which fails on tick 0 with nothing but its
  tag. *)
Definition config1 : Configuration :=
{| llmSelections := [("OpenRouter", ["alpha"])];
   judgeModel := "OpenRouter::judge";
   forecastPrompt := "Forecast [INDICATOR] for [COUNTRY] on [NEXT_DATE].";
   judgePrompt := "Score [MODEL_NAME]: [PREDICTION] against [ACTUAL_VALUE].";
   feedbackLimit := 3;
   simulationOptions := {| maxPredictions := 10; skipPredictedTicks := false |} |}.

Definition lateStart (tick slot attempt : nat) (prompt : ForecastRequest)
  (m : string) : Outcome ForecastResult :=
if (tick =? 0)%nat
then Rejected (ErrorObj "[alpha] ")
else Fulfilled (forecastOf 105 (8 # 10)).

(** The provider is rate limited on the first two attempts of a call. *)
Definition busyForecaster (tick slot attempt : nat) (prompt : ForecastRequest)
    (m : string) : Outcome ForecastResult :=
  if (attempt <? 2)%nat
  then Rejected (ErrorObj "[alpha] Rate limit hit for this model. Please retry shortly.")
  else Fulfilled (forecastOf 105 (8 # 10)).

(** The judge answers with text that is not JSON whenever it scores
    [beta]. *)
Definition harshJudge (tick : nat) (prompt : JudgeRequest) (judge : string)
    : Outcome JudgeResult :=
  if String.eqb (jq_modelName prompt) beta
  then Rejected (ErrorObj "Model returned malformed JSON.")
  else Fulfilled (verdict (5 # 10) 5).

Definition somePrompt : ForecastRequest :=
  {| fq_basePrompt := forecastPrompt config2; fq_currentTick := t0;
     fq_nextTickDate := date t1; fq_pastFeedback := []; fq_feedbackLimit := 3 |}.

Definition haltedRun : RunState := simulate steadyForecaster fairJudge halfJitter config2 ticks5.
Definition lockedRun : RunState := simulate lockedOut fairJudge halfJitter config2 ticks3.
Definition openRun : RunState := simulate steadyForecaster fairJudge halfJitter config2 ticksOpen.
Definition busyRun : RunState := simulate busyForecaster harshJudge halfJitter config2 ticks3.
Definition noBreakRun : RunState :=
simulate noBreakFailure fairJudge halfJitter config2 ticks3.
Definition lateRun : RunState := simulate lateStart fairJudge halfJitter config1 ticks3.
End Run.

Definition modelOfSettled (A : Type) (r : Settled A) : string :=
  match r with SSkipped m | SFulfilled m _ | SRejected m _ => m end.

Definition isSkippedResult (A : Type) (r : Settled A) : bool :=
  match r with SSkipped _ => true | _ => false end.

(** The log lines that the processing of a phase's settled results
    writes. *)
Definition forecastFailures (i : nat) (settled : list (Settled ForecastResult)) : list Event :=
  flat_map
    (fun r => match r with
              | SRejected m reason => [ForecastFailed i m (forecastErrorMessage reason)]
              | _ => []
              end)
    settled.

Definition evaluationFailures (i : nat) (settled : list (Settled JudgeResult)) : list Event :=
  flat_map
    (fun r => match r with
              | SRejected m reason => [EvaluationFailed i m (evaluationErrorMessage reason)]
              | _ => []
              end)
    settled.

(** What one iteration of the loop does to the state, as far as the
    properties below need it; [new] is what the iteration adds to the
    trace. *)
Definition StepOk (i : nat) (st st' : RunState) (new : list Event) : Prop :=
  trace st' = trace st ++ new
  /\ (forall e, In e new -> tickOf e = i)
  /\ (forall m, hasError (persistentModelErrors st) m = true ->
        dict_get (persistentModelErrors st') m = dict_get (persistentModelErrors st) m
        /\ forall e, In e new -> isForecastCallFor m e = false /\ isJudgeCallFor m e = false)
  /\ (forall m msg, In (EvaluationFailed i m msg) new ->
        hasError (persistentModelErrors st') m = true)
  /\ (forall m msg, In (ForecastFailed i m msg) new ->
        JsString.truthy (cleanMessage m msg) = true ->
        hasError (persistentModelErrors st') m = true)
  /\ (tickResults st' = tickResults st
      \/ exists r, tickResults st' = tickResults st ++ [r] /\ tickIndex r = i)
  /\ (forall m, (List.length (filter (isJudgeCallFor m) new) <= 1)%nat).

Definition isJudgeCallAt (j : nat) (m : string) (e : Event) : bool :=
  match e with
  | JudgeCall t m' => (t =? j)%nat && String.eqb m' m
  | _ => false
  end.

(** Model [m] met a permanent error on tick [j]: its judge evaluation
    failed, or its forecast failed with a message that is still not empty
    once the model tag is removed. *)
Definition failedAt (tr : list Event) (j : nat) (m : string) : Prop :=
  (exists msg, In (EvaluationFailed j m msg) tr)
  \/ (exists msg, In (ForecastFailed j m msg) tr
                  /\ JsString.truthy (cleanMessage m msg) = true).

(** Invariant of the loop of [runBacktest] on entering iteration [i]. *)
Definition LoopInv (i : nat) (st : RunState) : Prop :=
  (forall e, In e (trace st) -> (tickOf e < i)%nat)
  /\ (forall j m, failedAt (trace st) j m -> hasError (persistentModelErrors st) m = true)
  /\ (forall j m, failedAt (trace st) j m ->
        forall e, In e (trace st) -> (j < tickOf e)%nat ->
          isForecastCallFor m e = false /\ isJudgeCallFor m e = false)
  /\ (forall j m, (List.length (filter (isJudgeCallAt j m) (trace st)) <= 1)%nat)
  /\ (List.length (tickResults st) <= i)%nat
  /\ (forall r, In r (tickResults st) -> (tickIndex r < i)%nat).

(** On entering iteration [i] the committed tick results are aligned,
    and either every earlier tick was committed or no forecaster is left
    to call. *)
Definition AlignInv (ticks : list Tick) (models : list string) (i : nat)
    (st : RunState) : Prop :=
  aligned ticks 0 (tickResults st)
  /\ (List.length (tickResults st) = i
      \/ forall m, In m models -> hasError (persistentModelErrors st) m = true).

(** ** Reference notions for the properties of a whole run *)

(** The values with which the promises of model [m] were fulfilled, in
    the order of the settled results. *)
Definition fulfilledFor (A : Type) (m : string) (settled : list (Settled A)) : list A :=
  flat_map
    (fun r => match r with
              | SFulfilled m' v => if String.eqb m' m then [v] else []
              | _ => []
              end)
    settled.

(** The judge feedback that the committed tick results hold for [m],
    oldest first. *)
Definition feedbackOver (m : string) (results : list BacktestTickResult) : list string :=
  flat_map
    (fun r => match dict_get (evaluations r) m with
              | Some v => [feedback v]
              | None => []
              end)
    results.

(** The performance entries that the committed tick results give [m]:
    its prediction on the tick, the value of the following tick and the
    error the judge reported. *)
Definition performanceOver (ticks : list Tick) (m : string)
    (results : list BacktestTickResult) : list PerformanceEntry :=
  flat_map
    (fun r =>
       match dict_get (evaluations r) m, dict_get (forecasts r) m,
             nextValue ticks (tickIndex r) with
       | Some v, Some f, Some a =>
           [{| pe_prediction := prediction f; pe_actual := a; pe_error := jr_error v |}]
       | _, _, _ => []
       end)
    results.

(** What holds of a tick result that the loop has committed. *)
Definition committedOk (ticks : list Tick) (models : list string)
    (r : BacktestTickResult) : Prop :=
  nth_error ticks (tickIndex r) = Some (tickData r)
  /\ nextValue ticks (tickIndex r) <> None
  /\ evaluations r <> []
  /\ NoDup (dict_keys (forecasts r))
  /\ NoDup (dict_keys (evaluations r))
  /\ (forall m, In m (dict_keys (evaluations r)) -> In m (dict_keys (forecasts r)))
  /\ (forall m, In m (dict_keys (forecasts r)) -> In m models).

(** Where a recorded error message comes from: a forecast failure logged
    in the trace, with the model tag stripped, or an evaluation failure. *)
Definition errorOrigin (tr : list Event) (m msg : string) : Prop :=
  (exists j raw, In (ForecastFailed j m raw) tr /\ msg = cleanMessage m raw)
  \/ (exists j raw, In (EvaluationFailed j m raw) tr
                    /\ msg = ("Evaluation failed: " ++ raw)%string).

(** Invariant of the loop of [runBacktest] on entering iteration [i],
    for the data that the loop keeps. *)
Definition RunInv (ticks : list Tick) (models : list string) (i : nat)
    (st : RunState) : Prop :=
  Forall (committedOk ticks models) (tickResults st)
  /\ (forall r, In r (tickResults st) -> (tickIndex r < i)%nat)
  /\ StronglySorted lt (map tickIndex (tickResults st))
  /\ (forall m,
        historyOf (modelFeedbackHistory st) m = feedbackOver m (tickResults st)
        /\ historyOf (modelPerformanceHistory st) m
           = performanceOver ticks m (tickResults st))
  /\ (forall m, In m models ->
        dict_get (modelFeedbackHistory st) m <> None
        /\ dict_get (modelPerformanceHistory st) m <> None)
  /\ NoDup (dict_keys (persistentModelErrors st))
  /\ (forall m msg, dict_get (persistentModelErrors st) m = Some msg ->
        In m models /\ errorOrigin (trace st) m msg).

(** ** The model gateway: [generateJsonContent] (services/geminiService.ts)

    A parsed JSON document is a tree; a value that may be [undefined] is
    an [option Json].  The network is an oracle: [fetch] on the OpenRouter
    endpoint and [generateContent] of the Google SDK are parameters, and
    so are [JSON.parse], the string conversion of a JSON value and the
    messages of the TypeErrors that the engine raises. *)

#[local] Unset Elimination Schemes.
Inductive Json :=
| JNull
| JBool (b : bool)
| JNumber (q : Q)
| JString (s : string)
| JArray (items : list Json)
| JObject (fields : list (string * Json)).
#[local] Set Elimination Schemes.

(** Truthiness of a value that may be undefined. *)
Definition jsTruthy (v : option Json) : bool :=
  match v with
  | None | Some JNull => false
  | Some (JBool b) => b
  | Some (JNumber q) => negb (Qeq_bool q 0)
  | Some (JString s) => JsString.truthy s
  | Some (JArray _) | Some (JObject _) => true
  end.

(** [v?.k] for a property name that no prototype defines. *)
Definition optMember (v : option Json) (k : string) : option Json :=
  match v with
  | Some (JObject fields) => dict_get fields k
  | _ => None
  end.

(** [v?.[0]] *)
Definition optFirst (v : option Json) : option Json :=
  match v with
  | Some (JArray (x :: _)) => Some x
  | Some (JString (String c _)) => Some (JString (String c EmptyString))
  | Some (JObject fields) => dict_get fields "0"
  | _ => None
  end.

Record Response := {
  resp_ok : bool;
  resp_status : nat;
  resp_text : Outcome string;
  resp_json : Outcome Json
}.

Inductive NetCall :=
| OpenRouterFetch (apiKey : string) (modelName : option string) (prompt : string)
| GeminiGenerate (apiKey : string) (modelName : option string) (prompt : string).

(** [`${n}`] for a natural number. *)
Definition natToString (n : nat) : string := NilEmpty.string_of_uint (Nat.to_uint n).

(** [await] of a settled promise followed by the rest of the function,
    and [try { body } catch (e) { handler }]. *)
Definition andThen (A B : Type) (c : Outcome A) (k : A -> Outcome B) : Outcome B :=
  match c with
  | Fulfilled v => k v
  | Rejected e => Rejected e
  end.

Definition tryCatch (A : Type) (body : Outcome A) (handler : Thrown -> Outcome A)
    : Outcome A :=
  match body with
  | Fulfilled v => Fulfilled v
  | Rejected e => handler e
  end.

(** The [switch (response.status)] of [callOpenRouter]. *)
Definition userFriendlyMessage (status : nat) (modelName : option string) : string :=
  if (status =? 401)%nat then "Invalid API Key provided for OpenRouter."
  else if (status =? 402)%nat
  then "Not enough credits. Please check your OpenRouter account balance."
  else if (status =? 403)%nat
  then ("Model '" ++ keyOf modelName
        ++
            "' is not available. This might be due to your OpenRouter settings or model access permissions.")%string
  else if (status =? 429)%nat
  then
      "Rate limit hit for this model. Please retry shortly or check your OpenRouter account limits."
  else ("Model call failed. The provider returned status: " ++ natToString status
        ++ ". The model may be temporarily unavailable.")%string.

(** The regular expression [/\{[\s\S]*\}/]: the longest prefix of [s]
    that ends with [c], and the match itself, which starts at the first
    opening brace and runs to the last closing brace after it. *)
Fixpoint uptoLast (c : ascii) (s : string) : option string :=
  match s with
  | EmptyString => None
  | String a r =>
      match uptoLast c r with
      | Some p => Some (String a p)
      | None => if Ascii.eqb a c then Some (String a EmptyString) else None
      end
  end.

Fixpoint matchBraces (s : string) : option string :=
  match s with
  | EmptyString => None
  | String a r =>
      if Ascii.eqb a "{"
      then match uptoLast "}" r with
           | Some p => Some (String a p)
           | None => None
           end
      else matchBraces r
  end.

Fixpoint hasChar (c : ascii) (s : string) : bool :=
  match s with
  | EmptyString => false
  | String a r => Ascii.eqb a c || hasChar c r
  end.

Section Gateway.
(** [JSON.parse], [`${v}`] for a JSON value, and the messages of the
  TypeErrors raised by a property read on [null] or [undefined] and by
  a call of a method that the value does not have. *)
Variable JSON_parse : string -> Outcome Json.
Variable String_of : Json -> string.
Variables (nullReadMessage notAFunctionMessage : string).

(** [fetch] on the chat-completions endpoint and
  [ai.models.generateContent(...)], whose result is reduced to its
  [text]. *)
Variable fetch : string -> option string -> string -> Outcome Response.
Variable generateContent : string -> option string -> string -> Outcome (option string).

(** [v.k] where [v] must not be [null]. *)
Definition member (v : Json) (k : string) : Outcome (option Json) :=
match v with
| JNull => Rejected (ErrorObj nullReadMessage)
| _ => Fulfilled (optMember (Some v) k)
end.

Definition callOpenRouter (apiKey : string) (modelName : option string) (prompt : string)
  : Outcome Json :=
andThen (fetch apiKey modelName prompt) (fun response =>
  if negb (resp_ok response) then
    let message := userFriendlyMessage (resp_status response) modelName in
    andThen
      (tryCatch
         (andThen (resp_text response) (fun errorText =>
          andThen (JSON_parse errorText) (fun errorJson =>
          andThen (member errorJson "error") (fun error =>
            let detailedMessage := optMember error "message" in
            if jsTruthy detailedMessage then
              Rejected
                (ErrorObj
                   ("[" ++ keyOf modelName ++ "] " ++ message ++ " Details: "
                    ++ match detailedMessage with
                       | Some d => String_of d
                       | None => "undefined"
                       end)%string)
            else Fulfilled tt))))
         (fun _ => Fulfilled tt))
      (fun _ => Rejected (ErrorObj ("[" ++ keyOf modelName ++ "] " ++ message)%string))
  else resp_json response).

Definition callGoogleGemini (apiKey : string) (modelName : option string) (prompt : string)
  : Outcome (option string) :=
tryCatch (generateContent apiKey modelName prompt)
  (fun error =>
     match error with
     | ErrorObj message =>
         Rejected
           (ErrorObj
              ("[" ++ keyOf modelName ++ "] Google Gemini API call failed: "
               ++ message)%string)
     | OtherValue _ =>
         Rejected
           (ErrorObj
              ("[" ++ keyOf modelName
               ++ "] An unknown error occurred with the Google Gemini API.")%string)
     end).

Definition parseJsonFromText (text : option Json) : Outcome Json :=
match text with
| Some (JString s) =>
    match matchBraces s with
    | Some jsonMatch =>
        tryCatch (JSON_parse jsonMatch)
          (fun _ => Rejected (ErrorObj "Model returned malformed JSON."))
    | None => Rejected (ErrorObj "LLM did not return a valid JSON object.")
    end
| None | Some JNull => Rejected (ErrorObj nullReadMessage)
| Some _ => Rejected (ErrorObj notAFunctionMessage)
end.

(** [res.choices?.[0]?.message?.content || ''] *)
Definition contentOf (res : Json) : Outcome Json :=
andThen (member res "choices") (fun choices =>
  let content := optMember (optMember (optFirst choices) "message") "content" in
  match content with
  | Some c => Fulfilled (if jsTruthy content then c else JString EmptyString)
  | None => Fulfilled (JString EmptyString)
  end).

(** The result and the network calls made, in order. *)
Definition generateJsonContent (prompt model : string) (apiKeys : Dict string)
  : Outcome Json * list NetCall :=
let provider := fst (splitModelId model) in
let modelId := snd (splitModelId model) in
match dict_get apiKeys provider with
| Some apiKey =>
    if JsString.truthy apiKey then
      let attempt :=
        if String.eqb provider "OpenRouter" then
          (andThen (callOpenRouter apiKey modelId prompt) (fun res =>
           andThen (contentOf res) (fun rawTextResponse =>
             parseJsonFromText (Some rawTextResponse))),
           [OpenRouterFetch apiKey modelId prompt])
        else if String.eqb provider "Google Gemini" then
          (andThen (callGoogleGemini apiKey modelId prompt) (fun text =>
             parseJsonFromText
               match text with Some s => Some (JString s) | None => None end),
           [GeminiGenerate apiKey modelId prompt])
        else
          (Rejected (ErrorObj ("Unsupported provider: " ++ provider)%string), [])
      in
      (tryCatch (fst attempt)
         (fun error =>
            match error with
            | ErrorObj _ => Rejected error
            | OtherValue _ =>
                Rejected
                  (ErrorObj
                     ("An unknown error occurred while calling " ++ keyOf modelId
                      ++ ".")%string)
            end),
       snd attempt)
    else (Rejected (ErrorObj ("API key for " ++ provider ++ " is not configured.")%string), [])
| None =>
    (Rejected (ErrorObj ("API key for " ++ provider ++ " is not configured.")%string), [])
end.

(** An error that the platform raised and the gateway passed on
  unchanged: a rejection of [fetch] or of [response.json()], or a
  TypeError. *)
Definition platformError (prompt model : string) (apiKeys : Dict string) (message : string)
  : Prop :=
message = nullReadMessage
\/ message = notAFunctionMessage
\/ exists apiKey,
     dict_get apiKeys (fst (splitModelId model)) = Some apiKey
     /\ (fetch apiKey (snd (splitModelId model)) prompt = Rejected (ErrorObj message)
         \/ exists response,
              fetch apiKey (snd (splitModelId model)) prompt = Fulfilled response
              /\ resp_json response = Rejected (ErrorObj message)).
End Gateway.

(** ** More reference notions *)

(** Every forecast of a committed tick result went to the judge, and was
    either evaluated or logged as an evaluation failure. *)
Definition judged (tr : list Event) (r : BacktestTickResult) : Prop :=
  forall m,
    In m (dict_keys (forecasts r)) ->
    In (JudgeCall (tickIndex r) m) tr
    /\ (In m (dict_keys (evaluations r))
        \/ exists msg, In (EvaluationFailed (tickIndex r) m msg) tr).

(** The configuration with another value of [skipPredictedTicks]. *)
Definition withSkipPredictedTicks (b : bool) (config : Configuration) : Configuration :=
  {| llmSelections := llmSelections config;
     judgeModel := judgeModel config;
     forecastPrompt := forecastPrompt config;
     judgePrompt := judgePrompt config;
     feedbackLimit := feedbackLimit config;
     simulationOptions :=
       {| maxPredictions := maxPredictions (simulationOptions config);
          skipPredictedTicks := b |} |}.

(** The substrings that make an error retryable. *)
Definition retryTriggers : list string :=
  ["rate limit"; "500"; "502"; "503"; "504"; "overloaded"].

(** ** Forecasts that go through the gateway

    [getForecastWithRetries] calls [generateJsonContent] with the prompt
    that [buildForecastPrompt] renders and uses the parsed object as a
    [ForecastResult] without inspecting it.  The network may answer each
    call differently: its oracles are indexed like the forecast oracle. *)
Section ViaGateway.
Variable JSON_parse : string -> Outcome Json.
Variable String_of : Json -> string.
Variables (nullReadMessage notAFunctionMessage : string).
Variable fetchAt : nat -> nat -> nat -> string -> option string -> string -> Outcome Response.
Variable generateContentAt :
nat -> nat -> nat -> string -> option string -> string -> Outcome (option string).
Variable buildForecastPrompt : ForecastRequest -> string.
Variable asForecastResult : Json -> ForecastResult.
Variable apiKeys : Dict string.

Definition forecastViaGateway (tick slot attempt : nat) (request : ForecastRequest)
  (m : string) : Outcome ForecastResult :=
andThen
  (fst (generateJsonContent JSON_parse String_of nullReadMessage notAFunctionMessage
          (fetchAt tick slot attempt) (generateContentAt tick slot attempt)
          (buildForecastPrompt request) m apiKeys))
  (fun v => Fulfilled (asForecastResult v)).
End ViaGateway.

(** Every forecast of a committed tick result answers a call made on
    that tick. *)
Definition forecastCalled (tr : list Event) (r : BacktestTickResult) : Prop :=
  forall m,
    In m (dict_keys (forecasts r)) ->
    exists slot, In (ForecastCall (tickIndex r) slot m 0) tr.

(** ** Model catalogue (the provider validation service)

    [getSourceProvider], [checkCompatibility] and
    [normalizeOpenRouterModels].  The model list of the OpenRouter API is
    untyped: an entry is a JSON value, a field that is read may be absent
    or of any type. *)

Definition MIN_CONTEXT_WINDOW : Q := 8192.

Definition knownPrefixes : list (string * string) :=
  [("google/", "Google");
   ("meta-llama/", "Meta");
   ("mistralai/", "Mistral AI");
   ("anthropic/", "Anthropic");
   ("openai/", "OpenAI");
   ("deepseek/", "DeepSeek");
   ("microsoft/", "Microsoft");
   ("cohere/", "Cohere");
   ("nousresearch/", "Nous Research");
   ("teknium/", "Teknium");
   ("jondurbin/", "Jon Durbin");
   ("neversleep/", "NeverSleep");
   ("cognitivecomputations/", "Cognitive Computations");
   ("fireworks/", "Fireworks");
   ("databricks/", "Databricks");
   ("recursal/", "Recursal");
   ("01-ai/", "01.AI");
   ("intel/", "Intel")].

Definition getSourceProvider (id : string) : string :=
  match find (fun entry : string * string => String.prefix (fst entry) id) knownPrefixes with
  | Some entry => snd entry
  | None =>
      if JsString.includes id "claude" then "Anthropic"
      else if JsString.includes id "gpt" then "OpenAI"
      else if JsString.includes id "gemini" then "Google"
      else if JsString.includes id "llama" then "Meta"
      else "Other"
  end.

Record Compatibility := {
  allowed : bool;
  reasoning : bool;
  reasonIfBlocked : option string
}.

(** A price is [None] when [parseFloat] gives NaN. *)
Record Pricing := {
  free : bool;
  inputCost : option Q;
  outputCost : option Q
}.

(** [Omit<NormalizedModel, 'compatibility'>] as the normalisation fills
    it: [name] and [context] hold whatever the API sent. *)
Record PartialModel := {
  pm_id : string;
  pm_name : Json;
  pm_provider : string;
  pm_sourceProvider : string;
  pm_context : Json;
  pm_modality : string;
  pm_pricing : Pricing
}.

Record NormalizedModel := {
  nm_model : PartialModel;
  compatibility : Compatibility
}.

Section Catalogue.
(** The conversion of a string to a number (NaN is [None]), of a JSON
  value to a string, [Number.prototype.toLocaleString] and
  [parseFloat]. *)
Variable StringToNumber : string -> option Q.
Variable String_of : Json -> string.
Variable toLocaleString : Json -> string.
Variable parseFloat : option Json -> option Q.
Variables (nullReadMessage notAFunctionMessage : string).

(** [ToNumber] *)
Definition toNumber (v : Json) : option Q :=
match v with
| JNull => Some 0
| JBool b => Some (if b then 1 else 0)
| JNumber q => Some q
| JString s => StringToNumber s
| JArray _ | JObject _ => StringToNumber (String_of v)
end.

(** [a < b] on numbers: false when an operand is NaN. *)
Definition lessThan (a b : option Q) : bool :=
match a, b with
| Some x, Some y => Qltb x y
| _, _ => false
end.

Definition checkCompatibility (model : PartialModel) : Compatibility :=
if negb (String.eqb (pm_modality model) "text")
   && negb (String.eqb (pm_modality model) "multimodal")
then
  {| allowed := false;
     reasoning := false;
     reasonIfBlocked :=
       Some ("This is an '" ++ pm_modality model
             ++
                 "' model and does not support text-based reasoning required for backtesting.")%string
  |}
else if lessThan (toNumber (pm_context model)) (Some MIN_CONTEXT_WINDOW)
then
  {| allowed := false;
     reasoning := true;
     reasonIfBlocked :=
       Some ("Context window of " ++ toLocaleString (pm_context model)
             ++ " tokens is too small. A minimum of "
             ++ toLocaleString (JNumber MIN_CONTEXT_WINDOW)
             ++ " is required for reliable analysis.")%string |}
else {| allowed := true; reasoning := true; reasonIfBlocked := None |}.

(** [a || b] on values that may be undefined. *)
Definition orElse (a : option Json) (b : option Json) : option Json :=
if jsTruthy a then a else b.

(** [===] of two numbers: NaN equals nothing. *)
Definition isZero (a : option Q) : bool :=
match a with
| Some x => Qeq_bool x 0
| None => false
end.

(** The body of [rawModels.map(...)]. *)
Definition normalizeEntry (provider : string) (m : Json) : Outcome NormalizedModel :=
andThen (member nullReadMessage m "id") (fun modelId =>
  let name := orElse (optMember (Some m) "name") modelId in
  andThen
    match modelId with
    | Some (JString s) => Fulfilled (s, getSourceProvider s)
    | None | Some JNull => Rejected (ErrorObj nullReadMessage)
    | Some _ => Rejected (ErrorObj notAFunctionMessage)
    end
    (fun source =>
       let context := orElse (optMember (Some m) "context_length") (Some (JNumber 0)) in
       let modality :=
         match optMember (optMember (Some m) "architecture") "modality" with
         | Some (JString s) => if String.eqb s "text" then "text" else "multimodal"
         | _ => "multimodal"
         end in
       match optMember (Some m) "pricing" with
       | None | Some JNull => Rejected (ErrorObj nullReadMessage)
       | Some pricing =>
           let prompt := optMember (Some pricing) "prompt" in
           let completion := optMember (Some pricing) "completion" in
           let partialModel :=
             {| pm_id := fst source;
                pm_name := match name with Some v => v | None => JNull end;
                pm_provider := provider;
                pm_sourceProvider := snd source;
                pm_context := match context with Some v => v | None => JNumber 0 end;
                pm_modality := modality;
                pm_pricing :=
                  {| free := isZero (parseFloat prompt) && isZero (parseFloat completion);
                     inputCost :=
                       option_map (fun x => x * 1000000)
                         (parseFloat (orElse prompt (Some (JString "0"))));
                     outputCost :=
                       option_map (fun x => x * 1000000)
                         (parseFloat (orElse completion (Some (JString "0")))) |} |} in
           Fulfilled
             {| nm_model := partialModel;
                compatibility := checkCompatibility partialModel |}
       end)).

(** [Array.prototype.map] with a callback that may throw. *)
Fixpoint mapOutcome (A B : Type) (f : A -> Outcome B) (l : list A) : Outcome (list B) :=
match l with
| [] => Fulfilled []
| a :: r =>
    andThen (f a) (fun b => andThen (mapOutcome f r) (fun bs => Fulfilled (b :: bs)))
end.

Definition normalizeOpenRouterModels (rawModels : option Json) (provider : string)
  : Outcome (list NormalizedModel) :=
match rawModels with
| Some (JArray items) => mapOutcome (normalizeEntry provider) items
| _ => Fulfilled []
end.
End Catalogue.

(** ** Further concrete runs *)

(** Two forecasters on three ticks; [beta] is listed second and hits
    both values. *)
Module Duel.
Import Scenario.

Definition opening : BacktestTickResult :=
{| tickIndex := 0; tickData := t0;
   forecasts := [(alpha, forecastOf 105 (8 # 10)); (beta, forecastOf 110 (9 # 10))];
   evaluations := [(alpha, verdict (5 # 10) 5); (beta, verdict 1 0)] |}.

Definition closing : BacktestTickResult :=
{| tickIndex := 1; tickData := t1;
   forecasts := [(alpha, forecastOf 108 (6 # 10)); (beta, forecastOf 105 (9 # 10))];
   evaluations := [(alpha, verdict (7 # 10) 3); (beta, verdict 1 0)] |}.

Definition resultsDuel : list BacktestTickResult := [opening; closing].

Definition reportDuel : BacktestResults :=
Report.orEmpty (calculateAggregateScores sqrtApprox ticks3 resultsDuel [alpha; beta] []).

(** [beta] never forecast; its error is on record under its name. *)
Definition reportFailed : BacktestResults :=
Report.orEmpty
  (calculateAggregateScores sqrtApprox ticks3 results3 [alpha; beta]
     [("beta", "Invalid API Key provided for OpenRouter.")]).

Definition resultsOf (r : RunResult) : BacktestResults :=
match r with
| Returned res _ => res
| Threw _ => emptyResults
end.

Definition lockedReport : BacktestResults :=
resultsOf (runBacktest sqrtApprox Run.lockedOut Run.fairJudge Run.halfJitter Run.config2
             ticks3).

Definition steadyRun : RunState :=
simulate Run.steadyForecaster Run.fairJudge Run.halfJitter Run.config2 ticks3.

Definition steadyReport : BacktestResults :=
resultsOf (runBacktest sqrtApprox Run.steadyForecaster Run.fairJudge Run.halfJitter
             Run.config2 ticks3).

(** The same run when no prediction is asked for. *)
Definition configNone : Configuration :=
{| llmSelections := [("OpenRouter", ["alpha"; "beta"])];
   judgeModel := "OpenRouter::judge";
   forecastPrompt := "Forecast [INDICATOR] for [COUNTRY] on [NEXT_DATE].";
   judgePrompt := "Score [MODEL_NAME]: [PREDICTION] against [ACTUAL_VALUE].";
   feedbackLimit := 3;
   simulationOptions := {| maxPredictions := 0; skipPredictedTicks := false |} |}.

Definition firstResult (st : RunState) : BacktestTickResult := hd opening (tickResults st).

(** The forecasts of the duel under other verdicts, indices and tick
  data. *)
Definition regraded : list BacktestTickResult :=
[ {| tickIndex := 7; tickData := t1; forecasts := forecasts opening; evaluations := [] |};
  {| tickIndex := 7; tickData := t0; forecasts := forecasts closing;
     evaluations := [(alpha, verdict 0 9)] |} ].
End Duel.

(** Stub endpoints for the model gateway. *)
Module Wire.

Definition parseStub (s : string) : Outcome Json :=
if String.eqb s "{}" then Fulfilled (JObject [])
else Rejected (ErrorObj "Unexpected token").

Definition textOf (v : Json) : string :=
match v with
| JString s => s
| _ => "[object Object]"
end.

Definition keys : Dict string :=
[("OpenRouter", "sk-or-test"); ("Google Gemini", ""); ("Mistral", "sk-mi-test")].

(** The endpoint answers 429 with an error document. *)
Definition rateLimited (apiKey : string) (modelName : option string) (prompt : string)
  : Outcome Response :=
Fulfilled {| resp_ok := false; resp_status := 429;
             resp_text := Fulfilled "{}";
             resp_json := Rejected (ErrorObj "Unexpected end of JSON input") |}.

(** The endpoint answers with prose around a JSON object. *)
Definition answering (apiKey : string) (modelName : option string) (prompt : string)
  : Outcome Response :=
Fulfilled {| resp_ok := true; resp_status := 200;
             resp_text := Fulfilled "";
             resp_json :=
               Fulfilled
                 (JObject
                    [("choices",
                      JArray
                        [JObject
                           [("message",
                             JObject [("content", JString "Here it is: {} as asked")])]])])
          |}.

Definition offline (apiKey : string) (modelName : option string) (prompt : string)
  : Outcome (option string) :=
Rejected (OtherValue "offline").

(** The endpoint answers with the given status and an empty body. *)
Definition refusing (status : nat) (apiKey : string) (modelName : option string)
  (prompt : string) : Outcome Response :=
Fulfilled {| resp_ok := false; resp_status := status;
             resp_text := Fulfilled EmptyString;
             resp_json := Rejected (ErrorObj "Unexpected end of JSON input") |}.

Definition gateway (fetch : string -> option string -> string -> Outcome Response)
  (model : string) : Outcome Json * list NetCall :=
generateJsonContent parseStub textOf "Cannot read properties of null"
  "text.match is not a function" fetch offline "Forecast the next value." model keys.

Definition renderStub (request : ForecastRequest) : string := fq_basePrompt request.

Definition castStub (v : Json) : ForecastResult := Scenario.forecastOf 105 (8 # 10).

(** Forecasts through an endpoint that answers every call with the
  given status. *)
Definition forecastRefused (status : nat) (tick slot attempt : nat)
  (request : ForecastRequest) (m : string) : Outcome ForecastResult :=
forecastViaGateway parseStub textOf "Cannot read properties of null"
  "text.match is not a function" (fun _ _ _ => refusing status) (fun _ _ _ => offline)
  renderStub castStub keys tick slot attempt request m.

(** The first forecaster is answered, the second is rate limited. *)
Definition patchy (tick slot attempt : nat) (apiKey : string) (modelName : option string)
  (prompt : string) : Outcome Response :=
if (slot =? 0)%nat then answering apiKey modelName prompt
else rateLimited apiKey modelName prompt.

Definition patchyRun : RunState :=
simulate
  (forecastViaGateway parseStub textOf "Cannot read properties of null"
     "text.match is not a function" patchy (fun _ _ _ => offline)
     renderStub castStub keys)
  Run.fairJudge Run.halfJitter Run.config2 Scenario.ticks3.

(** A model list as the catalogue endpoint sends it: the second entry
  has no context length and is an image model. *)
Definition rawCatalogue : list Json :=
[JObject [("id", JString "openai/gpt-4o");
          ("name", JString "GPT-4o");
          ("context_length", JNumber 128000);
          ("architecture", JObject [("modality", JString "text+image->text")]);
          ("pricing", JObject [("prompt", JString "0.0000025");
                               ("completion", JString "0.00001")])];
 JObject [("id", JString "acme/painter");
          ("architecture", JObject [("modality", JString "image")]);
          ("pricing", JObject [("prompt", JString "0"); ("completion", JString "0")])]].

Definition noNumber (s : string) : option Q := None.
Definition plainNumber (v : Json) : string := textOf v.
Definition zeroPrice (v : option Json) : option Q := Some 0.

Definition catalogue : list NormalizedModel :=
match normalizeOpenRouterModels noNumber textOf plainNumber zeroPrice
        "Cannot read properties of null" "id.startsWith is not a function"
        (Some (JArray rawCatalogue)) "OpenRouter" with
| Fulfilled models => models
| Rejected _ => []
end.
End Wire.

Unset Implicit Arguments.

(** * Properties *)

Section DictFacts.
Variable V : Type.
Implicit Types (d : Dict V) (k : string) (v : V).

Lemma dict_get_set_same d k v : dict_get (dict_set d k v) k = Some v.
Proof.
  induction d as [|[k' v'] r IH]; simpl.
  - now rewrite String.eqb_refl.
  - destruct (String.eqb k' k) eqn:E; simpl; rewrite E; auto.
Qed.

Lemma dict_get_set_other d k k' v :
  k <> k' -> dict_get (dict_set d k v) k' = dict_get d k'.
Proof.
  intros Hne. induction d as [|[k0 v0] r IH]; simpl.
  - destruct (String.eqb_spec k k'); [contradiction | reflexivity].
  - destruct (String.eqb_spec k0 k) as [->|Hk]; simpl.
    + destruct (String.eqb_spec k k'); [contradiction | reflexivity].
    + destruct (String.eqb_spec k0 k'); auto.
Qed.

Lemma dict_keys_set_present d k v v0 :
  dict_get d k = Some v0 -> dict_keys (dict_set d k v) = dict_keys d.
Proof.
  unfold dict_keys. induction d as [|[k' v'] r IH]; simpl; [discriminate|].
  destruct (String.eqb_spec k' k) as [->|Hk]; simpl; intros H.
  - reflexivity.
  - now rewrite IH.
Qed.

Lemma dict_keys_set_absent d k v :
  dict_get d k = None -> dict_keys (dict_set d k v) = dict_keys d ++ [k].
Proof.
  unfold dict_keys. induction d as [|[k' v'] r IH]; simpl; [reflexivity|].
  destruct (String.eqb_spec k' k) as [->|Hk]; simpl; intros H.
  - discriminate.
  - now rewrite IH.
Qed.

Lemma dict_get_in_keys d k : dict_get d k <> None <-> In k (dict_keys d).
Proof.
  unfold dict_keys. induction d as [|[k' v'] r IH]; simpl.
  - split; [congruence | tauto].
  - destruct (String.eqb_spec k' k) as [->|Hk].
    + split; [auto | congruence].
    + rewrite IH. split; [auto | intros [?|?]; [contradiction | auto]].
Qed.

Lemma dict_get_In d k v : dict_get d k = Some v -> In (k, v) d.
Proof.
  induction d as [|[k' v'] r IH]; simpl; [discriminate|].
  destruct (String.eqb_spec k' k) as [->|Hk]; intros H.
  - injection H as ->. now left.
  - right; auto.
Qed.

Lemma dict_set_NoDup d k v : NoDup (dict_keys d) -> NoDup (dict_keys (dict_set d k v)).
Proof.
  intros H. destruct (dict_get d k) eqn:E.
  - now rewrite (dict_keys_set_present _ _ v _ E).
  - rewrite (dict_keys_set_absent _ _ v E).
    apply NoDup_app; [assumption | repeat constructor; intros [] | ].
    intros x Hx [<-|[]]. apply dict_get_in_keys in Hx. congruence.
Qed.
End DictFacts.

Section Extraction.

Lemma appendSamples_nil s : appendSamples s [] = s.
Proof. destruct s; unfold appendSamples; simpl; now rewrite !app_nil_r. Qed.

Lemma appendSamples_app s l1 l2 :
  appendSamples (appendSamples s l1) l2 = appendSamples s (l1 ++ l2).
Proof. unfold appendSamples; simpl. now rewrite !map_app, !app_assoc. Qed.

Lemma samplesFor_cons m p a k f entries :
  samplesFor m (Some p) (Some a) ((k, f) :: entries) =
  (if String.eqb k m
   then [{| sm_prediction := prediction f; sm_confidence := confidence f;
            sm_actualNext := a; sm_actualPrev := p |}]
   else [])
  ++ samplesFor m (Some p) (Some a) entries.
Proof. reflexivity. Qed.

Lemma pushSample_fold_get a p entries :
  forall d m s,
    dict_get d m = Some s ->
    dict_get (fold_left (pushSample a p) entries d) m =
    Some (appendSamples s (samplesFor m (Some p) (Some a) entries)).
Proof.
  induction entries as [|[k f] rest IH]; intros d m s Hget.
  - simpl. now rewrite appendSamples_nil.
  - rewrite samplesFor_cons. cbn [fold_left].
    unfold pushSample at 2.
    destruct (String.eqb_spec k m) as [->|Hk].
    + rewrite Hget. erewrite IH by apply dict_get_set_same.
      f_equal. unfold appendSamples; simpl. now rewrite <- !app_assoc.
    + destruct (dict_get d k) eqn:Ek.
      * erewrite IH; [reflexivity|]. now rewrite dict_get_set_other.
      * now apply IH.
Qed.

Lemma pushSample_fold_none a p entries :
  forall d m, dict_get d m = None ->
    dict_get (fold_left (pushSample a p) entries d) m = None.
Proof.
  induction entries as [|[k f] rest IH]; intros d m Hget; [assumption|].
  cbn [fold_left]. apply IH. unfold pushSample.
  destruct (dict_get d k) eqn:Ek; [|assumption].
  rewrite dict_get_set_other; [assumption|]. congruence.
Qed.

Lemma collectSeries_get ticks rs :
  forall i d d' m s,
    collectSeries ticks i rs d = Some d' ->
    dict_get d m = Some s ->
    dict_get d' m = Some (appendSamples s (seriesByPosition ticks m i rs)).
Proof.
  induction rs as [|r rest IH]; intros i d d' m s Hrun Hget.
  - simpl in *. injection Hrun as <-. now rewrite appendSamples_nil.
  - simpl in Hrun. cbn [seriesByPosition].
    destruct (nth_error ticks i) as [t|]; [|discriminate].
    destruct (value (primary t)) as [p|].
    + destruct (nextValue ticks i) as [a|].
      * erewrite IH; [|eassumption|eapply pushSample_fold_get; eassumption].
        now rewrite appendSamples_app.
      * now apply IH with (d := d).
    + simpl. now apply IH with (d := d).
Qed.

Lemma collectSeries_none ticks rs :
  forall i d d' m,
    collectSeries ticks i rs d = Some d' ->
    dict_get d m = None -> dict_get d' m = None.
Proof.
  induction rs as [|r rest IH]; intros i d d' m Hrun Hget.
  - simpl in *. now injection Hrun as <-.
  - simpl in Hrun.
    destruct (nth_error ticks i) as [t|]; [|discriminate].
    destruct (value (primary t)) as [p|]; [destruct (nextValue ticks i) as [a|]|];
      eapply IH; eauto using pushSample_fold_none.
Qed.

(** The extraction loop finishes exactly when every position it visits
    is a position of [ticks]. *)
Lemma collectSeries_returns ticks rs :
  forall i d,
    (i + List.length rs <= List.length ticks)%nat ->
    exists d', collectSeries ticks i rs d = Some d'.
Proof.
  induction rs as [|r rest IH]; intros i d Hlen; simpl in *; [eauto|].
  destruct (nth_error ticks i) as [t|] eqn:E.
  - destruct (value (primary t)); [destruct (nextValue ticks i)|]; apply IH; lia.
  - apply nth_error_None in E. lia.
Qed.

Lemma collectSeries_in_range ticks rs :
  forall i d d',
    collectSeries ticks i rs d = Some d' ->
    rs = [] \/ (i + List.length rs <= List.length ticks)%nat.
Proof.
  induction rs as [|r rest IH]; intros i d d' Hrun; [now left|right].
  simpl in Hrun. destruct (nth_error ticks i) as [t|] eqn:E; [|discriminate].
  assert (i < List.length ticks)%nat by (apply nth_error_Some; congruence).
  assert (Hrest : exists d0, collectSeries ticks (S i) rest d0 = Some d').
  { destruct (value (primary t)); [destruct (nextValue ticks i)|]; eauto. }
  destruct Hrest as [d0 Hrest]. apply IH in Hrest as [->|]; simpl; lia.
Qed.

Lemma initStats_get_gen models :
  forall d m,
    dict_get (fold_left (fun d m => dict_set d m emptyStats) models d) m =
    if existsb (String.eqb m) models then Some emptyStats else dict_get d m.
Proof.
  induction models as [|k rest IH]; intros d m; simpl; [reflexivity|].
  rewrite IH. destruct (existsb (String.eqb m) rest); simpl.
  - now rewrite orb_true_r.
  - rewrite orb_false_r. destruct (String.eqb_spec m k) as [->|Hk].
    + apply dict_get_set_same.
    + apply dict_get_set_other. congruence.
Qed.

Lemma initStats_get models m :
  dict_get (initStats models) m =
  if existsb (String.eqb m) models then Some emptyStats else None.
Proof. unfold initStats. now rewrite initStats_get_gen. Qed.

Lemma existsb_eqb_In m models : existsb (String.eqb m) models = true <-> In m models.
Proof.
  rewrite existsb_exists. split.
  - intros (x & Hin & Heq). apply String.eqb_eq in Heq. now subst.
  - intros Hin. exists m. split; [assumption | apply String.eqb_refl].
Qed.

(** The arrays of a configured model after extraction. *)
Lemma collectSeries_statsOf ticks rs models stats m :
  collectSeries ticks 0 rs (initStats models) = Some stats ->
  In m models ->
  statsOf stats m = appendSamples emptyStats (seriesByPosition ticks m 0 rs).
Proof.
  intros Hrun Hin. unfold statsOf.
  erewrite collectSeries_get; [reflexivity | eassumption |].
  rewrite initStats_get. now rewrite (proj2 (existsb_eqb_In m models) Hin).
Qed.

Lemma seriesByPosition_aligned ticks m rs :
  forall i, aligned ticks i rs ->
    seriesByPosition ticks m i rs = seriesByTickIndex ticks m rs.
Proof.
  induction rs as [|r rest IH]; intros i Hal; [reflexivity|].
  destruct Hal as [[Hidx Hdata] Hrest]. cbn [seriesByPosition].
  unfold seriesByTickIndex. cbn [flat_map]. fold (seriesByTickIndex ticks m rest).
  rewrite Hdata, Hidx, (IH _ Hrest). reflexivity.
Qed.
End Extraction.

Section Metrics.
Variable Math_sqrt : Q -> Q.

Lemma Qltb_lt x y : Qltb x y = true <-> x < y.
Proof.
  unfold Qltb. rewrite negb_true_iff. split.
  - intros H. apply Qnot_le_lt. intros Hle. apply Qle_bool_iff in Hle. congruence.
  - intros H. destruct (Qle_bool y x) eqn:E; [|reflexivity].
    apply Qle_bool_iff in E. exfalso. apply (Qlt_not_le _ _ H E).
Qed.

Lemma ofNat_pos n : (0 < n)%nat -> 0 < ofNat n.
Proof. intros H. unfold ofNat, Qlt. simpl. lia. Qed.

Lemma ofNat_nonneg n : 0 <= ofNat n.
Proof. unfold ofNat, Qle. simpl. lia. Qed.

Lemma ofNat_le n k : (n <= k)%nat -> ofNat n <= ofNat k.
Proof. intros H. unfold ofNat, Qle. simpl. lia. Qed.

Lemma ofNat_S n : ofNat (S n) == ofNat n + 1.
Proof. unfold ofNat. rewrite Nat2Z.inj_succ, <- Z.add_1_r, inject_Z_plus. reflexivity. Qed.

Lemma square_unit_interval c (o : bool) :
  0 <= c <= 1 -> 0 <= (c - (if o then 1 else 0)) ^ 2 <= 1.
Proof. intros [H0 H1]. destruct o; simpl; nra. Qed.

Lemma nth_in_unit (l : list Q) i :
  Forall (fun c => 0 <= c <= 1) l -> 0 <= nth i l 0 <= 1.
Proof.
  intros HF. destruct (Nat.lt_ge_cases i (List.length l)) as [Hlt|Hge].
  - rewrite Forall_forall in HF. apply HF. now apply nth_In.
  - rewrite nth_overflow by assumption. lra.
Qed.

(** Invariant of the per-sample loop. *)
Lemma sampleLoop_bounds stats (idx : list nat) :
  Forall (fun c => 0 <= c <= 1) (s_confidences stats) ->
  forall acc,
    let acc' := fold_left (sampleStep stats) idx acc in
    (correctDirections acc <= correctDirections acc'
     <= correctDirections acc + List.length idx)%nat
    /\ brierScoreSum acc <= brierScoreSum acc'
    /\ brierScoreSum acc' <= brierScoreSum acc + ofNat (List.length idx).
Proof.
  intros HF. induction idx as [|i rest IH]; intros acc; cbn zeta.
  - assert (Hz : ofNat 0 == 0) by reflexivity.
    cbn [fold_left List.length]. repeat split; try lia; try apply Qle_refl.
    rewrite Hz. lra.
  - cbn [fold_left]. specialize (IH (sampleStep stats acc i)). cbn zeta in IH.
    destruct IH as ((Hc1 & Hc2) & Hb1 & Hb2).
    pose proof (nth_in_unit _ i HF) as Hconf.
    pose proof (square_unit_interval _
                  (outcome (nth i (s_predictions stats) 0) (nth i (s_actuals stats) 0)
                     (nth i (s_prevActuals stats) 0)) Hconf) as [Hs0 Hs1].
    assert (Hstep_c : (correctDirections acc <= correctDirections (sampleStep stats acc i)
                       <= S (correctDirections acc))%nat).
    { unfold sampleStep; simpl.
      destruct (outcome _ _ _); lia. }
    assert (Hstep_b : brierScoreSum (sampleStep stats acc i) ==
                      brierScoreSum acc
                      + (nth i (s_confidences stats) 0
                         - (if outcome (nth i (s_predictions stats) 0)
                                 (nth i (s_actuals stats) 0)
                                 (nth i (s_prevActuals stats) 0) then 1 else 0)) ^ 2).
    { unfold sampleStep; simpl. reflexivity. }
    cbn [List.length]. rewrite ofNat_S.
    repeat split; try lia.
    + rewrite Hstep_b in Hb1. lra.
    + rewrite Hstep_b in Hb2. lra.
Qed.

Lemma sampleLoop_correct_le stats n :
  (correctDirections (sampleLoop stats n) <= n)%nat.
Proof.
  unfold sampleLoop.
  assert (H : forall idx acc,
             (correctDirections (fold_left (sampleStep stats) idx acc)
              <= correctDirections acc + List.length idx)%nat).
  { induction idx as [|i rest IH]; intros acc; simpl; [lia|].
    specialize (IH (sampleStep stats acc i)).
    assert (correctDirections (sampleStep stats acc i) <= S (correctDirections acc))%nat
      by (unfold sampleStep; simpl; destruct (outcome _ _ _); lia).
    lia. }
  specialize (H (seq 0 n) {| correctDirections := 0; squaredErrorSum := 0; brierScoreSum := 0 |}).
  rewrite length_seq in H. simpl in H. exact H.
Qed.

Lemma sampleLoop_brier stats n :
  Forall (fun c => 0 <= c <= 1) (s_confidences stats) ->
  0 <= brierScoreSum (sampleLoop stats n) <= ofNat n.
Proof.
  intros HF. unfold sampleLoop.
  pose proof (sampleLoop_bounds stats (seq 0 n) HF
                {| correctDirections := 0; squaredErrorSum := 0; brierScoreSum := 0 |}) as H.
  cbn zeta in H. rewrite length_seq in H. simpl in H.
  destruct H as (_ & H1 & H2). split; [exact H1 | lra].
Qed.

Lemma ratio_bounds a n :
  0 < n -> 0 <= a -> a <= n -> 0 <= a / n /\ a / n <= 1.
Proof.
  intros Hn Ha Han. split.
  - apply Qle_shift_div_l; [assumption | lra].
  - apply Qle_shift_div_r; [assumption | lra].
Qed.

(** Ranges of the metrics of one benchmark. *)
Lemma benchmarkOf_ranges total range m stats :
  s_predictions stats <> [] ->
  Forall (fun c => 0 <= c <= 1) (s_confidences stats) ->
  let b := benchmarkOf Math_sqrt total range m stats in
  0 <= directionalAccuracy b <= 100 /\ 0 <= brierScore b <= 1.
Proof.
  intros Hne HF b.
  assert (Hn : (0 < List.length (s_predictions stats))%nat)
    by (destruct (s_predictions stats); [congruence | simpl; lia]).
  pose proof (ofNat_pos _ Hn) as Hpos.
  pose proof (sampleLoop_correct_le stats (List.length (s_predictions stats))) as Hc.
  pose proof (sampleLoop_brier stats (List.length (s_predictions stats)) HF) as [Hb0 Hb1].
  destruct (ratio_bounds _ _ Hpos (ofNat_nonneg _) (ofNat_le _ _ Hc)) as [Hd0 Hd1].
  destruct (ratio_bounds _ _ Hpos Hb0 Hb1) as [He0 He1].
  subst b. unfold benchmarkOf. cbn [directionalAccuracy brierScore].
  repeat split; try assumption; lra.
Qed.

Lemma composite_weighted d r c b :
  composite d r c b == 100 * ((4 # 10) * d + (3 # 10) * r + (2 # 10) * c + (1 # 10) * (1 - b)).
Proof. unfold composite. ring. Qed.

Lemma computeBenchmarks_In total stats models b :
  In b (computeBenchmarks Math_sqrt total stats models) <->
  exists m, In m models /\ s_predictions (statsOf stats m) <> []
            /\ b = benchmarkOf Math_sqrt total (actualsRangeOf stats) m (statsOf stats m).
Proof.
  unfold computeBenchmarks. rewrite in_flat_map. split.
  - intros (m & Hin & Hb). exists m. split; [assumption|].
    destruct (s_predictions (statsOf stats m)) eqn:E; [destruct Hb|].
    destruct Hb as [<-|[]]. split; [congruence | reflexivity].
  - intros (m & Hin & Hne & ->). exists m. split; [assumption|].
    destruct (s_predictions (statsOf stats m)) eqn:E; [congruence | now left].
Qed.

Lemma insertDesc_In x y l : In x (insertDesc y l) <-> x = y \/ In x l.
Proof.
  induction l as [|z r IH]; simpl.
  - intuition.
  - destruct (Qltb (compositeScore y) (compositeScore z)); simpl; rewrite ?IH; intuition.
Qed.

Lemma sortDesc_In x l : In x (sortDesc l) <-> In x l.
Proof.
  induction l as [|y r IH]; simpl; [tauto|].
  rewrite insertDesc_In, IH. intuition.
Qed.

Lemma summarize_topPerformers bs failed total :
  topPerformers (summarize bs failed total)
  = sortDesc (filter (fun b => negb (belowThreshold b)) bs).
Proof. unfold summarize. destruct (sortDesc _); reflexivity. Qed.

Lemma summarize_excludedModels bs failed total :
  excludedModels (summarize bs failed total)
  = map (insufficientCoverage total) (filter belowThreshold bs) ++ failed.
Proof. unfold summarize. destruct (sortDesc _); reflexivity. Qed.

Lemma summarize_empty_top bs failed total :
  topPerformers (summarize bs failed total) = [] ->
  summarize bs failed total
  = withExcluded emptyResults (excludedModels (summarize bs failed total)).
Proof.
  rewrite summarize_excludedModels. unfold summarize.
  destruct (sortDesc _); [reflexivity | discriminate].
Qed.

Lemma failedModels_reason errors total bs models e :
  In e (failedModels errors total bs models) ->
  ex_reason e = Failed /\ ex_metrics e = None /\ ex_predictions e = 0%nat
  /\ In (ex_modelId e) models.
Proof.
  unfold failedModels. rewrite in_flat_map. intros (m & Hin & He).
  destruct (existsb _ _); [destruct He|]. destruct He as [<-|[]]. simpl. auto.
Qed.

(** Where a benchmark of the result comes from. *)
Lemma calculateAggregateScores_nonempty ticks r rs models errors :
  calculateAggregateScores Math_sqrt ticks (r :: rs) models errors =
  match collectSeries ticks 0 (r :: rs) (initStats models) with
  | None => None
  | Some stats =>
      let bs := computeBenchmarks Math_sqrt (totalTicksOf ticks) stats models in
      Some (summarize bs (failedModels errors (totalTicksOf ticks) bs models)
              (totalTicksOf ticks))
  end.
Proof. reflexivity. Qed.

Lemma reported_benchmark ticks trs models errors res b :
  calculateAggregateScores Math_sqrt ticks trs models errors = Some res ->
  reported res b ->
  exists stats,
    trs <> [] /\
    collectSeries ticks 0 trs (initStats models) = Some stats
    /\ In b (computeBenchmarks Math_sqrt (totalTicksOf ticks) stats models).
Proof.
  intros Hrun Hrep. destruct trs as [|r rs].
  - simpl in Hrun. injection Hrun as <-. unfold reported in Hrep. simpl in Hrep.
    destruct Hrep as [[]|(e & He & Hr & _)].
    apply in_map_iff in He as (m & <- & _). discriminate.
  - rewrite calculateAggregateScores_nonempty in Hrun.
    destruct (collectSeries _ _ _ _) as [stats|]; [|discriminate].
    injection Hrun as <-. exists stats. split; [discriminate|]. split; [reflexivity|].
    destruct Hrep as [Htop|(e & He & Hr & Hm)].
    + rewrite summarize_topPerformers, sortDesc_In in Htop.
      now apply filter_In in Htop.
    + rewrite summarize_excludedModels in He. apply in_app_or in He as [He|He].
      * apply in_map_iff in He as (b' & <- & Hb'). simpl in Hm. injection Hm as <-.
        now apply filter_In in Hb'.
      * apply failedModels_reason in He as (Hf & _). congruence.
Qed.
End Metrics.

Section ScoringTheorems.
Variable Math_sqrt : Q -> Q.

Lemma samplesFor_In m prev next entries x :
  In x (samplesFor m prev next entries) ->
  exists p a f, prev = Some p /\ next = Some a /\ In (m, f) entries
    /\ x = {| sm_prediction := prediction f; sm_confidence := confidence f;
              sm_actualNext := a; sm_actualPrev := p |}.
Proof.
  unfold samplesFor. destruct prev as [p|]; [|intros []].
  destruct next as [a|]; [|intros []].
  rewrite in_flat_map. intros ([k f] & Hin & Hx). simpl in Hx.
  destruct (String.eqb_spec k m) as [->|]; [|destruct Hx].
  destruct Hx as [<-|[]]. exists p, a, f. auto.
Qed.


Lemma seriesByPosition_In ticks m rs :
  forall i x, In x (seriesByPosition ticks m i rs) ->
    exists k r t p a f,
      nth_error rs k = Some r /\ nth_error ticks (i + k) = Some t
      /\ value (primary t) = Some p /\ nextValue ticks (i + k) = Some a
      /\ In (m, f) (forecasts r)
      /\ x = {| sm_prediction := prediction f; sm_confidence := confidence f;
                sm_actualNext := a; sm_actualPrev := p |}.
Proof.
  induction rs as [|r rest IH]; intros i x Hin; [destruct Hin|].
  cbn [seriesByPosition] in Hin. apply in_app_or in Hin as [Hin|Hin].
  - apply samplesFor_In in Hin as (p & a & f & Hp & Ha & Hf & ->).
    destruct (nth_error ticks i) as [t|] eqn:Et; [|discriminate].
    exists 0%nat, r, t, p, a, f. rewrite Nat.add_0_r. auto 10.
  - apply IH in Hin as (k & r' & t & p & a & f & Hk & Ht & Hp & Ha & Hf & ->).
    exists (S k), r', t, p, a, f. rewrite <- plus_n_Sm. simpl. auto 10.
Qed.


Lemma seriesByPosition_two_ticks ticks m rs :
  forall i, seriesByPosition ticks m i rs <> [] -> (2 <= List.length ticks)%nat.
Proof.
  intros i Hne. destruct (seriesByPosition ticks m i rs) as [|x l] eqn:E; [congruence|].
  assert (Hin : In x (seriesByPosition ticks m i rs)) by (rewrite E; now left).
  apply seriesByPosition_In in Hin as (k & r & t & p & a & f & _ & _ & _ & Ha & _).
  unfold nextValue in Ha. destruct (nth_error ticks (S (i + k))) eqn:En; [|discriminate].
  assert (S (i + k) < List.length ticks)%nat by (apply nth_error_Some; congruence). lia.
Qed.

(** What the engine knows of a reported benchmark. *)
Lemma reported_shape ticks trs models errors res b :
  calculateAggregateScores Math_sqrt ticks trs models errors = Some res ->
  reported res b ->
  exists stats,
    collectSeries ticks 0 trs (initStats models) = Some stats
    /\ In (modelId b) models
    /\ statsOf stats (modelId b)
       = appendSamples emptyStats (seriesByPosition ticks (modelId b) 0 trs)
    /\ seriesByPosition ticks (modelId b) 0 trs <> []
    /\ b = benchmarkOf Math_sqrt (totalTicksOf ticks) (actualsRangeOf stats) (modelId b)
             (statsOf stats (modelId b)).
Proof.
  intros Hrun Hrep.
  destruct (reported_benchmark Math_sqrt _ _ _ _ _ _ Hrun Hrep) as (stats & _ & Hst & Hb).
  apply computeBenchmarks_In in Hb as (m & Hm & Hne & Hb).
  assert (Hid : modelId b = m) by (rewrite Hb; reflexivity).
  exists stats. rewrite Hid.
  pose proof (collectSeries_statsOf _ _ _ _ _ Hst Hm) as Hs.
  repeat split; try assumption.
  intros Hnil. rewrite Hs, Hnil in Hne. now apply Hne.
Qed.

(** C4. For every model with at least one collected sample, that is for
    every benchmark the result reports, if the confidence of each of the
    model's samples lies in [0, 1] then its directional accuracy lies in
    [0, 100], its Brier score lies in [0, 1], and its composite score is
    100 times the combination 0.4 * (directionalAccuracy / 100)
    + 0.3 * normRmse + 0.2 * (avgConfidence / 100) + 0.1 * (1 - brierScore),
    where normRmse is the RMSE normalised by the range of all actual
    values; the four weights add up to 1. *)
Theorem metric_ranges ticks trs models errors res b :
  calculateAggregateScores Math_sqrt ticks trs models errors = Some res ->
  reported res b ->
  Forall (fun x => 0 <= sm_confidence x <= 1)
    (seriesByPosition ticks (modelId b) 0 trs) ->
  (0 < predictions b)%nat
  /\ 0 <= directionalAccuracy b <= 100
  /\ 0 <= brierScore b <= 1
  /\ (exists stats,
        collectSeries ticks 0 trs (initStats models) = Some stats
        /\ compositeScore b ==
           100 * ((4 # 10) * (directionalAccuracy b / 100)
                  + (3 # 10) * normRmseOf (actualsRangeOf stats) (rmse b)
                  + (2 # 10) * (avgConfidence b / 100)
                  + (1 # 10) * (1 - brierScore b)))
  /\ (4 # 10) + (3 # 10) + (2 # 10) + (1 # 10) == 1.
Proof.
  intros Hrun Hrep Hconf.
  destruct (reported_shape _ _ _ _ _ _ Hrun Hrep) as (stats & Hst & Hm & Hs & Hne & Hb).
  assert (Hpred : s_predictions (statsOf stats (modelId b)) <> []).
  { rewrite Hs. simpl. destruct (seriesByPosition _ _ _ _); [congruence | discriminate]. }
  assert (HF : Forall (fun c => 0 <= c <= 1) (s_confidences (statsOf stats (modelId b)))).
  { rewrite Hs. simpl. apply Forall_map. exact Hconf. }
  destruct (benchmarkOf_ranges Math_sqrt (totalTicksOf ticks) (actualsRangeOf stats)
              (modelId b) _ Hpred HF) as [Hda Hbr].
  rewrite <- Hb in Hda, Hbr.
  split; [|split; [exact Hda | split; [exact Hbr | split; [|reflexivity]]]].
  - assert (Hn : predictions b = List.length (s_predictions (statsOf stats (modelId b))))
      by (rewrite Hb at 1; reflexivity).
    rewrite Hn.
    destruct (s_predictions (statsOf stats (modelId b))); [congruence | simpl; lia].
  - exists stats. split; [assumption|].
    set (s := statsOf stats (modelId b)) in *.
    set (range := actualsRangeOf stats) in *.
    assert (Hc : compositeScore b
                 = composite (directionalAccuracy b / 100) (normRmseOf range (rmse b))
                     (avgConfidence b / 100) (brierScore b))
      by (rewrite Hb; reflexivity).
    rewrite Hc. apply composite_weighted.
Qed.

Lemma reported_completion ticks trs models errors res b :
  calculateAggregateScores Math_sqrt ticks trs models errors = Some res ->
  reported res b ->
  completionRate b
  = ofNat (predictions b) / inject_Z (Z.of_nat (List.length ticks) - 1) * 100
  /\ predictions b = List.length (seriesByPosition ticks (modelId b) 0 trs)
  /\ (0 < predictions b)%nat
  /\ (0 < Z.of_nat (List.length ticks) - 1)%Z.
Proof.
  intros Hrun Hrep.
  destruct (reported_shape _ _ _ _ _ _ Hrun Hrep) as (stats & Hst & Hm & Hs & Hne & Hb).
  assert (Hn : predictions b = List.length (seriesByPosition ticks (modelId b) 0 trs)).
  { rewrite Hb at 1. cbn [predictions]. rewrite Hs. simpl. apply length_map. }
  repeat split.
  - rewrite Hb at 1 2. reflexivity.
  - exact Hn.
  - rewrite Hn. destruct (seriesByPosition _ _ _ _); [congruence | simpl; lia].
  - apply seriesByPosition_two_ticks in Hne. lia.
Qed.

(** C6. For every model in topPerformers, and for every model excluded
    for insufficient coverage, completionRate is exactly
    predictions / (ticks.length - 1) * 100, where predictions is the
    number of samples collected for the model; the denominator is the
    number of possible ticks of the run and is positive. *)
Theorem completionRate_exact ticks trs models errors res b :
  calculateAggregateScores Math_sqrt ticks trs models errors = Some res ->
  reported res b ->
  completionRate b
  = ofNat (predictions b) / inject_Z (Z.of_nat (List.length ticks) - 1) * 100
  /\ predictions b = List.length (seriesByPosition ticks (modelId b) 0 trs)
  /\ (0 < predictions b)%nat
  /\ (0 < Z.of_nat (List.length ticks) - 1)%Z.
Proof. exact (reported_completion ticks trs models errors res b). Qed.

(** C5. A benchmarked model is excluded for insufficient coverage if and
    only if its completion rate is strictly below PARTICIPATION_THRESHOLD
    (80), and is a top performer otherwise; a completion rate of exactly
    80 puts the model in topPerformers and not in excludedModels. *)
Theorem participation_threshold ticks trs models errors res stats b :
  calculateAggregateScores Math_sqrt ticks trs models errors = Some res ->
  trs <> [] ->
  collectSeries ticks 0 trs (initStats models) = Some stats ->
  In b (computeBenchmarks Math_sqrt (totalTicksOf ticks) stats models) ->
  ((exists e, In e (excludedModels res)
              /\ ex_reason e = InsufficientCoverage /\ ex_metrics e = Some b)
   <-> completionRate b < PARTICIPATION_THRESHOLD)
  /\ (In b (topPerformers res) <-> ~ completionRate b < PARTICIPATION_THRESHOLD)
  /\ (completionRate b == 80 ->
      In b (topPerformers res)
      /\ ~ exists e, In e (excludedModels res)
                     /\ ex_reason e = InsufficientCoverage /\ ex_metrics e = Some b).
Proof.
  intros Hrun Hne Hst Hb. destruct trs as [|r rs]; [congruence|].
  rewrite calculateAggregateScores_nonempty, Hst in Hrun. injection Hrun as <-.
  assert (Hex : (exists e,
                    In e (excludedModels
                            (summarize
                               (computeBenchmarks Math_sqrt (totalTicksOf ticks) stats models)
                               (failedModels errors (totalTicksOf ticks)
                                  (computeBenchmarks Math_sqrt (totalTicksOf ticks) stats models)
                                  models)
                               (totalTicksOf ticks)))
                    /\ ex_reason e = InsufficientCoverage /\ ex_metrics e = Some b)
                <-> completionRate b < PARTICIPATION_THRESHOLD).
  { rewrite summarize_excludedModels. split.
    - intros (e & He & Hr & Hmet). apply in_app_or in He as [He|He].
      + apply in_map_iff in He as (b' & <- & Hb'). simpl in Hmet. injection Hmet as ->.
        apply filter_In in Hb' as [_ Hlow]. now apply Qltb_lt.
      + apply failedModels_reason in He as (Hf & _). congruence.
    - intros Hlow. exists (insufficientCoverage (totalTicksOf ticks) b).
      split; [|split; reflexivity].
      apply in_or_app. left. apply in_map. apply filter_In. split; [assumption|].
      now apply Qltb_lt. }
  assert (Htop : In b (topPerformers
                          (summarize
                             (computeBenchmarks Math_sqrt (totalTicksOf ticks) stats models)
                             (failedModels errors (totalTicksOf ticks)
                                (computeBenchmarks Math_sqrt (totalTicksOf ticks) stats models)
                                models)
                             (totalTicksOf ticks)))
                 <-> ~ completionRate b < PARTICIPATION_THRESHOLD).
  { rewrite summarize_topPerformers, sortDesc_In, filter_In. unfold belowThreshold.
    rewrite negb_true_iff. split.
    - intros [_ Hf] Hlow. apply Qltb_lt in Hlow. congruence.
    - intros Hn. split; [assumption|].
      destruct (Qltb (completionRate b) PARTICIPATION_THRESHOLD) eqn:E; [|reflexivity].
      apply Qltb_lt in E. contradiction. }
  split; [exact Hex | split; [exact Htop|]].
  intros Heq.
  assert (Hn : ~ completionRate b < PARTICIPATION_THRESHOLD).
  { unfold PARTICIPATION_THRESHOLD. rewrite Heq. apply Qlt_irrefl. }
  split; [now apply Htop | now rewrite Hex].
Qed.
End ScoringTheorems.

Section ScoringTheorems2.
Variable Math_sqrt : Q -> Q.

Lemma benchmark_reported ticks r rs models errors res stats b :
  calculateAggregateScores Math_sqrt ticks (r :: rs) models errors = Some res ->
  collectSeries ticks 0 (r :: rs) (initStats models) = Some stats ->
  In b (computeBenchmarks Math_sqrt (totalTicksOf ticks) stats models) ->
  reported res b.
Proof.
  intros Hrun Hst Hb.
  rewrite calculateAggregateScores_nonempty, Hst in Hrun. injection Hrun as <-.
  unfold reported. rewrite summarize_topPerformers, summarize_excludedModels.
  destruct (belowThreshold b) eqn:E.
  - right. exists (insufficientCoverage (totalTicksOf ticks) b).
    split; [|split; reflexivity]. apply in_or_app. left. apply in_map.
    apply filter_In. auto.
  - left. apply sortDesc_In. apply filter_In. rewrite E. auto.
Qed.

Lemma configured_model_listed ticks trs models errors res m :
  calculateAggregateScores Math_sqrt ticks trs models errors = Some res ->
  In m models ->
  (exists b, In b (topPerformers res) /\ modelId b = m)
  \/ (exists e, In e (excludedModels res) /\ ex_modelId e = m).
Proof.
  intros Hrun Hm. destruct trs as [|r rs].
  - right. simpl in Hrun. injection Hrun as <-. simpl.
    eexists. split; [apply in_map; exact Hm | reflexivity].
  - pose proof Hrun as Hrun'.
    rewrite calculateAggregateScores_nonempty in Hrun.
    destruct (collectSeries ticks 0 (r :: rs) (initStats models)) as [stats|] eqn:Hst;
      [|discriminate].
    injection Hrun as <-.
    set (bs := computeBenchmarks Math_sqrt (totalTicksOf ticks) stats models).
    destruct (existsb (String.eqb m) (map modelId bs)) eqn:E.
    + apply existsb_eqb_In in E. apply in_map_iff in E as (b & Hid & Hb).
      destruct (benchmark_reported _ _ _ _ _ _ _ _ Hrun' Hst Hb) as [Ht|(e & He & _ & Hmet)].
      * left. eauto.
      * right. exists e. split; [assumption|].
        rewrite summarize_excludedModels in He. apply in_app_or in He as [He|He].
        -- apply in_map_iff in He as (b' & <- & _). simpl in *. congruence.
        -- apply failedModels_reason in He as (_ & Hn & _). congruence.
    + right. rewrite summarize_excludedModels. eexists. split.
      * apply in_or_app. right. unfold failedModels. apply in_flat_map.
        exists m. split; [assumption|]. fold bs. rewrite E. now left.
      * reflexivity.
Qed.

Lemma calculateAggregateScores_returns ticks trs models errors :
  (List.length trs <= List.length ticks)%nat ->
  exists res, calculateAggregateScores Math_sqrt ticks trs models errors = Some res.
Proof.
  intros Hlen. destruct trs as [|r rs]; [simpl; eauto|].
  rewrite calculateAggregateScores_nonempty.
  destruct (collectSeries_returns ticks (r :: rs) 0 (initStats models)) as [d' ->];
    [simpl in *; lia | eauto].
Qed.

(** C7. With an empty list of tick results the engine returns a report
    with no top performer, a zero summary, and every configured model
    (and nothing else) in excludedModels with reason Failed, zero
    predictions and no metrics.  Whatever the input, a report whose
    topPerformers is empty has a zero summary and lists every configured
    model in excludedModels.  The engine returns such a report instead of
    throwing whenever it is given no more tick results than ticks. *)
Theorem failed_run_report ticks trs models errors :
  (trs = [] ->
   exists res,
     calculateAggregateScores Math_sqrt ticks trs models errors = Some res
     /\ topPerformers res = [] /\ summaryIsZero res
     /\ (forall m, In m models ->
           exists e, In e (excludedModels res) /\ ex_modelId e = m)
     /\ (forall e, In e (excludedModels res) ->
           In (ex_modelId e) models /\ ex_reason e = Failed
           /\ ex_predictions e = 0%nat /\ ex_metrics e = None))
  /\ (forall res,
        calculateAggregateScores Math_sqrt ticks trs models errors = Some res ->
        topPerformers res = [] ->
        summaryIsZero res
        /\ forall m, In m models ->
             exists e, In e (excludedModels res) /\ ex_modelId e = m)
  /\ ((List.length trs <= List.length ticks)%nat ->
      exists res, calculateAggregateScores Math_sqrt ticks trs models errors = Some res).
Proof.
  split; [|split].
  - intros ->. eexists. split; [reflexivity|]. simpl.
    split; [reflexivity|]. split; [repeat split|]. split.
    + intros m Hm. eexists. split; [apply in_map; exact Hm | reflexivity].
    + intros e He. apply in_map_iff in He as (m & <- & Hm). simpl. auto.
  - intros res Hrun Htop. split.
    + destruct trs as [|r rs].
      * simpl in Hrun. injection Hrun as <-. repeat split.
      * rewrite calculateAggregateScores_nonempty in Hrun.
        destruct (collectSeries _ _ _ _); [|discriminate]. injection Hrun as <-.
        rewrite summarize_empty_top by assumption. repeat split.
    + intros m Hm.
      destruct (configured_model_listed _ _ _ _ _ _ Hrun Hm) as [(b & Hb & _)|He];
        [|assumption].
      rewrite Htop in Hb. destruct Hb.
  - apply calculateAggregateScores_returns.
Qed.


(** What the extraction gives when the tick results are aligned. *)
Lemma extraction_of_aligned ticks trs models errors res :
  aligned ticks 0 trs ->
  calculateAggregateScores Math_sqrt ticks trs models errors = Some res ->
  (exists stats,
     collectSeries ticks 0 trs (initStats models) = Some stats
     /\ forall m, In m models ->
          statsOf stats m = appendSamples emptyStats (seriesByTickIndex ticks m trs))
  /\ (forall r m, In r trs -> isSkipped ticks r = true ->
        samplesFor m (value (primary (tickData r))) (nextValue ticks (tickIndex r))
          (forecasts r) = [])
  /\ (forall b, reported res b ->
        predictions b = List.length (seriesByTickIndex ticks (modelId b) trs)
        /\ completionRate b
           = ofNat (predictions b) / inject_Z (Z.of_nat (List.length ticks) - 1) * 100).
Proof.
  intros Hal Hrun. split; [|split].
  - assert (Hlen : forall rs i, aligned ticks i rs ->
                     (i + List.length rs <= List.length ticks)%nat \/ rs = []).
    { induction rs as [|r rest IH]; intros i H; [now right|left].
      destruct H as [[_ Hd] Hrest].
      assert (i < List.length ticks)%nat by (apply nth_error_Some; congruence).
      destruct (IH _ Hrest) as [?| ->]; simpl in *; lia. }
    assert (Hret : exists stats, collectSeries ticks 0 trs (initStats models) = Some stats).
    { destruct (Hlen _ _ Hal) as [H| ->]; [|simpl; eauto].
      now apply collectSeries_returns. }
    destruct Hret as [stats Hst]. exists stats. split; [assumption|].
    intros m Hm. rewrite (collectSeries_statsOf _ _ _ _ _ Hst Hm).
    now rewrite (seriesByPosition_aligned ticks m trs 0 Hal).
  - intros r m _ Hskip. unfold isSkipped in Hskip. unfold samplesFor.
    destruct (value (primary (tickData r))); [|reflexivity].
    destruct (nextValue ticks (tickIndex r)); [discriminate | reflexivity].
  - intros b Hrep.
    destruct (reported_completion Math_sqrt _ _ _ _ _ _ Hrun Hrep) as (Hc & Hn & _).
    rewrite <- (seriesByPosition_aligned ticks (modelId b) trs 0 Hal). auto.
Qed.
End ScoringTheorems2.

Import Scenario Report.

Lemma metric_ranges_witness :
  0 <= directionalAccuracy bench3 <= 100 /\ 0 <= brierScore bench3 <= 1.
Proof.
  destruct (metric_ranges sqrtApprox ticks3 results3 [alpha] [] report3 bench3)
    as (_ & Hd & Hb & _).
  - vm_compute. reflexivity.
  - left. vm_compute. left. reflexivity.
  - vm_compute. repeat constructor; discriminate.
  - exact (conj Hd Hb).
Defined.

Lemma completionRate_exact_witness :
  completionRate bench3 = ofNat (predictions bench3) / inject_Z (3 - 1) * 100
  /\ predictions bench3 = 2%nat.
Proof.
  destruct (completionRate_exact sqrtApprox ticks3 results3 [alpha] [] report3 bench3)
    as (Hc & Hn & _).
  - vm_compute. reflexivity.
  - left. vm_compute. left. reflexivity.
  - split; [exact Hc | exact Hn].
Defined.

Lemma participation_threshold_witness :
  completionRate bench80 == 80 /\ In bench80 (topPerformers report80).
Proof.
  destruct (participation_threshold sqrtApprox ticks6 results4 [alpha] [] report80 stats80
      bench80)
    as (_ & _ & Hb).
  - vm_compute. reflexivity.
  - discriminate.
  - vm_compute. reflexivity.
  - vm_compute. left. reflexivity.
  - assert (He : completionRate bench80 == 80) by (vm_compute; reflexivity).
    split; [exact He | exact (proj1 (Hb He))].
Defined.

Lemma failed_run_report_witness :
  summaryIsZero reportNone /\ summaryIsZero reportOpen.
Proof.
  destruct (failed_run_report sqrtApprox ticks3 [] [alpha; beta] []) as (H1 & _ & _).
  destruct (H1 eq_refl) as (res & Hres & _ & Hz & _).
  destruct (failed_run_report sqrtApprox ticksOpen resultsOpen [alpha] []) as (_ & H2 & H3).
  destruct (H3 ltac:(simpl; lia)) as (res' & Hres').
  split.
  - replace reportNone with res; [exact Hz|].
    unfold reportNone. rewrite Hres. reflexivity.
  - apply (H2 reportOpen); vm_compute; reflexivity.
Defined.


(** C1 as stated fails: the first tick result has no previous actual and
    is skipped, the model is left with one sample, and a denominator
    without the skipped tick result would be 1; the engine divides by
    ticks.length - 1 = 2 and reports a completion rate of 50. *)
Lemma skipped_tick_counts_in_denominator :
  aligned ticksOpen 0 resultsOpen
  /\ isSkipped ticksOpen resultOpen = true
  /\ reported reportOpen benchOpen
  /\ predictions benchOpen = 1%nat
  /\ completionRate benchOpen == 50
  /\ denominatorWithoutSkipped ticksOpen resultsOpen = 1%Z
  /\ ~ completionRate benchOpen
       == ofNat (predictions benchOpen)
          / inject_Z (denominatorWithoutSkipped ticksOpen resultsOpen) * 100.
Proof.
  split; [simpl; repeat split|]. split; [reflexivity|]. split.
  - right. eexists. split; [left; reflexivity|]. split; reflexivity.
  - split; [reflexivity|]. split; [reflexivity|]. split; [reflexivity|].
    vm_compute. discriminate.
Qed.

(** The same tick results come out of a whole run over those ticks. *)
Example skipped_first_tick_run :
  exists res,
    runBacktest sqrtApprox Run.steadyForecaster Run.fairJudge Run.halfJitter Run.config2
      ticksOpen
    = Returned res (tickResults Run.openRun)
    /\ map tickIndex (tickResults Run.openRun) = [0; 1]%nat
    /\ topPerformers res = []
    /\ map (fun e => (ex_modelId e, ex_predictions e, ex_totalTicks e)) (excludedModels res)
       = [(alpha, 1%nat, 2%Z); (beta, 1%nat, 2%Z)].
Proof. eexists. split; [vm_compute; reflexivity|]. repeat split. Qed.

(** The extraction reads [ticks] at the position of a tick result in the
    list.  On a list that is not aligned, here one whose only tick result
    records tick 1, position and [tickIndex] part ways: the forecast made
    on tick 1 is scored against ticks 0 and 1. *)
Example position_is_not_tick_index :
  seriesByPosition ticks3 alpha 0 resultsLate
  = [{| sm_prediction := 108; sm_confidence := 6 # 10; sm_actualNext := 110; sm_actualPrev := 100
      |}]
  /\ seriesByTickIndex ticks3 alpha resultsLate
     = [{| sm_prediction := 108; sm_confidence := 6 # 10; sm_actualNext := 105; sm_actualPrev :=
         110 |}].
Proof. split; reflexivity. Qed.

Section SimulationFacts.
Variable Math_sqrt : Q -> Q.
Variable generateForecast :
  nat -> nat -> nat -> ForecastRequest -> string -> Outcome ForecastResult.
Variable generateJudgement : nat -> JudgeRequest -> string -> Outcome JudgeResult.
Variable Math_random : nat -> nat -> nat -> Q.

(** *** The retry wrapper *)

Lemma retryLoop_spec tick slot prompt m :
  forall fuel attempts,
    (attempts < maxRetries)%nat -> (maxRetries <= attempts + fuel)%nat ->
    exists last,
      (attempts <= last < maxRetries)%nat
      /\ retryLoop generateForecast Math_random tick slot prompt m fuel attempts
         = (generateForecast tick slot last prompt m,
            retryEvents Math_random tick slot m attempts (last - attempts)
            ++ [ForecastCall tick slot m last])
      /\ (forall a, (attempts <= a < last)%nat ->
            exists e, generateForecast tick slot a prompt m = Rejected e
                      /\ isRetryable e = true)
      /\ (forall e, generateForecast tick slot last prompt m = Rejected e ->
            isRetryable e = false \/ S last = maxRetries).
Proof.
      induction fuel as [|fuel IH]; intros attempts Hlt Hfuel; [lia|].
  cbn [retryLoop].
  destruct (Nat.ltb_spec attempts maxRetries) as [_|]; [|lia].
  destruct (generateForecast tick slot attempts prompt m) as [v|e] eqn:Hcall.
  - exists attempts. rewrite Nat.sub_diag, Hcall.
    split; [lia|]. split; [reflexivity|]. split; [intros a Ha; lia|].
    intros e He. congruence.
  - destruct (isRetryable e) eqn:Hretry; cbn [andb].
    + destruct (Nat.ltb_spec attempts (maxRetries - 1)) as [Hmore|Hlast].
      * destruct (IH (S attempts)) as (last & Hrange & Hrun & Hfailed & Hstop);
          [unfold maxRetries in *; lia | lia |].
        exists last. rewrite Hrun. split; [lia|]. split; [|split].
        -- f_equal. replace (last - attempts)%nat with (S (last - S attempts)) by lia.
           reflexivity.
        -- intros a Ha. destruct (Nat.eq_dec a attempts) as [->|].
           ++ eauto.
           ++ apply Hfailed. lia.
        -- exact Hstop.
      * exists attempts. rewrite Nat.sub_diag, Hcall.
        split; [lia|]. split; [reflexivity|]. split; [intros a Ha; lia|].
        intros e' _. right. unfold maxRetries in *. lia.
    + exists attempts. rewrite Nat.sub_diag, Hcall.
      split; [lia|]. split; [reflexivity|]. split; [intros a Ha; lia|].
      intros e' He'. left. congruence.
Qed.

Lemma retryEvents_calls tick slot m first n :
  List.length (filter isForecastCall (retryEvents Math_random tick slot m first n)) = n.
Proof.
  unfold retryEvents. revert first.
  induction n as [|n IH]; intros first; [reflexivity|].
  cbn [seq flat_map app filter isForecastCall List.length]. now rewrite IH.
Qed.

Lemma backoffDelay_bounds attempts random :
  0 <= random -> random < 1 ->
  2 ^ Z.of_nat attempts * 1000 <= backoffDelay attempts random
  /\ backoffDelay attempts random < 2 ^ Z.of_nat attempts * 1000 + 1000.
Proof. intros H0 H1. unfold backoffDelay. split; lra. Qed.

Lemma getForecastWithRetries_events tick slot prompt m e :
  In e (snd (getForecastWithRetries generateForecast Math_random tick slot prompt m)) ->
  tickOf e = tick
  /\ (e = ForecastCall tick slot m 0
      \/ (exists a, e = ForecastCall tick slot m (S a))
      \/ exists a d, e = RetrySleep tick slot m a d).
Proof.
  unfold getForecastWithRetries.
  destruct (retryLoop_spec tick slot prompt m maxRetries 0) as (last & _ & -> & _);
    [unfold maxRetries; lia | lia |].
  cbn [snd]. intros Hin. apply in_app_or in Hin as [Hin|[<-|[]]].
  - unfold retryEvents in Hin. apply in_flat_map in Hin as (a & _ & Ha).
    destruct Ha as [<-|[<-|[]]]; (split; [reflexivity|]).
    + destruct a; [now left | right; left; eauto].
    + right; right; eauto.
  - split; [reflexivity|]. destruct last; [now left | right; left; eauto].
Qed.

Lemma getForecastWithRetries_first tick slot prompt m :
  In (ForecastCall tick slot m 0) (snd (getForecastWithRetries generateForecast Math_random tick
      slot prompt m)).
Proof.
  unfold getForecastWithRetries.
  destruct (retryLoop_spec tick slot prompt m maxRetries 0) as (last & _ & -> & _);
    [unfold maxRetries; lia | lia |].
  cbn [snd]. rewrite Nat.sub_0_r. destruct last as [|k].
  - now left.
  - unfold retryEvents. cbn [seq flat_map app]. now left.
Qed.
End SimulationFacts.

Section ErrorMap.
Implicit Types (d : Dict string) (m : string).

Lemma recordError_keeps d m m' msg :
  hasError d m = true -> dict_get (recordError d m' msg) m = dict_get d m.
Proof.
  intros H. unfold recordError. destruct (hasError d m') eqn:E; [reflexivity|].
  apply dict_get_set_other. intros ->. congruence.
Qed.

Lemma hasError_recordError d m m' msg :
  hasError d m = true -> hasError (recordError d m' msg) m = true.
Proof. intros H. unfold hasError in *. now rewrite recordError_keeps. Qed.

Lemma recordError_sets d m msg :
  JsString.truthy msg = true -> hasError (recordError d m msg) m = true.
Proof.
  intros H. unfold recordError. destruct (hasError d m) eqn:E; [assumption|].
  unfold hasError. now rewrite dict_get_set_same.
Qed.

Lemma truthy_append (t : string) : JsString.truthy ("Evaluation failed: " ++ t)%string = true.
Proof. reflexivity. Qed.
End ErrorMap.

Section Phases.
Variable generateForecast :
  nat -> nat -> nat -> ForecastRequest -> string -> Outcome ForecastResult.
Variable generateJudgement : nat -> JudgeRequest -> string -> Outcome JudgeResult.
Variable Math_random : nat -> nat -> nat -> Q.
Variables (config : Configuration) (models : list string).
Variables (i : nat) (currentTick nextTick : Tick).

(** **** Forecast promises *)

Lemma forecastPromise_cases st slot m :
  let (r, evs) :=
    forecastPromise generateForecast Math_random config i currentTick nextTick st slot m in
  modelOfSettled r = m
  /\ (hasError (persistentModelErrors st) m = true -> r = SSkipped m /\ evs = [])
  /\ (hasError (persistentModelErrors st) m = false ->
      isSkippedResult r = false
      /\ In (ForecastCall i slot m 0) evs
      /\ forall e, In e evs ->
           tickOf e = i
           /\ ((exists a, e = ForecastCall i slot m a) \/ exists a d, e = RetrySleep i slot m a
               d)).
Proof.
  unfold forecastPromise.
  destruct (hasError (persistentModelErrors st) m) eqn:E.
  - repeat split; try reflexivity; discriminate.
  - set (prompt := {| fq_basePrompt := _ |}).
    pose proof (getForecastWithRetries_first generateForecast Math_random i slot prompt m) as
        Hfirst.
    pose proof (getForecastWithRetries_events generateForecast Math_random i slot prompt m) as
        Hev.
    destruct (getForecastWithRetries generateForecast Math_random i slot prompt m) as [[v|reason]
        evs];
      cbn [snd] in *.
    + split; [reflexivity|]. split; [discriminate|]. intros _.
      split; [reflexivity|]. split; [assumption|].
      intros e He. destruct (Hev e He) as (Ht & [->|[(a & ->)|(a & d & ->)]]); eauto 6.
    + split; [reflexivity|]. split; [discriminate|]. intros _.
      split; [reflexivity|]. split; [assumption|].
      intros e He. destruct (Hev e He) as (Ht & [->|[(a & ->)|(a & d & ->)]]); eauto 6.
Qed.

Lemma forecastPromises_spec st ms :
  forall slot,
    let (settled, calls) :=
      forecastPromises generateForecast Math_random config i currentTick nextTick st slot ms in
    (forall r, In r settled -> In (modelOfSettled r) ms
               /\ (isSkippedResult r = false ->
                   hasError (persistentModelErrors st) (modelOfSettled r) = false))
    /\ (forall e, In e calls ->
          tickOf e = i
          /\ exists m', hasError (persistentModelErrors st) m' = false /\ In m' ms
               /\ ((exists s a, e = ForecastCall i s m' a)
                   \/ exists s a d, e = RetrySleep i s m' a d))
    /\ (forall k m, nth_error ms k = Some m ->
          hasError (persistentModelErrors st) m = false ->
          In (ForecastCall i (slot + k) m 0) calls).
Proof.
  induction ms as [|m rest IH]; intros slot.
  - simpl. split; [intros r []|]. split; [intros e []|].
    intros [|k] m Hk; discriminate.
  - cbn [forecastPromises].
    pose proof (forecastPromise_cases st slot m) as Hone.
    destruct (forecastPromise generateForecast Math_random config i currentTick nextTick st slot
        m)
      as [r evs].
    specialize (IH (S slot)).
    destruct (forecastPromises generateForecast Math_random config i currentTick nextTick st
                (S slot) rest) as [rs evs'].
    destruct Hone as (Hm & Hskip & Hcall). destruct IH as (Hrs & Hevs & Hinv).
    split; [|split].
    + intros r' [<-|Hr'].
      * rewrite Hm. split; [now left|]. intros Hns.
        destruct (hasError (persistentModelErrors st) m) eqn:E; [|reflexivity].
        destruct (Hskip eq_refl) as [-> _]. discriminate.
      * destruct (Hrs r' Hr') as [H1 H2]. split; [now right | assumption].
    + intros e He. apply in_app_or in He as [He|He].
      * destruct (hasError (persistentModelErrors st) m) eqn:E.
        -- destruct (Hskip eq_refl) as [_ ->]. destruct He.
        -- destruct (Hcall eq_refl) as (_ & _ & Hall).
           destruct (Hall e He) as (Ht & Hshape). split; [assumption|].
           exists m. split; [assumption|]. split; [now left|].
           destruct Hshape as [(a & ->)|(a & d & ->)]; eauto 6.
      * destruct (Hevs e He) as (Ht & m' & Hm' & Hin & Hshape).
        split; [assumption|]. exists m'. split; [assumption|]. split; [now right | assumption].
    + intros [|k] m0 Hk Herr; simpl in Hk.
      * injection Hk as ->. rewrite Nat.add_0_r. apply in_or_app. left.
        now destruct (Hcall Herr) as (_ & H & _).
      * apply in_or_app. right. rewrite <- plus_n_Sm. now apply (Hinv k m0).
Qed.

(** **** Processing the settled forecasts *)

Lemma settleForecast_fold settled :
  forall tf errs evs,
    let out := fold_left (settleForecast i) settled (tf, errs, evs) in
    snd out = evs ++ forecastFailures i settled
    /\ (forall m, hasError errs m = true -> dict_get (snd (fst out)) m = dict_get errs m)
    /\ (forall m msg, In (ForecastFailed i m msg) (forecastFailures i settled) ->
          JsString.truthy (cleanMessage m msg) = true ->
          hasError (snd (fst out)) m = true)
    /\ (NoDup (dict_keys tf) -> NoDup (dict_keys (fst (fst out))))
    /\ (forall k, In k (dict_keys (fst (fst out))) ->
          In k (dict_keys tf) \/ exists v, In (SFulfilled k v) settled).
Proof.
  induction settled as [|r rest IH]; intros tf errs evs; cbn zeta.
  - simpl. rewrite app_nil_r. repeat split; auto.
  - cbn [fold_left]. destruct r as [m|m v|m reason]; cbn [settleForecast].
    + specialize (IH tf errs evs). cbn zeta in IH.
      destruct IH as (H1 & H2 & H3 & H4 & H5).
      repeat split; auto.
      intros k Hk. destruct (H5 k Hk) as [?|(v & ?)]; [now left | right; exists v; now right].
    + specialize (IH (dict_set tf m v) errs evs). cbn zeta in IH.
      destruct IH as (H1 & H2 & H3 & H4 & H5).
      repeat split; auto.
      * intros Hnd. apply H4. now apply dict_set_NoDup.
      * intros k Hk. destruct (H5 k Hk) as [Hin|(v' & ?)].
        -- destruct (dict_get tf m) eqn:E.
           ++ rewrite (dict_keys_set_present _ _ _ v _ E) in Hin. now left.
           ++ rewrite (dict_keys_set_absent _ _ _ v E) in Hin.
              apply in_app_or in Hin as [?|[<-|[]]]; [now left|].
              right. exists v. now left.
        -- right. exists v'. now right.
    + specialize (IH tf (recordError errs m (cleanMessage m (forecastErrorMessage reason)))
                    (evs ++ [ForecastFailed i m (forecastErrorMessage reason)])).
      cbn zeta in IH. destruct IH as (H1 & H2 & H3 & H4 & H5).
      split; [|split; [|split; [|split]]].
      * rewrite H1. cbn [forecastFailures flat_map]. now rewrite <- app_assoc.
      * intros m0 Hm0. rewrite H2 by now apply hasError_recordError.
        now apply recordError_keeps.
      * intros m0 msg Hin Htruthy. cbn [forecastFailures flat_map app] in Hin.
        destruct Hin as [Heq|Hin].
        -- injection Heq as -> <-.
           unfold hasError. rewrite H2 by now apply recordError_sets.
           now apply recordError_sets.
        -- now apply H3 with (msg := msg).
      * exact H4.
      * intros k Hk. destruct (H5 k Hk) as [?|(v & ?)]; [now left | right; exists v; now right].
Qed.
End Phases.

Section Phases2.
Variable generateForecast :
  nat -> nat -> nat -> ForecastRequest -> string -> Outcome ForecastResult.
Variable generateJudgement : nat -> JudgeRequest -> string -> Outcome JudgeResult.
Variable Math_random : nat -> nat -> nat -> Q.
Variables (config : Configuration) (models : list string).

Variables (i : nat) (currentTick nextTick : Tick).

Lemma forecastPhase_eq st :
  forecastPhase generateForecast Math_random config models i currentTick nextTick st =
  let fp := forecastPromises generateForecast Math_random config i currentTick nextTick st 0
      models in
  let out := fold_left (settleForecast i) (fst fp) ([], persistentModelErrors st, []) in
  ({| modelFeedbackHistory := modelFeedbackHistory st;
      modelPerformanceHistory := modelPerformanceHistory st;
      tickResults := tickResults st;
      persistentModelErrors := snd (fst out);
      trace := trace st ++ snd fp ++ snd out |},
   fst (fst out)).
Proof.
  unfold forecastPhase.
  destruct (forecastPromises _ _ _ _ _ _ _ _ _) as [settled calls].
  cbn [fst snd]. destruct (fold_left _ _ _) as [[tf errs] logs]. reflexivity.
Qed.

(** **** Evaluation *)

Lemma evaluationPromise_call st actual entry :
  snd (evaluationPromise generateJudgement config i currentTick nextTick st actual entry)
  = [JudgeCall i (fst entry)].
Proof.
  destruct entry as [m f]. unfold evaluationPromise.
  destruct (generateJudgement _ _ _); reflexivity.
Qed.

Lemma evaluation_calls st actual tf :
  flat_map snd (map (evaluationPromise generateJudgement config i currentTick nextTick st actual)
      tf)
  = map (fun entry => JudgeCall i (fst entry)) tf.
Proof.
  induction tf as [|entry rest IH]; [reflexivity|].
  cbn [map flat_map]. now rewrite evaluationPromise_call, IH.
Qed.

Lemma settleEvaluation_fold tf actual settled :
  forall acc,
    let out := fold_left (settleEvaluation i tf actual) settled acc in
    ea_events out = ea_events acc ++ evaluationFailures i settled
    /\ (forall m, hasError (ea_errors acc) m = true ->
          dict_get (ea_errors out) m = dict_get (ea_errors acc) m)
    /\ (forall m msg, In (EvaluationFailed i m msg) (evaluationFailures i settled) ->
          hasError (ea_errors out) m = true).
Proof.
  induction settled as [|r rest IH]; intros acc; cbn zeta.
  - simpl. rewrite app_nil_r. repeat split; auto.
  - cbn [fold_left]. specialize (IH (settleEvaluation i tf actual acc r)). cbn zeta in IH.
    destruct IH as (H1 & H2 & H3).
    destruct r as [m|m v|m reason]; cbn [settleEvaluation ea_events ea_errors] in *.
    + repeat split; auto.
    + repeat split; auto.
    + split; [|split].
      * rewrite H1. cbn [evaluationFailures flat_map]. now rewrite <- app_assoc.
      * intros m0 Hm0. rewrite H2 by now apply hasError_recordError.
        now apply recordError_keeps.
      * intros m0 msg Hin. cbn [evaluationFailures flat_map app] in Hin.
        destruct Hin as [Heq|Hin].
        -- injection Heq as -> <-. unfold hasError.
           rewrite H2 by (apply recordError_sets; reflexivity).
           apply recordError_sets. reflexivity.
        -- now apply H3 with (msg := msg).
Qed.

Lemma judgeCalls_once m tf :
  NoDup (dict_keys tf) ->
  (List.length (filter (isJudgeCallFor m)
                  (map (fun entry : string * ForecastResult => JudgeCall i (fst entry)) tf))
   <= 1)%nat.
Proof.
  unfold dict_keys. induction tf as [|[k f] rest IH]; intros Hnd; [simpl; lia|].
  inversion Hnd as [|? ? Hnotin Hrest]; subst.
  cbn [map filter isJudgeCallFor fst].
  destruct (String.eqb_spec k m) as [->|Hk]; [|now apply IH].
  cbn [List.length].
  assert (Hnone : filter (isJudgeCallFor m)
                    (map (fun entry : string * ForecastResult => JudgeCall i (fst entry)) rest)
                  = []).
  { clear -Hnotin. induction rest as [|[k' f'] r IH]; [reflexivity|].
    cbn [map filter isJudgeCallFor fst].
    destruct (String.eqb_spec k' m) as [->|].
    - exfalso. apply Hnotin. now left.
    - apply IH. intros H. apply Hnotin. now right. }
  rewrite Hnone. simpl. lia.
Qed.
End Phases2.

Section Step.
Variable generateForecast :
  nat -> nat -> nat -> ForecastRequest -> string -> Outcome ForecastResult.
Variable generateJudgement : nat -> JudgeRequest -> string -> Outcome JudgeResult.
Variable Math_random : nat -> nat -> nat -> Q.
Variables (config : Configuration) (models : list string) (ticks : list Tick).

Lemma forecastFailures_In i settled e :
  In e (forecastFailures i settled) ->
  exists m reason, e = ForecastFailed i m (forecastErrorMessage reason)
                   /\ In (SRejected m reason) settled.
Proof.
  unfold forecastFailures. rewrite in_flat_map. intros (r & Hr & He).
  destruct r as [m|m v|m reason]; try destruct He.
  - subst. eauto.
  - contradiction.
Qed.

Lemma evaluationFailures_In i settled e :
  In e (evaluationFailures i settled) ->
  exists m reason, e = EvaluationFailed i m (evaluationErrorMessage reason).
Proof.
  unfold evaluationFailures. rewrite in_flat_map. intros (r & Hr & He).
  destruct r as [m|m v|m reason]; try destruct He.
  - subst. eauto.
  - contradiction.
Qed.

Lemma filter_none (A : Type) (f : A -> bool) (l : list A) :
  (forall x, In x l -> f x = false) -> filter f l = [].
Proof.
  induction l as [|x r IH]; intros H; [reflexivity|]. simpl.
  rewrite (H x (or_introl eq_refl)). apply IH. intros y Hy. apply H. now right.
Qed.

(** The facts about the forecast step that the loop invariants use. *)
Lemma forecastPhase_facts i currentTick nextTick st :
  let out := forecastPhase generateForecast Math_random config models i currentTick nextTick st in
  exists calls logs,
    trace (fst out) = trace st ++ calls ++ logs
    /\ tickResults (fst out) = tickResults st
    /\ (forall e, In e calls ->
          tickOf e = i
          /\ exists m', hasError (persistentModelErrors st) m' = false
               /\ ((exists s a, e = ForecastCall i s m' a)
                   \/ exists s a d, e = RetrySleep i s m' a d))
    /\ (forall e, In e logs -> exists m msg, e = ForecastFailed i m msg)
    /\ (forall k m, nth_error models k = Some m ->
          hasError (persistentModelErrors st) m = false -> In (ForecastCall i k m 0) calls)
    /\ (forall m, hasError (persistentModelErrors st) m = true ->
          dict_get (persistentModelErrors (fst out)) m = dict_get (persistentModelErrors st) m)
    /\ (forall m msg, In (ForecastFailed i m msg) logs ->
          JsString.truthy (cleanMessage m msg) = true ->
          hasError (persistentModelErrors (fst out)) m = true)
    /\ NoDup (dict_keys (snd out))
    /\ (forall k, In k (dict_keys (snd out)) -> hasError (persistentModelErrors st) k = false).
Proof.
  cbn zeta. rewrite forecastPhase_eq. cbn zeta.
  pose proof (forecastPromises_spec generateForecast Math_random config i currentTick nextTick
                st models 0) as Hfp.
  destruct (forecastPromises generateForecast Math_random config i currentTick nextTick st 0
      models)
    as [settled calls].
  destruct Hfp as (Hset & Hcalls & Hinv). cbn [fst snd].
  destruct (settleForecast_fold i settled [] (persistentModelErrors st) [])
    as (Hlogs & Hkeep & Hrec & Hnd & Hkeys).
  exists calls, (forecastFailures i settled).
  cbn [trace tickResults persistentModelErrors].
  split; [do 2 f_equal; exact Hlogs|]. split; [reflexivity|]. split.
  { intros e He. destruct (Hcalls e He) as (Ht & m' & Hm' & _ & Hshape). eauto. }
  split.
  { intros e He. apply forecastFailures_In in He as (m & reason & -> & _). eauto. }
  split; [exact Hinv|]. split; [exact Hkeep|]. split; [exact Hrec|].
  split; [apply Hnd; constructor|].
  intros k Hk. destruct (Hkeys k Hk) as [[]|(v & Hv)].
  destruct (Hset _ Hv) as [_ H]. now apply H.
Qed.

Lemma processTick_step i st :
  exists new,
    StepOk i st (snd (processTick generateForecast generateJudgement Math_random
                        config models ticks i st)) new.
Proof.
  unfold processTick.
  destruct (nth_error ticks i) as [currentTick|];
    [destruct (nth_error ticks (i + 1)) as [nextTick|]|].
  2,3: exists []; cbn [snd]; unfold StepOk; rewrite app_nil_r;
       repeat split; auto; try (simpl; lia);
       solve [intros; simpl in *; contradiction | simpl in *; contradiction].
  destruct (forecastPhase_facts i currentTick nextTick st)
    as (calls & logs & Htr & Hres & Hcalls & Hlogs & _ & Hkeep & Hrec & Hnd & Hkeys).
  destruct (forecastPhase generateForecast Math_random config models i currentTick nextTick st)
    as [st1 tf].
  cbn [fst snd] in *.
  assert (Hcalls_m : forall m, hasError (persistentModelErrors st) m = true ->
            forall e, In e (calls ++ logs) ->
              isForecastCallFor m e = false /\ isJudgeCallFor m e = false).
  { intros m Hm e He. apply in_app_or in He as [He|He].
    - destruct (Hcalls e He) as (_ & m' & Hm' & [(s & a & ->)|(s & a & d & ->)]);
        cbn [isForecastCallFor isJudgeCallFor]; [|auto].
      split; [|reflexivity]. apply String.eqb_neq. intros ->. congruence.
    - destruct (Hlogs e He) as (m' & msg & ->). auto. }
  assert (Hnojudge : forall m e, In e (calls ++ logs) -> isJudgeCallFor m e = false).
  { intros m e He. apply in_app_or in He as [He|He].
    - destruct (Hcalls e He) as (_ & m' & _ & [(s & a & ->)|(s & a & d & ->)]); reflexivity.
    - destruct (Hlogs e He) as (m' & msg & ->). reflexivity. }
  assert (Hticks : forall e, In e (calls ++ logs) -> tickOf e = i).
  { intros e He. apply in_app_or in He as [He|He].
    - now destruct (Hcalls e He).
    - destruct (Hlogs e He) as (m' & msg & ->). reflexivity. }
  assert (Hff : forall m msg, In (ForecastFailed i m msg) (calls ++ logs) ->
                  In (ForecastFailed i m msg) logs).
  { intros m msg He. apply in_app_or in He as [He|He]; [|assumption].
    destruct (Hcalls _ He) as (_ & m' & _ & [(s & a & Heq)|(s & a & d & Heq)]); discriminate. }
  assert (Hnoeval : forall m msg, ~ In (EvaluationFailed i m msg) (calls ++ logs)).
  { intros m msg He. apply in_app_or in He as [He|He].
    - destruct (Hcalls _ He) as (_ & m' & _ & [(s & a & Heq)|(s & a & d & Heq)]); discriminate.
    - destruct (Hlogs _ He) as (m' & msg' & Heq). discriminate. }
  destruct (value (primary nextTick)) as [actualValue|].
  - (* evaluation and commit *)
    cbn [snd]. unfold evaluationPhase.
    rewrite evaluation_calls.
    set (settled := map fst (map (evaluationPromise generateJudgement config i currentTick
                                    nextTick st1 actualValue) tf)).
    set (acc0 := {| ea_evaluations := []; ea_feedback := modelFeedbackHistory st1;
                    ea_performance := modelPerformanceHistory st1;
                    ea_errors := persistentModelErrors st1; ea_events := [] |}).
    destruct (settleEvaluation_fold i tf actualValue settled acc0) as (Hev & Hkeep2 & Hrec2).
    set (acc := fold_left (settleEvaluation i tf actualValue) settled acc0) in *.
    cbn [ea_events ea_errors acc0 app] in Hev, Hkeep2.
    set (judgeCalls := map (fun entry : string * ForecastResult => JudgeCall i (fst entry)) tf).
    exists ((calls ++ logs) ++ judgeCalls ++ evaluationFailures i settled).
    unfold StepOk. cbn [trace persistentModelErrors tickResults].
    assert (Hmono : forall m, hasError (persistentModelErrors st) m = true ->
              hasError (persistentModelErrors st1) m = true).
    { intros m Hm. unfold hasError. rewrite Hkeep by assumption. exact Hm. }
    split; [rewrite Htr, Hev; now rewrite <- !app_assoc|]. split.
    { intros e He. apply in_app_or in He as [He|He]; [auto|].
      apply in_app_or in He as [He|He].
      - apply in_map_iff in He as (entry & <- & _). reflexivity.
      - apply evaluationFailures_In in He as (m & reason & ->). reflexivity. }
    split.
    { intros m Hm. split.
      - rewrite Hkeep2 by auto. auto.
      - intros e He. apply in_app_or in He as [He|He]; [auto|].
        apply in_app_or in He as [He|He].
        + apply in_map_iff in He as ([k f] & <- & Hk). cbn [fst isForecastCallFor isJudgeCallFor].
          split; [reflexivity|]. apply String.eqb_neq. intros ->.
          assert (hasError (persistentModelErrors st) m = false).
          { apply Hkeys. unfold dict_keys. apply in_map_iff. exists (m, f). auto. }
          congruence.
        + apply evaluationFailures_In in He as (m' & reason & ->). auto. }
    split.
    { intros m msg He. apply in_app_or in He as [He|He]; [now apply Hnoeval in He|].
      apply in_app_or in He as [He|He].
      - apply in_map_iff in He as (entry & Heq & _). discriminate.
      - now apply Hrec2 with (msg := msg). }
    split.
    { intros m msg He Htruthy.
      assert (Hin : In (ForecastFailed i m msg) logs).
      { apply in_app_or in He as [He|He]; [auto|].
        apply in_app_or in He as [He|He].
        - apply in_map_iff in He as (entry & Heq & _). discriminate.
        - apply evaluationFailures_In in He as (m' & reason & Heq). discriminate. }
      unfold hasError. rewrite Hkeep2 by eauto. eapply Hrec; eauto. }
    split.
    { rewrite Hres. destruct (ea_evaluations acc); [now left|].
      right. eexists. split; reflexivity. }
    intros m. rewrite (filter_app _ (calls ++ logs)), length_app.
    rewrite (filter_none _ (isJudgeCallFor m) (calls ++ logs)) by (intros; now apply Hnojudge).
    rewrite filter_app, length_app.
    rewrite (filter_none _ (isJudgeCallFor m) (evaluationFailures i settled)).
    + pose proof (judgeCalls_once i m tf Hnd). fold judgeCalls in H. simpl. lia.
    + intros e He. apply evaluationFailures_In in He as (m' & reason & ->). reflexivity.
  - (* no actual value: the loop ends *)
    cbn [snd]. exists ((calls ++ logs) ++ [LoopEnded i]).
    unfold StepOk, logEnding. cbn [trace persistentModelErrors tickResults].
    split; [rewrite Htr; now rewrite <- !app_assoc|]. split.
    { intros e He. apply in_app_or in He as [He|[<-|[]]]; auto. }
    split.
    { intros m Hm. split; [auto|].
      intros e He. apply in_app_or in He as [He|[<-|[]]]; auto. }
    split.
    { intros m msg He. apply in_app_or in He as [He|[Heq|[]]];
        [now apply Hnoeval in He | discriminate]. }
    split.
    { intros m msg He Htruthy. apply in_app_or in He as [He|[Heq|[]]]; [|discriminate].
      eapply Hrec; eauto. }
    split; [now left|].
    intros m. rewrite filter_app, length_app.
    rewrite (filter_none _ (isJudgeCallFor m) (calls ++ logs)) by (intros; now apply Hnojudge).
    simpl. lia.
Qed.
End Step.

Section Loop.
Variable generateForecast :
  nat -> nat -> nat -> ForecastRequest -> string -> Outcome ForecastResult.
Variable generateJudgement : nat -> JudgeRequest -> string -> Outcome JudgeResult.
Variable Math_random : nat -> nat -> nat -> Q.
Variables (config : Configuration) (ticks : list Tick).



Lemma LoopInv_weaken i i' st : (i <= i')%nat -> LoopInv i st -> LoopInv i' st.
Proof.
  intros Hle (H1 & H2 & H3 & H4 & H5 & H6).
  repeat split; auto.
  - intros e He. specialize (H1 e He). lia.
  - now apply (H3 j m).
  - now apply (H3 j m).
  - lia.
  - intros r Hr. specialize (H6 r Hr). lia.
Qed.

Lemma filter_length_le (A : Type) (f g : A -> bool) (l : list A) :
  (forall x, f x = true -> g x = true) ->
  (List.length (filter f l) <= List.length (filter g l))%nat.
Proof.
  intros Hfg. induction l as [|x r IH]; [simpl; lia|]. simpl.
  destruct (f x) eqn:E.
  - rewrite (Hfg x E). simpl. lia.
  - destruct (g x); simpl; lia.
Qed.

Lemma LoopInv_step i st : LoopInv i st -> LoopInv (S i) (snd (processTick generateForecast
    generateJudgement Math_random config (forecasterModelsOf config) ticks i st)).
Proof.
  intros (Hold & Hfail & Hsticky & Hjudge & Hlen & Hidx).
  destruct (processTick_step generateForecast generateJudgement Math_random
              config (forecasterModelsOf config) ticks i st)
    as (new & Htr & Hticks & Hkeep & Heval & Hfc & Hres & Honce).
  set (st' := snd (processTick _ _ _ _ _ _ i st)) in *.
  assert (Hsplit : forall j m, failedAt (trace st') j m ->
            failedAt (trace st) j m
            \/ (j = i /\ hasError (persistentModelErrors st') m = true)).
  { intros j m [(msg & Hin)|(msg & Hin & Htruthy)]; rewrite Htr in Hin;
      apply in_app_or in Hin as [Hin|Hin].
    - left. left. eauto.
    - right. pose proof (Hticks _ Hin) as Ht. simpl in Ht. subst j. eauto.
    - left. right. eauto.
    - right. pose proof (Hticks _ Hin) as Ht. simpl in Ht. subst j. eauto. }
  unfold LoopInv. split; [|split; [|split; [|split; [|split]]]].
  - intros e He. rewrite Htr in He. apply in_app_or in He as [He|He].
    + specialize (Hold e He). lia.
    + rewrite (Hticks e He). lia.
  - intros j m Hf. destruct (Hsplit j m Hf) as [Hf'|[_ H]]; [|assumption].
    pose proof (Hfail j m Hf') as Hm. destruct (Hkeep m Hm) as [Hget _].
    unfold hasError in *. now rewrite Hget.
  - intros j m Hf e He Hlt. rewrite Htr in He.
    destruct (Hsplit j m Hf) as [Hf'|[-> _]].
    + apply in_app_or in He as [He|He]; [now apply (Hsticky j m Hf')|].
      destruct (Hkeep m (Hfail j m Hf')) as [_ Hnew]. now apply Hnew.
    + exfalso. apply in_app_or in He as [He|He].
      * specialize (Hold e He). lia.
      * rewrite (Hticks e He) in Hlt. lia.
  - intros j m. rewrite Htr, filter_app, length_app.
    destruct (Nat.eq_dec j i) as [->|Hne].
    + rewrite (filter_none _ (isJudgeCallAt i m) (trace st)).
      * pose proof (filter_length_le _ (isJudgeCallAt i m) (isJudgeCallFor m) new) as Hle.
        specialize (Honce m). simpl.
        assert (forall x, isJudgeCallAt i m x = true -> isJudgeCallFor m x = true).
        { intros [] Hx; simpl in *; try discriminate.
          now apply andb_true_iff in Hx as [_ ?]. }
        specialize (Hle H). lia.
      * intros e He. specialize (Hold e He). destruct e; simpl in *; try reflexivity.
        destruct (Nat.eqb_spec tick i); [lia | reflexivity].
    + rewrite (filter_none _ (isJudgeCallAt j m) new).
      * specialize (Hjudge j m). simpl. lia.
      * intros e He. pose proof (Hticks e He) as Ht. destruct e; simpl in *; try reflexivity.
        destruct (Nat.eqb_spec tick j); [lia | reflexivity].
  - destruct Hres as [->|(r & -> & _)]; [lia|]. rewrite length_app. simpl. lia.
  - intros r Hr. destruct Hres as [Heq|(r' & Heq & Hr')]; rewrite Heq in Hr.
    + specialize (Hidx r Hr). lia.
    + apply in_app_or in Hr as [Hr|[<-|[]]]; [specialize (Hidx r Hr)|]; lia.
Qed.

Lemma LoopInv_loop n :
  forall i st, LoopInv i st -> LoopInv (i + n) (forLoop generateForecast generateJudgement
      Math_random config (forecasterModelsOf config) ticks n i st).
Proof.
  induction n as [|n IH]; intros i st Hinv.
  - now rewrite Nat.add_0_r.
  - cbn [forLoop]. pose proof (LoopInv_step i st Hinv) as Hstep. 
    destruct (processTick _ _ _ _ _ _ i st) as [[|] st']; cbn [snd] in Hstep.
    + rewrite <- plus_n_Sm. apply (IH (S i) st' Hstep).
    + apply LoopInv_weaken with (i := S i); [lia | assumption].
Qed.

Lemma LoopInv_initial : LoopInv 0 (initialState (forecasterModelsOf config)).
Proof.
  unfold LoopInv, initialState. cbn [trace tickResults persistentModelErrors].
  split; [intros e []|].
  split; [intros j m [(msg & [])|(msg & [] & _)]|].
  split; [intros j m [(msg & [])|(msg & [] & _)]|].
  split; [intros j m; simpl; lia|].
  split; [simpl; lia | intros r []].
Qed.

(** While the next value is there the loop goes on. *)
Lemma processTick_continue i st p :
  (S i < List.length ticks)%nat -> nextValue ticks i = Some p ->
  fst (processTick generateForecast generateJudgement Math_random config (forecasterModelsOf
      config) ticks i st) = Continue.
Proof.
  intros Hlen Hnext. unfold processTick, nextValue in *.
  rewrite Nat.add_1_r.
  destruct (nth_error ticks i) eqn:Ei;
    [|apply nth_error_None in Ei; lia].
  destruct (nth_error ticks (S i)) eqn:En; [|discriminate].
  destruct (forecastPhase _ _ _ _ _ _ _ _) as [st1 tf].
  rewrite Hnext. reflexivity.
Qed.

Lemma processTick_break i st currentTick nextTick :
  nth_error ticks i = Some currentTick ->
  nth_error ticks (S i) = Some nextTick ->
  value (primary nextTick) = None ->
  processTick generateForecast generateJudgement Math_random config (forecasterModelsOf config)
      ticks i st
  = (Break,
     logEnding i (fst (forecastPhase generateForecast Math_random config (forecasterModelsOf
         config) i
                         currentTick nextTick st))).
Proof.
  intros Hc Hn Hv. unfold processTick. rewrite Nat.add_1_r, Hc, Hn.
  destruct (forecastPhase _ _ _ _ _ _ _ _) as [st1 tf]. now rewrite Hv.
Qed.

Lemma forLoop_prefix a :
  forall b i st,
    (forall j, (i <= j < i + a)%nat ->
       (S j < List.length ticks)%nat /\ nextValue ticks j <> None) ->
    forLoop generateForecast generateJudgement Math_random config (forecasterModelsOf config)
        ticks (a + b)%nat i st = forLoop generateForecast generateJudgement Math_random config
            (forecasterModelsOf config) ticks b (i + a)%nat (forLoop generateForecast
                generateJudgement Math_random config (forecasterModelsOf config) ticks a i st).
Proof.
  induction a as [|a IH]; intros b i st Hok.
  - now rewrite Nat.add_0_r.
  - cbn [Nat.add forLoop].
    destruct (Hok i ltac:(lia)) as [Hlen Hnext].
    destruct (nextValue ticks i) as [p|] eqn:En; [|congruence].
    pose proof (processTick_continue i st p Hlen En) as Hc. 
    destruct (processTick _ _ _ _ _ _ i st) as [flow st']. cbn [fst] in Hc. subst flow.
    rewrite <- plus_n_Sm. apply IH. intros j Hj. apply Hok. lia.
Qed.

Lemma run_invariant : LoopInv (maxTicksToProcess config ticks) (simulate generateForecast
    generateJudgement Math_random config ticks).
Proof. exact (LoopInv_loop (maxTicksToProcess config ticks) 0 _ LoopInv_initial). Qed.

Lemma upTo_invariant k : LoopInv k (progress generateForecast generateJudgement Math_random config
    ticks k).
Proof. exact (LoopInv_loop k 0 _ LoopInv_initial). Qed.



(** C3, amended.  An error is retryable exactly when its text, the
    message of an Error or the string conversion of any other value,
    contains in lower case one of 'rate limit', '500', '502', '503',
    '504' and 'overloaded'.  A call through the retry wrapper makes the
    attempts 0 .. last with last < 3, so at most 3 in all; every attempt
    before the last failed with a retryable error and was followed by a
    sleep of 2^attempts seconds plus the jitter, which is below one
    second when Math.random is in [0, 1); the wrapper returns what the
    last attempt returned, and a failed last attempt is either not
    retryable or the third.  The judge is called at most once per tick
    and forecaster, and a forecaster whose evaluation failed on tick j
    has an error recorded and is neither forecast nor judged on any later
    tick. *)
Theorem retry_policy :
  let run := simulate generateForecast generateJudgement Math_random config ticks in
  (forall e,
     isRetryable e = true
     <-> exists trigger,
           In trigger ["rate limit"; "500"; "502"; "503"; "504"; "overloaded"]
           /\ JsString.includes (JsString.toLowerCase (thrownText e)) trigger = true)
  /\ (forall tick slot prompt m,
     exists last,
       (last < 3)%nat
       /\ getForecastWithRetries generateForecast Math_random tick slot prompt m
          = (generateForecast tick slot last prompt m,
             retryEvents Math_random tick slot m 0 last ++ [ForecastCall tick slot m last])
       /\ (List.length
             (filter isForecastCall
                (snd (getForecastWithRetries generateForecast Math_random tick slot prompt m)))
           <= 3)%nat
       /\ (forall a, (a < last)%nat ->
             exists e, generateForecast tick slot a prompt m = Rejected e
                       /\ isRetryable e = true)
       /\ (forall e, generateForecast tick slot last prompt m = Rejected e ->
             isRetryable e = false \/ S last = 3%nat)
       /\ (forall a, 0 <= Math_random tick slot a -> Math_random tick slot a < 1 ->
             2 ^ Z.of_nat (S a) * 1000 <= backoffDelay (S a) (Math_random tick slot a)
             /\ backoffDelay (S a) (Math_random tick slot a)
                < 2 ^ Z.of_nat (S a) * 1000 + 1000))
  /\ (forall j m, (List.length (filter (isJudgeCallAt j m) (trace run)) <= 1)%nat)
  /\ (forall j m msg, In (EvaluationFailed j m msg) (trace run) ->
        hasError (persistentModelErrors run) m = true
        /\ forall e, In e (trace run) -> (j < tickOf e)%nat ->
             isForecastCallFor m e = false /\ isJudgeCallFor m e = false).
Proof.
  intros run. subst run.
  split; [|split; [|split]].
  - intros e. unfold isRetryable. cbv zeta.
    rewrite <- existsb_exists with
      (f := fun t => JsString.includes (JsString.toLowerCase (thrownText e)) t).
    cbn [existsb]. rewrite orb_false_r, !orb_assoc. reflexivity.
  - intros tick slot prompt m.
    destruct (retryLoop_spec generateForecast Math_random tick slot prompt m maxRetries 0)
      as (last & Hrange & Hrun & Hfailed & Hstop); [unfold maxRetries; lia | lia |].
    exists last. rewrite Nat.sub_0_r in Hrun. unfold maxRetries in Hrange, Hstop.
    split; [lia|]. split; [exact Hrun|]. split; [|split; [|split]].
    + unfold getForecastWithRetries. rewrite Hrun. cbn [snd].
      rewrite filter_app, length_app, retryEvents_calls. simpl. lia.
    + intros a Ha. apply Hfailed. lia.
    + exact Hstop.
    + intros a H0 H1. now apply backoffDelay_bounds.
  - destruct run_invariant as (_ & _ & _ & Hjudge & _). exact Hjudge.
  - intros j m msg Hin. destruct run_invariant as (_ & Hfail & Hsticky & _).
    assert (Hf : failedAt (trace (simulate generateForecast generateJudgement Math_random config
        ticks)) j m) by (left; eauto).
    split; [now apply (Hfail j m)|]. now apply (Hsticky j m).
Qed.

(** C2, amended.  Let i be the first tick index whose next tick has no
    value, with i below the number of ticks to process.  The loop stops
    in iteration i, after the forecast phase and before the evaluation
    phase: every forecaster without a recorded error is called for
    tick i, no judge call is made for tick i, nothing of a later tick
    happens, no tick result is committed for tick i and the tick results
    committed for the earlier ticks are the ones returned. *)
Theorem halt_on_missing_actual i :
  let run := simulate generateForecast generateJudgement Math_random config ticks in
  let upTo := progress generateForecast generateJudgement Math_random config ticks in
  (i < maxTicksToProcess config ticks)%nat ->
  (forall j, (j < i)%nat -> nextValue ticks j <> None) ->
  nextValue ticks i = None ->
  tickResults run = tickResults (upTo i)
  /\ (forall r, In r (tickResults run) -> (tickIndex r < i)%nat)
  /\ (forall e, In e (trace run) -> (tickOf e <= i)%nat)
  /\ (forall m e, In e (trace run) -> tickOf e = i -> isJudgeCallFor m e = false)
  /\ In (LoopEnded i) (trace run)
  /\ (forall k m, nth_error (forecasterModelsOf config) k = Some m ->
        hasError (persistentModelErrors (upTo i)) m = false ->
        In (ForecastCall i k m 0) (trace run)).
Proof.
  intros run upTo. subst run upTo.
  intros Hi Hbefore Hnull.
  assert (Hlen : (S i < List.length ticks)%nat)
    by (unfold maxTicksToProcess in Hi; lia).
  destruct (nth_error ticks i) as [currentTick|] eqn:Ec;
    [|apply nth_error_None in Ec; lia].
  destruct (nth_error ticks (S i)) as [nextTick|] eqn:En;
    [|apply nth_error_None in En; lia].
  assert (Hv : value (primary nextTick) = None)
    by (unfold nextValue in Hnull; now rewrite En in Hnull).
  assert (Hrun : (simulate generateForecast generateJudgement Math_random config ticks) =
      logEnding i
                         (fst (forecastPhase generateForecast Math_random config
                             (forecasterModelsOf config) i
                                 currentTick nextTick (progress generateForecast generateJudgement
                                     Math_random config ticks i)))).
  { unfold simulate, progress.
    replace (maxTicksToProcess config ticks)
      with (i + S (maxTicksToProcess config ticks - S i))%nat at 1 by lia.
    pose proof (forLoop_prefix i (S (maxTicksToProcess config ticks - S i)) 0
                  (initialState (forecasterModelsOf config))) as Hp.
    rewrite Hp.
    - cbn [forLoop Nat.add].
      pose proof (processTick_break i
                    (forLoop generateForecast generateJudgement Math_random config
                       (forecasterModelsOf config) ticks i 0
                       (initialState (forecasterModelsOf config)))
                    currentTick nextTick Ec En Hv) as Hb.
      rewrite Hb. reflexivity.
    - intros j Hj. split; [lia|]. apply Hbefore. lia. }
  destruct (forecastPhase_facts generateForecast Math_random config (forecasterModelsOf config) i
      currentTick
              nextTick (progress generateForecast generateJudgement Math_random config ticks i))
    as (calls & logs & Htr & Hres & Hcalls & Hlogs & Hinv & _).
  destruct (upTo_invariant i) as (Hold & _ & _ & _ & _ & Hidx).
  assert (Htrace : trace (simulate generateForecast generateJudgement Math_random config ticks) =
      trace (progress generateForecast generateJudgement Math_random config ticks i) ++ (calls ++
          logs) ++ [LoopEnded i]).
  { rewrite Hrun. unfold logEnding. cbn [trace]. rewrite Htr. now rewrite <- !app_assoc. }
  assert (Hnew : forall e, In e ((calls ++ logs) ++ [LoopEnded i]) ->
            tickOf e = i /\ forall m, isJudgeCallFor m e = false).
  { intros e He. apply in_app_or in He as [He|[<-|[]]]; [|auto].
    apply in_app_or in He as [He|He].
    - destruct (Hcalls e He) as (Ht & m' & _ & [(s & a & ->)|(s & a & d & ->)]); auto.
    - destruct (Hlogs e He) as (m' & msg & ->). auto. }
  split; [|split; [|split; [|split; [|split]]]].
  - rewrite Hrun. unfold logEnding. cbn [tickResults]. exact Hres.
  - intros r Hr. rewrite Hrun in Hr. unfold logEnding in Hr. cbn [tickResults] in Hr.
    rewrite Hres in Hr. now apply Hidx.
  - intros e He. rewrite Htrace in He. apply in_app_or in He as [He|He].
    + specialize (Hold e He). lia.
    + destruct (Hnew e He) as [-> _]. lia.
  - intros m e He Ht. rewrite Htrace in He. apply in_app_or in He as [He|He].
    + specialize (Hold e He). lia.
    + now destruct (Hnew e He) as [_ H].
  - rewrite Htrace. apply in_or_app. right. apply in_or_app. right. now left.
  - intros k m Hk Hm. rewrite Htrace. apply in_or_app. right.
    apply in_or_app. left. apply in_or_app. left. now apply Hinv.
Qed.
End Loop.

Section Alignment.
Variable generateForecast :
  nat -> nat -> nat -> ForecastRequest -> string -> Outcome ForecastResult.
Variable generateJudgement : nat -> JudgeRequest -> string -> Outcome JudgeResult.
Variable Math_random : nat -> nat -> nat -> Q.
Variables (config : Configuration) (models : list string) (ticks : list Tick).

(** Every error of a forecaster carries some text besides the model
    tag, as the errors built by [generateJsonContent] do. *)
Hypothesis failures_have_text :
  forall tick slot attempt prompt m reason,
    generateForecast tick slot attempt prompt m = Rejected reason ->
    JsString.truthy (cleanMessage m (forecastErrorMessage reason)) = true.

Lemma hasError_ext (d d' : Dict string) m :
  dict_get d m = dict_get d' m -> hasError d m = hasError d' m.
Proof. intros H. unfold hasError. now rewrite H. Qed.

Lemma forecastPromise_settled i currentTick nextTick st slot m :
  hasError (persistentModelErrors st) m = false ->
  (exists v,
     fst (forecastPromise generateForecast Math_random config i currentTick nextTick st slot m)
     = SFulfilled m v)
  \/ (exists reason,
        fst (forecastPromise generateForecast Math_random config i currentTick nextTick st slot m)
        = SRejected m reason
        /\ JsString.truthy (cleanMessage m (forecastErrorMessage reason)) = true).
Proof.
  intros Hm. unfold forecastPromise. rewrite Hm.
  set (prompt := {| fq_basePrompt := _ |}).
  unfold getForecastWithRetries.
  destruct (retryLoop_spec generateForecast Math_random i slot prompt m maxRetries 0)
    as (last & _ & -> & _); [unfold maxRetries; lia | lia |].
  destruct (generateForecast i slot last prompt m) as [v|reason] eqn:E; cbn [fst].
  - left. eauto.
  - right. exists reason. split; [reflexivity|]. eapply failures_have_text; eauto.
Qed.

Lemma forecastPromises_settled i currentTick nextTick st ms m :
  forall slot,
    In m ms -> hasError (persistentModelErrors st) m = false ->
    exists r,
      In r (fst (forecastPromises generateForecast Math_random config i currentTick nextTick
                   st slot ms))
      /\ ((exists v, r = SFulfilled m v)
          \/ exists reason,
               r = SRejected m reason
               /\ JsString.truthy (cleanMessage m (forecastErrorMessage reason)) = true).
Proof.
  induction ms as [|m0 rest IH]; intros slot Hin Hm; [destruct Hin|].
  cbn [forecastPromises].
  pose proof (forecastPromise_settled i currentTick nextTick st slot m Hm) as Hone.
  destruct (forecastPromise generateForecast Math_random config i currentTick nextTick st slot m0)
    as [r evs] eqn:E1.
  specialize (IH (S slot)).
  destruct (forecastPromises generateForecast Math_random config i currentTick nextTick st
              (S slot) rest) as [rs evs'].
  cbn [fst] in *. destruct Hin as [->|Hin].
  - rewrite E1 in Hone. cbn [fst] in Hone. exists r. split; [now left|].
    destruct Hone as [(v & ->)|(reason & -> & Ht)]; eauto.
  - destruct (IH Hin Hm) as (r' & Hr' & Hshape). exists r'. split; [now right | assumption].
Qed.

Lemma settleForecast_keys i settled :
  forall tf errs evs k,
    In k (dict_keys tf) \/ (exists v, In (SFulfilled k v) settled) ->
    In k (dict_keys (fst (fst (fold_left (settleForecast i) settled (tf, errs, evs))))).
Proof.
  induction settled as [|r rest IH]; intros tf errs evs k Hk.
  - destruct Hk as [Hk|(v & [])]. exact Hk.
  - cbn [fold_left]. destruct r as [m|m v|m reason]; cbn [settleForecast]; apply IH.
    + destruct Hk as [Hk|(v & [Hv|Hv])]; [now left | discriminate | right; eauto].
    + assert (Hset : forall k', In k' (dict_keys tf) \/ k' = m ->
                       In k' (dict_keys (dict_set tf m v))).
      { intros k' Hk'. apply dict_get_in_keys.
        destruct (String.eqb_spec m k') as [->|Hne].
        - rewrite dict_get_set_same. discriminate.
        - rewrite dict_get_set_other by assumption. apply dict_get_in_keys.
          destruct Hk' as [?|?]; [assumption | congruence]. }
      destruct Hk as [Hk|(v' & [Hv|Hv])].
      * left. apply Hset. now left.
      * injection Hv as -> _. left. apply Hset. now right.
      * right. eauto.
    + destruct Hk as [Hk|(v & [Hv|Hv])]; [now left | discriminate | right; eauto].
Qed.

Lemma forecastFailures_intro i settled m reason :
  In (SRejected m reason) settled ->
  In (ForecastFailed i m (forecastErrorMessage reason)) (forecastFailures i settled).
Proof.
  intros Hin. unfold forecastFailures. apply in_flat_map.
  exists (SRejected m reason). split; [assumption | now left].
Qed.

(** After the forecast step every configured model has a forecast for
    this tick or a recorded error. *)
Lemma forecastPhase_covers i currentTick nextTick st :
  let out := forecastPhase generateForecast Math_random config models i currentTick nextTick st in
  (forall m, In m models ->
     In m (dict_keys (snd out)) \/ hasError (persistentModelErrors (fst out)) m = true)
  /\ (forall k, In k (dict_keys (snd out)) ->
        In k models /\ hasError (persistentModelErrors st) k = false).
Proof.
  cbn zeta. rewrite forecastPhase_eq. cbn zeta.
  pose proof (forecastPromises_spec generateForecast Math_random config i currentTick nextTick
                st models 0) as Hfp.
  pose proof (fun m => forecastPromises_settled i currentTick nextTick st models m 0) as Hcov.
  destruct (forecastPromises generateForecast Math_random config i currentTick nextTick st 0
      models)
    as [settled calls] eqn:Efp.
  destruct Hfp as (Hset & _ & _). cbn [fst snd] in *.
  destruct (settleForecast_fold i settled [] (persistentModelErrors st) [])
    as (_ & Hkeep & Hrec & _ & Hkeys).
  split.
  - intros m Hm. destruct (hasError (persistentModelErrors st) m) eqn:E.
    + right. exact (eq_trans (hasError_ext _ _ m (Hkeep m E)) E).
    + destruct (Hcov m Hm E) as (r & Hr & [(v & ->)|(reason & -> & Ht)]).
      * left. apply settleForecast_keys. right. eauto.
      * right. apply (Hrec m (forecastErrorMessage reason)); [|assumption].
        now apply forecastFailures_intro.
  - intros k Hk. destruct (Hkeys k Hk) as [[]|(v & Hv)].
    destruct (Hset _ Hv) as [Hin Herr]. cbn [modelOfSettled] in *. auto.
Qed.

(** **** The evaluation step *)

Lemma settleEvaluation_keeps_evaluations i tf actual settled :
  forall acc,
    ea_evaluations acc <> [] ->
    ea_evaluations (fold_left (settleEvaluation i tf actual) settled acc) <> [].
Proof.
  induction settled as [|r rest IH]; intros acc Hne; [assumption|].
  cbn [fold_left]. apply IH.
  destruct r as [m|m v|m reason]; cbn [settleEvaluation ea_evaluations]; try assumption.
  destruct (ea_evaluations acc) as [|[k0 v0] l]; [congruence|].
  simpl. destruct (String.eqb k0 m); discriminate.
Qed.

Lemma settleEvaluation_fulfilled i tf actual settled m v :
  forall acc,
    In (SFulfilled m v) settled ->
    ea_evaluations (fold_left (settleEvaluation i tf actual) settled acc) <> [].
Proof.
  induction settled as [|r rest IH]; intros acc Hin; [destruct Hin|].
  cbn [fold_left]. destruct Hin as [->|Hin]; [|now apply IH].
  apply settleEvaluation_keeps_evaluations. cbn [settleEvaluation ea_evaluations].
  destruct (ea_evaluations acc) as [|[k0 v0] l]; [discriminate|].
  simpl. destruct (String.eqb k0 m); discriminate.
Qed.

Lemma evaluationFailures_intro i settled m reason :
  In (SRejected m reason) settled ->
  In (EvaluationFailed i m (evaluationErrorMessage reason)) (evaluationFailures i settled).
Proof.
  intros Hin. unfold evaluationFailures. apply in_flat_map.
  exists (SRejected m reason). split; [assumption | now left].
Qed.

Lemma evaluationPromise_settled i currentTick nextTick st actual m f :
  (exists v, fst (evaluationPromise generateJudgement config i currentTick nextTick st actual
                    (m, f)) = SFulfilled m v)
  \/ (exists reason, fst (evaluationPromise generateJudgement config i currentTick nextTick st
                            actual (m, f)) = SRejected m reason).
Proof.
  unfold evaluationPromise. destruct (generateJudgement _ _ _); cbn [fst]; eauto.
Qed.

Lemma evaluationPhase_outcome i currentTick nextTick st tf actual :
  let st' := evaluationPhase generateJudgement config i currentTick nextTick st tf actual in
  (forall m, hasError (persistentModelErrors st) m = true ->
     hasError (persistentModelErrors st') m = true)
  /\ ((exists r, tickResults st' = tickResults st ++ [r]
                 /\ tickIndex r = i /\ tickData r = currentTick)
      \/ (tickResults st' = tickResults st
          /\ forall k, In k (dict_keys tf) -> hasError (persistentModelErrors st') k = true)).
Proof.
  cbn zeta. unfold evaluationPhase.
  set (settled := map fst (map (evaluationPromise generateJudgement config i currentTick
                                  nextTick st actual) tf)).
  set (acc0 := {| ea_evaluations := []; ea_feedback := modelFeedbackHistory st;
                  ea_performance := modelPerformanceHistory st;
                  ea_errors := persistentModelErrors st; ea_events := [] |}).
  destruct (settleEvaluation_fold i tf actual settled acc0) as (_ & Hkeep & Hrec).
  pose proof (fun m v => settleEvaluation_fulfilled i tf actual settled m v acc0) as Hful.
  set (acc := fold_left (settleEvaluation i tf actual) settled acc0) in *.
  cbn [persistentModelErrors tickResults]. cbn [ea_errors acc0] in Hkeep.
  split.
  - intros m Hm. unfold hasError in *. now rewrite Hkeep.
  - destruct (ea_evaluations acc) as [|e l] eqn:Eev.
    + right. split; [reflexivity|]. intros k Hk.
      unfold dict_keys in Hk. apply in_map_iff in Hk as ([k' f] & Hfst & Hin).
      cbn [fst] in Hfst. subst k'.
      assert (Hr : In (fst (evaluationPromise generateJudgement config i currentTick nextTick
                              st actual (k, f))) settled).
      { unfold settled. rewrite map_map. apply in_map_iff. exists (k, f). auto. }
      destruct (evaluationPromise_settled i currentTick nextTick st actual k f)
        as [(v & Hv)|(reason & Hv)]; rewrite Hv in Hr.
      * exfalso. now apply (Hful k v Hr).
      * apply (Hrec k (evaluationErrorMessage reason)). now apply evaluationFailures_intro.
    + left. eexists. split; [reflexivity|]. split; reflexivity.
Qed.

Lemma aligned_snoc l :
  forall i0 r,
    aligned ticks i0 l -> alignedAt ticks (i0 + List.length l) r ->
    aligned ticks i0 (l ++ [r]).
Proof.
  induction l as [|x rest IH]; intros i0 r Hal Hr.
  - simpl in *. rewrite Nat.add_0_r in Hr. auto.
  - destruct Hal as [Hx Hrest]. cbn [app aligned]. split; [assumption|].
    apply IH; [assumption|]. simpl in Hr. now rewrite <- plus_n_Sm in Hr.
Qed.

Lemma processTick_aligned i st :
  AlignInv ticks models i st ->
  aligned ticks 0
    (tickResults (snd (processTick generateForecast generateJudgement Math_random config
                         models ticks i st)))
  /\ (fst (processTick generateForecast generateJudgement Math_random config models ticks i st)
      = Continue ->
      AlignInv ticks models (S i)
        (snd (processTick generateForecast generateJudgement Math_random config models ticks
                i st))).
Proof.
  intros [Hal Hcases]. unfold processTick.
  destruct (nth_error ticks i) as [currentTick|] eqn:Ec;
    [destruct (nth_error ticks (i + 1)) as [nextTick|]|].
  2,3: cbn [fst snd]; split; [assumption | discriminate].
  destruct (forecastPhase_facts generateForecast Math_random config models i currentTick
              nextTick st) as (calls & logs & _ & Hres & _ & _ & _ & Hkeep & _).
  destruct (forecastPhase_covers i currentTick nextTick st) as [Hcov Hkeys].
  destruct (forecastPhase generateForecast Math_random config models i currentTick nextTick st)
    as [st1 tf].
  cbn [fst snd] in *.
  destruct (value (primary nextTick)) as [actualValue|]; cbn [fst snd].
  2: { split; [|discriminate]. unfold logEnding. cbn [tickResults]. now rewrite Hres. }
  destruct (evaluationPhase_outcome i currentTick nextTick st1 tf actualValue)
    as [Hmono Hout].
  set (st' := evaluationPhase generateJudgement config i currentTick nextTick st1 tf
                actualValue) in *.
  assert (Hmono0 : forall m, hasError (persistentModelErrors st) m = true ->
            hasError (persistentModelErrors st') m = true).
  { intros m Hm. apply Hmono. unfold hasError in *. now rewrite Hkeep. }
  destruct Hcases as [Hlen|Hall].
  - destruct Hout as [(r & Heq & Hidx & Hdata)|[Heq Hfailed]].
    + assert (Hal' : aligned ticks 0 (tickResults st')).
      { rewrite Heq, Hres. apply aligned_snoc; [assumption|].
        simpl. rewrite Hlen. split; [assumption | congruence]. }
      split; [exact Hal'|]. intros _. split; [exact Hal'|].
      left. rewrite Heq, Hres, length_app. simpl. lia.
    + assert (Hal' : aligned ticks 0 (tickResults st')) by (now rewrite Heq, Hres).
      split; [exact Hal'|]. intros _. split; [exact Hal'|]. right.
      intros m Hm. destruct (Hcov m Hm) as [Hk|Herr]; [now apply Hfailed | now apply Hmono].
  - assert (Htf : tf = []).
    { destruct tf as [|[k f] rest]; [reflexivity|]. exfalso.
      destruct (Hkeys k (or_introl eq_refl)) as [Hin Hno]. rewrite (Hall k Hin) in Hno.
      discriminate. }
    assert (Heq : tickResults st' = tickResults st).
    { unfold st'. rewrite Htf. unfold evaluationPhase. cbn. exact Hres. }
    assert (Hal' : aligned ticks 0 (tickResults st')) by (now rewrite Heq).
    split; [exact Hal'|]. intros _. split; [exact Hal'|]. right.
    intros m Hm. apply Hmono0. now apply Hall.
Qed.

Lemma forLoop_aligned n :
  forall i st,
    AlignInv ticks models i st ->
    aligned ticks 0
      (tickResults (forLoop generateForecast generateJudgement Math_random config models
                      ticks n i st)).
Proof.
  induction n as [|n IH]; intros i st Hinv; [exact (proj1 Hinv)|].
  cbn [forLoop]. destruct (processTick_aligned i st Hinv) as [Hal Hnext].
  destruct (processTick generateForecast generateJudgement Math_random config models ticks
              i st) as [[|] st']; cbn [fst snd] in *.
  - apply (IH (S i)). now apply Hnext.
  - exact Hal.
Qed.
End Alignment.

(** The tick results that a run accumulates sit at the positions of the
    ticks they record, as long as every forecaster error carries text. *)
Lemma run_tickResults_aligned generateForecast generateJudgement Math_random config ticks :
  (forall tick slot attempt prompt m reason,
     generateForecast tick slot attempt prompt m = Rejected reason ->
     JsString.truthy (cleanMessage m (forecastErrorMessage reason)) = true) ->
  aligned ticks 0
    (tickResults (simulate generateForecast generateJudgement Math_random config ticks)).
Proof.
  intros Htext. unfold simulate, progress. apply forLoop_aligned; [exact Htext|].
  split; [exact I | now left].
Qed.

Section HeapFacts.

Lemma ebind_ok (A B : Type) (c : Eff A) (k : A -> Eff B) h a h' :
  c h = (Some a, h') -> ebind c k h = k a h'.
Proof. intros H. unfold ebind. now rewrite H. Qed.

Lemma ebind_throw (A B : Type) (c : Eff A) (k : A -> Eff B) h h' :
  c h = (None, h') -> ebind c k h = (None, h').
Proof. intros H. unfold ebind. now rewrite H. Qed.

Lemma nth_error_local (h l : Heap) a k :
  a = (List.length h + k)%nat -> nth_error (h ++ l) a = nth_error l k.
Proof.
  intros ->. rewrite nth_error_app2 by lia. f_equal. lia.
Qed.

Lemma nth_error_input (h l : Heap) a c :
  nth_error h a = Some c -> nth_error (h ++ l) a = Some c.
Proof.
  intros H. rewrite nth_error_app1; [exact H|]. apply nth_error_Some. congruence.
Qed.

Lemma read_at (A : Type) (as_ : Cell -> option A) (h : Heap) a c v :
  nth_error h a = Some c -> as_ c = Some v -> read as_ a h = (Some v, h).
Proof.
  intros Hc Hv. unfold read, ebind, load. rewrite Hc, Hv. reflexivity.
Qed.

Lemma read_input (A : Type) (as_ : Cell -> option A) (h l : Heap) a c v :
  nth_error h a = Some c -> as_ c = Some v -> read as_ a (h ++ l) = (Some v, h ++ l).
Proof. intros Hc Hv. eapply read_at; [apply nth_error_input, Hc | exact Hv]. Qed.

Lemma read_local (A : Type) (as_ : Cell -> option A) (h l : Heap) a k c v :
  a = (List.length h + k)%nat -> nth_error l k = Some c -> as_ c = Some v ->
  read as_ a (h ++ l) = (Some v, h ++ l).
Proof.
  intros Ha Hc Hv. eapply read_at; [|exact Hv]. now rewrite (nth_error_local h l a k Ha).
Qed.

Lemma store_local (h l : Heap) a k c :
  a = (List.length h + k)%nat -> (k < List.length l)%nat ->
  store a c (h ++ l) = (Some tt, h ++ update k c l).
Proof.
  intros -> Hk. unfold store. rewrite length_app.
  destruct (Nat.ltb_spec (List.length h + k) (List.length h + List.length l)) as [_|]; [|lia].
  f_equal. unfold update.
  rewrite firstn_app, skipn_app.
  replace (List.length h + k - List.length h)%nat with k by lia.
  replace (S (List.length h + k) - List.length h)%nat with (S k) by lia.
  rewrite firstn_all2 by lia. rewrite skipn_all2 by lia.
  cbn [app]. now rewrite <- app_assoc.
Qed.

Lemma alloc_local (h l : Heap) c :
  alloc c (h ++ l) = (Some (List.length h + List.length l)%nat, h ++ (l ++ [c])).
Proof. unfold alloc. now rewrite length_app, app_assoc. Qed.

Lemma lengthOf_at (A : Type) (as_ : Cell -> option (list A)) a (h : Heap) l :
  read as_ a h = (Some l, h) -> lengthOf as_ a h = (Some (List.length l), h).
Proof. intros H. unfold lengthOf. now rewrite (ebind_ok _ _ _ _ _ _ _ H). Qed.

Lemma element_at (A : Type) (as_ : Cell -> option (list A)) a (h : Heap) l i x :
  read as_ a h = (Some l, h) -> nth_error l i = Some x ->
  element as_ a i h = (Some x, h).
Proof. intros H Hx. unfold element. rewrite (ebind_ok _ _ _ _ _ _ _ H), Hx. reflexivity. Qed.

(** A loop whose passes take the heap from one member of a family to
    the next ends in the member that the fold over the array gives. *)
Lemma eloop_fold (T A : Type) (St : T -> Heap) (bound : Eff nat) (elem : nat -> Eff A)
    (step : A -> Eff unit) (f : T -> A -> T) (l : list A) :
  (forall d, bound (St d) = (Some (List.length l), St d)) ->
  (forall d i x, nth_error l i = Some x -> elem i (St d) = (Some x, St d)) ->
  (forall d x, In x l -> step x (St d) = (Some tt, St (f d x))) ->
  forall rest i d fuel,
    (forall k, nth_error rest k = nth_error l (i + k)) ->
    List.length l = (i + List.length rest)%nat ->
    (List.length rest < fuel)%nat ->
    eloop fuel bound (fun i => x <- elem i ;; step x) i (St d)
    = (Some tt, St (fold_left f rest d)).
Proof.
  intros Hbound Helem Hstep.
  induction rest as [|x rest IH]; intros i d fuel Hnth Hlen Hfuel.
  - destruct fuel as [|fuel]; [cbn in Hfuel; lia|]. cbn [eloop fold_left].
    rewrite (ebind_ok _ _ _ _ _ _ _ (Hbound d)).
    cbn [List.length] in Hlen.
    destruct (Nat.ltb_spec i (List.length l)) as [|_]; [lia | reflexivity].
  - destruct fuel as [|fuel]; [cbn in Hfuel; lia|]. cbn [eloop fold_left].
    rewrite (ebind_ok _ _ _ _ _ _ _ (Hbound d)).
    cbn [List.length] in Hlen, Hfuel.
    destruct (Nat.ltb_spec i (List.length l)) as [_|]; [|lia].
    assert (Hx : nth_error l i = Some x).
    { specialize (Hnth 0%nat). rewrite Nat.add_0_r in Hnth. now rewrite <- Hnth. }
    assert (Hstepx : (x0 <- elem i ;; step x0) (St d) = (Some tt, St (f d x))).
    { rewrite (ebind_ok _ _ _ _ _ _ _ (Helem d i x Hx)). apply Hstep.
      eapply nth_error_In, Hx. }
    rewrite (ebind_ok _ _ _ _ _ _ _ Hstepx).
    apply IH; [|lia|lia].
    intros k. specialize (Hnth (S k)). cbn [nth_error] in Hnth.
    now rewrite <- plus_n_Sm in Hnth.
Qed.

Lemma forEach_fold (T A : Type) (St : T -> Heap) (as_ : Cell -> option (list A)) a
    (step : A -> Eff unit) (f : T -> A -> T) (l : list A) :
  (forall d, read as_ a (St d) = (Some l, St d)) ->
  (forall d x, In x l -> step x (St d) = (Some tt, St (f d x))) ->
  forall d, forEach as_ a step (St d) = (Some tt, St (fold_left f l d)).
Proof.
  intros Hread Hstep d. unfold forEach.
  rewrite (ebind_ok _ _ _ _ _ _ _ (lengthOf_at _ _ _ _ _ (Hread d))).
  apply (eloop_fold T A St (eret (List.length l)) (element as_ a) step f l).
  - intros d'. reflexivity.
  - intros d' i x Hx. now apply (element_at _ _ _ _ l).
  - exact Hstep.
  - intros k. reflexivity.
  - reflexivity.
  - lia.
Qed.

Lemma forOf_fold (T A : Type) (St : T -> Heap) (as_ : Cell -> option (list A)) a
    (step : A -> Eff unit) (f : T -> A -> T) (l : list A) :
  (forall d, read as_ a (St d) = (Some l, St d)) ->
  (forall d x, In x l -> step x (St d) = (Some tt, St (f d x))) ->
  forall d, forOf as_ a step (St d) = (Some tt, St (fold_left f l d)).
Proof.
  intros Hread Hstep d. unfold forOf.
  rewrite (ebind_ok _ _ _ _ _ _ _ (lengthOf_at _ _ _ _ _ (Hread d))).
  apply (eloop_fold T A St (lengthOf as_ a) (element as_ a) step f l).
  - intros d'. now apply lengthOf_at.
  - intros d' i x Hx. now apply (element_at _ _ _ _ l).
  - exact Hstep.
  - intros k. reflexivity.
  - reflexivity.
  - lia.
Qed.

Lemma efold_fold (T A : Type) (St : T -> Heap) (step : A -> Eff unit) (f : T -> A -> T) :
  (forall d x, step x (St d) = (Some tt, St (f d x))) ->
  forall l d, efold step l (St d) = (Some tt, St (fold_left f l d)).
Proof.
  intros Hstep. induction l as [|x r IH]; intros d; [reflexivity|].
  cbn [efold fold_left]. rewrite (ebind_ok _ _ _ _ _ _ _ (Hstep d x)). apply IH.
Qed.

Lemma fold_left_snoc (A B : Type) (g : A -> list B) (l : list A) :
  forall acc, fold_left (fun acc x => acc ++ g x) l acc = acc ++ flat_map g l.
Proof.
  induction l as [|x r IH]; intros acc; cbn [fold_left flat_map];
    [now rewrite app_nil_r | now rewrite IH, app_assoc].
Qed.
End HeapFacts.

Lemma calculateAggregateScores_cons Math_sqrt ticks trs models errs :
  trs <> [] ->
  calculateAggregateScores Math_sqrt ticks trs models errs
  = match collectSeries ticks 0 trs (initStats models) with
    | None => None
    | Some statsByModel =>
        let benchmarks :=
          computeBenchmarks Math_sqrt (totalTicksOf ticks) statsByModel models in
        Some (summarize benchmarks
                (failedModels errs (totalTicksOf ticks) benchmarks models)
                (totalTicksOf ticks))
    end.
Proof. destruct trs; [congruence | reflexivity]. Qed.

Section ScoringOverHeapFacts.
Variable Math_sqrt : Q -> Q.
Variables (h : Heap) (aT aR aM aE : nat).
Variables (ticks : list Tick) (trs : list BacktestTickResult).
Variables (models : list string) (errs : Dict string).
Hypothesis HT : nth_error h aT = Some (TicksArray ticks).
Hypothesis HR : nth_error h aR = Some (TickResultsArray trs).
Hypothesis HM : nth_error h aM = Some (ModelsArray models).
Hypothesis HE : nth_error h aE = Some (ErrorsRecord errs).

Lemma read_ticks l : read asTicks aT (h ++ l) = (Some ticks, h ++ l).
Proof. eapply read_input; [exact HT | reflexivity]. Qed.

Lemma read_tickResults l : read asTickResults aR (h ++ l) = (Some trs, h ++ l).
Proof. eapply read_input; [exact HR | reflexivity]. Qed.

Lemma read_models l : read asModels aM (h ++ l) = (Some models, h ++ l).
Proof. eapply read_input; [exact HM | reflexivity]. Qed.

Lemma errorsOr_spec l name fallback :
  errorsOr aE name fallback (h ++ l) = (Some (errorOr errs name fallback), h ++ l).
Proof.
  unfold errorsOr. erewrite ebind_ok; [reflexivity|].
  eapply read_input; [exact HE | reflexivity].
Qed.

Lemma totalTicksH_spec l : totalTicksH aT (h ++ l) = (Some (totalTicksOf ticks), h ++ l).
Proof.
  unfold totalTicksH.
  rewrite (ebind_ok _ _ _ _ _ _ _ (lengthOf_at _ _ _ _ _ (read_ticks l))). reflexivity.
Qed.

Lemma ticks_primary_value_spec l i :
  ticks_primary_value aT i (h ++ l)
  = match nth_error ticks i with
    | Some t => (Some (value (primary t)), h ++ l)
    | None => (None, h ++ l)
    end.
Proof.
  unfold ticks_primary_value, element.
  unfold ebind at 1. rewrite (ebind_ok _ _ _ _ _ _ _ (read_ticks l)).
  destruct (nth_error ticks i); reflexivity.
Qed.

Lemma ticks_next_value_spec l i :
  ticks_next_value aT i (h ++ l) = (Some (nextValue ticks i), h ++ l).
Proof. unfold ticks_next_value. now rewrite (ebind_ok _ _ _ _ _ _ _ (read_ticks l)). Qed.

Lemma collectStepH_spec er sb i d result :
  sb = (List.length h + 1)%nat ->
  nth_error trs i = Some result ->
  collectStepH aT aR sb i (h ++ [er; StatsRecord d])
  = match nth_error ticks i with
    | None => (None, h ++ [er; StatsRecord d])
    | Some t =>
        (Some tt,
         h ++ [er;
               StatsRecord
                 match value (primary t), nextValue ticks i with
                 | Some p, Some a => fold_left (pushSample a p) (forecasts result) d
                 | _, _ => d
                 end])
    end.
Proof.
  intros Hsb Hres. unfold collectStepH.
  rewrite (ebind_ok _ _ _ _ _ _ _ (element_at _ _ _ _ _ _ _ (read_tickResults _) Hres)).
  pose proof (ticks_primary_value_spec [er; StatsRecord d] i) as Hp.
  destruct (nth_error ticks i) as [t|]; [|now rewrite (ebind_throw _ _ _ _ _ _ Hp)].
  rewrite (ebind_ok _ _ _ _ _ _ _ Hp).
  rewrite (ebind_ok _ _ _ _ _ _ _ (ticks_next_value_spec _ i)).
  destruct (value (primary t)) as [p|]; [|reflexivity].
  destruct (nextValue ticks i) as [a|]; [|reflexivity].
  apply (efold_fold (Dict ModelStats) _ (fun d => h ++ [er; StatsRecord d])).
  intros d' x.
  erewrite ebind_ok; [|eapply (read_local _ _ _ _ _ 1%nat); [exact Hsb|reflexivity|reflexivity]].
  rewrite (store_local h _ sb 1 _ Hsb); [reflexivity | simpl; lia].
Qed.

Lemma collectLoop_spec er sb :
  sb = (List.length h + 1)%nat ->
  forall rest i d fuel,
    (forall k, nth_error rest k = nth_error trs (i + k)) ->
    List.length trs = (i + List.length rest)%nat ->
    (List.length rest < fuel)%nat ->
    exists d',
      eloop fuel (lengthOf asTickResults aR) (collectStepH aT aR sb) i
        (h ++ [er; StatsRecord d])
      = (option_map (fun _ => tt) (collectSeries ticks i rest d), h ++ [er; StatsRecord d'])
      /\ (forall d'', collectSeries ticks i rest d = Some d'' -> d' = d'').
Proof.
  intros Hsb. induction rest as [|r rest IH]; intros i d fuel Hnth Hlen Hfuel.
  - destruct fuel as [|fuel]; [cbn in Hfuel; lia|]. exists d. cbn [eloop collectSeries].
    rewrite (ebind_ok _ _ _ _ _ _ _ (lengthOf_at _ _ _ _ _ (read_tickResults _))).
    cbn [List.length] in Hlen.
    destruct (Nat.ltb_spec i (List.length trs)) as [|_]; [lia|].
    split; [reflexivity | congruence].
  - destruct fuel as [|fuel]; [cbn in Hfuel; lia|]. cbn [eloop collectSeries].
    rewrite (ebind_ok _ _ _ _ _ _ _ (lengthOf_at _ _ _ _ _ (read_tickResults _))).
    cbn [List.length] in Hlen, Hfuel.
    destruct (Nat.ltb_spec i (List.length trs)) as [_|]; [|lia].
    assert (Hr : nth_error trs i = Some r).
    { specialize (Hnth 0%nat). rewrite Nat.add_0_r in Hnth. now rewrite <- Hnth. }
    pose proof (collectStepH_spec er sb i d r Hsb Hr) as Hstep.
    destruct (nth_error ticks i) as [t|].
    + rewrite (ebind_ok _ _ _ _ _ _ _ Hstep).
      assert (Hrest : forall k, nth_error rest k = nth_error trs (S i + k)).
      { intros k. specialize (Hnth (S k)). cbn [nth_error] in Hnth.
        now rewrite <- plus_n_Sm in Hnth. }
      destruct (value (primary t)) as [p|]; [destruct (nextValue ticks i) as [a|]|];
        apply IH; try assumption; lia.
    + exists d. rewrite (ebind_throw _ _ _ _ _ _ Hstep). split; [reflexivity | discriminate].
Qed.

Lemma emptyPathH_spec er :
  er = List.length h ->
  exists locals,
    emptyPathH aT aM aE er (h ++ [ResultsObject emptyResults])
    = (Some
         (withExcluded emptyResults
            (map (fun m =>
                    let name := snd (splitModelId m) in
                    failedModel
                      (Some (match name with
                             | Some s => if JsString.truthy s then s else m
                             | None => m
                             end))
                      (errorOr errs name "No successful predictions were generated.")
                      (totalTicksOf ticks) m)
               models)),
       h ++ locals).
Proof.
  intros Her. unfold emptyPathH.
  rewrite (ebind_ok _ _ _ _ _ _ _ (alloc_local h _ _)). cbn [List.length app].
  set (g := fun m : string =>
              failedModel
                (Some (match snd (splitModelId m) with
                       | Some s => if JsString.truthy s then s else m
                       | None => m
                       end))
                (errorOr errs (snd (splitModelId m))
                   "No successful predictions were generated.")
                (totalTicksOf ticks) m).
  erewrite ebind_ok.
  2: { apply (forEach_fold (list ExcludedModel) string
                (fun d => h ++ [ResultsObject emptyResults; ExcludedArray d])
                asModels aM _ (fun d m => d ++ [g m]) models).
       - intros d. apply read_models.
       - intros d m _. cbv zeta.
         rewrite (ebind_ok _ _ _ _ _ _ _ (errorsOr_spec _ _ _)).
         rewrite (ebind_ok _ _ _ _ _ _ _ (totalTicksH_spec _)).
         unfold pushExcluded.
         erewrite ebind_ok;
           [|eapply (read_local _ _ _ _ _ 1%nat); [reflexivity|reflexivity|reflexivity]].
         rewrite (store_local h _ _ 1 _ eq_refl); [reflexivity | simpl; lia]. }
  rewrite (fold_left_snoc _ _ (fun m => [g m])). cbn [app].
  erewrite ebind_ok;
    [|eapply (read_local _ _ _ _ _ 1%nat); [reflexivity|reflexivity|reflexivity]].
  erewrite ebind_ok;
    [|eapply (read_local _ _ _ _ _ 0%nat); [lia|reflexivity|reflexivity]].
  erewrite ebind_ok; [|apply (store_local h _ er 0); [lia | simpl; lia]].
  cbn [update firstn skipn app].
  assert (Hfm : flat_map (fun m => [g m]) models = map g models).
  { clear. induction models as [|m r IH]; [reflexivity|]. cbn [flat_map map app].
    now rewrite IH. }
  rewrite Hfm. eexists.
  erewrite (read_local _ _ _ _ _ 0%nat); [|lia|reflexivity|reflexivity].
  reflexivity.
Qed.
Lemma partition_fold total (bs : list ModelBenchmark) :
  forall top ex,
    fold_left
      (fun (d : list ModelBenchmark * list ExcludedModel) bench =>
         if belowThreshold bench
         then (fst d, snd d ++ [insufficientCoverage total bench])
         else (fst d ++ [bench], snd d))
      bs (top, ex)
    = (top ++ filter (fun b => negb (belowThreshold b)) bs,
       ex ++ map (insufficientCoverage total) (filter belowThreshold bs)).
Proof.
  induction bs as [|b r IH]; intros top ex; cbn [fold_left filter map].
  - now rewrite !app_nil_r.
  - destruct (belowThreshold b); cbn [negb fst snd map]; rewrite IH, <- app_assoc; reflexivity.
Qed.

Lemma calculateAggregateScoresH_spec :
  exists locals,
    calculateAggregateScoresH Math_sqrt aT aR aM aE h
    = (calculateAggregateScores Math_sqrt ticks trs models errs, h ++ locals).
Proof.
  unfold calculateAggregateScoresH.
  rewrite (ebind_ok _ _ _ _ _ _ _
             (eq_refl : alloc (ResultsObject emptyResults) h
                        = (Some (List.length h), h ++ [ResultsObject emptyResults]))).
  rewrite (ebind_ok _ _ _ _ _ _ _ (lengthOf_at _ _ _ _ _ (read_tickResults _))).
  destruct (Nat.eqb_spec (List.length trs) 0) as [Elen|Elen].
  { apply length_zero_iff_nil in Elen.
    destruct (emptyPathH_spec (List.length h) eq_refl) as (locals & H).
    exists locals. rewrite H, Elen. reflexivity. }
  assert (Hne : trs <> []) by (intros E; apply Elen; now rewrite E).
  rewrite (ebind_ok _ _ _ _ _ _ _ (totalTicksH_spec _)).
  rewrite (ebind_ok _ _ _ _ _ _ _ (alloc_local h _ _)). cbn [List.length app].
  (* statsByModel[modelId] = {...} *)
  erewrite ebind_ok.
  2: { apply (forEach_fold (Dict ModelStats) string
                (fun d => h ++ [ResultsObject emptyResults; StatsRecord d])
                asModels aM _ (fun d m => dict_set d m emptyStats) models).
       - intros d. apply read_models.
       - intros d m _.
         erewrite ebind_ok;
           [|eapply (read_local _ _ _ _ _ 1%nat); [reflexivity|reflexivity|reflexivity]].
         rewrite (store_local h _ _ 1 _ eq_refl); [reflexivity | simpl; lia]. }
  fold (initStats models).
  rewrite (ebind_ok _ _ _ _ _ _ _ (lengthOf_at _ _ _ _ _ (read_tickResults _))).
  (* the extraction loop *)
  destruct (collectLoop_spec (ResultsObject emptyResults) (List.length h + 1) eq_refl
              trs 0 (initStats models) (S (List.length trs)))
    as (d & Hloop & Hd); [intros k; reflexivity | reflexivity | lia |].
  rewrite (calculateAggregateScores_cons Math_sqrt ticks trs models errs Hne).
  destruct (collectSeries ticks 0 trs (initStats models)) as [stats|]; cbn [option_map] in Hloop.
  2: { eexists. rewrite (ebind_throw _ _ _ _ _ _ Hloop). reflexivity. }
  rewrite (Hd stats eq_refl) in Hloop. clear Hd d.
  rewrite (ebind_ok _ _ _ _ _ _ _ Hloop).
  erewrite ebind_ok;
    [|eapply (read_local _ _ _ _ _ 1%nat); [reflexivity|reflexivity|reflexivity]].
  cbv zeta.
  rewrite (ebind_ok _ _ _ _ _ _ _ (alloc_local h _ _)). cbn [List.length app].
  set (total := totalTicksOf ticks).
  set (range := actualsRangeOf stats).
  set (R0 := ResultsObject emptyResults).
  (* for (const modelId of allAttemptedModels) *)
  erewrite ebind_ok.
  2: { apply (forOf_fold (list ModelBenchmark) string
                (fun d => h ++ [R0; StatsRecord stats; BenchmarksArray d])
                asModels aM _
                (fun d m =>
                   d ++ match s_predictions (statsOf stats m) with
                        | [] => []
                        | _ => [benchmarkOf Math_sqrt total range m (statsOf stats m)]
                        end)
                models).
       - intros d. apply read_models.
       - intros d m _.
         erewrite ebind_ok;
           [|eapply (read_local _ _ _ _ _ 1%nat); [reflexivity|reflexivity|reflexivity]].
         cbv zeta. destruct (s_predictions (statsOf stats m)) as [|q qs] eqn:Ep.
         + now rewrite app_nil_r.
         + unfold pushBenchmark.
           erewrite ebind_ok;
             [|eapply (read_local _ _ _ _ _ 2%nat); [reflexivity|reflexivity|reflexivity]].
           rewrite (store_local h _ _ 2 _ eq_refl); [reflexivity | simpl; lia]. }
  rewrite (fold_left_snoc _ _
             (fun m => match s_predictions (statsOf stats m) with
                       | [] => []
                       | _ => [benchmarkOf Math_sqrt total range m (statsOf stats m)]
                       end)).
  cbn [app].
  change (flat_map _ models) with (computeBenchmarks Math_sqrt total stats models).
  set (bs := computeBenchmarks Math_sqrt total stats models).
  rewrite (ebind_ok _ _ _ _ _ _ _ (alloc_local h _ _)). cbn [List.length app].
  rewrite (ebind_ok _ _ _ _ _ _ _ (alloc_local h _ _)). cbn [List.length app].
  (* benchmarks.forEach *)
  erewrite ebind_ok.
  2: { refine (forEach_fold (list ModelBenchmark * list ExcludedModel) ModelBenchmark
                (fun d => h ++ [R0; StatsRecord stats; BenchmarksArray bs;
                                BenchmarksArray (fst d); ExcludedArray (snd d)])
                asBenchmarks (List.length h + 2)%nat _
                (fun d bench =>
                   if belowThreshold bench
                   then (fst d, snd d ++ [insufficientCoverage total bench])
                   else (fst d ++ [bench], snd d))
                bs _ _ ([], [])).
       { intros d. eapply (read_local _ _ _ _ _ 2%nat); reflexivity. }
       intros d bench _. destruct (belowThreshold bench).
       - unfold pushExcluded.
         erewrite ebind_ok;
           [|eapply (read_local _ _ _ _ _ 4%nat); [reflexivity|reflexivity|reflexivity]].
         rewrite (store_local h _ _ 4 _ eq_refl); [reflexivity | simpl; lia].
       - unfold pushBenchmark.
         erewrite ebind_ok;
           [|eapply (read_local _ _ _ _ _ 3%nat); [reflexivity|reflexivity|reflexivity]].
         rewrite (store_local h _ _ 3 _ eq_refl); [reflexivity | simpl; lia]. }
  rewrite partition_fold. cbn [fst snd app].
  erewrite ebind_ok;
    [|eapply (read_local _ _ _ _ _ 2%nat); [reflexivity|reflexivity|reflexivity]].
  cbv zeta.
  (* allAttemptedModels.forEach *)
  set (top := filter (fun b => negb (belowThreshold b)) bs).
  set (low := map (insufficientCoverage total) (filter belowThreshold bs)).
  erewrite ebind_ok.
  2: { apply (forEach_fold (list ExcludedModel) string
                (fun d => h ++ [R0; StatsRecord stats; BenchmarksArray bs;
                                BenchmarksArray top; ExcludedArray d])
                asModels aM _
                (fun d m =>
                   d ++ (if existsb (String.eqb m) (map modelId bs) then []
                         else [failedModel (snd (splitModelId m))
                                 (errorOr errs (snd (splitModelId m))
                                    "Model failed to produce any valid output.")
                                 total m]))
                models).
       - intros d. apply read_models.
       - intros d m _. destruct (existsb (String.eqb m) (map modelId bs)).
         + now rewrite app_nil_r.
         + rewrite (ebind_ok _ _ _ _ _ _ _ (errorsOr_spec _ _ _)).
           unfold pushExcluded.
           erewrite ebind_ok;
             [|eapply (read_local _ _ _ _ _ 4%nat); [reflexivity|reflexivity|reflexivity]].
           rewrite (store_local h _ _ 4 _ eq_refl); [reflexivity | simpl; lia]. }
  rewrite (fold_left_snoc _ _
             (fun m => if existsb (String.eqb m) (map modelId bs) then []
                       else [failedModel (snd (splitModelId m))
                               (errorOr errs (snd (splitModelId m))
                                  "Model failed to produce any valid output.")
                               total m])).
  change (flat_map _ models) with (failedModels errs total bs models).
  (* topPerformers.sort *)
  erewrite ebind_ok;
    [|eapply (read_local _ _ _ _ _ 3%nat); [reflexivity|reflexivity|reflexivity]].
  erewrite ebind_ok; [|apply (store_local h _ _ 3); [reflexivity | simpl; lia]].
  cbn [update firstn skipn app].
  erewrite ebind_ok;
    [|eapply (read_local _ _ _ _ _ 3%nat); [reflexivity|reflexivity|reflexivity]].
  erewrite ebind_ok;
    [|eapply (read_local _ _ _ _ _ 4%nat); [reflexivity|reflexivity|reflexivity]].
  unfold summarize. cbv zeta. fold top. fold low.
  destruct (sortDesc top) as [|b0 sorted] eqn:Es; eexists.
  - erewrite ebind_ok;
      [|eapply (read_local _ _ _ _ _ 0%nat); [lia|reflexivity|reflexivity]].
    reflexivity.
  - reflexivity.
Qed.
End ScoringOverHeapFacts.

(** C9. The scoring engine run on a heap that holds its four arguments:
    it returns what the function of the ticks, the tick results, the
    model list and the error map gives, and the heap it leaves is the
    heap it found followed by the objects it allocated itself, so that
    every object that existed before the call, the four arguments among
    them, is as it was.  A second invocation, on the heap the first one
    left, returns the same result and again changes no object that
    existed before it. *)
Theorem scoring_is_pure Math_sqrt h aT aR aM aE ticks trs models errs :
  nth_error h aT = Some (TicksArray ticks) ->
  nth_error h aR = Some (TickResultsArray trs) ->
  nth_error h aM = Some (ModelsArray models) ->
  nth_error h aE = Some (ErrorsRecord errs) ->
  let first := calculateAggregateScoresH Math_sqrt aT aR aM aE h in
  let second := calculateAggregateScoresH Math_sqrt aT aR aM aE (snd first) in
  fst first = calculateAggregateScores Math_sqrt ticks trs models errs
  /\ fst second = fst first
  /\ (exists locals, snd first = h ++ locals)
  /\ (exists locals, snd second = snd first ++ locals)
  /\ (forall a c, nth_error h a = Some c ->
        nth_error (snd first) a = Some c /\ nth_error (snd second) a = Some c).
Proof.
  intros HT HR HM HE. cbv zeta.
  destruct (calculateAggregateScoresH_spec Math_sqrt h aT aR aM aE ticks trs models errs
              HT HR HM HE) as (l1 & H1).
  rewrite H1. cbn [fst snd].
  destruct (calculateAggregateScoresH_spec Math_sqrt (h ++ l1) aT aR aM aE ticks trs models
              errs (nth_error_input h l1 _ _ HT) (nth_error_input h l1 _ _ HR)
              (nth_error_input h l1 _ _ HM) (nth_error_input h l1 _ _ HE)) as (l2 & H2).
  rewrite H2. cbn [fst snd].
  split; [reflexivity|]. split; [reflexivity|]. split; [now exists l1|].
  split; [now exists l2|].
  intros a c Hc. split.
  - now apply nth_error_input.
  - now apply nth_error_input, nth_error_input.
Qed.

Section WholeRun.
Variable Math_sqrt : Q -> Q.
Variable generateForecast :
  nat -> nat -> nat -> ForecastRequest -> string -> Outcome ForecastResult.
Variable generateJudgement : nat -> JudgeRequest -> string -> Outcome JudgeResult.
Variable Math_random : nat -> nat -> nat -> Q.

(** Once its three preconditions hold, [runBacktest] returns when the
    answers of the models are of their declared types: the scoring
    engine is never handed more tick results than ticks. *)
Lemma runBacktest_returns config ticks :
  JsString.truthy (judgeModel config) = true ->
  forecasterModelsOf config <> [] ->
  (2 <= List.length ticks)%nat ->
  exists res,
    runBacktest Math_sqrt generateForecast generateJudgement Math_random config ticks
    = Returned res
        (tickResults (simulate generateForecast generateJudgement Math_random config ticks)).
Proof.
  intros Hjudge Hmodels Hlen. unfold runBacktest. rewrite Hjudge. cbn [negb].
  destruct (forecasterModelsOf config) as [|m ms] eqn:Em; [congruence|].
  cbn [List.length Nat.eqb].
  destruct (Nat.ltb_spec (List.length ticks) 2) as [|_]; [lia|].
  destruct (run_invariant generateForecast generateJudgement Math_random config ticks)
    as (_ & _ & _ & _ & Hn & _).
  destruct (calculateAggregateScores_returns Math_sqrt ticks
              (tickResults (simulate generateForecast generateJudgement Math_random
                              config ticks))
              (m :: ms)
              (formatErrors
                 (persistentModelErrors
                    (simulate generateForecast generateJudgement Math_random config ticks))))
    as (res & Hres).
  - unfold maxTicksToProcess in Hn. lia.
  - rewrite Hres. eauto.
Qed.
End WholeRun.

Import Run.

(** C1, amended.  The tick results a run accumulates sit at the list
    positions of the ticks they record, as long as every forecaster error
    carries text.  For tick results so placed the extraction finishes and
    gives every configured model the series read from the tick results
    themselves: previous actual from the result's own tickData, next
    actual from the tick at tickIndex + 1, one sample (prediction,
    confidence, actualNext, actualPrev) per forecast of the model, in
    order.  A tick result whose previous or next actual is missing gives
    no sample to any model.  For every reported benchmark, predictions is
    the length of that series and the completion rate divides it by
    ticks.length - 1: the denominator does not depend on how many tick
    results were skipped. *)
Theorem aligned_extraction (Math_sqrt : Q -> Q) :
  (forall generateForecast generateJudgement Math_random config ticks,
     (forall tick slot attempt prompt m reason,
        generateForecast tick slot attempt prompt m = Rejected reason ->
        JsString.truthy (cleanMessage m (forecastErrorMessage reason)) = true) ->
     aligned ticks 0
       (tickResults (simulate generateForecast generateJudgement Math_random config ticks)))
  /\ (forall ticks trs models errors res,
        aligned ticks 0 trs ->
        calculateAggregateScores Math_sqrt ticks trs models errors = Some res ->
        (exists stats,
           collectSeries ticks 0 trs (initStats models) = Some stats
           /\ forall m, In m models ->
                statsOf stats m = appendSamples emptyStats (seriesByTickIndex ticks m trs))
        /\ (forall r m, In r trs -> isSkipped ticks r = true ->
              samplesFor m (value (primary (tickData r))) (nextValue ticks (tickIndex r))
                (forecasts r) = [])
        /\ (forall b, reported res b ->
              predictions b = List.length (seriesByTickIndex ticks (modelId b) trs)
              /\ completionRate b
                 = ofNat (predictions b) / inject_Z (Z.of_nat (List.length ticks) - 1) * 100)).
Proof.
  split.
  - exact run_tickResults_aligned.
  - exact (extraction_of_aligned Math_sqrt).
Qed.

Lemma aligned_extraction_witness :
  map tickIndex (tickResults lockedRun) = [0; 1]%nat
  /\ In (ForecastFailed 0 beta "[beta] Invalid API Key provided for OpenRouter.")
       (trace lockedRun)
  /\ aligned ticks3 0 (tickResults lockedRun)
  /\ predictions benchOpen
     = List.length (seriesByTickIndex ticksOpen (modelId benchOpen) resultsOpen)
  /\ completionRate benchOpen = ofNat (predictions benchOpen) / inject_Z (3 - 1) * 100.
Proof.
  destruct (aligned_extraction sqrtApprox) as [Hrun Hscore].
  split; [reflexivity|]. split; [apply (nth_error_In _ 2); reflexivity|]. split.
  - apply (Hrun lockedOut fairJudge halfJitter config2 ticks3).
    intros tick slot attempt prompt m reason H. unfold lockedOut in H.
    destruct (String.eqb m beta) eqn:E; [|discriminate].
    apply String.eqb_eq in E. subst m. injection H as <-. reflexivity.
  - destruct (Hscore ticksOpen resultsOpen [alpha] [] reportOpen) as (_ & _ & H).
    + simpl. repeat split.
    + vm_compute. reflexivity.
    + apply (H benchOpen). right. eexists. split; [left; reflexivity|]. split; reflexivity.
Defined.

Lemma scoring_is_pure_witness :
  fst (calculateAggregateScoresH sqrtApprox 0 1 2 3 heap3) = Some report3
  /\ firstn 4 (snd (calculateAggregateScoresH sqrtApprox 0 1 2 3 heap3)) = heap3
  /\ List.length (snd (calculateAggregateScoresH sqrtApprox 0 1 2 3 heap3)) = 9%nat.
Proof.
  destruct (scoring_is_pure sqrtApprox heap3 0 1 2 3 ticks3 results3 [alpha] [])
    as (Hres & _ & (locals & Hheap) & _); try reflexivity.
  split; [rewrite Hres; reflexivity|]. split.
  - rewrite Hheap. reflexivity.
  - reflexivity.
Defined.

Lemma retry_policy_witness :
  hasError (persistentModelErrors busyRun) beta = true
  /\ 2000 <= backoffDelay 1 (halfJitter 0 0 0)
  /\ backoffDelay 1 (halfJitter 0 0 0) < 3000.
Proof.
  destruct (retry_policy busyForecaster harshJudge halfJitter config2 ticks3)
    as (_ & Hretry & _ & Hjudge).
  split.
  - apply (Hjudge 0%nat beta "Model returned malformed JSON.").
    apply (nth_error_In _ 12). reflexivity.
  - destruct (Hretry 0%nat 0%nat somePrompt alpha) as (last & _ & _ & _ & _ & _ & Hdelay).
    apply (Hdelay 0%nat); unfold halfJitter; lra.
Defined.

(** C3 as stated fails in both directions: the retry test looks for
    substrings in the text of the error, not for the kind of failure.
    An HTTP 501 answer is a 5xx failure whose text holds none of the
    substrings, and the call is not retried; an HTTP 401 answer for a
    model named mistral-small-2503 has '503' in its text, and the call
    is made three times. *)
Lemma retry_follows_the_text :
  getForecastWithRetries (Wire.forecastRefused 501) halfJitter 0 0 somePrompt alpha
  = (Rejected
       (ErrorObj
          "[alpha] Model call failed. The provider returned status: 501. The model may be temporarily unavailable."),
     [ForecastCall 0 0 alpha 0])
  /\ getForecastWithRetries (Wire.forecastRefused 401) halfJitter 0 0 somePrompt
       "OpenRouter::mistral-small-2503"
     = (Rejected
          (ErrorObj "[mistral-small-2503] Invalid API Key provided for OpenRouter."),
        [ForecastCall 0 0 "OpenRouter::mistral-small-2503" 0;
         RetrySleep 0 0 "OpenRouter::mistral-small-2503" 1 (backoffDelay 1 (1 # 2));
         ForecastCall 0 0 "OpenRouter::mistral-small-2503" 1;
         RetrySleep 0 0 "OpenRouter::mistral-small-2503" 2 (backoffDelay 2 (1 # 2));
         ForecastCall 0 0 "OpenRouter::mistral-small-2503" 2]).
Proof. split; reflexivity. Qed.


Lemma halt_on_missing_actual_witness :
  map tickIndex (tickResults haltedRun) = [0; 1]%nat
  /\ (forall e, In e (trace haltedRun) -> (tickOf e <= 2)%nat)
  /\ In (LoopEnded 2) (trace haltedRun).
Proof.
  destruct (halt_on_missing_actual steadyForecaster fairJudge halfJitter config2 ticks5 2)
    as (_ & _ & Hticks & _ & Hend & _).
  - vm_compute. lia.
  - intros [|[|j]] Hj; [discriminate | discriminate | lia].
  - reflexivity.
  - split; [reflexivity|]. split; [exact Hticks | exact Hend].
Defined.

(** C2 as stated fails: in a run over five ticks whose tick 3 has no
    value, iteration 2 is reached, its next value is missing, and both
    forecasters are called for tick 2 before the loop stops. *)
Lemma forecast_runs_before_halt :
  nextValue ticks5 2 = None
  /\ (2 < maxTicksToProcess config2 ticks5)%nat
  /\ In (ForecastCall 2 0 alpha 0) (trace haltedRun)
  /\ In (ForecastCall 2 1 beta 0) (trace haltedRun).
Proof.
  split; [reflexivity|]. split; [vm_compute; lia|]. split.
  - apply (nth_error_In _ 8). reflexivity.
  - apply (nth_error_In _ 9). reflexivity.
Qed.


(** White space is what [trim] takes for white space: a no-break space
    after the tag leaves no record either. *)
Example no_break_space_is_blank :
  cleanMessage beta ("[beta]" ++ JsString.ofBytes [194; 160]%nat) = EmptyString
  /\ hasError (persistentModelErrors noBreakRun) beta = false
  /\ In (ForecastCall 1 1 beta 0) (trace noBreakRun).
Proof.
  split; [reflexivity|]. split; [reflexivity|]. apply (nth_error_In _ 5). reflexivity.
Qed.

(** Without a record of its failure a lone forecaster is called again,
    and the tick result of tick 1 is committed at position 0: the tick
    results are not at the positions of their ticks. *)
Example blank_failure_shifts_results :
  map tickIndex (tickResults lateRun) = [1]%nat
  /\ ~ aligned ticks3 0 (tickResults lateRun).
Proof.
  split; [reflexivity|]. intros H. simpl in H. destruct H as [[H _] _]. discriminate H.
Qed.

(** A whole run in which the judge fails on [beta] at tick 0: the tick is
    committed because [alpha] was evaluated, [beta] is never called again,
    and the scoring engine still credits [beta] with the sample of
    tick 0. *)
Example judge_failure_still_scored :
  exists res trs,
    runBacktest sqrtApprox steadyForecaster harshJudge halfJitter config2 ticks3
    = Returned res trs
    /\ map (fun r => (dict_keys (forecasts r), dict_keys (evaluations r))) trs
       = [([alpha; beta], [alpha]); ([alpha], [alpha])]
    /\ map (fun e => (ex_modelId e, ex_reason e, ex_predictions e)) (excludedModels res)
       = [(beta, InsufficientCoverage, 1%nat)].
Proof. eexists. eexists. split; [vm_compute; reflexivity|]. split; reflexivity. Qed.

(** * Further properties of the engine, of the loop and of the gateway *)

Section Ranking.
Variable Math_sqrt : Q -> Q.

Lemma insertDesc_perm x l : Permutation (x :: l) (insertDesc x l).
Proof.
  induction l as [|y r IH]; simpl; [apply Permutation_refl|].
  destruct (Qltb (compositeScore x) (compositeScore y)).
  - apply perm_trans with (y :: x :: r); [apply perm_swap | apply perm_skip, IH].
  - apply Permutation_refl.
Qed.

Lemma sortDesc_perm l : Permutation l (sortDesc l).
Proof.
  induction l as [|x r IH]; simpl; [apply perm_nil|].
  apply perm_trans with (x :: sortDesc r); [apply perm_skip, IH | apply insertDesc_perm].
Qed.

Lemma Qltb_false_le x y : Qltb x y = false -> y <= x.
Proof.
  unfold Qltb. intros H. apply negb_false_iff in H. apply Qle_bool_iff. exact H.
Qed.

Lemma insertDesc_sorted x l :
  StronglySorted (fun a b => compositeScore b <= compositeScore a) l ->
  StronglySorted (fun a b => compositeScore b <= compositeScore a) (insertDesc x l).
Proof.
  induction 1 as [|y r Hr IH Hy]; simpl.
  - constructor; constructor.
  - destruct (Qltb (compositeScore x) (compositeScore y)) eqn:E.
    + constructor; [exact IH|].
      apply Forall_forall. intros z Hz. apply insertDesc_In in Hz.
      destruct Hz as [-> | Hz].
      * apply Qlt_le_weak. apply Qltb_lt. exact E.
      * rewrite Forall_forall in Hy. apply Hy, Hz.
    + apply Qltb_false_le in E.
      constructor; [constructor; assumption|].
      constructor; [exact E|].
      rewrite Forall_forall in Hy |- *. intros z Hz.
      apply Qle_trans with (compositeScore y); [apply Hy, Hz | exact E].
Qed.

Lemma sortDesc_sorted l :
  StronglySorted (fun a b => compositeScore b <= compositeScore a) (sortDesc l).
Proof.
  induction l as [|x r IH]; simpl; [constructor | apply insertDesc_sorted, IH].
Qed.

(** A list that is already in descending order comes back unchanged:
    models with equal scores keep the order in which they were
    benchmarked. *)
Lemma sortDesc_stable l :
  StronglySorted (fun a b => compositeScore b <= compositeScore a) l -> sortDesc l = l.
Proof.
  induction 1 as [|x r Hr IH Hx]; simpl; [reflexivity|].
  rewrite IH. destruct r as [|y r']; simpl; [reflexivity|].
  destruct (Qltb (compositeScore x) (compositeScore y)) eqn:E; [|reflexivity].
  apply Qltb_lt in E. inversion Hx as [|? ? Hy _]; subst.
  exfalso. apply (Qlt_irrefl (compositeScore x)).
  apply Qlt_le_trans with (compositeScore y); assumption.
Qed.

Lemma filter_partition_perm (A : Type) (p : A -> bool) (l : list A) :
  Permutation (filter (fun x => negb (p x)) l ++ filter p l) l.
Proof.
  induction l as [|x r IH]; simpl; [apply perm_nil|].
  destruct (p x); simpl.
  - apply Permutation_sym, Permutation_cons_app, Permutation_sym, IH.
  - apply perm_skip, IH.
Qed.

(** X1.  The ranking.  topPerformers is in descending order of
    compositeScore; it is a rearrangement of the benchmarks whose
    completion rate is not below the threshold; and when those
    benchmarks already come in descending order, ties included, they
    are returned in that very order, the order of allAttemptedModels:
    the sort is stable. *)
Theorem topPerformers_ranked ticks trs models errors res :
  calculateAggregateScores Math_sqrt ticks trs models errors = Some res ->
  StronglySorted (fun a b => compositeScore b <= compositeScore a) (topPerformers res)
  /\ (forall stats,
        trs <> [] ->
        collectSeries ticks 0 trs (initStats models) = Some stats ->
        let passing :=
          filter (fun b => negb (belowThreshold b))
            (computeBenchmarks Math_sqrt (totalTicksOf ticks) stats models) in
        Permutation passing (topPerformers res)
        /\ (StronglySorted (fun a b => compositeScore b <= compositeScore a) passing ->
            topPerformers res = passing)).
Proof.
  intros H. destruct trs as [|r rs].
  - simpl in H. injection H as <-. simpl. split; [constructor|].
    intros stats Hne. contradiction.
  - rewrite calculateAggregateScores_nonempty in H.
    destruct (collectSeries ticks 0 (r :: rs) (initStats models)) as [stats|] eqn:E;
      [|discriminate].
    injection H as <-. rewrite summarize_topPerformers. split.
    + apply sortDesc_sorted.
    + intros stats' _ Hs. injection Hs as <-. split.
      * apply sortDesc_perm.
      * intros Hsorted. apply sortDesc_stable, Hsorted.
Qed.
End Ranking.

Section ReportShape.
Variable Math_sqrt : Q -> Q.

Lemma computeBenchmarks_ids total stats models :
  map modelId (computeBenchmarks Math_sqrt total stats models)
  = filter (fun m => match s_predictions (statsOf stats m) with [] => false | _ => true end)
      models.
Proof.
  unfold computeBenchmarks. induction models as [|m r IH]; simpl; [reflexivity|].
  rewrite map_app, IH.
  destruct (s_predictions (statsOf stats m)); reflexivity.
Qed.

Lemma failedModels_ids errors total stats models :
  map ex_modelId
    (failedModels errors total (computeBenchmarks Math_sqrt total stats models) models)
  = filter
      (fun m => negb match s_predictions (statsOf stats m) with [] => false | _ => true end)
      models.
Proof.
  rewrite <- (map_id (filter _ models)).
  unfold failedModels. rewrite computeBenchmarks_ids.
  set (has := fun m => match s_predictions (statsOf stats m) with [] => false | _ => true end).
  assert (H : forall l, incl l models ->
    map ex_modelId
      (flat_map
         (fun m =>
            if existsb (String.eqb m) (filter has models) then []
            else [failedModel (snd (splitModelId m))
                    (errorOr errors (snd (splitModelId m))
                       "Model failed to produce any valid output.") total m]) l)
    = map (fun m => m) (filter (fun m => negb (has m)) l)).
  { induction l as [|m r IH]; intros Hincl; simpl; [reflexivity|].
    assert (Hm : In m models) by (apply Hincl; now left).
    assert (Hr : incl r models) by (intros x Hx; apply Hincl; now right).
    assert (E : existsb (String.eqb m) (filter has models) = has m).
    { destruct (has m) eqn:Eh.
      - apply existsb_eqb_In, filter_In. split; assumption.
      - destruct (existsb _ _) eqn:Ee; [|reflexivity].
        apply existsb_eqb_In, filter_In in Ee. destruct Ee as [_ Ee]. congruence. }
    rewrite E, map_app, (IH Hr). destruct (has m); reflexivity. }
  apply H, incl_refl.
Qed.

(** X2.  The report accounts for every attempted model exactly once:
    the model identifiers of topPerformers followed by those of
    excludedModels are a rearrangement of allAttemptedModels,
    repetitions included, so the two lists together are as long as
    allAttemptedModels. *)
Theorem report_partitions_models ticks trs models errors res :
  calculateAggregateScores Math_sqrt ticks trs models errors = Some res ->
  Permutation (map modelId (topPerformers res) ++ map ex_modelId (excludedModels res)) models
  /\ (List.length (topPerformers res) + List.length (excludedModels res)
      = List.length models)%nat.
Proof.
  intros H.
  assert (P : Permutation
                (map modelId (topPerformers res) ++ map ex_modelId (excludedModels res))
                models).
  { destruct trs as [|r rs].
    - simpl in H. injection H as <-. simpl. rewrite map_map. simpl.
      rewrite map_id. apply Permutation_refl.
    - rewrite calculateAggregateScores_nonempty in H.
      destruct (collectSeries ticks 0 (r :: rs) (initStats models)) as [stats|];
        [|discriminate].
      injection H as <-.
      rewrite summarize_topPerformers, summarize_excludedModels.
      set (bs := computeBenchmarks Math_sqrt (totalTicksOf ticks) stats models).
      rewrite map_app, map_map. cbn [insufficientCoverage ex_modelId].
      rewrite app_assoc, <- map_app.
      eapply perm_trans.
      + apply Permutation_app_tail. apply Permutation_map.
        eapply perm_trans.
        * apply Permutation_app_tail. apply Permutation_sym, sortDesc_perm.
        * apply (filter_partition_perm _ belowThreshold bs).
      + unfold bs. rewrite computeBenchmarks_ids, failedModels_ids.
        eapply perm_trans; [apply Permutation_app_comm|].
        apply (filter_partition_perm _
                 (fun m => match s_predictions (statsOf stats m) with
                           | [] => false | _ => true end) models). }
  split; [exact P|].
  apply Permutation_length in P. rewrite length_app, !length_map in P. exact P.
Qed.

(** Where the entries of [excludedModels] come from. *)
Lemma excluded_cases ticks r rs models errors res stats e :
  calculateAggregateScores Math_sqrt ticks (r :: rs) models errors = Some res ->
  collectSeries ticks 0 (r :: rs) (initStats models) = Some stats ->
  In e (excludedModels res) <->
  (exists b, In b (computeBenchmarks Math_sqrt (totalTicksOf ticks) stats models)
             /\ belowThreshold b = true
             /\ e = insufficientCoverage (totalTicksOf ticks) b)
  \/ (exists m, In m models /\ s_predictions (statsOf stats m) = []
                /\ e = failedModel (snd (splitModelId m))
                         (errorOr errors (snd (splitModelId m))
                            "Model failed to produce any valid output.")
                         (totalTicksOf ticks) m).
Proof.
  intros H Hs. rewrite calculateAggregateScores_nonempty, Hs in H. injection H as <-.
  rewrite summarize_excludedModels, in_app_iff, in_map_iff.
  unfold failedModels. rewrite in_flat_map.
  rewrite computeBenchmarks_ids.
  split; intros [Hl|Hr].
  - left. destruct Hl as (b & <- & Hb). apply filter_In in Hb as [Hb Hlow].
    exists b. auto.
  - right. destruct Hr as (m & Hm & He). exists m. split; [exact Hm|].
    destruct (existsb _ _) eqn:E; [destruct He|]. destruct He as [<-|[]].
    split; [|reflexivity].
    destruct (s_predictions (statsOf stats m)) eqn:Ep; [reflexivity|].
    assert (Ht : existsb (String.eqb m)
                   (filter (fun m => match s_predictions (statsOf stats m) with
                                     | [] => false | _ => true end) models) = true).
    { apply existsb_eqb_In, filter_In. split; [exact Hm|]. rewrite Ep. reflexivity. }
    congruence.
  - left. destruct Hl as (b & Hb & Hlow & ->). exists b. split; [reflexivity|].
    apply filter_In. auto.
  - right. destruct Hr as (m & Hm & Hp & ->). exists m. split; [exact Hm|].
    destruct (existsb _ _) eqn:E; [|now left].
    apply existsb_eqb_In, filter_In in E. destruct E as [_ E]. rewrite Hp in E.
    discriminate.
Qed.

Lemma series_nil_iff ticks trs models stats m :
  collectSeries ticks 0 trs (initStats models) = Some stats ->
  In m models ->
  s_predictions (statsOf stats m) = [] <-> seriesByPosition ticks m 0 trs = [].
Proof.
  intros Hs Hm. rewrite (collectSeries_statsOf _ _ _ _ _ Hs Hm). simpl.
  destruct (seriesByPosition ticks m 0 trs); simpl; split; intros; congruence.
Qed.

Lemma unscored_model_entry ticks trs models errors res m :
  calculateAggregateScores Math_sqrt ticks trs models errors = Some res ->
  In m models -> seriesByPosition ticks m 0 trs = [] ->
  (forall b, In b (topPerformers res) -> modelId b <> m)
  /\ exists e,
       In e (excludedModels res) /\ ex_modelId e = m /\ ex_reason e = Failed
       /\ ex_predictions e = 0%nat /\ ex_totalTicks e = totalTicksOf ticks
       /\ ex_message e
          = Some (errorOr errors (snd (splitModelId m))
                    match trs with
                    | [] => "No successful predictions were generated."
                    | _ => "Model failed to produce any valid output."
                    end).
Proof.
  intros H Hm Hnil. destruct trs as [|r rs].
  - simpl in H. injection H as <-. simpl. split; [intros b []|].
    eexists. split; [apply in_map, Hm|]. simpl. repeat split.
  - pose proof H as H0. rewrite calculateAggregateScores_nonempty in H0.
    destruct (collectSeries ticks 0 (r :: rs) (initStats models)) as [stats|] eqn:Hs;
      [|discriminate].
    clear H0. split.
    + intros b Hb Hid.
      assert (Hrep : reported res b) by (left; exact Hb).
      destruct (reported_shape Math_sqrt _ _ _ _ _ _ H Hrep) as (_ & _ & _ & _ & Hne & _).
      rewrite Hid in Hne. contradiction.
    + eexists. split.
      * apply (excluded_cases _ _ _ _ _ _ _ _ H Hs). right. exists m.
        split; [exact Hm|]. split; [|reflexivity].
        apply (series_nil_iff _ _ _ _ _ Hs Hm). exact Hnil.
      * simpl. repeat split.
Qed.

Lemma excluded_entry_shape ticks trs models errors res e :
  calculateAggregateScores Math_sqrt ticks trs models errors = Some res ->
  In e (excludedModels res) ->
  In (ex_modelId e) models
  /\ match ex_reason e with
     | Failed =>
         seriesByPosition ticks (ex_modelId e) 0 trs = []
         /\ ex_message e
            = Some (errorOr errors (snd (splitModelId (ex_modelId e)))
                      match trs with
                      | [] => "No successful predictions were generated."
                      | _ => "Model failed to produce any valid output."
                      end)
     | InsufficientCoverage =>
         seriesByPosition ticks (ex_modelId e) 0 trs <> []
         /\ ex_message e = None
     end.
Proof.
  intros H He. destruct trs as [|r rs].
  - simpl in H. injection H as <-. simpl in He.
    apply in_map_iff in He as (m & <- & Hm). simpl. auto.
  - pose proof H as H0. rewrite calculateAggregateScores_nonempty in H0.
    destruct (collectSeries ticks 0 (r :: rs) (initStats models)) as [stats|] eqn:Hs;
      [|discriminate].
    clear H0. apply (excluded_cases _ _ _ _ _ _ _ _ H Hs) in He.
    destruct He as [(b & Hb & _ & ->)|(m & Hm & Hp & ->)].
    + apply computeBenchmarks_In in Hb as (m & Hm & Hne & ->). simpl.
      split; [exact Hm|]. split; [|reflexivity].
      intros Hnil. apply Hne. apply (series_nil_iff _ _ _ _ _ Hs Hm). exact Hnil.
    + simpl. split; [exact Hm|]. split; [|reflexivity].
      apply (series_nil_iff _ _ _ _ _ Hs Hm). exact Hp.
Qed.

(** X5.  A model of allAttemptedModels for which no sample was
    collected is never a top performer and is listed in excludedModels
    as Failed, with predictions 0, totalTicks = ticks.length - 1 and the
    message errors[modelName], or a default text when there is none or
    it is empty: 'No successful predictions were generated.' for an
    empty tickResults, 'Model failed to produce any valid output.'
    otherwise.  Conversely every entry of excludedModels is a model of
    allAttemptedModels; a Failed entry has no sample and carries such a
    message; an entry excluded for insufficient coverage has a sample
    and carries no message, so the error on record for a model that was
    scored at least once is not reported. *)
Theorem unscored_model_is_failed ticks trs models errors res :
  calculateAggregateScores Math_sqrt ticks trs models errors = Some res ->
  (forall m,
     In m models -> seriesByPosition ticks m 0 trs = [] ->
     (forall b, In b (topPerformers res) -> modelId b <> m)
     /\ exists e,
          In e (excludedModels res) /\ ex_modelId e = m /\ ex_reason e = Failed
          /\ ex_predictions e = 0%nat /\ ex_totalTicks e = totalTicksOf ticks
          /\ ex_message e
             = Some (errorOr errors (snd (splitModelId m))
                       match trs with
                       | [] => "No successful predictions were generated."
                       | _ => "Model failed to produce any valid output."
                       end))
  /\ (forall e,
        In e (excludedModels res) ->
        In (ex_modelId e) models
        /\ match ex_reason e with
           | Failed =>
               seriesByPosition ticks (ex_modelId e) 0 trs = []
               /\ ex_message e
                  = Some (errorOr errors (snd (splitModelId (ex_modelId e)))
                            match trs with
                            | [] => "No successful predictions were generated."
                            | _ => "Model failed to produce any valid output."
                            end)
           | InsufficientCoverage =>
               seriesByPosition ticks (ex_modelId e) 0 trs <> []
               /\ ex_message e = None
           end).
Proof.
  intros H. split.
  - intros m. apply (unscored_model_entry _ _ _ _ _ _ H).
  - intros e. apply (excluded_entry_shape _ _ _ _ _ _ H).
Qed.
End ReportShape.

Section ScoreRanges.
Variable Math_sqrt : Q -> Q.

Lemma sum_bounds lo hi (l : list Q) :
  Forall (fun c => lo <= c <= hi) l ->
  forall acc,
    acc + lo * ofNat (List.length l) <= fold_left Qplus l acc
    /\ fold_left Qplus l acc <= acc + hi * ofNat (List.length l).
Proof.
  induction 1 as [|c r [Hc0 Hc1] _ IH]; intros acc.
  - cbn [fold_left List.length]. change (ofNat 0) with 0. split; lra.
  - cbn [fold_left List.length]. destruct (IH (acc + c)) as [H0 H1].
    pose proof (ofNat_S (List.length r)) as HS.
    split.
    + apply Qle_trans with (acc + c + lo * ofNat (List.length r)); [|exact H0].
      rewrite HS. lra.
    + apply Qle_trans with (acc + c + hi * ofNat (List.length r)); [exact H1|].
      rewrite HS. lra.
Qed.

Lemma avg_bounds lo hi (l : list Q) :
  l <> [] -> Forall (fun c => lo <= c <= hi) l -> lo <= avg l <= hi.
Proof.
  intros Hne HF. destruct (sum_bounds lo hi l HF 0) as [H0 H1].
  assert (Hn : 0 < ofNat (List.length l)).
  { apply ofNat_pos. destruct l; [congruence | simpl; lia]. }
  unfold avg. destruct l as [|x r]; [congruence|].
  set (n := ofNat (List.length (x :: r))) in *.
  set (s := fold_left Qplus (x :: r) 0) in *.
  split.
  - apply Qle_shift_div_l; [exact Hn | lra].
  - apply Qle_shift_div_r; [exact Hn | lra].
Qed.

Lemma normRmseOf_range range r : 0 <= r -> 0 <= normRmseOf range r <= 1.
Proof.
  intros Hr. unfold normRmseOf. destruct (Qltb 0 range) eqn:E; [|lra].
  apply Qltb_lt in E.
  assert (H : 0 <= r / range) by (apply Qle_shift_div_l; [exact E | lra]).
  destruct (Q.min_spec 1 (r / range)) as [[Hlt Heq]|[Hle Heq]]; rewrite Heq; split; lra.
Qed.

Lemma benchmarkOf_accuracy total range m stats :
  s_predictions stats <> [] ->
  0 <= directionalAccuracy (benchmarkOf Math_sqrt total range m stats) <= 100.
Proof.
  intros Hne.
  assert (Hn : (0 < List.length (s_predictions stats))%nat)
    by (destruct (s_predictions stats); [congruence | simpl; lia]).
  pose proof (ofNat_pos _ Hn) as Hpos.
  pose proof (sampleLoop_correct_le stats (List.length (s_predictions stats))) as Hc.
  destruct (ratio_bounds _ _ Hpos (ofNat_nonneg _) (ofNat_le _ _ Hc)) as [Hd0 Hd1].
  unfold benchmarkOf. cbn [directionalAccuracy]. split; lra.
Qed.

Lemma benchmarkOf_confidence total range m stats :
  s_predictions stats <> [] ->
  List.length (s_confidences stats) = List.length (s_predictions stats) ->
  Forall (fun c => 0 <= c <= 1) (s_confidences stats) ->
  0 <= avgConfidence (benchmarkOf Math_sqrt total range m stats) <= 100.
Proof.
  intros Hne Hlen HF.
  assert (Hn : (0 < List.length (s_predictions stats))%nat)
    by (destruct (s_predictions stats); [congruence | simpl; lia]).
  pose proof (ofNat_pos _ Hn) as Hpos.
  destruct (sum_bounds 0 1 _ HF 0) as [H0 H1]. rewrite Hlen in H0, H1.
  assert (Ha : 0 <= fold_left Qplus (s_confidences stats) 0) by lra.
  assert (Hb : fold_left Qplus (s_confidences stats) 0
               <= ofNat (List.length (s_predictions stats))) by lra.
  destruct (ratio_bounds _ _ Hpos Ha Hb) as [Hd0 Hd1].
  unfold benchmarkOf. cbn [avgConfidence]. split; lra.
Qed.

Lemma composite_range d r c b :
  0 <= d <= 1 -> 0 <= r <= 1 -> 0 <= c <= 1 -> 0 <= b <= 1 ->
  0 <= composite d r c b <= 100.
Proof. intros. rewrite composite_weighted. split; lra. Qed.

Lemma div100_unit x : 0 <= x <= 100 -> 0 <= x / 100 <= 1.
Proof.
  intros [H0 H1]. split.
  - apply Qle_shift_div_l; lra.
  - apply Qle_shift_div_r; lra.
Qed.

(** X3.  For every reported benchmark whose samples all have a
    confidence in [0, 1] and whose RMSE is not negative (Math.sqrt never
    is), avgConfidence lies in [0, 100], compositeScore lies in
    [0, 100], and the normalised RMSE lies in [0, 1] whatever the range
    of the actual values. *)
Theorem score_ranges ticks trs models errors res b :
  calculateAggregateScores Math_sqrt ticks trs models errors = Some res ->
  reported res b ->
  Forall (fun x => 0 <= sm_confidence x <= 1)
    (seriesByPosition ticks (modelId b) 0 trs) ->
  0 <= rmse b ->
  0 <= avgConfidence b <= 100
  /\ 0 <= compositeScore b <= 100
  /\ forall range, 0 <= normRmseOf range (rmse b) <= 1.
Proof.
  intros Hrun Hrep Hconf Hrmse.
  destruct (reported_shape Math_sqrt _ _ _ _ _ _ Hrun Hrep)
    as (stats & Hst & Hm & Hs & Hne & Hb).
  assert (Hpred : s_predictions (statsOf stats (modelId b)) <> []).
  { rewrite Hs. simpl. destruct (seriesByPosition _ _ _ _); [congruence | discriminate]. }
  assert (HF : Forall (fun c => 0 <= c <= 1) (s_confidences (statsOf stats (modelId b)))).
  { rewrite Hs. simpl. apply Forall_map. exact Hconf. }
  assert (Hlen : List.length (s_confidences (statsOf stats (modelId b)))
                 = List.length (s_predictions (statsOf stats (modelId b)))).
  { rewrite Hs. simpl. rewrite !length_map. reflexivity. }
  destruct (benchmarkOf_ranges Math_sqrt (totalTicksOf ticks) (actualsRangeOf stats)
              (modelId b) _ Hpred HF) as [Hda Hbr].
  pose proof (benchmarkOf_confidence (totalTicksOf ticks) (actualsRangeOf stats)
                (modelId b) _ Hpred Hlen HF) as Hac.
  rewrite <- Hb in Hda, Hbr, Hac.
  split; [exact Hac|]. split; [|intros range; apply normRmseOf_range, Hrmse].
  assert (Hc : compositeScore b
               = composite (directionalAccuracy b / 100)
                   (normRmseOf (actualsRangeOf stats) (rmse b))
                   (avgConfidence b / 100) (brierScore b))
    by (rewrite Hb; reflexivity).
  rewrite Hc. apply composite_range.
  - apply div100_unit, Hda.
  - apply normRmseOf_range, Hrmse.
  - apply div100_unit, Hac.
  - exact Hbr.
Qed.
End ScoreRanges.

Section RunData.
Variable generateForecast :
  nat -> nat -> nat -> ForecastRequest -> string -> Outcome ForecastResult.
Variable generateJudgement : nat -> JudgeRequest -> string -> Outcome JudgeResult.
Variable Math_random : nat -> nat -> nat -> Q.
Variables (config : Configuration) (models : list string) (ticks : list Tick).

Lemma historyOf_set_same (A : Type) (d : Dict (list A)) m l :
  historyOf (dict_set d m l) m = l.
Proof. unfold historyOf. now rewrite dict_get_set_same. Qed.

Lemma historyOf_set_other (A : Type) (d : Dict (list A)) m m' l :
  m <> m' -> historyOf (dict_set d m l) m' = historyOf d m'.
Proof. intros H. unfold historyOf. now rewrite dict_get_set_other. Qed.

Lemma dict_get_set_some (V : Type) (d : Dict V) k k' v :
  dict_get d k' <> None -> dict_get (dict_set d k v) k' <> None.
Proof.
  intros H. destruct (string_dec k k') as [->|Hne].
  - rewrite dict_get_set_same. discriminate.
  - now rewrite dict_get_set_other.
Qed.

Lemma dict_keys_set_incl (V : Type) (d : Dict V) k v x :
  In x (dict_keys (dict_set d k v)) -> x = k \/ In x (dict_keys d).
Proof.
  destruct (dict_get d k) eqn:E.
  - rewrite (dict_keys_set_present _ _ _ v _ E). now right.
  - rewrite (dict_keys_set_absent _ _ _ v E). intros H.
    apply in_app_or in H as [H|[<-|[]]]; [now right | now left].
Qed.

Lemma fulfilledFor_absent (A : Type) m (settled : list (Settled A)) :
  ~ In m (map (@modelOfSettled _) settled) -> fulfilledFor m settled = [].
Proof.
  induction settled as [|r rest IH]; intros H; [reflexivity|].
  simpl in H. unfold fulfilledFor. cbn [flat_map]. fold (fulfilledFor m rest).
  rewrite IH by tauto.
  destruct r as [m'|m' v|m' reason]; try reflexivity.
  destruct (String.eqb m' m) eqn:E; [|reflexivity].
  apply String.eqb_eq in E. subst m'. simpl in H. tauto.
Qed.

(** **** The histories after the evaluation results are processed *)

Lemma settleEvaluation_histories i tf a settled m :
  forall acc,
    let out := fold_left (settleEvaluation i tf a) settled acc in
    historyOf (ea_feedback out) m
    = historyOf (ea_feedback acc) m ++ map feedback (fulfilledFor m settled)
    /\ historyOf (ea_performance out) m
       = historyOf (ea_performance acc) m
         ++ map (fun v =>
                   {| pe_prediction :=
                        match dict_get tf m with Some f => prediction f | None => 0 end;
                      pe_actual := a;
                      pe_error := jr_error v |})
              (fulfilledFor m settled)
    /\ (dict_get (ea_feedback acc) m <> None -> dict_get (ea_feedback out) m <> None)
    /\ (dict_get (ea_performance acc) m <> None ->
        dict_get (ea_performance out) m <> None).
Proof.
  induction settled as [|r rest IH]; intros acc; cbn zeta.
  - simpl. rewrite !app_nil_r. auto.
  - cbn [fold_left]. unfold fulfilledFor. cbn [flat_map]. fold (fulfilledFor m rest).
    specialize (IH (settleEvaluation i tf a acc r)). cbn zeta in IH.
    destruct IH as (H1 & H2 & H3 & H4).
    destruct r as [m'|m' v|m' reason]; cbn [settleEvaluation] in *.
    + auto.
    + cbn [ea_feedback ea_performance] in *.
      destruct (String.eqb m' m) eqn:E.
      * apply String.eqb_eq in E. subst m'.
        rewrite historyOf_set_same in H1, H2.
        split; [|split; [|split]].
        -- rewrite H1. cbn [map app]. now rewrite <- app_assoc.
        -- rewrite H2. cbn [map app]. now rewrite <- app_assoc.
        -- intros _. apply H3. rewrite dict_get_set_same. discriminate.
        -- intros _. apply H4. rewrite dict_get_set_same. discriminate.
      * apply String.eqb_neq in E.
        rewrite historyOf_set_other in H1, H2 by exact E.
        split; [|split; [|split]].
        -- exact H1.
        -- exact H2.
        -- intros Hn. apply H3. now rewrite dict_get_set_other.
        -- intros Hn. apply H4. now rewrite dict_get_set_other.
    + cbn [ea_feedback ea_performance] in *. auto.
Qed.

Lemma settleEvaluation_evaluations i tf a settled m :
  forall acc,
    NoDup (map (@modelOfSettled _) settled) ->
    let out := fold_left (settleEvaluation i tf a) settled acc in
    dict_get (ea_evaluations out) m
    = match fulfilledFor m settled with
      | [] => dict_get (ea_evaluations acc) m
      | v :: _ => Some v
      end
    /\ (List.length (fulfilledFor m settled) <= 1)%nat.
Proof.
  induction settled as [|r rest IH]; intros acc Hnd; cbn zeta.
  - simpl. auto.
  - cbn [fold_left]. unfold fulfilledFor. cbn [flat_map]. fold (fulfilledFor m rest).
    cbn [map] in Hnd. inversion Hnd as [|? ? Hnotin Hnd']; subst.
    specialize (IH (settleEvaluation i tf a acc r) Hnd'). cbn zeta in IH.
    destruct IH as (H1 & H2).
    destruct r as [m'|m' v|m' reason]; cbn [settleEvaluation] in *.
    + auto.
    + cbn [ea_evaluations modelOfSettled] in *.
      destruct (String.eqb m' m) eqn:E.
      * apply String.eqb_eq in E. subst m'.
        rewrite (fulfilledFor_absent _ m rest Hnotin) in *.
        cbn [app List.length]. split; [|lia].
        rewrite H1. apply dict_get_set_same.
      * apply String.eqb_neq in E. cbn [app]. split; [|exact H2].
        rewrite H1. destruct (fulfilledFor m rest); [|reflexivity].
        now apply dict_get_set_other.
    + cbn [ea_evaluations] in *. auto.
Qed.

Lemma settleEvaluation_keys i tf a settled :
  forall acc,
    let out := fold_left (settleEvaluation i tf a) settled acc in
    (NoDup (dict_keys (ea_evaluations acc)) -> NoDup (dict_keys (ea_evaluations out)))
    /\ (forall k, In k (dict_keys (ea_evaluations out)) ->
          In k (dict_keys (ea_evaluations acc)) \/ In k (map (@modelOfSettled _) settled))
    /\ (NoDup (dict_keys (ea_errors acc)) -> NoDup (dict_keys (ea_errors out)))
    /\ (forall k msg, dict_get (ea_errors out) k = Some msg ->
          dict_get (ea_errors acc) k = Some msg
          \/ exists reason,
               In (SRejected k reason) settled
               /\ msg = ("Evaluation failed: " ++ evaluationErrorMessage reason)%string).
Proof.
  induction settled as [|r rest IH]; intros acc; cbn zeta.
  - simpl. repeat split; auto.
  - cbn [fold_left].
    specialize (IH (settleEvaluation i tf a acc r)). cbn zeta in IH.
    destruct IH as (H1 & H2 & H3 & H4).
    destruct r as [m'|m' v|m' reason]; cbn [settleEvaluation] in *.
    + repeat split; auto.
      * intros k Hk. destruct (H2 k Hk); [now left | right; now right].
      * intros k msg Hk. destruct (H4 k msg Hk) as [?|(reason & ? & ?)];
          [now left | right; exists reason; split; [now right | assumption]].
    + cbn [ea_evaluations ea_errors] in *. repeat split.
      * intros Hnd. apply H1. now apply dict_set_NoDup.
      * intros k Hk. destruct (H2 k Hk) as [Hin|Hin]; [|right; now right].
        apply dict_keys_set_incl in Hin as [->|Hin]; [right; now left | now left].
      * exact H3.
      * intros k msg Hk. destruct (H4 k msg Hk) as [?|(reason & ? & ?)];
          [now left | right; exists reason; split; [now right | assumption]].
    + cbn [ea_evaluations ea_errors] in *. repeat split.
      * exact H1.
      * intros k Hk. destruct (H2 k Hk); [now left | right; now right].
      * intros Hnd. apply H3. unfold recordError.
        destruct (hasError (ea_errors acc) m'); [exact Hnd | now apply dict_set_NoDup].
      * intros k msg Hk. destruct (H4 k msg Hk) as [Hold|(reason' & ? & ?)].
        -- unfold recordError in Hold.
           destruct (hasError (ea_errors acc) m'); [now left|].
           destruct (string_dec m' k) as [->|Hne].
           ++ rewrite dict_get_set_same in Hold. injection Hold as <-.
              right. exists reason. split; [now left | reflexivity].
           ++ rewrite dict_get_set_other in Hold by exact Hne. now left.
        -- right. exists reason'. split; [now right | assumption].
Qed.
End RunData.

Section RunInvariant.
Variable generateForecast :
  nat -> nat -> nat -> ForecastRequest -> string -> Outcome ForecastResult.
Variable generateJudgement : nat -> JudgeRequest -> string -> Outcome JudgeResult.
Variable Math_random : nat -> nat -> nat -> Q.
Variables (config : Configuration) (models : list string) (ticks : list Tick).

Lemma settleForecast_errors i settled :
  forall tf errs evs,
    let out := fold_left (settleForecast i) settled (tf, errs, evs) in
    (NoDup (dict_keys errs) -> NoDup (dict_keys (snd (fst out))))
    /\ (forall k msg, dict_get (snd (fst out)) k = Some msg ->
          dict_get errs k = Some msg
          \/ exists reason,
               In (SRejected k reason) settled
               /\ msg = cleanMessage k (forecastErrorMessage reason)).
Proof.
  induction settled as [|r rest IH]; intros tf errs evs; cbn zeta.
  - simpl. auto.
  - cbn [fold_left]. destruct r as [m|m v|m reason]; cbn [settleForecast].
    + specialize (IH tf errs evs). cbn zeta in IH. destruct IH as [H1 H2].
      split; [exact H1|]. intros k msg Hk.
      destruct (H2 k msg Hk) as [?|(reason & ? & ?)];
        [now left | right; exists reason; split; [now right | assumption]].
    + specialize (IH (dict_set tf m v) errs evs). cbn zeta in IH. destruct IH as [H1 H2].
      split; [exact H1|]. intros k msg Hk.
      destruct (H2 k msg Hk) as [?|(reason & ? & ?)];
        [now left | right; exists reason; split; [now right | assumption]].
    + specialize (IH tf (recordError errs m (cleanMessage m (forecastErrorMessage reason)))
                    (evs ++ [ForecastFailed i m (forecastErrorMessage reason)])).
      cbn zeta in IH. destruct IH as [H1 H2]. split.
      * intros Hnd. apply H1. unfold recordError.
        destruct (hasError errs m); [exact Hnd | now apply dict_set_NoDup].
      * intros k msg Hk. destruct (H2 k msg Hk) as [Hold|(reason' & ? & ?)].
        -- unfold recordError in Hold. destruct (hasError errs m); [now left|].
           destruct (string_dec m k) as [->|Hne].
           ++ rewrite dict_get_set_same in Hold. injection Hold as <-.
              right. exists reason. split; [now left | reflexivity].
           ++ rewrite dict_get_set_other in Hold by exact Hne. now left.
        -- right. exists reason'. split; [now right | assumption].
Qed.

(** What the forecast step leaves behind. *)
Lemma forecastPhase_data i currentTick nextTick st :
  let out := forecastPhase generateForecast Math_random config models i currentTick
               nextTick st in
  modelFeedbackHistory (fst out) = modelFeedbackHistory st
  /\ modelPerformanceHistory (fst out) = modelPerformanceHistory st
  /\ tickResults (fst out) = tickResults st
  /\ NoDup (dict_keys (snd out))
  /\ (forall k, In k (dict_keys (snd out)) -> In k models)
  /\ (NoDup (dict_keys (persistentModelErrors st)) ->
      NoDup (dict_keys (persistentModelErrors (fst out))))
  /\ exists new,
       trace (fst out) = trace st ++ new
       /\ forall k msg,
            dict_get (persistentModelErrors (fst out)) k = Some msg ->
            dict_get (persistentModelErrors st) k = Some msg
            \/ (In k models
                /\ exists raw, In (ForecastFailed i k raw) new /\ msg = cleanMessage k raw).
Proof.
  cbn zeta. rewrite forecastPhase_eq. cbn zeta.
  pose proof (forecastPromises_spec generateForecast Math_random config i currentTick
                nextTick st models 0) as Hspec.
  destruct (forecastPromises generateForecast Math_random config i currentTick nextTick
              st 0 models) as [settled calls].
  destruct Hspec as (Hsettled & _ & _).
  cbn [fst snd].
  destruct (settleForecast_fold i settled [] (persistentModelErrors st) [])
    as (Hlogs & _ & _ & Hnd & Hkeys).
  destruct (settleForecast_errors i settled [] (persistentModelErrors st) [])
    as (Hend & Horigin).
  set (out := fold_left (settleForecast i) settled ([], persistentModelErrors st, []))
    in *.
  cbn [modelFeedbackHistory modelPerformanceHistory tickResults persistentModelErrors
       trace].
  split; [reflexivity|]. split; [reflexivity|]. split; [reflexivity|].
  split; [apply Hnd; constructor|].
  split.
  { intros k Hk. destruct (Hkeys k Hk) as [[]|(v & Hv)].
    apply (Hsettled _ Hv). }
  split; [exact Hend|].
  exists (calls ++ snd out). split; [reflexivity|].
  intros k msg Hk. destruct (Horigin k msg Hk) as [?|(reason & Hin & ->)]; [now left|].
  right. split; [apply (Hsettled _ Hin)|].
  exists (forecastErrorMessage reason). split; [|reflexivity].
  assert (Hl : snd out = forecastFailures i settled) by exact Hlogs.
  apply in_or_app. right. rewrite Hl.
  now apply forecastFailures_intro.
Qed.

Lemma evaluationPromise_model i currentTick nextTick st actual entry :
  modelOfSettled
    (fst (evaluationPromise generateJudgement config i currentTick nextTick st actual
            entry))
  = fst entry.
Proof.
  destruct entry as [m f].
  destruct (evaluationPromise_settled generateJudgement config i currentTick nextTick st
              actual m f) as [(v & ->)|(reason & ->)]; reflexivity.
Qed.

Lemma feedbackOver_app m l1 l2 :
  feedbackOver m (l1 ++ l2) = feedbackOver m l1 ++ feedbackOver m l2.
Proof. unfold feedbackOver. apply flat_map_app. Qed.

Lemma performanceOver_app m l1 l2 :
  performanceOver ticks m (l1 ++ l2)
  = performanceOver ticks m l1 ++ performanceOver ticks m l2.
Proof. unfold performanceOver. apply flat_map_app. Qed.

Lemma StronglySorted_snoc (l : list nat) x :
  StronglySorted lt l -> (forall y, In y l -> (y < x)%nat) -> StronglySorted lt (l ++ [x]).
Proof.
  induction 1 as [|y r Hr IH Hy]; intros Hlt; simpl.
  - constructor; constructor.
  - constructor.
    + apply IH. intros z Hz. apply Hlt. now right.
    + apply Forall_app. split; [exact Hy|]. constructor; [|constructor].
      apply Hlt. now left.
Qed.

(** What the evaluation step leaves behind. *)
Lemma evaluationPhase_data i currentTick nextTick st tf actual :
  NoDup (dict_keys tf) ->
  let st' := evaluationPhase generateJudgement config i currentTick nextTick st tf actual in
  exists evals,
    NoDup (dict_keys evals)
    /\ (forall k, In k (dict_keys evals) -> In k (dict_keys tf))
    /\ tickResults st'
       = match evals with
         | [] => tickResults st
         | _ => tickResults st
                ++ [{| tickIndex := i; tickData := currentTick; forecasts := tf;
                       evaluations := evals |}]
         end
    /\ (forall m,
          historyOf (modelFeedbackHistory st') m
          = historyOf (modelFeedbackHistory st) m
            ++ match dict_get evals m with Some v => [feedback v] | None => [] end
          /\ historyOf (modelPerformanceHistory st') m
             = historyOf (modelPerformanceHistory st) m
               ++ match dict_get evals m with
                  | Some v =>
                      [{| pe_prediction :=
                            match dict_get tf m with
                            | Some f => prediction f
                            | None => 0
                            end;
                          pe_actual := actual;
                          pe_error := jr_error v |}]
                  | None => []
                  end
          /\ (dict_get (modelFeedbackHistory st) m <> None ->
              dict_get (modelFeedbackHistory st') m <> None)
          /\ (dict_get (modelPerformanceHistory st) m <> None ->
              dict_get (modelPerformanceHistory st') m <> None))
    /\ (NoDup (dict_keys (persistentModelErrors st)) ->
        NoDup (dict_keys (persistentModelErrors st')))
    /\ exists new,
         trace st' = trace st ++ new
         /\ forall k msg,
              dict_get (persistentModelErrors st') k = Some msg ->
              dict_get (persistentModelErrors st) k = Some msg
              \/ (In k (dict_keys tf)
                  /\ exists raw,
                       In (EvaluationFailed i k raw) new
                       /\ msg = ("Evaluation failed: " ++ raw)%string).
Proof.
  intros Hnd. cbn zeta. unfold evaluationPhase.
  set (promises := map (evaluationPromise generateJudgement config i currentTick nextTick
                          st actual) tf).
  set (settled := map fst promises).
  set (acc0 := {| ea_evaluations := []; ea_feedback := modelFeedbackHistory st;
                  ea_performance := modelPerformanceHistory st;
                  ea_errors := persistentModelErrors st; ea_events := [] |}).
  assert (Hmodels : map (@modelOfSettled _) settled = dict_keys tf).
  { unfold settled, promises, dict_keys. rewrite !map_map. apply map_ext.
    intros entry. apply evaluationPromise_model. }
  assert (Hnd' : NoDup (map (@modelOfSettled _) settled)) by (rewrite Hmodels; exact Hnd).
  destruct (settleEvaluation_keys i tf actual settled acc0) as (Hk1 & Hk2 & Hk3 & Hk4).
  destruct (settleEvaluation_fold i tf actual settled acc0) as (Hev & _ & _).
  pose proof (fun m => settleEvaluation_histories i tf actual settled m acc0) as Hhist.
  pose proof (fun m => settleEvaluation_evaluations i tf actual settled m acc0 Hnd')
    as Hevals.
  set (acc := fold_left (settleEvaluation i tf actual) settled acc0) in *.
  cbn [ea_evaluations ea_feedback ea_performance ea_errors ea_events acc0] in *.
  exists (ea_evaluations acc).
  cbn [modelFeedbackHistory modelPerformanceHistory tickResults persistentModelErrors
       trace].
  split; [apply Hk1; constructor|].
  split.
  { intros k Hk. destruct (Hk2 k Hk) as [[]|Hin]. rewrite <- Hmodels. exact Hin. }
  split; [destruct (ea_evaluations acc); reflexivity|].
  split.
  { intros m. destruct (Hhist m) as (H1 & H2 & H3 & H4).
    destruct (Hevals m) as [He Hlen].
    assert (Hf : fulfilledFor m settled
                 = match dict_get (ea_evaluations acc) m with
                   | Some v => [v]
                   | None => []
                   end).
    { rewrite He. destruct (fulfilledFor m settled) as [|v [|v' l]]; try reflexivity.
      simpl in Hlen. lia. }
    rewrite Hf in H1, H2.
    split; [|split; [|split; assumption]].
    - rewrite H1. destruct (dict_get (ea_evaluations acc) m); reflexivity.
    - rewrite H2. destruct (dict_get (ea_evaluations acc) m); reflexivity. }
  split; [exact Hk3|].
  exists (flat_map snd promises ++ ea_events acc). split; [reflexivity|].
  intros k msg Hk. destruct (Hk4 k msg Hk) as [?|(reason & Hin & ->)]; [now left|].
  right. split.
  - rewrite <- Hmodels. apply in_map_iff. exists (SRejected k reason). auto.
  - exists (evaluationErrorMessage reason). split; [|reflexivity].
    apply in_or_app. right. rewrite Hev. cbn [app].
    now apply evaluationFailures_intro.
Qed.

Lemma errorOrigin_app tr new m msg :
  errorOrigin tr m msg -> errorOrigin (tr ++ new) m msg.
Proof.
  intros [(j & raw & Hin & ->)|(j & raw & Hin & ->)]; [left|right];
    exists j, raw; (split; [apply in_or_app; now left | reflexivity]).
Qed.

Lemma RunInv_weaken i i' st : (i <= i')%nat -> RunInv ticks models i st ->
  RunInv ticks models i' st.
Proof.
  intros Hle (H1 & H2 & H3). split; [exact H1|]. split; [|exact H3].
  intros r Hr. specialize (H2 r Hr). lia.
Qed.

Lemma RunInv_step i st :
  RunInv ticks models i st ->
  RunInv ticks models (S i)
    (snd (processTick generateForecast generateJudgement Math_random config models
            ticks i st)).
Proof.
  intros Hinv. unfold processTick.
  destruct (nth_error ticks i) as [currentTick|] eqn:Ec;
    [destruct (nth_error ticks (i + 1)) as [nextTick|] eqn:En|].
  2,3: cbn [snd]; apply (RunInv_weaken i); [lia | exact Hinv].
  destruct (forecastPhase_data i currentTick nextTick st)
    as (Hfb & Hpf & Hres & Hndtf & Hsub & Hnde & new1 & Htr1 & Horig1).
  destruct (forecastPhase generateForecast Math_random config models i currentTick
              nextTick st) as [st1 tf].
  cbn [fst snd] in *.
  destruct Hinv as (Hok & Hidx & Hsorted & Hhist & Hkeys & Hnd & Horig).
  assert (Horig1' : forall m msg, dict_get (persistentModelErrors st1) m = Some msg ->
            In m models /\ errorOrigin (trace st1) m msg).
  { intros m msg Hm. destruct (Horig1 m msg Hm) as [Hold|(Hin & raw & Hraw & ->)].
    - destruct (Horig m msg Hold) as [Hin Ho]. split; [exact Hin|].
      rewrite Htr1. now apply errorOrigin_app.
    - split; [exact Hin|]. left. exists i, raw. split; [|reflexivity].
      rewrite Htr1. apply in_or_app. now right. }
  destruct (value (primary nextTick)) as [actualValue|] eqn:Ev; cbn [snd].
  2: { unfold logEnding.
       split; [|split; [|split; [|split; [|split; [|split]]]]];
         cbn [tickResults modelFeedbackHistory modelPerformanceHistory
              persistentModelErrors trace].
       - rewrite Hres. exact Hok.
       - rewrite Hres. intros r Hr. specialize (Hidx r Hr). lia.
       - rewrite Hres. exact Hsorted.
       - rewrite Hfb, Hpf, Hres. exact Hhist.
       - rewrite Hfb, Hpf. exact Hkeys.
       - apply Hnde, Hnd.
       - intros m msg Hm. destruct (Horig1' m msg Hm) as [Hin Ho].
         split; [exact Hin | now apply errorOrigin_app]. }
  destruct (evaluationPhase_data i currentTick nextTick st1 tf actualValue Hndtf)
    as (evals & Hnde2 & Hsub2 & Hres2 & Hhist2 & Hnderr2 & new2 & Htr2 & Horig2).
  set (st' := evaluationPhase generateJudgement config i currentTick nextTick st1 tf
                actualValue) in *.
  assert (Hnext : nextValue ticks i = Some actualValue).
  { unfold nextValue. rewrite <- Nat.add_1_r, En. exact Ev. }
  set (r := {| tickIndex := i; tickData := currentTick; forecasts := tf;
               evaluations := evals |}) in *.
  assert (Hcases : tickResults st' = tickResults st /\ evals = []
                   \/ tickResults st' = tickResults st ++ [r] /\ evals <> []).
  { rewrite Hres2, Hres. destruct evals; [left; auto | right; split; [reflexivity|]].
    discriminate. }
  assert (Hrok : evals <> [] -> committedOk ticks models r).
  { intros Hne. unfold committedOk, r. cbn [tickIndex tickData forecasts evaluations].
    rewrite Hnext. repeat split; try assumption; discriminate. }
  split; [|split; [|split; [|split; [|split; [|split]]]]].
  - destruct Hcases as [[-> _]|[-> Hne]]; [exact Hok|].
    apply Forall_app. split; [exact Hok|]. constructor; [now apply Hrok | constructor].
  - destruct Hcases as [[-> _]|[-> Hne]]; intros x Hx.
    + specialize (Hidx x Hx). lia.
    + apply in_app_or in Hx as [Hx|[<-|[]]]; [specialize (Hidx x Hx); lia|].
      simpl. lia.
  - destruct Hcases as [[-> _]|[-> Hne]]; [exact Hsorted|].
    rewrite map_app. cbn [map]. apply StronglySorted_snoc; [exact Hsorted|].
    intros y Hy. apply in_map_iff in Hy as (x & <- & Hx). now apply Hidx.
  - intros m. destruct (Hhist2 m) as (H1 & H2 & _ & _).
    destruct (Hhist m) as [Hf Hp]. rewrite Hfb in H1. rewrite Hpf in H2.
    rewrite H1, H2, Hf, Hp.
    destruct Hcases as [[-> Hnil]|[-> Hne]].
    + rewrite Hnil. cbn [dict_get]. rewrite !app_nil_r. auto.
    + rewrite feedbackOver_app, performanceOver_app.
      assert (Hf1 : feedbackOver m [r]
                    = match dict_get evals m with Some v => [feedback v] | None => [] end).
      { unfold feedbackOver. cbn [flat_map]. rewrite app_nil_r. reflexivity. }
      assert (Hp1 : performanceOver ticks m [r]
                    = match dict_get evals m with
                      | Some v =>
                          [{| pe_prediction :=
                                match dict_get tf m with
                                | Some f => prediction f
                                | None => 0
                                end;
                              pe_actual := actualValue;
                              pe_error := jr_error v |}]
                      | None => []
                      end).
      { unfold performanceOver. cbn [flat_map]. rewrite app_nil_r. unfold r.
        cbn [tickIndex forecasts evaluations]. rewrite Hnext.
        destruct (dict_get evals m) as [v|] eqn:Eev; [|reflexivity].
        assert (Hin : In m (dict_keys tf)).
        { apply Hsub2. apply dict_get_in_keys. rewrite Eev. discriminate. }
        apply dict_get_in_keys in Hin.
        destruct (dict_get tf m); [reflexivity | congruence]. }
      rewrite Hf1, Hp1. auto.
  - intros m Hm. destruct (Hkeys m Hm) as [Hf Hp].
    destruct (Hhist2 m) as (_ & _ & H3 & H4). rewrite Hfb in H3. rewrite Hpf in H4. auto.
  - apply Hnderr2, Hnde, Hnd.
  - intros m msg Hm. destruct (Horig2 m msg Hm) as [Hold|(Hin & raw & Hraw & ->)].
    + destruct (Horig1' m msg Hold) as [Hin Ho]. split; [exact Hin|].
      rewrite Htr2. now apply errorOrigin_app.
    + split; [apply Hsub, Hin|]. right. exists i, raw. split; [|reflexivity].
      rewrite Htr2. apply in_or_app. now right.
Qed.

Lemma RunInv_loop n :
  forall i st,
    RunInv ticks models i st ->
    RunInv ticks models (i + n)
      (forLoop generateForecast generateJudgement Math_random config models ticks n i st).
Proof.
  induction n as [|n IH]; intros i st Hinv.
  - rewrite Nat.add_0_r. exact Hinv.
  - cbn [forLoop]. pose proof (RunInv_step i st Hinv) as Hstep.
    destruct (processTick generateForecast generateJudgement Math_random config models
                ticks i st) as [[|] st']; cbn [snd] in Hstep.
    + rewrite <- plus_n_Sm. apply (IH (S i)). exact Hstep.
    + apply (RunInv_weaken (S i)); [lia | exact Hstep].
Qed.

Lemma initial_history (A : Type) (ms : list string) :
  forall (d : Dict (list A)) m,
    let d' := fold_left (fun d m => dict_set d m []) ms d in
    (historyOf d m = [] -> historyOf d' m = [])
    /\ (In m ms \/ dict_get d m <> None -> dict_get d' m <> None).
Proof.
  induction ms as [|x r IH]; intros d m; cbn zeta.
  - simpl. split; [auto|]. intros [[]|H]; exact H.
  - cbn [fold_left]. destruct (IH (dict_set d x []) m) as [H1 H2]. split.
    + intros Hd. apply H1. destruct (string_dec x m) as [->|Hne].
      * apply historyOf_set_same.
      * rewrite historyOf_set_other by exact Hne. exact Hd.
    + intros [[->|Hin]|Hd]; apply H2.
      * right. rewrite dict_get_set_same. discriminate.
      * now left.
      * right. now apply dict_get_set_some.
Qed.

Lemma RunInv_initial : RunInv ticks models 0 (initialState models).
Proof.
  unfold RunInv, initialState.
  cbn [tickResults modelFeedbackHistory modelPerformanceHistory persistentModelErrors
       trace].
  split; [constructor|]. split; [intros r []|]. split; [constructor|].
  split.
  { intros m. split.
    - apply (initial_history _ models [] m). reflexivity.
    - apply (initial_history _ models [] m). reflexivity. }
  split.
  { intros m Hm. split; apply (initial_history _ models [] m); now left. }
  split; [constructor|]. intros m msg H. discriminate.
Qed.
End RunInvariant.

Lemma progress_RunInv generateForecast generateJudgement Math_random config ticks k :
  RunInv ticks (forecasterModelsOf config) k
    (progress generateForecast generateJudgement Math_random config ticks k).
Proof.
  unfold progress.
  apply (RunInv_loop generateForecast generateJudgement Math_random config
           (forecasterModelsOf config) ticks k 0).
  apply RunInv_initial.
Qed.

Section Overall.
Variable Math_sqrt : Q -> Q.

Lemma summarize_overall bs failed total :
  let res := summarize bs failed total in
  res_compositeScore res = avg (map compositeScore (topPerformers res))
  /\ overallDirectionalAccuracy res = avg (map directionalAccuracy (topPerformers res))
  /\ overallMagnitudeRmse res = avg (map rmse (topPerformers res))
  /\ overallAvgConfidence res = avg (map avgConfidence (topPerformers res)).
Proof.
  cbn zeta. unfold summarize.
  destruct (sortDesc (filter (fun b => negb (belowThreshold b)) bs)); simpl; auto.
Qed.

Lemma calculateAggregateScores_overall ticks trs models errors res :
  calculateAggregateScores Math_sqrt ticks trs models errors = Some res ->
  res_compositeScore res = avg (map compositeScore (topPerformers res))
  /\ overallDirectionalAccuracy res = avg (map directionalAccuracy (topPerformers res))
  /\ overallMagnitudeRmse res = avg (map rmse (topPerformers res))
  /\ overallAvgConfidence res = avg (map avgConfidence (topPerformers res)).
Proof.
  intros H. destruct trs as [|r rs].
  - simpl in H. injection H as <-. simpl. auto.
  - rewrite calculateAggregateScores_nonempty in H.
    destruct (collectSeries ticks 0 (r :: rs) (initStats models)) as [stats|];
      [|discriminate].
    injection H as <-. apply summarize_overall.
Qed.

(** X4.  The four overall figures are the plain means of the
    corresponding metric over topPerformers, 0 when there is none, on
    either return path, and the overall directional accuracy lies in
    [0, 100]. *)
Theorem overall_scores ticks trs models errors res :
  calculateAggregateScores Math_sqrt ticks trs models errors = Some res ->
  (res_compositeScore res = avg (map compositeScore (topPerformers res))
   /\ overallDirectionalAccuracy res = avg (map directionalAccuracy (topPerformers res))
   /\ overallMagnitudeRmse res = avg (map rmse (topPerformers res))
   /\ overallAvgConfidence res = avg (map avgConfidence (topPerformers res)))
  /\ 0 <= overallDirectionalAccuracy res <= 100.
Proof.
  intros H.
  pose proof (calculateAggregateScores_overall _ _ _ _ _ H) as Hall.
  split; [exact Hall|]. destruct Hall as (Hc & Hd & _ & _).
  - rewrite Hd. destruct (topPerformers res) as [|b0 l] eqn:Etop.
    + simpl. split; lra.
    + apply avg_bounds; [discriminate|].
      apply Forall_forall. intros x Hx. apply in_map_iff in Hx as (b & <- & Hb).
      assert (Hrep : reported res b) by (left; rewrite Etop; exact Hb).
      destruct (reported_shape Math_sqrt _ _ _ _ _ _ H Hrep)
        as (stats & _ & _ & Hs & Hne & Heq).
      rewrite Heq. apply benchmarkOf_accuracy.
      rewrite Hs. simpl. destruct (seriesByPosition _ _ _ _); [congruence | discriminate].
Qed.
End Overall.

Section ErrorKeys.

Lemma find_snoc (A : Type) (p : A -> bool) (l : list A) x :
  find p (l ++ [x])
  = match find p l with Some y => Some y | None => if p x then Some x else None end.
Proof.
  induction l as [|y r IH]; simpl; [reflexivity|].
  destruct (p y); [reflexivity | exact IH].
Qed.

Lemma formatErrors_fold name (l : list (string * string)) :
  forall acc : Dict string,
    dict_get
      (fold_left
         (fun d (entry : string * string) =>
            dict_set d (keyOf (snd (splitModelId (fst entry)))) (snd entry))
         l acc) name
    = match find (fun entry => String.eqb (keyOf (snd (splitModelId (fst entry)))) name)
              (rev l) with
      | Some entry => Some (snd entry)
      | None => dict_get acc name
      end.
Proof.
  induction l as [|e r IH]; intros acc; [reflexivity|].
  cbn [fold_left rev]. rewrite IH, find_snoc.
  destruct (find _ (rev r)); [reflexivity|].
  destruct (String.eqb (keyOf (snd (splitModelId (fst e)))) name) eqn:E.
  - apply String.eqb_eq in E. rewrite <- E. apply dict_get_set_same.
  - apply String.eqb_neq in E. now apply dict_get_set_other.
Qed.

Lemma find_rev_unique (l : list (string * string)) m :
  NoDup (dict_keys l) ->
  (forall k, In k (dict_keys l) ->
     keyOf (snd (splitModelId k)) = keyOf (snd (splitModelId m)) -> k = m) ->
  match find (fun entry => String.eqb (keyOf (snd (splitModelId (fst entry))))
                             (keyOf (snd (splitModelId m)))) (rev l) with
  | Some entry => Some (snd entry)
  | None => None
  end = dict_get l m.
Proof.
  induction l as [|[k v] r IH]; intros Hnd Hinj; [reflexivity|].
  cbn [rev dict_get]. rewrite find_snoc. cbn [fst snd].
  cbn [dict_keys map fst] in Hnd, Hinj. inversion Hnd as [|? ? Hnotin Hnd']; subst.
  assert (Hinj' : forall k0, In k0 (dict_keys r) ->
            keyOf (snd (splitModelId k0)) = keyOf (snd (splitModelId m)) -> k0 = m).
  { intros k0 Hk0. apply Hinj. now right. }
  specialize (IH Hnd' Hinj').
  destruct (String.eqb k m) eqn:Ekm.
  - apply String.eqb_eq in Ekm. subst k.
    assert (Hnone : dict_get r m = None).
    { destruct (dict_get r m) eqn:Eg; [|reflexivity]. exfalso. apply Hnotin.
      apply dict_get_in_keys. rewrite Eg. discriminate. }
    rewrite Hnone in IH.
    destruct (find _ (rev r)); [discriminate|].
    rewrite String.eqb_refl. reflexivity.
  - destruct (find _ (rev r)); [exact IH|].
    destruct (String.eqb (keyOf (snd (splitModelId k))) (keyOf (snd (splitModelId m))))
      eqn:E; [|exact IH].
    apply String.eqb_eq in E. apply String.eqb_neq in Ekm. exfalso. apply Ekm.
    apply Hinj; [now left | exact E].
Qed.

Lemma formatErrors_get persistent m :
  NoDup (dict_keys persistent) ->
  (forall k, In k (dict_keys persistent) ->
     keyOf (snd (splitModelId k)) = keyOf (snd (splitModelId m)) -> k = m) ->
  dict_get (formatErrors persistent) (keyOf (snd (splitModelId m)))
  = dict_get persistent m.
Proof.
  intros Hnd Hinj. unfold formatErrors. rewrite formatErrors_fold.
  rewrite <- (find_rev_unique persistent m Hnd Hinj).
  destruct (find _ (rev persistent)); reflexivity.
Qed.

(** X11.  Re-keying the errors by model name.  The message found
    under a name is that of the last entry of persistentModelErrors
    whose model identifier has this name after '::': of two providers
    offering a model of the same name, the one recorded later wins.
    When the keys are distinct and one model at most has the name, the
    lookup by name returns the message of that model. *)
Theorem formatErrors_lookup persistent :
  (forall name,
     dict_get (formatErrors persistent) name
     = match find (fun entry => String.eqb (keyOf (snd (splitModelId (fst entry)))) name)
               (rev persistent) with
       | Some entry => Some (snd entry)
       | None => None
       end)
  /\ (forall m,
        NoDup (dict_keys persistent) ->
        (forall k, In k (dict_keys persistent) ->
           keyOf (snd (splitModelId k)) = keyOf (snd (splitModelId m)) -> k = m) ->
        dict_get (formatErrors persistent) (keyOf (snd (splitModelId m)))
        = dict_get persistent m).
Proof.
  split.
  - intros name. unfold formatErrors. rewrite formatErrors_fold. reflexivity.
  - apply formatErrors_get.
Qed.
End ErrorKeys.

Section RunTheorems.
Variable Math_sqrt : Q -> Q.
Variable generateForecast :
  nat -> nat -> nat -> ForecastRequest -> string -> Outcome ForecastResult.
Variable generateJudgement : nat -> JudgeRequest -> string -> Outcome JudgeResult.
Variable Math_random : nat -> nat -> nat -> Q.
Variables (config : Configuration) (ticks : list Tick).

Lemma truthy_empty s : JsString.truthy s = false <-> s = EmptyString.
Proof. destruct s; simpl; split; intros; congruence. Qed.

Lemma forecasterModelsOf_nil :
  forecasterModelsOf config = []
  <-> forall p ms, In (p, ms) (llmSelections config) -> ms = [].
Proof.
  unfold forecasterModelsOf. induction (llmSelections config) as [|[p ms] r IH].
  - simpl. split; [intros _ p ms [] | reflexivity].
  - cbn [flat_map fst snd]. split.
    + intros H. apply app_eq_nil in H as [H1 H2]. apply map_eq_nil in H1.
      intros p' ms' [Heq|Hin]; [congruence|]. apply (proj1 IH H2 p' ms' Hin).
    + intros H. rewrite (H p ms (or_introl eq_refl)). cbn [map app].
      apply IH. intros p' ms' Hin. apply (H p' ms'). now right.
Qed.

(** X6.  The three checks on the inputs are made in order: without a
    judge model runBacktest throws 'A judge model must be selected to run
    a backtest.' whatever else is wrong; with a judge model and no
    forecaster in any provider list it throws 'At least one forecaster
    model must be selected.'; with both and fewer than two ticks it
    throws 'At least two data ticks are required to run a backtest.'.
    No forecaster and no judge is involved in any of the three: the
    rejection is the same whatever the models would answer. *)
Theorem runBacktest_validation :
  let r := runBacktest Math_sqrt generateForecast generateJudgement Math_random config
             ticks in
  (judgeModel config = EmptyString ->
   r = Threw "A judge model must be selected to run a backtest.")
  /\ (judgeModel config <> EmptyString ->
      (forall p ms, In (p, ms) (llmSelections config) -> ms = []) ->
      r = Threw "At least one forecaster model must be selected.")
  /\ (judgeModel config <> EmptyString ->
      forecasterModelsOf config <> [] ->
      (List.length ticks < 2)%nat ->
      r = Threw "At least two data ticks are required to run a backtest.").
Proof.
  cbn zeta. split; [|split].
  - intros H. unfold runBacktest. rewrite H. reflexivity.
  - intros Hj Hnone. apply forecasterModelsOf_nil in Hnone. unfold runBacktest.
    destruct (JsString.truthy (judgeModel config)) eqn:E;
      [|apply truthy_empty in E; contradiction].
    cbn [negb]. rewrite Hnone. reflexivity.
  - intros Hj Hm Hlen. unfold runBacktest.
    destruct (JsString.truthy (judgeModel config)) eqn:E;
      [|apply truthy_empty in E; contradiction].
    cbn [negb].
    destruct (List.length (forecasterModelsOf config) =? 0)%nat eqn:El.
    + apply Nat.eqb_eq, length_zero_iff_nil in El. contradiction.
    + apply Nat.ltb_lt in Hlen. rewrite Hlen. reflexivity.
Qed.

(** X7.  Every tick result that a run commits records a tick of the
    input (tickData is ticks[tickIndex]) whose following tick has a
    value; it holds at least one evaluation; every evaluated model has a
    forecast in it, every forecast belongs to a configured forecaster,
    and no model occurs twice.  Tick indices increase strictly along the
    list and stay below min(ticks.length - 1, maxPredictions), which
    also bounds the number of tick results. *)
Theorem committed_tick_results :
  let run := simulate generateForecast generateJudgement Math_random config ticks in
  Forall (committedOk ticks (forecasterModelsOf config)) (tickResults run)
  /\ StronglySorted lt (map tickIndex (tickResults run))
  /\ (forall r, In r (tickResults run) ->
        (tickIndex r < Nat.min (List.length ticks - 1)
                         (maxPredictions (simulationOptions config)))%nat)
  /\ (List.length (tickResults run)
      <= Nat.min (List.length ticks - 1) (maxPredictions (simulationOptions config)))%nat.
Proof.
  cbn zeta.
  pose proof (progress_RunInv generateForecast generateJudgement Math_random config ticks
                (maxTicksToProcess config ticks)) as (H1 & H2 & H3 & _).
  pose proof (run_invariant generateForecast generateJudgement Math_random config ticks)
    as (_ & _ & _ & _ & Hlen & _).
  fold (simulate generateForecast generateJudgement Math_random config ticks) in H1, H2, H3.
  unfold maxTicksToProcess in *. auto.
Qed.

Lemma sliceLast_window (A : Type) limit (l : list A) :
  (exists older, l = older ++ sliceLast limit l)
  /\ List.length (sliceLast limit l)
     = (if (limit =? 0)%nat then List.length l else Nat.min limit (List.length l)).
Proof.
  unfold sliceLast. destruct limit as [|n].
  - split; [exists []; reflexivity | reflexivity].
  - split.
    + exists (firstn (List.length l - S n) l). symmetry. apply firstn_skipn.
    + rewrite length_skipn. cbn [Nat.eqb]. lia.
Qed.

(** X8.  On entering any iteration, the feedback history of a model
    is the list of the judge's feedback texts in the committed tick
    results in which the model was evaluated, oldest first, and its
    performance history lists, for the same tick results, the model's
    prediction, the value of the following tick and the error the judge
    reported.  Every configured forecaster has both histories, so the
    push after an evaluation never meets undefined.  The feedback handed
    to the next forecast prompt, history.slice(-feedbackLimit), is a
    suffix of that list with min(feedbackLimit, length) elements, and
    the whole list when feedbackLimit is 0. *)
Theorem histories_follow_evaluations k m :
  let st := progress generateForecast generateJudgement Math_random config ticks k in
  historyOf (modelFeedbackHistory st) m = feedbackOver m (tickResults st)
  /\ historyOf (modelPerformanceHistory st) m = performanceOver ticks m (tickResults st)
  /\ (In m (forecasterModelsOf config) ->
      dict_get (modelFeedbackHistory st) m <> None
      /\ dict_get (modelPerformanceHistory st) m <> None)
  /\ (exists older,
        feedbackOver m (tickResults st)
        = older ++ sliceLast (feedbackLimit config) (historyOf (modelFeedbackHistory st) m))
  /\ List.length (sliceLast (feedbackLimit config) (historyOf (modelFeedbackHistory st) m))
     = (if (feedbackLimit config =? 0)%nat
        then List.length (feedbackOver m (tickResults st))
        else Nat.min (feedbackLimit config)
               (List.length (feedbackOver m (tickResults st)))).
Proof.
  cbn zeta.
  pose proof (progress_RunInv generateForecast generateJudgement Math_random config ticks k)
    as (_ & _ & _ & Hhist & Hkeys & _).
  destruct (Hhist m) as [Hf Hp].
  split; [exact Hf|]. split; [exact Hp|]. split; [apply Hkeys|].
  rewrite Hf. apply sliceLast_window.
Qed.

(** X10.  Every message in the error map at the end of a run belongs
    to a configured forecaster and is either the message of one of its
    logged forecast failures with the model tag removed and the result
    trimmed, or 'Evaluation failed: ' followed by the message of one of
    its logged evaluation failures; the map has one entry per model. *)
Theorem recorded_error_origin m msg :
  let run := simulate generateForecast generateJudgement Math_random config ticks in
  dict_get (persistentModelErrors run) m = Some msg ->
  In m (forecasterModelsOf config)
  /\ errorOrigin (trace run) m msg
  /\ NoDup (dict_keys (persistentModelErrors run)).
Proof.
  cbn zeta. intros H.
  pose proof (progress_RunInv generateForecast generateJudgement Math_random config ticks
                (maxTicksToProcess config ticks)) as (_ & _ & _ & _ & _ & Hnd & Horig).
  fold (simulate generateForecast generateJudgement Math_random config ticks) in Hnd, Horig.
  destruct (Horig m msg H) as [Hin Ho]. auto.
Qed.

Lemma runBacktest_scores res trs :
  runBacktest Math_sqrt generateForecast generateJudgement Math_random config ticks
  = Returned res trs ->
  trs = tickResults (simulate generateForecast generateJudgement Math_random config ticks)
  /\ calculateAggregateScores Math_sqrt ticks trs (forecasterModelsOf config)
       (formatErrors
          (persistentModelErrors
             (simulate generateForecast generateJudgement Math_random config ticks)))
     = Some res
  /\ (2 <= List.length ticks)%nat.
Proof.
  unfold runBacktest.
  destruct (negb (JsString.truthy (judgeModel config))); [discriminate|].
  destruct (List.length (forecasterModelsOf config) =? 0)%nat; [discriminate|].
  destruct (List.length ticks <? 2)%nat eqn:El; [discriminate|].
  apply Nat.ltb_ge in El.
  destruct (calculateAggregateScores _ _ _ _ _) as [res'|] eqn:E; [|discriminate].
  intros H. injection H as <- <-. auto.
Qed.

Lemma no_forecast_no_series m trs :
  (forall r, In r trs -> dict_get (forecasts r) m = None) ->
  forall i, seriesByPosition ticks m i trs = [].
Proof.
  intros Hnone i. destruct (seriesByPosition ticks m i trs) as [|x l] eqn:E; [reflexivity|].
  assert (Hx : In x (seriesByPosition ticks m i trs)) by (rewrite E; now left).
  apply seriesByPosition_In in Hx as (k & r & t & p & a & f & Hk & _ & _ & _ & Hin & _).
  apply nth_error_In in Hk. specialize (Hnone r Hk).
  assert (Hkey : In m (dict_keys (forecasts r))).
  { unfold dict_keys. apply in_map_iff. exists (m, f). auto. }
  apply dict_get_in_keys in Hkey. contradiction.
Qed.

(** X9.  From the loop to the report.  When no other configured
    forecaster has the same model name, a forecaster whose error on
    record is a non-empty message and that has no forecast in any
    committed tick result is no top performer and is listed in
    excludedModels as Failed, with no prediction and with exactly that
    message. *)
Theorem failure_is_reported res trs m msg :
  runBacktest Math_sqrt generateForecast generateJudgement Math_random config ticks
  = Returned res trs ->
  (forall k, In k (forecasterModelsOf config) ->
     keyOf (snd (splitModelId k)) = keyOf (snd (splitModelId m)) -> k = m) ->
  dict_get
    (persistentModelErrors
       (simulate generateForecast generateJudgement Math_random config ticks)) m
  = Some msg ->
  JsString.truthy msg = true ->
  (forall r, In r trs -> dict_get (forecasts r) m = None) ->
  (forall b, In b (topPerformers res) -> modelId b <> m)
  /\ exists e,
       In e (excludedModels res) /\ ex_modelId e = m /\ ex_reason e = Failed
       /\ ex_predictions e = 0%nat /\ ex_message e = Some msg.
Proof.
  intros Hrun Hinj Hmsg Htruthy Hnone.
  destruct (runBacktest_scores _ _ Hrun) as (Htrs & Hscore & _).
  pose proof (progress_RunInv generateForecast generateJudgement Math_random config ticks
                (maxTicksToProcess config ticks)) as (_ & _ & _ & _ & _ & Hnd & Horig).
  fold (simulate generateForecast generateJudgement Math_random config ticks) in Hnd, Horig.
  set (run := simulate generateForecast generateJudgement Math_random config ticks) in *.
  destruct (Horig m msg Hmsg) as [Hm _].
  assert (Hget : dict_get (formatErrors (persistentModelErrors run))
                   (keyOf (snd (splitModelId m))) = Some msg).
  { rewrite formatErrors_get; [exact Hmsg | exact Hnd|].
    intros k Hk. apply Hinj.
    destruct (dict_get (persistentModelErrors run) k) as [msg'|] eqn:Ek.
    - apply (Horig k msg' Ek).
    - apply dict_get_in_keys in Hk. contradiction. }
  destruct (unscored_model_entry Math_sqrt _ _ _ _ _ m Hscore Hm
              (no_forecast_no_series m trs Hnone 0))
    as [Htop (e & He & Hid & Hreason & Hpred & _ & Hmessage)].
  split; [exact Htop|].
  exists e. repeat split; try assumption.
  rewrite Hmessage. unfold errorOr. rewrite Hget, Htruthy. reflexivity.
Qed.

Lemma samplesFor_length m prev next (entries : Dict ForecastResult) :
  NoDup (dict_keys entries) -> (List.length (samplesFor m prev next entries) <= 1)%nat.
Proof.
  intros Hnd. unfold samplesFor. destruct prev as [p|]; [|simpl; lia].
  destruct next as [a|]; [|simpl; lia].
  induction entries as [|[k f] r IH]; [simpl; lia|].
  cbn [dict_keys map fst] in Hnd. inversion Hnd as [|? ? Hnotin Hnd']; subst.
  cbn [flat_map fst snd]. rewrite length_app.
  destruct (String.eqb k m) eqn:E; [|simpl; apply IH, Hnd'].
  apply String.eqb_eq in E. subst k. cbn [List.length].
  assert (Hnil : flat_map
                   (fun entry : string * ForecastResult =>
                      if String.eqb (fst entry) m
                      then [{| sm_prediction := prediction (snd entry);
                               sm_confidence := confidence (snd entry);
                               sm_actualNext := a; sm_actualPrev := p |}]
                      else []) r = []).
  { clear IH Hnd Hnd'. induction r as [|[k' f'] r' IH']; [reflexivity|].
    cbn [flat_map fst snd]. cbn [dict_keys map fst] in Hnotin.
    destruct (String.eqb k' m) eqn:E'.
    - apply String.eqb_eq in E'. subst k'. exfalso. apply Hnotin. now left.
    - cbn [app]. apply IH'. intros Hin. apply Hnotin. now right. }
  rewrite Hnil. simpl. lia.
Qed.

Lemma seriesByPosition_length m trs :
  Forall (fun r => NoDup (dict_keys (forecasts r))) trs ->
  forall i, (List.length (seriesByPosition ticks m i trs) <= List.length trs)%nat.
Proof.
  induction 1 as [|r rest Hr _ IH]; intros i; [simpl; lia|].
  cbn [seriesByPosition List.length]. rewrite length_app.
  pose proof (samplesFor_length m
                (match nth_error ticks i with
                 | Some t => value (primary t)
                 | None => None
                 end) (nextValue ticks i) (forecasts r) Hr).
  specialize (IH (S i)). lia.
Qed.

(** X12.  In the report of a run every benchmark, of a top performer
    or of a model excluded for insufficient coverage, has between 1 and
    tickResults.length predictions, there are at most ticks.length - 1
    tick results, and so the completion rate lies in (0, 100]. *)
Theorem run_completion_is_percentage res trs b :
  runBacktest Math_sqrt generateForecast generateJudgement Math_random config ticks
  = Returned res trs ->
  reported res b ->
  (0 < predictions b <= List.length trs)%nat
  /\ (List.length trs <= List.length ticks - 1)%nat
  /\ 0 < completionRate b <= 100.
Proof.
  intros Hrun Hrep.
  destruct (runBacktest_scores _ _ Hrun) as (Htrs & Hscore & Hticks).
  destruct (reported_completion Math_sqrt _ _ _ _ _ _ Hscore Hrep)
    as (Hrate & Hn & Hpos & Hden).
  pose proof (progress_RunInv generateForecast generateJudgement Math_random config ticks
                (maxTicksToProcess config ticks)) as (Hok & _).
  pose proof (run_invariant generateForecast generateJudgement Math_random config ticks)
    as (_ & _ & _ & _ & Hlen & _).
  fold (simulate generateForecast generateJudgement Math_random config ticks) in Hok.
  rewrite <- Htrs in Hok, Hlen.
  assert (Hnd : Forall (fun r => NoDup (dict_keys (forecasts r))) trs).
  { eapply Forall_impl; [|exact Hok]. intros r (_ & _ & _ & H & _). exact H. }
  pose proof (seriesByPosition_length (modelId b) trs Hnd 0) as Hle.
  rewrite <- Hn in Hle.
  assert (Hmax : (List.length trs <= List.length ticks - 1)%nat).
  { unfold maxTicksToProcess in Hlen. lia. }
  split; [lia|]. split; [exact Hmax|].
  rewrite Hrate.
  assert (Hd : 0 < inject_Z (Z.of_nat (List.length ticks) - 1)).
  { replace 0 with (inject_Z 0) by reflexivity. rewrite <- Zlt_Qlt. exact Hden. }
  assert (Hnum : ofNat (predictions b) <= inject_Z (Z.of_nat (List.length ticks) - 1)).
  { unfold ofNat. rewrite <- Zle_Qle. lia. }
  pose proof (ofNat_pos _ Hpos) as Hp.
  assert (H0 : 0 < ofNat (predictions b) / inject_Z (Z.of_nat (List.length ticks) - 1)).
  { apply Qlt_shift_div_l; [exact Hd | lra]. }
  assert (H1 : ofNat (predictions b) / inject_Z (Z.of_nat (List.length ticks) - 1) <= 1).
  { apply Qle_shift_div_r; [exact Hd | lra]. }
  split; lra.
Qed.
End RunTheorems.

Section StringFacts.

Lemma append_assoc (a b c : string) : ((a ++ b) ++ c = a ++ (b ++ c))%string.
Proof. induction a as [|x a IH]; simpl; [reflexivity | now rewrite IH]. Qed.

Lemma append_nil_r (a : string) : (a ++ EmptyString)%string = a.
Proof. induction a as [|x a IH]; simpl; [reflexivity | now rewrite IH]. Qed.

Lemma toLowerCase_app a b :
  JsString.toLowerCase (a ++ b) = (JsString.toLowerCase a ++ JsString.toLowerCase b)%string.
Proof. induction a as [|x a IH]; simpl; [reflexivity | now rewrite IH]. Qed.

Lemma includes_app_r a b p :
  JsString.includes b p = true -> JsString.includes (a ++ b) p = true.
Proof.
  intros H. induction a as [|x a IH]; [exact H|].
  cbn [append JsString.includes]. rewrite IH. apply orb_true_r.
Qed.

Lemma prefix_app_l p :
  forall a b, String.prefix p a = true -> String.prefix p (a ++ b) = true.
Proof.
  induction p as [|c p IH]; intros a b H; [destruct (a ++ b)%string; reflexivity|].
  destruct a as [|x a]; [discriminate|]. cbn [append String.prefix] in *.
  destruct (ascii_dec c x); [apply IH, H | discriminate].
Qed.

Lemma includes_app_l a b p :
  JsString.includes a p = true -> JsString.includes (a ++ b) p = true.
Proof.
  induction a as [|x a IH]; intros H.
  - cbn [JsString.includes] in H. rewrite orb_false_r in H.
    destruct p; [|discriminate]. destruct b; reflexivity.
  - cbn [append JsString.includes] in *. apply orb_true_iff in H as [H|H].
    + apply orb_true_iff. left. apply (prefix_app_l p (String x a) b H).
    + apply orb_true_iff. right. apply IH, H.
Qed.

Lemma prefix_app p s : String.prefix p (p ++ s) = true.
Proof.
  induction p as [|c p IH]; [destruct s; reflexivity|]. cbn [append String.prefix].
  destruct (ascii_dec c c); [exact IH | congruence].
Qed.

Lemma drop_app p s : JsString.drop (String.length p) (p ++ s) = s.
Proof. induction p as [|c p IH]; [reflexivity | exact IH]. Qed.

Lemma removeFirst_eq pat s :
  JsString.removeFirst pat s
  = if String.prefix pat s then JsString.drop (String.length pat) s
    else match s with
         | EmptyString => EmptyString
         | String c r => String c (JsString.removeFirst pat r)
         end.
Proof. destruct s; reflexivity. Qed.

Lemma removeFirst_prefix pat s : JsString.removeFirst pat (pat ++ s) = s.
Proof. rewrite removeFirst_eq, prefix_app. apply drop_app. Qed.

Lemma spaceWidth_other c r : opensSpace c = false -> JsString.spaceWidth (String c r) = 0%nat.
Proof.
  unfold opensSpace, JsString.spaceWidth. intros H.
  induction JsString.whiteSpace as [|w ws IH]; [reflexivity|].
  cbn [existsb] in H. apply orb_false_iff in H as [Hw Hws].
  cbn [find]. destruct w as [|a w']; [discriminate|].
  cbn [JsString.startsWith]. rewrite Hw. cbn [andb]. apply IH, Hws.
Qed.

Lemma trimStart_other c r :
  opensSpace c = false -> JsString.trimStart (String c r) = String c r.
Proof.
  intros H. unfold JsString.trimStart. cbn [String.length JsString.trimStartGo].
  now rewrite spaceWidth_other.
Qed.

Lemma trimStart_space r : JsString.trimStart (String " " r) = JsString.trimStart r.
Proof. reflexivity. Qed.

Lemma trimEnd_nonblank c r :
  opensSpace c = false -> JsString.truthy (JsString.trimEnd (String c r)) = true.
Proof.
  intros H. cbn [JsString.trimEnd]. unfold JsString.isBlank.
  rewrite (trimStart_other c r H). reflexivity.
Qed.

Lemma trim_nonblank c r :
  opensSpace c = false -> JsString.truthy (JsString.trim (String c r)) = true.
Proof.
  intros H. unfold JsString.trim. rewrite (trimStart_other c r H).
  now apply trimEnd_nonblank.
Qed.

Lemma startsWith_app w :
  forall s, JsString.startsWith w s = true -> s = (w ++ JsString.drop (String.length w) s)%string.
Proof.
  induction w as [|a w IH]; intros s H; [reflexivity|].
  destruct s as [|b s]; [discriminate|]. cbn [JsString.startsWith] in H.
  apply andb_true_iff in H as [Hab Hs]. apply Ascii.eqb_eq in Hab. subst b.
  cbn [String.length JsString.drop append]. f_equal. apply IH, Hs.
Qed.

Lemma lastByte_app a b : b <> EmptyString -> lastByte (a ++ b) = lastByte b.
Proof.
  intros Hb. induction a as [|c a IH]; [reflexivity|].
  cbn [append lastByte]. rewrite IH.
  destruct b as [|x b]; [congruence|]. cbn [lastByte]. destruct (lastByte b); reflexivity.
Qed.

Lemma lastByte_some c r : exists x, lastByte (String c r) = Some x.
Proof. cbn [lastByte]. destruct (lastByte r); eauto. Qed.

(** A string of white space only ends with a byte that closes a white
    space character. *)
Lemma blank_lastByte fuel :
  forall s,
    JsString.trimStartGo fuel s = EmptyString -> s <> EmptyString ->
    exists c, lastByte s = Some c /\ closesSpace c = true.
Proof.
  induction fuel as [|fuel IH]; intros s H Hne; [contradiction|].
  cbn [JsString.trimStartGo] in H.
  destruct (JsString.spaceWidth s) as [|k] eqn:Ew; [contradiction|].
  unfold JsString.spaceWidth in Ew.
  destruct (find (fun w => JsString.startsWith w s) JsString.whiteSpace) as [w|] eqn:Ef;
    [|discriminate].
  apply find_some in Ef as [Hin Hw]. apply startsWith_app in Hw. rewrite Ew in Hw.
  assert (Hwne : w <> EmptyString) by (destruct w; [discriminate | discriminate]).
  assert (Hcl : forall c, lastByte w = Some c -> closesSpace c = true).
  { intros c Hc. unfold closesSpace. apply existsb_exists. exists w.
    split; [exact Hin|]. rewrite Hc. apply Ascii.eqb_refl. }
  destruct (JsString.drop (S k) s) as [|x t] eqn:Ed.
  - rewrite Hw. rewrite append_nil_r.
    destruct w as [|a w']; [congruence|].
    destruct (lastByte_some a w') as (c & Hc). exists c. split; [exact Hc | now apply Hcl].
  - destruct (IH (String x t) H) as (c & Hc & Hclose); [discriminate|].
    exists c. split; [|exact Hclose].
    rewrite Hw. rewrite lastByte_app; [exact Hc | discriminate].
Qed.

(** A string that does not end with such a byte is kept whole. *)
Lemma trimEnd_keeps s :
  (forall c, lastByte s = Some c -> closesSpace c = false) -> JsString.trimEnd s = s.
Proof.
  induction s as [|c r IH]; intros H; [reflexivity|].
  cbn [JsString.trimEnd]. unfold JsString.isBlank, JsString.trimStart.
  destruct (JsString.trimStartGo (String.length (String c r)) (String c r)) eqn:Et.
  - exfalso. destruct (blank_lastByte _ _ Et) as (x & Hx & Hclose); [discriminate|].
    rewrite (H x Hx) in Hclose. discriminate.
  - f_equal. apply IH. intros x Hx. apply H. cbn [lastByte]. now rewrite Hx.
Qed.

(** A message that opens with a character other than a blank and the
    opening bracket of the model tag is not blank once cleaned. *)
Lemma cleanMessage_plain m c r :
  opensSpace c = false -> c <> "["%char ->
  JsString.truthy (cleanMessage m (String c r)) = true.
Proof.
  intros Hs Hb. unfold cleanMessage. rewrite removeFirst_eq.
  cbn [append String.prefix]. destruct (ascii_dec "[" c) as [E|_]; [congruence|].
  now apply trim_nonblank.
Qed.

Lemma tagged_eq name rest :
  ("[" ++ name ++ "] " ++ rest = ("[" ++ name ++ "]") ++ String " " rest)%string.
Proof. cbn [append]. f_equal. rewrite append_assoc. reflexivity. Qed.

(** A message that carries the tag of its own model in front. *)
Lemma cleanMessage_tagged m rest :
  cleanMessage m ("[" ++ keyOf (snd (splitModelId m)) ++ "] " ++ rest)
  = JsString.trim (String " " rest).
Proof. unfold cleanMessage. rewrite tagged_eq, removeFirst_prefix. reflexivity. Qed.

Lemma cleanMessage_tagged_text m c r :
  opensSpace c = false ->
  JsString.truthy
    (cleanMessage m ("[" ++ keyOf (snd (splitModelId m)) ++ "] " ++ String c r)) = true.
Proof.
  intros H. rewrite cleanMessage_tagged. unfold JsString.trim.
  rewrite trimStart_space, (trimStart_other c r H). now apply trimEnd_nonblank.
Qed.
End StringFacts.

Section BraceSpan.

Lemma hasChar_app c a b : hasChar c (a ++ b) = hasChar c a || hasChar c b.
Proof.
  induction a as [|x a IH]; [reflexivity|]. cbn [append hasChar].
  rewrite IH. apply orb_assoc.
Qed.

Lemma uptoLast_none c s : uptoLast c s = None <-> hasChar c s = false.
Proof.
  induction s as [|a r IH]; [simpl; tauto|]. cbn [uptoLast hasChar].
  destruct (uptoLast c r) as [p|].
  - split; [discriminate|]. intros H. apply orb_false_iff in H as [_ H].
    apply IH in H. discriminate.
  - rewrite (proj1 IH eq_refl), orb_false_r.
    destruct (Ascii.eqb a c); split; intros; congruence.
Qed.

Lemma uptoLast_intro c post :
  hasChar c post = false ->
  forall q, uptoLast c (q ++ String c post) = Some (q ++ String c EmptyString)%string.
Proof.
  intros H. induction q as [|a q IH].
  - cbn [append uptoLast]. rewrite (proj2 (uptoLast_none c post) H), Ascii.eqb_refl.
    reflexivity.
  - cbn [append uptoLast]. rewrite IH. reflexivity.
Qed.

Lemma uptoLast_spec c s :
  forall p, uptoLast c s = Some p ->
    exists q post, p = (q ++ String c EmptyString)%string
                   /\ s = (p ++ post)%string /\ hasChar c post = false.
Proof.
  induction s as [|a r IH]; intros p H; [discriminate|].
  cbn [uptoLast] in H. destruct (uptoLast c r) as [p'|] eqn:E.
  - injection H as <-. destruct (IH p' eq_refl) as (q & post & -> & -> & Hpost).
    exists (String a q), post. auto.
  - destruct (Ascii.eqb a c) eqn:Ea; [|discriminate]. injection H as <-.
    apply Ascii.eqb_eq in Ea. subst a.
    exists EmptyString, r. repeat split. now apply uptoLast_none.
Qed.

Lemma matchBraces_intro pre mid post :
  hasChar "{" pre = false -> hasChar "}" post = false ->
  matchBraces (pre ++ String "{" (mid ++ String "}" post))
  = Some (String "{" (mid ++ String "}" EmptyString)).
Proof.
  intros Hpre Hpost. induction pre as [|a pre IH].
  - cbn [append matchBraces]. rewrite Ascii.eqb_refl.
    rewrite (uptoLast_intro _ _ Hpost). reflexivity.
  - cbn [hasChar] in Hpre. apply orb_false_iff in Hpre as [Ha Hpre].
    cbn [append matchBraces]. rewrite Ha. apply IH, Hpre.
Qed.

Lemma matchBraces_spec s :
  forall j, matchBraces s = Some j ->
    exists pre mid post,
      s = (pre ++ j ++ post)%string
      /\ j = String "{" (mid ++ String "}" EmptyString)
      /\ hasChar "{" pre = false /\ hasChar "}" post = false.
Proof.
  induction s as [|a r IH]; intros j H; [discriminate|].
  cbn [matchBraces] in H. destruct (Ascii.eqb a "{") eqn:Ea.
  - apply Ascii.eqb_eq in Ea. subst a.
    destruct (uptoLast "}" r) as [p|] eqn:E; [|discriminate]. injection H as <-.
    destruct (uptoLast_spec _ _ _ E) as (q & post & -> & -> & Hpost).
    exists EmptyString, q, post. repeat split. exact Hpost.
  - destruct (IH j H) as (pre & mid & post & -> & -> & Hpre & Hpost).
    exists (String a pre), mid, post. repeat split; [|exact Hpost].
    cbn [hasChar]. rewrite Ea. exact Hpre.
Qed.

Lemma matchBraces_none s :
  matchBraces s = None <->
  forall pre mid post, s <> (pre ++ String "{" (mid ++ String "}" post))%string.
Proof.
  split.
  - induction s as [|a r IH]; intros H pre mid post Heq.
    + destruct pre; discriminate.
    + cbn [matchBraces] in H. destruct (Ascii.eqb a "{") eqn:Ea.
      * destruct (uptoLast "}" r) eqn:E; [discriminate|].
        apply uptoLast_none in E.
        assert (Hr : hasChar "}" r = true).
        { destruct pre as [|x pre]; cbn [append] in Heq; injection Heq as _ ->.
          - rewrite hasChar_app. cbn [hasChar]. rewrite Ascii.eqb_refl.
            apply orb_true_r.
          - rewrite hasChar_app. cbn [hasChar]. rewrite hasChar_app. cbn [hasChar].
            rewrite Ascii.eqb_refl. rewrite !orb_true_r. reflexivity. }
        congruence.
      * destruct pre as [|x pre]; cbn [append] in Heq.
        -- injection Heq as -> _. rewrite Ascii.eqb_refl in Ea. discriminate.
        -- injection Heq as _ ->. apply (IH H pre mid post). reflexivity.
  - intros H. destruct (matchBraces s) as [j|] eqn:E; [|reflexivity].
    destruct (matchBraces_spec s j E) as (pre & mid & post & Hs & -> & _).
    exfalso. apply (H pre mid post). rewrite Hs. cbn [append].
    rewrite append_assoc. reflexivity.
Qed.
End BraceSpan.

Section GatewayFacts.
Variable JSON_parse : string -> Outcome Json.
Variable String_of : Json -> string.
Variables (nullReadMessage notAFunctionMessage : string).
Variable fetch : string -> option string -> string -> Outcome Response.
Variable generateContent : string -> option string -> string -> Outcome (option string).

(** X17.  parseJsonFromText hands JSON.parse the text from the first
    opening brace to the last closing brace: whatever stands before the
    first '{' and after the last '}' is ignored, a parse failure of that
    span becomes 'Model returned malformed JSON.', and a text in which
    no '{' is followed by a '}' is rejected with 'LLM did not return a
    valid JSON object.'.  A value is returned only as the parse of such
    a span. *)
Theorem parseJsonFromText_span s :
  (forall pre mid post,
     s = (pre ++ String "{" (mid ++ String "}" post))%string ->
     hasChar "{" pre = false -> hasChar "}" post = false ->
     parseJsonFromText JSON_parse nullReadMessage notAFunctionMessage (Some (JString s))
     = tryCatch (JSON_parse (String "{" (mid ++ String "}" EmptyString)))
         (fun _ => Rejected (ErrorObj "Model returned malformed JSON.")))
  /\ ((forall pre mid post, s <> (pre ++ String "{" (mid ++ String "}" post))%string) ->
      parseJsonFromText JSON_parse nullReadMessage notAFunctionMessage (Some (JString s))
      = Rejected (ErrorObj "LLM did not return a valid JSON object."))
  /\ (forall v,
        parseJsonFromText JSON_parse nullReadMessage notAFunctionMessage (Some (JString s))
        = Fulfilled v ->
        exists pre mid post,
          s = (pre ++ String "{" (mid ++ String "}" post))%string
          /\ hasChar "{" pre = false /\ hasChar "}" post = false
          /\ JSON_parse (String "{" (mid ++ String "}" EmptyString)) = Fulfilled v).
Proof.
  split; [|split].
  - intros pre mid post -> Hpre Hpost. unfold parseJsonFromText.
    rewrite (matchBraces_intro _ _ _ Hpre Hpost). reflexivity.
  - intros H. unfold parseJsonFromText. rewrite (proj2 (matchBraces_none s) H).
    reflexivity.
  - intros v H. unfold parseJsonFromText in H.
    destruct (matchBraces s) as [j|] eqn:E; [|discriminate].
    destruct (matchBraces_spec s j E) as (pre & mid & post & Hs & -> & Hpre & Hpost).
    exists pre, mid, post. split.
    + rewrite Hs. cbn [append]. rewrite append_assoc. reflexivity.
    + split; [exact Hpre|]. split; [exact Hpost|].
      destruct (JSON_parse _); [exact H | discriminate].
Qed.

Lemma callOpenRouter_failure apiKey modelName prompt response :
  fetch apiKey modelName prompt = Fulfilled response ->
  resp_ok response = false ->
  callOpenRouter JSON_parse String_of nullReadMessage fetch apiKey modelName prompt
  = Rejected
      (ErrorObj ("[" ++ keyOf modelName ++ "] "
                 ++ userFriendlyMessage (resp_status response) modelName)%string).
Proof.
  intros Hf Hok. unfold callOpenRouter. rewrite Hf. cbn [andThen]. rewrite Hok.
  cbn [negb]. cbv zeta.
  destruct (tryCatch _ _) as [[]|e] eqn:E; [reflexivity|].
  exfalso. unfold tryCatch in E.
  destruct (andThen (resp_text response) _); discriminate.
Qed.

Lemma callOpenRouter_rejects apiKey modelName prompt e :
  callOpenRouter JSON_parse String_of nullReadMessage fetch apiKey modelName prompt
  = Rejected e ->
  fetch apiKey modelName prompt = Rejected e
  \/ exists response,
       fetch apiKey modelName prompt = Fulfilled response
       /\ ((resp_ok response = false
            /\ e = ErrorObj ("[" ++ keyOf modelName ++ "] "
                             ++ userFriendlyMessage (resp_status response) modelName)%string)
           \/ (resp_ok response = true /\ resp_json response = Rejected e)).
Proof.
  intros H. destruct (fetch apiKey modelName prompt) as [response|e'] eqn:Hf.
  - right. exists response. split; [reflexivity|].
    destruct (resp_ok response) eqn:Hok.
    + right. split; [reflexivity|]. unfold callOpenRouter in H. rewrite Hf in H.
      cbn [andThen] in H. rewrite Hok in H. exact H.
    + left. split; [reflexivity|].
      rewrite (callOpenRouter_failure _ _ _ _ Hf Hok) in H. congruence.
  - left. unfold callOpenRouter in H. rewrite Hf in H. cbn [andThen] in H.
    injection H as ->. reflexivity.
Qed.

Lemma contentOf_rejects res e :
  contentOf nullReadMessage res = Rejected e -> e = ErrorObj nullReadMessage.
Proof.
  unfold contentOf, member. destruct res; cbn [andThen]; intros H;
    try (injection H as <-; reflexivity);
    match type of H with
    | context [match ?c with _ => _ end] => destruct c; discriminate
    end.
Qed.

Lemma parseJsonFromText_rejects text e :
  parseJsonFromText JSON_parse nullReadMessage notAFunctionMessage text = Rejected e ->
  e = ErrorObj "Model returned malformed JSON."
  \/ e = ErrorObj "LLM did not return a valid JSON object."
  \/ e = ErrorObj nullReadMessage
  \/ e = ErrorObj notAFunctionMessage.
Proof.
  unfold parseJsonFromText. intros H.
  destruct text as [[| | |s| |]|]; try (injection H as <-; auto).
  destruct (matchBraces s); [|injection H as <-; auto].
  destruct (JSON_parse _); [discriminate|]. injection H as <-. auto.
Qed.

Lemma callGoogleGemini_rejects apiKey modelName prompt e :
  callGoogleGemini generateContent apiKey modelName prompt = Rejected e ->
  exists rest,
    e = ErrorObj ("[" ++ keyOf modelName ++ "] " ++ String "G" rest)%string
    \/ e = ErrorObj ("[" ++ keyOf modelName ++ "] " ++ String "A" rest)%string.
Proof.
  unfold callGoogleGemini, tryCatch.
  destruct (generateContent apiKey modelName prompt) as [v|[message|text]];
    [discriminate| |]; intros H; injection H as <-.
  - exists ("oogle Gemini API call failed: " ++ message)%string. left. f_equal.
  - exists "n unknown error occurred with the Google Gemini API.". right. f_equal.
Qed.

Lemma generateJsonContent_rejection prompt model apiKeys reason :
  fst (generateJsonContent JSON_parse String_of nullReadMessage notAFunctionMessage fetch
         generateContent prompt model apiKeys) = Rejected reason ->
  exists message,
    reason = ErrorObj message
    /\ forecastErrorMessage reason = message
    /\ evaluationErrorMessage reason = message
    /\ thrownText reason = message.
Proof.
  unfold generateJsonContent. cbv zeta.
  destruct (dict_get apiKeys (fst (splitModelId model))) as [apiKey|];
    [destruct (JsString.truthy apiKey)|]; cbn [fst].
  2,3: intros H; injection H as <-; eexists; repeat split.
  unfold tryCatch.
  match goal with
  | |- context [match ?c with Fulfilled _ => _ | Rejected _ => _ end] =>
      destruct c as [v|[message|text]]
  end; intros H; [discriminate| |]; injection H as <-; eexists; repeat split.
Qed.

(** X13.  generateJsonContent rejects with Error objects only:
    whatever the network, the parser and the SDK do, a rejection carries
    a message.  The fallback texts 'Unknown forecast error' and 'Unknown
    evaluation error' of runBacktest are never used for it. *)
Theorem gateway_rejects_with_Error prompt model apiKeys reason :
  fst (generateJsonContent JSON_parse String_of nullReadMessage notAFunctionMessage fetch
         generateContent prompt model apiKeys) = Rejected reason ->
  exists message,
    reason = ErrorObj message
    /\ forecastErrorMessage reason = message
    /\ evaluationErrorMessage reason = message
    /\ thrownText reason = message.
Proof. apply generateJsonContent_rejection. Qed.

(** X14.  Without a key for the provider named before '::', absent or
    empty, generateJsonContent rejects with 'API key for <provider> is
    not configured.' and makes no network call; with a key and a
    provider other than OpenRouter and Google Gemini it rejects with
    'Unsupported provider: <provider>', again without a call.  In every
    case at most one call is made: to the endpoint of the provider, with
    the key configured for it, the model name after '::' and the
    prompt. *)
Theorem gateway_without_key prompt model apiKeys :
  let provider := fst (splitModelId model) in
  let out := generateJsonContent JSON_parse String_of nullReadMessage notAFunctionMessage
               fetch generateContent prompt model apiKeys in
  (dict_get apiKeys provider = None \/ dict_get apiKeys provider = Some EmptyString ->
   out = (Rejected (ErrorObj ("API key for " ++ provider ++ " is not configured.")%string),
          []))
  /\ (forall apiKey,
        dict_get apiKeys provider = Some apiKey -> apiKey <> EmptyString ->
        provider <> "OpenRouter" -> provider <> "Google Gemini" ->
        out = (Rejected (ErrorObj ("Unsupported provider: " ++ provider)%string), []))
  /\ (List.length (snd out) <= 1)%nat
  /\ (forall call, In call (snd out) ->
        exists apiKey,
          dict_get apiKeys provider = Some apiKey /\ apiKey <> EmptyString
          /\ ((provider = "OpenRouter"
               /\ call = OpenRouterFetch apiKey (snd (splitModelId model)) prompt)
              \/ (provider = "Google Gemini"
                  /\ call = GeminiGenerate apiKey (snd (splitModelId model)) prompt))).
Proof.
  cbv zeta. unfold generateJsonContent. cbv zeta.
  destruct (dict_get apiKeys (fst (splitModelId model))) as [apiKey|];
    [destruct apiKey as [|c k]|]; cbn [JsString.truthy].
  1,3: split; [reflexivity|]; split; [intros k Hk; try discriminate;
                                       injection Hk as <-; congruence|];
       split; [simpl; lia | intros call []].
  split; [intros [H|H]; discriminate|].
  destruct (String.eqb (fst (splitModelId model)) "OpenRouter") eqn:E1;
    [|destruct (String.eqb (fst (splitModelId model)) "Google Gemini") eqn:E2].
  - apply String.eqb_eq in E1. cbn [fst snd].
    split; [congruence|]. split; [simpl; lia|].
    intros call [<-|[]]. exists (String c k). split; [reflexivity|].
    split; [discriminate | auto].
  - apply String.eqb_eq in E2. cbn [fst snd].
    split; [congruence|]. split; [simpl; lia|].
    intros call [<-|[]]. exists (String c k). split; [reflexivity|].
    split; [discriminate | auto].
  - cbn [fst snd tryCatch]. split; [reflexivity|].
    split; [simpl; lia|]. intros call [].
Qed.
End GatewayFacts.

Section GatewayErrors.
Variable JSON_parse : string -> Outcome Json.
Variable String_of : Json -> string.
Variables (nullReadMessage notAFunctionMessage : string).
Variable fetch : string -> option string -> string -> Outcome Response.
Variable generateContent : string -> option string -> string -> Outcome (option string).

Lemma userFriendlyMessage_head status name :
  exists c r, userFriendlyMessage status name = String c r /\ opensSpace c = false.
Proof.
  unfold userFriendlyMessage.
  destruct (status =? 401)%nat; [eexists; eexists; split; reflexivity|].
  destruct (status =? 402)%nat; [eexists; eexists; split; reflexivity|].
  destruct (status =? 403)%nat; [eexists; eexists; split; reflexivity|].
  destruct (status =? 429)%nat; eexists; eexists; split; reflexivity.
Qed.

Lemma append_nonempty a b : b <> EmptyString -> (a ++ b)%string <> EmptyString.
Proof. destruct a; simpl; [auto | discriminate]. Qed.

Lemma userFriendlyMessage_trimEnd status name :
  JsString.trimEnd (userFriendlyMessage status name) = userFriendlyMessage status name.
Proof.
  apply trimEnd_keeps. unfold userFriendlyMessage.
  destruct (status =? 401)%nat; [intros c H; injection H as <-; reflexivity|].
  destruct (status =? 402)%nat; [intros c H; injection H as <-; reflexivity|].
  destruct (status =? 403)%nat.
  - intros c. rewrite !lastByte_app; try discriminate.
    + intros H; injection H as <-; reflexivity.
    + apply append_nonempty. discriminate.
  - destruct (status =? 429)%nat; [intros c H; injection H as <-; reflexivity|].
    intros c. rewrite !lastByte_app; try discriminate.
    + intros H; injection H as <-; reflexivity.
    + apply append_nonempty. discriminate.
Qed.

Lemma cleanMessage_friendly model status :
  cleanMessage model
    ("[" ++ keyOf (snd (splitModelId model)) ++ "] "
     ++ userFriendlyMessage status (snd (splitModelId model)))
  = userFriendlyMessage status (snd (splitModelId model)).
Proof.
  rewrite cleanMessage_tagged. unfold JsString.trim. rewrite trimStart_space.
  destruct (userFriendlyMessage_head status (snd (splitModelId model)))
    as (c & r & Heq & Hc).
  assert (Hs : JsString.trimStart (userFriendlyMessage status (snd (splitModelId model)))
               = userFriendlyMessage status (snd (splitModelId model))).
  { rewrite Heq. now apply trimStart_other. }
  rewrite Hs. apply userFriendlyMessage_trimEnd.
Qed.

Lemma isRetryable_tagged name text pat :
  In pat ["rate limit"; "500"; "502"; "503"; "504"; "overloaded"] ->
  JsString.includes (JsString.toLowerCase text) pat = true ->
  isRetryable (ErrorObj ("[" ++ name ++ "] " ++ text)%string) = true.
Proof.
  intros Hpat Hinc.
  assert (H : JsString.includes
                (JsString.toLowerCase ("[" ++ name ++ "] " ++ text)%string) pat = true).
  { replace ("[" ++ name ++ "] " ++ text)%string
      with (("[" ++ name ++ "] ") ++ text)%string.
    - rewrite toLowerCase_app. now apply includes_app_r.
    - cbn [append]. f_equal. rewrite !append_assoc. reflexivity. }
  unfold isRetryable. cbn [thrownText].
  simpl in Hpat.
  destruct Hpat as [<-|[<-|[<-|[<-|[<-|[<-|[]]]]]]]; rewrite H;
    rewrite ?orb_true_r; reflexivity.
Qed.

(** X15.  When OpenRouter answers with a status that is not ok,
    generateJsonContent rejects with '[<model>] <text>', where the text
    depends on the status, and for 403 on the model name, only: the body
    of the response is read, but the details it may hold never reach the
    caller, because the throw that carries them sits inside the try
    whose catch ignores every error.  What runBacktest records for the
    model, the message without its tag and trimmed, is exactly that
    text.  For the statuses 429, 500, 502, 503 and 504 the retry loop
    takes the error for a transient one. *)
Theorem openRouter_http_failure prompt model apiKeys apiKey response :
  fst (splitModelId model) = "OpenRouter" ->
  dict_get apiKeys "OpenRouter" = Some apiKey ->
  apiKey <> EmptyString ->
  fetch apiKey (snd (splitModelId model)) prompt = Fulfilled response ->
  resp_ok response = false ->
  let text := userFriendlyMessage (resp_status response) (snd (splitModelId model)) in
  let message := ("[" ++ keyOf (snd (splitModelId model)) ++ "] " ++ text)%string in
  generateJsonContent JSON_parse String_of nullReadMessage notAFunctionMessage fetch
    generateContent prompt model apiKeys
  = (Rejected (ErrorObj message),
     [OpenRouterFetch apiKey (snd (splitModelId model)) prompt])
  /\ cleanMessage model message = text
  /\ (In (resp_status response) [429; 500; 502; 503; 504]%nat ->
      isRetryable (ErrorObj message) = true).
Proof.
  intros Hp Hk Hne Hf Hok. cbv zeta. split; [|split].
  - unfold generateJsonContent. cbv zeta. rewrite Hp, Hk.
    destruct apiKey as [|c k]; [congruence|]. cbn [JsString.truthy].
    change (String.eqb "OpenRouter" "OpenRouter") with true. cbv iota. cbn [fst snd].
    rewrite (callOpenRouter_failure JSON_parse String_of nullReadMessage fetch _ _ _ _
               Hf Hok).
    reflexivity.
  - apply cleanMessage_friendly.
  - intros Hs. simpl in Hs.
    destruct Hs as [<-|[<-|[<-|[<-|[<-|[]]]]]].
    + apply (isRetryable_tagged _ _ "rate limit"); [simpl; tauto | reflexivity].
    + apply (isRetryable_tagged _ _ "500"); [simpl; tauto | reflexivity].
    + apply (isRetryable_tagged _ _ "502"); [simpl; tauto | reflexivity].
    + apply (isRetryable_tagged _ _ "503"); [simpl; tauto | reflexivity].
    + apply (isRetryable_tagged _ _ "504"); [simpl; tauto | reflexivity].
Qed.

Lemma plain_cases model message :
  message = "Model returned malformed JSON."
  \/ message = "LLM did not return a valid JSON object."
  \/ (exists rest, message = ("An unknown error occurred while calling " ++ rest)%string)
  \/ (exists rest, message = ("Unsupported provider: " ++ rest)%string)
  \/ (exists rest, message = ("API key for " ++ rest)%string) ->
  JsString.truthy (cleanMessage model message) = true.
Proof.
  intros [->|[->|[(rest & ->)|[(rest & ->)|(rest & ->)]]]];
    apply cleanMessage_plain; first [reflexivity | discriminate].
Qed.

Lemma generateJsonContent_error_text prompt model apiKeys reason :
  fst (generateJsonContent JSON_parse String_of nullReadMessage notAFunctionMessage fetch
         generateContent prompt model apiKeys) = Rejected reason ->
  platformError nullReadMessage notAFunctionMessage fetch prompt model apiKeys
    (forecastErrorMessage reason)
  \/ JsString.truthy (cleanMessage model (forecastErrorMessage reason)) = true.
Proof.
  unfold generateJsonContent. cbv zeta.
  destruct (dict_get apiKeys (fst (splitModelId model))) as [apiKey|] eqn:Hk;
    [destruct (JsString.truthy apiKey)|]; cbn [fst].
  2,3: intros H; injection H as <-; right; cbn [forecastErrorMessage];
       apply plain_cases; do 4 right; eexists; reflexivity.
  destruct (String.eqb (fst (splitModelId model)) "OpenRouter") eqn:E1;
    [|destruct (String.eqb (fst (splitModelId model)) "Google Gemini") eqn:E2];
    cbn [fst snd].
  - unfold tryCatch.
    destruct (callOpenRouter JSON_parse String_of nullReadMessage fetch apiKey
                (snd (splitModelId model)) prompt) as [res|e] eqn:Hcall;
      cbn [andThen].
    + destruct (contentOf nullReadMessage res) as [raw|e] eqn:Hcontent; cbn [andThen].
      * destruct (parseJsonFromText JSON_parse nullReadMessage notAFunctionMessage
                    (Some raw)) as [v|e] eqn:Hparse; [discriminate|].
        apply parseJsonFromText_rejects in Hparse.
        destruct Hparse as [-> | [-> | [-> | ->]]]; intros H; injection H as <-;
          cbn [forecastErrorMessage].
        -- right. apply plain_cases. auto.
        -- right. apply plain_cases. auto.
        -- left. left. reflexivity.
        -- left. right. left. reflexivity.
      * apply contentOf_rejects in Hcontent. subst e. intros H. injection H as <-.
        left. left. reflexivity.
    + apply callOpenRouter_rejects in Hcall.
      destruct e as [message|text].
      * intros H. injection H as <-. cbn [forecastErrorMessage].
        destruct Hcall as [Hf|(response & Hf & [[Hok Heq]|[Hok Hjson]])].
        -- left. right. right. exists apiKey. auto.
        -- right. injection Heq as ->.
           destruct (userFriendlyMessage_head (resp_status response)
                       (snd (splitModelId model))) as (c & r & -> & Hc).
           now apply cleanMessage_tagged_text.
        -- left. right. right. exists apiKey. split; [exact Hk|]. right.
           exists response. auto.
      * intros H. injection H as <-. right. cbn [forecastErrorMessage].
        apply plain_cases. right. right. left. eexists. reflexivity.
  - unfold tryCatch at 1.
    destruct (callGoogleGemini generateContent apiKey (snd (splitModelId model)) prompt)
      as [text|e] eqn:Hcall; cbn [andThen].
    + destruct (parseJsonFromText JSON_parse nullReadMessage notAFunctionMessage _)
        as [v|e] eqn:Hparse; [discriminate|].
      apply parseJsonFromText_rejects in Hparse.
      destruct Hparse as [-> | [-> | [-> | ->]]]; intros H; injection H as <-;
        cbn [forecastErrorMessage].
      * right. apply plain_cases. auto.
      * right. apply plain_cases. auto.
      * left. left. reflexivity.
      * left. right. left. reflexivity.
    + apply callGoogleGemini_rejects in Hcall.
      destruct Hcall as (rest & [-> | ->]); intros H; injection H as <-;
        right; cbn [forecastErrorMessage]; now apply cleanMessage_tagged_text.
  - cbn [tryCatch]. intros H. injection H as <-. right. cbn [forecastErrorMessage].
    apply plain_cases. do 3 right. left. eexists. reflexivity.
Qed.

(** X16.  An error of generateJsonContent is either one that the
    platform raised and the gateway passed on unchanged (a rejection of
    fetch or of response.json(), a TypeError), or its message is not
    blank once runBacktest has removed the model tag and trimmed it:
    every message that the gateway words itself is kept as a permanent
    error of the model. *)
Theorem gateway_errors_have_text prompt model apiKeys reason :
  fst (generateJsonContent JSON_parse String_of nullReadMessage notAFunctionMessage fetch
         generateContent prompt model apiKeys) = Rejected reason ->
  platformError nullReadMessage notAFunctionMessage fetch prompt model apiKeys
    (forecastErrorMessage reason)
  \/ JsString.truthy (cleanMessage model (forecastErrorMessage reason)) = true.
Proof. apply generateJsonContent_error_text. Qed.
End GatewayErrors.

Section MoreRunFacts.
Variable Math_sqrt : Q -> Q.
Variable generateForecast :
  nat -> nat -> nat -> ForecastRequest -> string -> Outcome ForecastResult.
Variable generateJudgement : nat -> JudgeRequest -> string -> Outcome JudgeResult.
Variable Math_random : nat -> nat -> nat -> Q.
Variables (config : Configuration) (models : list string) (ticks : list Tick).

Lemma forLoop_preserves (P : RunState -> Prop) :
  (forall i st, P st ->
     P (snd (processTick generateForecast generateJudgement Math_random config models
               ticks i st))) ->
  forall n i st,
    P st ->
    P (forLoop generateForecast generateJudgement Math_random config models ticks n i st).
Proof.
  intros Hstep. induction n as [|n IH]; intros i st H; [exact H|].
  cbn [forLoop]. pose proof (Hstep i st H) as Hs.
  destruct (processTick generateForecast generateJudgement Math_random config models
              ticks i st) as [[|] st']; cbn [snd] in Hs; [apply IH, Hs | exact Hs].
Qed.

Lemma judged_app tr new r : judged tr r -> judged (tr ++ new) r.
Proof.
  intros H m Hm. destruct (H m Hm) as [Hcall Hcase]. split.
  - apply in_or_app. now left.
  - destruct Hcase as [?|(msg & Hmsg)]; [now left|].
    right. exists msg. apply in_or_app. now left.
Qed.

Lemma fulfilledFor_In (A : Type) m (settled : list (Settled A)) v :
  In (SFulfilled m v) settled -> fulfilledFor m settled <> [].
Proof.
  induction settled as [|r rest IH]; intros H; [destruct H|].
  unfold fulfilledFor. cbn [flat_map]. fold (fulfilledFor m rest).
  destruct H as [->|H].
  - rewrite String.eqb_refl. discriminate.
  - specialize (IH H). destruct r as [m'|m' v'|m' reason]; try exact IH.
    destruct (String.eqb m' m); [discriminate | exact IH].
Qed.

Lemma evaluationPhase_judged i currentTick nextTick st tf actual :
  NoDup (dict_keys tf) ->
  let st' := evaluationPhase generateJudgement config i currentTick nextTick st tf actual in
  exists new,
    trace st' = trace st ++ new
    /\ forall r, In r (tickResults st') ->
         In r (tickResults st)
         \/ (tickIndex r = i /\ forecasts r = tf
             /\ forall m, In m (dict_keys tf) ->
                  In (JudgeCall i m) new
                  /\ (In m (dict_keys (evaluations r))
                      \/ exists msg, In (EvaluationFailed i m msg) new)).
Proof.
  intros Hnd. cbn zeta. unfold evaluationPhase.
  set (promises := map (evaluationPromise generateJudgement config i currentTick nextTick
                          st actual) tf).
  set (settled := map fst promises).
  set (acc0 := {| ea_evaluations := []; ea_feedback := modelFeedbackHistory st;
                  ea_performance := modelPerformanceHistory st;
                  ea_errors := persistentModelErrors st; ea_events := [] |}).
  assert (Hmodels : map (@modelOfSettled _) settled = dict_keys tf).
  { unfold settled, promises, dict_keys. rewrite !map_map. apply map_ext.
    intros entry. apply evaluationPromise_model. }
  assert (Hnd' : NoDup (map (@modelOfSettled _) settled)) by (rewrite Hmodels; exact Hnd).
  destruct (settleEvaluation_fold i tf actual settled acc0) as (Hev & _ & _).
  pose proof (fun m => settleEvaluation_evaluations i tf actual settled m acc0 Hnd')
    as Hevals.
  pose proof (evaluation_calls generateJudgement config i currentTick nextTick st actual tf)
    as Hcalls.
  fold promises in Hcalls.
  set (acc := fold_left (settleEvaluation i tf actual) settled acc0) in *.
  cbn [ea_evaluations ea_events acc0] in *.
  cbn [tickResults trace].
  exists (flat_map snd promises ++ ea_events acc). split; [reflexivity|].
  intros r Hr.
  destruct (ea_evaluations acc) as [|e0 l] eqn:Eev; [now left|].
  apply in_app_or in Hr as [Hr|[<-|[]]]; [now left|].
  right. cbn [tickIndex forecasts evaluations]. split; [reflexivity|].
  split; [reflexivity|]. intros m Hm. split.
  - apply in_or_app. left. rewrite Hcalls.
    unfold dict_keys in Hm. apply in_map_iff in Hm as (entry & <- & Hin).
    apply in_map_iff. exists entry. auto.
  - unfold dict_keys in Hm. apply in_map_iff in Hm as ([k f] & Hk & Hin).
    cbn [fst] in Hk. subst k.
    assert (Hs : In (fst (evaluationPromise generateJudgement config i currentTick
                            nextTick st actual (m, f))) settled).
    { unfold settled, promises. rewrite map_map. apply in_map_iff. exists (m, f). auto. }
    destruct (evaluationPromise_settled generateJudgement config i currentTick nextTick st
                actual m f) as [(v & Hv)|(reason & Hv)]; rewrite Hv in Hs.
    + left. destruct (Hevals m) as [Hget _].
      pose proof (fulfilledFor_In _ m settled v Hs) as Hne.
      apply dict_get_in_keys. rewrite Hget.
      destruct (fulfilledFor m settled); [congruence | discriminate].
    + right. exists (evaluationErrorMessage reason).
      apply in_or_app. right. rewrite Hev. cbn [app].
      now apply evaluationFailures_intro.
Qed.

Lemma judged_step i st :
  Forall (judged (trace st)) (tickResults st) ->
  Forall (judged (trace (snd (processTick generateForecast generateJudgement Math_random
                                config models ticks i st))))
    (tickResults (snd (processTick generateForecast generateJudgement Math_random
                         config models ticks i st))).
Proof.
  intros Hinv. unfold processTick.
  destruct (nth_error ticks i) as [currentTick|];
    [destruct (nth_error ticks (i + 1)) as [nextTick|]|]; try exact Hinv.
  destruct (forecastPhase_data generateForecast Math_random config models i currentTick
              nextTick st) as (_ & _ & Hres & Hndtf & _ & _ & new1 & Htr1 & _).
  destruct (forecastPhase generateForecast Math_random config models i currentTick
              nextTick st) as [st1 tf].
  cbn [fst snd] in *.
  assert (Hinv1 : Forall (judged (trace st1)) (tickResults st1)).
  { rewrite Hres, Htr1. eapply Forall_impl; [|exact Hinv].
    intros r. apply judged_app. }
  destruct (value (primary nextTick)) as [actualValue|]; cbn [snd].
  2: { unfold logEnding. cbn [tickResults trace]. eapply Forall_impl; [|exact Hinv1].
       intros r. apply judged_app. }
  destruct (evaluationPhase_judged i currentTick nextTick st1 tf actualValue Hndtf)
    as (new2 & Htr2 & Hcases).
  rewrite Htr2. apply Forall_forall. intros r Hr.
  destruct (Hcases r Hr) as [Hold|(Hidx & Hf & Hall)].
  - apply judged_app. rewrite Forall_forall in Hinv1. now apply Hinv1.
  - intros m Hm. rewrite Hf in Hm. rewrite Hidx.
    destruct (Hall m Hm) as [Hcall Hcase]. split.
    + apply in_or_app. now right.
    + destruct Hcase as [?|(msg & Hmsg)]; [now left|].
      right. exists msg. apply in_or_app. now right.
Qed.

Lemma processTick_skip b i st :
  processTick generateForecast generateJudgement Math_random
    (withSkipPredictedTicks b config) models ticks i st
  = processTick generateForecast generateJudgement Math_random config models ticks i st.
Proof.
  assert (Hfp : forall currentTick nextTick ms slot,
            forecastPromises generateForecast Math_random (withSkipPredictedTicks b config)
              i currentTick nextTick st slot ms
            = forecastPromises generateForecast Math_random config i currentTick nextTick
                st slot ms).
  { intros currentTick nextTick. induction ms as [|m rest IH]; intros slot;
      [reflexivity|].
    cbn [forecastPromises]. rewrite IH. reflexivity. }
  unfold processTick.
  destruct (nth_error ticks i) as [currentTick|]; [|reflexivity].
  destruct (nth_error ticks (i + 1)) as [nextTick|]; [|reflexivity].
  unfold forecastPhase. rewrite Hfp. reflexivity.
Qed.

Lemma forLoop_skip b n :
  forall i st,
    forLoop generateForecast generateJudgement Math_random
      (withSkipPredictedTicks b config) models ticks n i st
    = forLoop generateForecast generateJudgement Math_random config models ticks n i st.
Proof.
  induction n as [|n IH]; intros i st; [reflexivity|].
  cbn [forLoop]. rewrite processTick_skip.
  destruct (processTick generateForecast generateJudgement Math_random config models
              ticks i st) as [[|] st']; [apply IH | reflexivity].
Qed.
End MoreRunFacts.

Section MoreRunTheorems.
Variable Math_sqrt : Q -> Q.
Variable generateForecast :
  nat -> nat -> nat -> ForecastRequest -> string -> Outcome ForecastResult.
Variable generateJudgement : nat -> JudgeRequest -> string -> Outcome JudgeResult.
Variable Math_random : nat -> nat -> nat -> Q.
Variables (config : Configuration) (ticks : list Tick).

(** X18.  No forecast of a committed tick is dropped: for every model
    with a forecast in a committed tick result the judge was called for
    that tick, exactly once, and the model is either evaluated in that
    tick result or its evaluation failure is logged, in which case the
    model carries a permanent error at the end of the run. *)
Theorem every_forecast_is_judged r m :
  let run := simulate generateForecast generateJudgement Math_random config ticks in
  In r (tickResults run) ->
  In m (dict_keys (forecasts r)) ->
  In (JudgeCall (tickIndex r) m) (trace run)
  /\ (List.length (filter (isJudgeCallAt (tickIndex r) m) (trace run)) = 1)%nat
  /\ (In m (dict_keys (evaluations r))
      \/ (exists msg, In (EvaluationFailed (tickIndex r) m msg) (trace run))
         /\ hasError (persistentModelErrors run) m = true).
Proof.
  cbn zeta. intros Hr Hm.
  assert (Hinv : Forall (judged (trace (simulate generateForecast generateJudgement
                                          Math_random config ticks)))
                   (tickResults (simulate generateForecast generateJudgement Math_random
                                   config ticks))).
  { unfold simulate, progress.
    apply (forLoop_preserves generateForecast generateJudgement Math_random config
             (forecasterModelsOf config) ticks
             (fun st => Forall (judged (trace st)) (tickResults st))).
    - intros i st. apply judged_step.
    - constructor. }
  pose proof (run_invariant generateForecast generateJudgement Math_random config ticks)
    as (_ & Hfail & _ & Honce & _).
  rewrite Forall_forall in Hinv. destruct (Hinv r Hr m Hm) as [Hcall Hcase].
  split; [exact Hcall|]. split.
  - specialize (Honce (tickIndex r) m).
    assert (Hin : In (JudgeCall (tickIndex r) m)
                    (filter (isJudgeCallAt (tickIndex r) m)
                       (trace (simulate generateForecast generateJudgement Math_random
                                 config ticks)))).
    { apply filter_In. split; [exact Hcall|]. cbn [isJudgeCallAt].
      rewrite Nat.eqb_refl, String.eqb_refl. reflexivity. }
    destruct (filter _ _) as [|x l]; [destruct Hin|]. simpl in *. lia.
  - destruct Hcase as [?|(msg & Hmsg)]; [now left|]. right.
    split; [exists msg; exact Hmsg|].
    apply (Hfail (tickIndex r) m). left. exists msg. exact Hmsg.
Qed.

(** X19.  With maxPredictions = 0 the loop body never runs: no
    forecaster and no judge is called, runBacktest returns no tick
    result and no top performer, and it lists every configured
    forecaster as Failed with the message 'No successful predictions
    were generated.'. *)
Theorem no_predictions_requested :
  maxPredictions (simulationOptions config) = 0%nat ->
  judgeModel config <> EmptyString ->
  forecasterModelsOf config <> [] ->
  (2 <= List.length ticks)%nat ->
  trace (simulate generateForecast generateJudgement Math_random config ticks) = []
  /\ exists res,
       runBacktest Math_sqrt generateForecast generateJudgement Math_random config ticks
       = Returned res []
       /\ topPerformers res = []
       /\ map (fun e => (ex_modelId e, ex_reason e, ex_message e)) (excludedModels res)
          = map (fun m => (m, Failed, Some "No successful predictions were generated."))
              (forecasterModelsOf config).
Proof.
  intros Hmax Hj Hm Hlen.
  assert (Hsim : simulate generateForecast generateJudgement Math_random config ticks
                 = initialState (forecasterModelsOf config)).
  { unfold simulate, progress, maxTicksToProcess. rewrite Hmax, Nat.min_0_r. reflexivity. }
  split; [rewrite Hsim; reflexivity|].
  unfold runBacktest.
  destruct (JsString.truthy (judgeModel config)) eqn:E;
    [|apply truthy_empty in E; contradiction].
  cbn [negb].
  destruct (List.length (forecasterModelsOf config) =? 0)%nat eqn:El;
    [apply Nat.eqb_eq, length_zero_iff_nil in El; contradiction|].
  destruct (List.length ticks <? 2)%nat eqn:Et; [apply Nat.ltb_lt in Et; lia|].
  rewrite Hsim. cbn [tickResults persistentModelErrors initialState].
  cbn [calculateAggregateScores]. eexists. split; [reflexivity|].
  cbn [topPerformers excludedModels withExcluded emptyResults]. split; [reflexivity|].
  rewrite map_map. apply map_ext. intros m. reflexivity.
Qed.

(** X20.  The simulation option skipPredictedTicks is never read:
    changing it changes neither the calls made, the tick results and the
    errors on record, nor the report. *)
Theorem skipPredictedTicks_is_ignored b :
  simulate generateForecast generateJudgement Math_random
    (withSkipPredictedTicks b config) ticks
  = simulate generateForecast generateJudgement Math_random config ticks
  /\ runBacktest Math_sqrt generateForecast generateJudgement Math_random
       (withSkipPredictedTicks b config) ticks
     = runBacktest Math_sqrt generateForecast generateJudgement Math_random config ticks.
Proof.
  assert (Hsim : simulate generateForecast generateJudgement Math_random
                   (withSkipPredictedTicks b config) ticks
                 = simulate generateForecast generateJudgement Math_random config ticks).
  { unfold simulate, progress.
    change (forecasterModelsOf (withSkipPredictedTicks b config))
      with (forecasterModelsOf config).
    change (maxTicksToProcess (withSkipPredictedTicks b config) ticks)
      with (maxTicksToProcess config ticks).
    apply forLoop_skip. }
  split; [exact Hsim|].
  unfold runBacktest. rewrite Hsim. reflexivity.
Qed.
End MoreRunTheorems.

Section GatewayRun.
Variable JSON_parse : string -> Outcome Json.
Variable String_of : Json -> string.
Variables (nullReadMessage notAFunctionMessage : string).
Variable fetchAt :
  nat -> nat -> nat -> string -> option string -> string -> Outcome Response.
Variable generateContentAt :
  nat -> nat -> nat -> string -> option string -> string -> Outcome (option string).
Variable buildForecastPrompt : ForecastRequest -> string.
Variable asForecastResult : Json -> ForecastResult.
Variable apiKeys : Dict string.
Variable generateJudgement : nat -> JudgeRequest -> string -> Outcome JudgeResult.
Variable Math_random : nat -> nat -> nat -> Q.

(** X21.  Runs whose forecasts go through generateJsonContent.  If
    every error that the platform raises itself (a rejection of fetch
    or of response.json(), a TypeError) has a message that is not blank
    once the model tag is removed and the text trimmed, then every
    failed forecast rejects with an Error whose cleaned message is not
    blank, so that it is kept as the permanent error of the model, and
    the tick results of the run sit at the positions of the ticks they
    record. *)
Theorem gateway_failures_are_permanent config ticks :
  (forall tick slot attempt request m message,
     platformError nullReadMessage notAFunctionMessage (fetchAt tick slot attempt)
       (buildForecastPrompt request) m apiKeys message ->
     JsString.truthy (cleanMessage m message) = true) ->
  (forall tick slot attempt request m reason,
     forecastViaGateway JSON_parse String_of nullReadMessage notAFunctionMessage fetchAt
       generateContentAt buildForecastPrompt asForecastResult apiKeys tick slot attempt
       request m = Rejected reason ->
     exists message,
       reason = ErrorObj message /\ JsString.truthy (cleanMessage m message) = true)
  /\ aligned ticks 0
       (tickResults
          (simulate
             (forecastViaGateway JSON_parse String_of nullReadMessage notAFunctionMessage
                fetchAt generateContentAt buildForecastPrompt asForecastResult apiKeys)
             generateJudgement Math_random config ticks)).
Proof.
  intros Hplatform.
  assert (Htext : forall tick slot attempt request m reason,
            forecastViaGateway JSON_parse String_of nullReadMessage notAFunctionMessage
              fetchAt generateContentAt buildForecastPrompt asForecastResult apiKeys tick
              slot attempt request m = Rejected reason ->
            exists message,
              reason = ErrorObj message
              /\ JsString.truthy (cleanMessage m message) = true).
  { intros tick slot attempt request m reason H. unfold forecastViaGateway in H.
    destruct (fst (generateJsonContent JSON_parse String_of nullReadMessage
                     notAFunctionMessage (fetchAt tick slot attempt)
                     (generateContentAt tick slot attempt) (buildForecastPrompt request)
                     m apiKeys)) as [v|e] eqn:E; cbn [andThen] in H; [discriminate|].
    injection H as ->.
    destruct (generateJsonContent_rejection _ _ _ _ _ _ _ _ _ _ E)
      as (message & -> & _).
    exists message. split; [reflexivity|].
    destruct (generateJsonContent_error_text _ _ _ _ _ _ _ _ _ _ E) as [Hp|Ht].
    - apply (Hplatform tick slot attempt request m). exact Hp.
    - exact Ht. }
  split; [exact Htext|].
  apply run_tickResults_aligned.
  intros tick slot attempt prompt m reason H.
  destruct (Htext tick slot attempt prompt m reason H) as (message & -> & Ht).
  exact Ht.
Qed.
End GatewayRun.

Section RetryByName.

Lemma prefix_cut c p :
  hasChar c p = false ->
  forall a b, String.prefix p (a ++ String c b) = String.prefix p a.
Proof.
  induction p as [|x p IH]; intros Hp a b.
  - destruct a; reflexivity.
  - cbn [hasChar] in Hp. apply orb_false_iff in Hp as [Hx Hp].
    destruct a as [|y a]; cbn [append String.prefix].
    + destruct (ascii_dec x c) as [->|_]; [|reflexivity].
      rewrite Ascii.eqb_refl in Hx. discriminate.
    + destruct (ascii_dec x y); [apply IH, Hp | reflexivity].
Qed.

Lemma includes_cut c p a b :
  hasChar c p = false -> p <> EmptyString ->
  JsString.includes (a ++ String c b) p = JsString.includes a p || JsString.includes b p.
Proof.
  intros Hp Hne. induction a as [|y a IH].
  - pose proof (prefix_cut c p Hp EmptyString b) as H. cbn [append] in H.
    cbn [append JsString.includes]. rewrite H.
    destruct p as [|x p]; [congruence|]. reflexivity.
  - pose proof (prefix_cut c p Hp (String y a) b) as H. cbn [append] in H.
    cbn [append JsString.includes]. rewrite H, IH. apply orb_assoc.
Qed.

Lemma existsb_agree (A : Type) (f g : A -> bool) (l : list A) :
  (forall x, In x l -> f x = g x) -> existsb f l = existsb g l.
Proof.
  induction l as [|x r IH]; intros H; [reflexivity|]. cbn [existsb].
  rewrite (H x (or_introl eq_refl)), IH; [reflexivity|].
  intros y Hy. apply H. now right.
Qed.

Lemma isRetryable_triggers e :
  isRetryable e
  = existsb (JsString.includes (JsString.toLowerCase (thrownText e))) retryTriggers.
Proof.
  unfold isRetryable, retryTriggers. cbn [existsb].
  rewrite orb_false_r, !orb_assoc. reflexivity.
Qed.

Lemma tagged_includes name text p :
  In p retryTriggers ->
  JsString.includes (JsString.toLowerCase ("[" ++ name ++ "] " ++ text)) p
  = JsString.includes (JsString.toLowerCase name) p
    || JsString.includes (String " " (JsString.toLowerCase text)) p.
Proof.
  intros Hp.
  assert (Hshape : JsString.toLowerCase ("[" ++ name ++ "] " ++ text)
                   = (EmptyString
                      ++ String "["
                           (JsString.toLowerCase name
                            ++ String "]" (String " " (JsString.toLowerCase text))))%string).
  { cbn [append JsString.toLowerCase]. rewrite toLowerCase_app. reflexivity. }
  rewrite Hshape.
  simpl in Hp.
  destruct Hp as [<-|[<-|[<-|[<-|[<-|[<-|[]]]]]]];
    (rewrite includes_cut; [|reflexivity|discriminate]);
    (rewrite includes_cut; [|reflexivity|discriminate]); reflexivity.
Qed.

Lemma quoted_includes name before after p :
  In p retryTriggers ->
  JsString.includes
    (String " " (JsString.toLowerCase (before ++ "'" ++ name ++ "'" ++ after))) p
  = JsString.includes (String " " (JsString.toLowerCase before)) p
    || JsString.includes (JsString.toLowerCase name) p
    || JsString.includes (JsString.toLowerCase after) p.
Proof.
  intros Hp.
  assert (Hshape : String " " (JsString.toLowerCase (before ++ "'" ++ name ++ "'" ++ after))
                   = (String " " (JsString.toLowerCase before)
                      ++ String "'"
                           (JsString.toLowerCase name
                            ++ String "'" (JsString.toLowerCase after)))%string).
  { cbn [append]. rewrite toLowerCase_app. cbn [append JsString.toLowerCase].
    rewrite toLowerCase_app. reflexivity. }
  rewrite Hshape.
  simpl in Hp.
  destruct Hp as [<-|[<-|[<-|[<-|[<-|[<-|[]]]]]]];
    (rewrite includes_cut; [|reflexivity|discriminate]);
    (rewrite includes_cut; [|reflexivity|discriminate]); apply orb_assoc.
Qed.

(** X22.  For the OpenRouter statuses 401, 402 and 403 the text of
    the error holds none of the substrings that getForecastWithRetries
    looks for, so whether the failed call is retried depends on the
    name of the model alone: it is retried exactly when the lower-cased
    name contains 'rate limit', '500', '502', '503', '504' or
    'overloaded'.  An invalid key is thus retried for a model whose
    name ends in 2503. *)
Theorem client_error_retry_depends_on_name (modelName : option string) status :
  In status [401; 402; 403]%nat ->
  isRetryable
    (ErrorObj ("[" ++ keyOf modelName ++ "] " ++ userFriendlyMessage status modelName))
  = existsb (JsString.includes (JsString.toLowerCase (keyOf modelName))) retryTriggers.
Proof.
  intros Hs. rewrite isRetryable_triggers. cbn [thrownText].
  apply existsb_agree.
  intros p Hp. rewrite (tagged_includes _ _ p Hp).
  simpl in Hs. destruct Hs as [<-|[<-|[<-|[]]]].
  - change (userFriendlyMessage 401 modelName)
      with "Invalid API Key provided for OpenRouter.".
    simpl in Hp.
    destruct Hp as [<-|[<-|[<-|[<-|[<-|[<-|[]]]]]]]; apply orb_false_r.
  - change (userFriendlyMessage 402 modelName)
      with "Not enough credits. Please check your OpenRouter account balance.".
    simpl in Hp.
    destruct Hp as [<-|[<-|[<-|[<-|[<-|[<-|[]]]]]]]; apply orb_false_r.
  - change (userFriendlyMessage 403 modelName)
      with ("Model " ++ "'" ++ keyOf modelName ++ "'"
            ++
                " is not available. This might be due to your OpenRouter settings or model access permissions.")%string.
    rewrite (quoted_includes _ _ _ p Hp).
    simpl in Hp.
    destruct Hp as [<-|[<-|[<-|[<-|[<-|[<-|[]]]]]]];
      match goal with
      | |- ?x || (?a || ?y || ?b) = ?y =>
          change a with false; change b with false;
          rewrite orb_false_r; cbn [orb]; apply orb_diag
      end.
Qed.
End RetryByName.

Section SourceProvider.

Lemma prefix_apart q :
  forall p rest,
    String.prefix q p = false -> String.prefix p q = false ->
    String.prefix q (p ++ rest) = false.
Proof.
  induction q as [|x q IH]; intros p rest Hqp Hpq.
  - destruct p; discriminate.
  - destruct p as [|y p]; [destruct q; discriminate|].
    cbn [append String.prefix] in *.
    destruct (ascii_dec x y) as [->|Hne]; [|reflexivity].
    destruct (ascii_dec y y) as [_|Hn]; [|congruence].
    apply IH; assumption.
Qed.

Lemma find_known_prefix (table : list (string * string)) p provider rest :
  (forall entry, In entry table ->
     entry = (p, provider)
     \/ (String.prefix (fst entry) p = false /\ String.prefix p (fst entry) = false)) ->
  In (p, provider) table ->
  find (fun entry : string * string => String.prefix (fst entry) (p ++ rest)) table
  = Some (p, provider).
Proof.
  induction table as [|entry table IH]; intros Hall Hin; [destruct Hin|].
  cbn [find]. destruct (Hall entry (or_introl eq_refl)) as [->|[H1 H2]].
  - cbn [fst]. rewrite prefix_app. reflexivity.
  - rewrite (prefix_apart _ _ rest H1 H2). apply IH.
    + intros e He. apply Hall. now right.
    + destruct Hin as [->|Hin]; [|exact Hin].
      cbn [fst] in H1. clear -H1. exfalso.
      assert (H : String.prefix p p = true).
      { rewrite <- (append_nil_r p) at 2. apply prefix_app. }
      congruence.
Qed.

Lemma knownPrefixes_apart :
  forallb
    (fun a : string * string =>
       forallb
         (fun b : string * string =>
            (String.eqb (fst a) (fst b) && String.eqb (snd a) (snd b))
            || (negb (String.prefix (fst a) (fst b)) && negb (String.prefix (fst b) (fst a))))
         knownPrefixes)
    knownPrefixes = true.
Proof. vm_compute. reflexivity. Qed.

(** X23.  A model id that starts with one of the eighteen vendor
    prefixes is attributed to that vendor whatever follows the prefix:
    no two prefixes of the table match the same id, and the substring
    rules are not consulted.  When no prefix matches, the first of
    'claude', 'gpt', 'gemini' and 'llama' found in the id decides, and
    the result is 'Other' when none occurs. *)
Theorem known_prefix_decides id :
  (forall prefix provider rest,
     In (prefix, provider) knownPrefixes -> id = (prefix ++ rest)%string ->
     getSourceProvider id = provider)
  /\ ((forall entry, In entry knownPrefixes -> String.prefix (fst entry) id = false) ->
      getSourceProvider id
      = if JsString.includes id "claude" then "Anthropic"
        else if JsString.includes id "gpt" then "OpenAI"
        else if JsString.includes id "gemini" then "Google"
        else if JsString.includes id "llama" then "Meta"
        else "Other").
Proof.
  split.
  - intros prefix provider rest Hin ->. unfold getSourceProvider.
    rewrite (find_known_prefix knownPrefixes prefix provider rest); [reflexivity| |exact Hin].
    intros entry He.
    pose proof knownPrefixes_apart as Hall.
    rewrite forallb_forall in Hall. specialize (Hall entry He).
    rewrite forallb_forall in Hall. specialize (Hall (prefix, provider) Hin).
    cbn [fst snd] in Hall. apply orb_true_iff in Hall as [H|H].
    + left. apply andb_true_iff in H as [H1 H2].
      apply String.eqb_eq in H1, H2. destruct entry. cbn [fst snd] in *. congruence.
    + right. apply andb_true_iff in H as [H1 H2].
      apply negb_true_iff in H1, H2. auto.
  - intros Hnone. unfold getSourceProvider.
    destruct (find _ knownPrefixes) as [entry|] eqn:E; [|reflexivity].
    apply find_some in E as [Hin Hp]. rewrite (Hnone entry Hin) in Hp. discriminate.
Qed.
End SourceProvider.

Section CatalogueFacts.
Variable StringToNumber : string -> option Q.
Variable String_of : Json -> string.
Variable toLocaleString : Json -> string.
Variable parseFloat : option Json -> option Q.
Variables (nullReadMessage notAFunctionMessage : string).

Lemma mapOutcome_Forall2 (A B : Type) (f : A -> Outcome B) (l : list A) :
  forall out, mapOutcome f l = Fulfilled out ->
    Forall2 (fun a b => f a = Fulfilled b) l out.
Proof.
  induction l as [|a r IH]; intros out H.
  - injection H as <-. constructor.
  - cbn [mapOutcome] in H. destruct (f a) as [b|e] eqn:Ea; [|discriminate].
    cbn [andThen] in H. destruct (mapOutcome f r) as [bs|e]; [|discriminate].
    injection H as <-. constructor; [exact Ea | apply IH; reflexivity].
Qed.

Lemma mapOutcome_rejects (A B : Type) (f : A -> Outcome B) (l : list A) a e :
  In a l -> f a = Rejected e -> exists e', mapOutcome f l = Rejected e'.
Proof.
  induction l as [|x r IH]; intros Hin Ha; [destruct Hin|].
  cbn [mapOutcome]. destruct Hin as [->|Hin].
  - rewrite Ha. eexists. reflexivity.
  - destruct (f x); [|eexists; reflexivity]. cbn [andThen].
    destruct (IH Hin Ha) as (e' & ->). eexists. reflexivity.
Qed.

Lemma member_fulfilled m k v :
  member nullReadMessage m k = Fulfilled v -> v = optMember (Some m) k.
Proof. unfold member. destruct m; intros H; try discriminate; now injection H as <-. Qed.

Lemma normalizeEntry_shape provider m nm :
  normalizeEntry StringToNumber String_of toLocaleString parseFloat nullReadMessage
    notAFunctionMessage provider m = Fulfilled nm ->
  optMember (Some m) "id" = Some (JString (pm_id (nm_model nm)))
  /\ pm_provider (nm_model nm) = provider
  /\ pm_sourceProvider (nm_model nm) = getSourceProvider (pm_id (nm_model nm))
  /\ Some (pm_context (nm_model nm))
     = orElse (optMember (Some m) "context_length") (Some (JNumber 0))
  /\ pm_modality (nm_model nm)
     = (if match optMember (optMember (Some m) "architecture") "modality" with
           | Some (JString s) => String.eqb s "text"
           | _ => false
           end
        then "text" else "multimodal")
  /\ compatibility nm
     = checkCompatibility StringToNumber String_of toLocaleString (nm_model nm).
Proof.
  unfold normalizeEntry. intros H.
  destruct (member nullReadMessage m "id") as [modelId|] eqn:Eid; [|discriminate].
  apply member_fulfilled in Eid. subst modelId. cbn [andThen] in H.
  remember (optMember (Some m) "context_length") as cl eqn:Ecl.
  remember (optMember (optMember (Some m) "architecture") "modality") as arch eqn:Earch.
  remember (optMember (Some m) "name") as nameField eqn:Ename.
  destruct (optMember (Some m) "id") as [[| | |id| |]|]; cbn [andThen] in H;
    try discriminate.
  destruct (optMember (Some m) "pricing") as [[| | | | |]|]; try discriminate;
    injection H as <-;
    cbn [nm_model compatibility pm_id pm_provider pm_sourceProvider pm_context pm_modality
         fst snd];
    (split; [reflexivity|]); (split; [reflexivity|]); (split; [reflexivity|]);
    (split; [|split; [|reflexivity]]).
  all: try (unfold orElse; destruct (jsTruthy cl) eqn:Et;
            [destruct cl; [reflexivity | discriminate] | reflexivity]).
  all: destruct arch as [[| | | | |]|]; try reflexivity;
       match goal with
       | |- context [String.eqb ?x "text"] => destruct (String.eqb x "text")
       end; reflexivity.
Qed.

Lemma checkCompatibility_text model :
  pm_modality model = "text" \/ pm_modality model = "multimodal" ->
  let c := checkCompatibility StringToNumber String_of toLocaleString model in
  reasoning c = true
  /\ allowed c
     = negb (lessThan (toNumber StringToNumber String_of (pm_context model))
               (Some MIN_CONTEXT_WINDOW))
  /\ (reasonIfBlocked c = None <-> allowed c = true).
Proof.
  intros Hm. cbn zeta. unfold checkCompatibility.
  assert (E : negb (String.eqb (pm_modality model) "text")
              && negb (String.eqb (pm_modality model) "multimodal") = false)
    by (destruct Hm as [-> | ->]; reflexivity).
  rewrite E.
  destruct (lessThan _ _); cbn [reasoning allowed reasonIfBlocked negb];
    repeat split; intros; congruence.
Qed.

(** X24.  normalizeOpenRouterModels returns the empty list for
    anything that is not an array.  For an array it maps the entries one
    to one; every normalized model has modality 'text' or 'multimodal',
    since whatever the API reports other than 'text' becomes
    'multimodal', so checkCompatibility never blocks it for its
    modality: reasoning is true, allowed holds exactly when
    context_length || 0 is not below 8192 as a number, a reason is given
    exactly when the model is blocked, and an entry without
    context_length is blocked.  One entry on which the callback throws
    (null, an id that is not a string, no pricing) makes the whole
    normalisation throw. *)
Theorem openRouter_catalogue rawModels provider :
  ((forall items, rawModels <> Some (JArray items)) ->
   normalizeOpenRouterModels StringToNumber String_of toLocaleString parseFloat
     nullReadMessage notAFunctionMessage rawModels provider = Fulfilled [])
  /\ (forall items models,
        rawModels = Some (JArray items) ->
        normalizeOpenRouterModels StringToNumber String_of toLocaleString parseFloat
          nullReadMessage notAFunctionMessage rawModels provider = Fulfilled models ->
        Forall2
          (fun m nm =>
             Some (pm_context (nm_model nm))
             = orElse (optMember (Some m) "context_length") (Some (JNumber 0))
             /\ (pm_modality (nm_model nm) = "text"
                 \/ pm_modality (nm_model nm) = "multimodal")
             /\ pm_sourceProvider (nm_model nm) = getSourceProvider (pm_id (nm_model nm))
             /\ reasoning (compatibility nm) = true
             /\ allowed (compatibility nm)
                = negb (lessThan
                          (toNumber StringToNumber String_of (pm_context (nm_model nm)))
                          (Some MIN_CONTEXT_WINDOW))
             /\ (reasonIfBlocked (compatibility nm) = None
                 <-> allowed (compatibility nm) = true)
             /\ (optMember (Some m) "context_length" = None ->
                 allowed (compatibility nm) = false))
          items models)
  /\ (forall items m e,
        rawModels = Some (JArray items) -> In m items ->
        normalizeEntry StringToNumber String_of toLocaleString parseFloat nullReadMessage
          notAFunctionMessage provider m = Rejected e ->
        exists e',
          normalizeOpenRouterModels StringToNumber String_of toLocaleString parseFloat
            nullReadMessage notAFunctionMessage rawModels provider = Rejected e').
Proof.
  split; [|split].
  - intros Hno. unfold normalizeOpenRouterModels.
    destruct rawModels as [[| | | |items|]|]; try reflexivity.
    exfalso. apply (Hno items). reflexivity.
  - intros items models -> H. unfold normalizeOpenRouterModels in H.
    apply mapOutcome_Forall2 in H.
    eapply Forall2_impl; [|exact H]. intros m nm Hm.
    destruct (normalizeEntry_shape _ _ _ Hm) as (_ & _ & Hsrc & Hctx & Hmod & Hcompat).
    assert (Hmodality : pm_modality (nm_model nm) = "text"
                        \/ pm_modality (nm_model nm) = "multimodal").
    { rewrite Hmod. destruct (match optMember _ "modality" with
                              | Some (JString s) => String.eqb s "text"
                              | _ => false
                              end); auto. }
    destruct (checkCompatibility_text (nm_model nm) Hmodality) as (Hr & Ha & Hreason).
    rewrite <- Hcompat in Hr, Ha, Hreason.
    split; [exact Hctx|]. split; [exact Hmodality|]. split; [exact Hsrc|].
    split; [exact Hr|]. split; [exact Ha|]. split; [exact Hreason|].
    intros Hmissing. rewrite Ha. rewrite Hmissing in Hctx. cbn in Hctx.
    injection Hctx as ->. reflexivity.
  - intros items m e -> Hin Hm. unfold normalizeOpenRouterModels.
    apply (mapOutcome_rejects _ _ _ _ m e Hin Hm).
Qed.
End CatalogueFacts.

Section ForecastsOnly.
Variable Math_sqrt : Q -> Q.

Lemma collectSeries_forecasts ticks trs :
  forall trs' i d,
    map forecasts trs = map forecasts trs' ->
    collectSeries ticks i trs d = collectSeries ticks i trs' d.
Proof.
  induction trs as [|r rs IH]; intros [|r' rs'] i d H; try discriminate; [reflexivity|].
  cbn [map] in H. injection H as Hr Hrs. cbn [collectSeries]. rewrite Hr.
  destruct (nth_error ticks i) as [t|]; [|reflexivity].
  destruct (value (primary t)), (nextValue ticks i); apply IH, Hrs.
Qed.

(** X25.  The scoring engine reads the tick results through their
    forecasts alone: two lists of tick results with the same forecasts at
    the same positions get the same report, whatever their tickIndex,
    tickData and evaluations are.  The accuracy, error and feedback of
    the judge have no part in any reported figure. *)
Theorem scores_read_forecasts_only ticks trs trs' models errors :
  map forecasts trs = map forecasts trs' ->
  calculateAggregateScores Math_sqrt ticks trs models errors
  = calculateAggregateScores Math_sqrt ticks trs' models errors.
Proof.
  intros H. destruct trs as [|r rs], trs' as [|r' rs']; try discriminate; [reflexivity|].
  rewrite !calculateAggregateScores_nonempty.
  rewrite (collectSeries_forecasts ticks (r :: rs) (r' :: rs') 0 _ H). reflexivity.
Qed.
End ForecastsOnly.

Section AfterFailure.
Variable generateForecast :
  nat -> nat -> nat -> ForecastRequest -> string -> Outcome ForecastResult.
Variable generateJudgement : nat -> JudgeRequest -> string -> Outcome JudgeResult.
Variable Math_random : nat -> nat -> nat -> Q.
Variables (config : Configuration) (ticks : list Tick).

Lemma forecastCalled_app tr new r : forecastCalled tr r -> forecastCalled (tr ++ new) r.
Proof.
  intros H m Hm. destruct (H m Hm) as (slot & Hs). exists slot.
  apply in_or_app. now left.
Qed.

Lemma forecastCalled_step models i st :
  Forall (forecastCalled (trace st)) (tickResults st) ->
  Forall (forecastCalled
            (trace (snd (processTick generateForecast generateJudgement Math_random
                           config models ticks i st))))
    (tickResults (snd (processTick generateForecast generateJudgement Math_random
                         config models ticks i st))).
Proof.
  intros Hinv. unfold processTick.
  destruct (nth_error ticks i) as [currentTick|];
    [destruct (nth_error ticks (i + 1)) as [nextTick|]|]; try exact Hinv.
  destruct (forecastPhase_data generateForecast Math_random config models i currentTick
              nextTick st) as (_ & _ & Hres & Hndtf & Hsub & _).
  destruct (forecastPhase_facts generateForecast Math_random config models i currentTick
              nextTick st)
    as (calls & logs & Htr1 & _ & _ & _ & Hcalls & _ & _ & _ & Hfresh).
  destruct (forecastPhase generateForecast Math_random config models i currentTick
              nextTick st) as [st1 tf].
  cbn [fst snd] in *.
  assert (Hinv1 : Forall (forecastCalled (trace st1)) (tickResults st1)).
  { rewrite Hres, Htr1. eapply Forall_impl; [|exact Hinv].
    intros r. apply forecastCalled_app. }
  assert (Htf : forall m, In m (dict_keys tf) ->
            exists slot, In (ForecastCall i slot m 0) (trace st1)).
  { intros m Hm. destruct (In_nth_error _ _ (Hsub m Hm)) as (slot & Hslot).
    exists slot. rewrite Htr1. apply in_or_app. right. apply in_or_app. left.
    apply (Hcalls slot m Hslot). apply Hfresh, Hm. }
  destruct (value (primary nextTick)) as [actualValue|]; cbn [snd].
  2: { unfold logEnding. cbn [tickResults trace]. eapply Forall_impl; [|exact Hinv1].
       intros r. apply forecastCalled_app. }
  destruct (evaluationPhase_data generateJudgement config i currentTick nextTick st1 tf
              actualValue Hndtf)
    as (evals & _ & _ & Hres2 & _ & _ & new2 & Htr2 & _).
  rewrite Htr2, Hres2.
  assert (Hold : Forall (forecastCalled (trace st1 ++ new2)) (tickResults st1)).
  { eapply Forall_impl; [|exact Hinv1]. intros r. apply forecastCalled_app. }
  destruct evals as [|e0 l]; [exact Hold|].
  apply Forall_app. split; [exact Hold|]. constructor; [|constructor].
  intros m Hm. cbn [forecasts tickIndex] in *. destruct (Htf m Hm) as (slot & Hs).
  exists slot. apply in_or_app. now left.
Qed.

(** X26.  For every forecast held by a tick result of a run the model
    was called on the tick of that result, and a model has no forecast
    in any tick result after the tick on which it failed (its evaluation
    failed, or its forecast failed with a message that is not blank once
    cleaned): a tick result that holds a forecast of the model is not
    later than any failure of the model. *)
Theorem no_forecast_after_failure r m :
  let run := simulate generateForecast generateJudgement Math_random config ticks in
  In r (tickResults run) ->
  In m (dict_keys (forecasts r)) ->
  (exists slot, In (ForecastCall (tickIndex r) slot m 0) (trace run))
  /\ forall j, failedAt (trace run) j m -> (tickIndex r <= j)%nat.
Proof.
  cbn zeta. intros Hr Hm.
  assert (Hcalled : exists slot,
            In (ForecastCall (tickIndex r) slot m 0)
              (trace (simulate generateForecast generateJudgement Math_random config
                        ticks))).
  { assert (Hinv : Forall (forecastCalled
                             (trace (simulate generateForecast generateJudgement
                                       Math_random config ticks)))
                     (tickResults (simulate generateForecast generateJudgement
                                     Math_random config ticks))).
    { unfold simulate, progress.
      apply (forLoop_preserves generateForecast generateJudgement Math_random config
               (forecasterModelsOf config) ticks
               (fun st => Forall (forecastCalled (trace st)) (tickResults st))).
      - intros i st. apply forecastCalled_step.
      - constructor. }
    rewrite Forall_forall in Hinv. apply (Hinv r Hr m Hm). }
  split; [exact Hcalled|].
  intros j Hfail. destruct Hcalled as (slot & Hs).
  pose proof (run_invariant generateForecast generateJudgement Math_random config ticks)
    as (_ & _ & Hsticky & _).
  destruct (Nat.le_gt_cases (tickIndex r) j) as [Hle|Hgt]; [exact Hle|].
  destruct (Hsticky j m Hfail _ Hs Hgt) as [Hcall _].
  cbn [isForecastCallFor] in Hcall. rewrite String.eqb_refl in Hcall. discriminate.
Qed.
End AfterFailure.

Import Duel Wire.

Lemma topPerformers_ranked_witness :
  StronglySorted (fun a b => compositeScore b <= compositeScore a) (topPerformers reportDuel)
  /\ map modelId (topPerformers reportDuel) = [beta; alpha].
Proof.
  destruct (topPerformers_ranked sqrtApprox ticks3 resultsDuel [alpha; beta] [] reportDuel)
    as [Hsorted _].
  - vm_compute. reflexivity.
  - split; [exact Hsorted | reflexivity].
Defined.

Lemma report_partitions_models_witness :
  Permutation
    (map modelId (topPerformers reportFailed) ++ map ex_modelId (excludedModels reportFailed))
    [alpha; beta]
  /\ (List.length (topPerformers reportFailed) + List.length (excludedModels reportFailed)
      = 2)%nat.
Proof.
  apply (report_partitions_models sqrtApprox ticks3 results3 [alpha; beta]
           [("beta", "Invalid API Key provided for OpenRouter.")] reportFailed).
  vm_compute. reflexivity.
Defined.

Lemma score_ranges_witness :
  0 <= avgConfidence bench3 <= 100 /\ 0 <= compositeScore bench3 <= 100.
Proof.
  destruct (score_ranges sqrtApprox ticks3 results3 [alpha] [] report3 bench3)
    as (Hc & Hs & _).
  - vm_compute. reflexivity.
  - left. vm_compute. left. reflexivity.
  - vm_compute. repeat constructor; discriminate.
  - vm_compute. discriminate.
  - exact (conj Hc Hs).
Defined.

Lemma overall_scores_witness :
  List.length (topPerformers reportDuel) = 2%nat
  /\ overallDirectionalAccuracy reportDuel
     = avg (map directionalAccuracy (topPerformers reportDuel))
  /\ 0 <= overallDirectionalAccuracy reportDuel <= 100.
Proof.
  destruct (overall_scores sqrtApprox ticks3 resultsDuel [alpha; beta] [] reportDuel)
    as ((_ & Hmean & _) & Hrange).
  - vm_compute. reflexivity.
  - split; [reflexivity|]. split; [exact Hmean | exact Hrange].
Defined.

Lemma unscored_model_is_failed_witness :
  exists e,
    In e (excludedModels reportFailed) /\ ex_modelId e = beta /\ ex_reason e = Failed
    /\ ex_message e = Some "Invalid API Key provided for OpenRouter.".
Proof.
  destruct (unscored_model_is_failed sqrtApprox ticks3 results3 [alpha; beta]
              [("beta", "Invalid API Key provided for OpenRouter.")] reportFailed)
    as [Hfailed _].
  - vm_compute. reflexivity.
  - destruct (Hfailed beta) as (_ & e & He & Hid & Hreason & _ & _ & Hmsg).
    + simpl. auto.
    + reflexivity.
    + exists e. repeat split; assumption.
Defined.

Lemma runBacktest_validation_witness :
  runBacktest sqrtApprox steadyForecaster fairJudge halfJitter config2 [t0]
  = Threw "At least two data ticks are required to run a backtest.".
Proof.
  destruct (runBacktest_validation sqrtApprox steadyForecaster fairJudge halfJitter config2
              [t0]) as (_ & _ & H).
  apply H; [discriminate | discriminate | simpl; lia].
Defined.

Lemma committed_tick_results_witness :
  Forall (committedOk ticks5 (forecasterModelsOf config2)) (tickResults haltedRun)
  /\ map tickIndex (tickResults haltedRun) = [0; 1]%nat.
Proof.
  destruct (committed_tick_results steadyForecaster fairJudge halfJitter config2 ticks5)
    as (H & _).
  split; [exact H | reflexivity].
Defined.

Lemma histories_follow_evaluations_witness :
  historyOf (modelFeedbackHistory steadyRun) alpha = ["noted"; "noted"]
  /\ dict_get (modelFeedbackHistory steadyRun) beta <> None.
Proof.
  destruct (histories_follow_evaluations steadyForecaster fairJudge halfJitter config2 ticks3
              2 alpha) as (Hf & _).
  destruct (histories_follow_evaluations steadyForecaster fairJudge halfJitter config2 ticks3
              2 beta) as (_ & _ & Hkeys & _).
  split.
  - exact Hf.
  - apply Hkeys. simpl. auto.
Defined.

Lemma failure_is_reported_witness :
  exists e,
    In e (excludedModels lockedReport) /\ ex_modelId e = beta /\ ex_reason e = Failed
    /\ ex_message e = Some "Invalid API Key provided for OpenRouter.".
Proof.
  destruct (failure_is_reported sqrtApprox lockedOut fairJudge halfJitter config2 ticks3
              lockedReport (tickResults lockedRun) beta
              "Invalid API Key provided for OpenRouter.")
    as (_ & e & He & Hid & Hreason & _ & Hmsg).
  - vm_compute. reflexivity.
  - intros k [<-|[<-|[]]] Hk; [discriminate Hk | reflexivity].
  - reflexivity.
  - reflexivity.
  - intros r [<-|[<-|[]]]; reflexivity.
  - exists e. repeat split; assumption.
Defined.

Lemma recorded_error_origin_witness :
  In beta (forecasterModelsOf config2)
  /\ errorOrigin (trace lockedRun) beta "Invalid API Key provided for OpenRouter.".
Proof.
  destruct (recorded_error_origin lockedOut fairJudge halfJitter config2 ticks3 beta
              "Invalid API Key provided for OpenRouter.") as (Hin & Horigin & _).
  - reflexivity.
  - exact (conj Hin Horigin).
Defined.

Lemma formatErrors_lookup_witness :
  dict_get (formatErrors (persistentModelErrors lockedRun)) "beta"
  = Some "Invalid API Key provided for OpenRouter.".
Proof.
  destruct (formatErrors_lookup (persistentModelErrors lockedRun)) as [_ H].
  apply (H beta).
  - vm_compute. repeat constructor. intros [].
  - intros k [<-|[]] _. reflexivity.
Defined.

Lemma run_completion_is_percentage_witness :
  0 < completionRate (firstBenchmark (topPerformers steadyReport)) <= 100.
Proof.
  destruct (run_completion_is_percentage sqrtApprox steadyForecaster fairJudge halfJitter
              config2 ticks3 steadyReport (tickResults steadyRun)
              (firstBenchmark (topPerformers steadyReport)))
    as (_ & _ & H).
  - vm_compute. reflexivity.
  - left. vm_compute. left. reflexivity.
  - exact H.
Defined.

Lemma gateway_rejects_with_Error_witness :
  exists message,
    fst (gateway rateLimited alpha) = Rejected (ErrorObj message)
    /\ forecastErrorMessage (ErrorObj message) = message.
Proof.
  destruct (gateway_rejects_with_Error parseStub textOf "Cannot read properties of null"
              "text.match is not a function" rateLimited offline "Forecast the next value."
              alpha keys
              (ErrorObj
                  "[alpha] Rate limit hit for this model. Please retry shortly or check your OpenRouter account limits."))
    as (message & Heq & Hf & _).
  - reflexivity.
  - exists message. split; [rewrite <- Heq; reflexivity | reflexivity].
Defined.

Lemma gateway_without_key_witness :
  gateway answering "Google Gemini::flash"
  = (Rejected (ErrorObj "API key for Google Gemini is not configured."), [])
  /\ gateway answering "Mistral::large"
     = (Rejected (ErrorObj "Unsupported provider: Mistral"), []).
Proof.
  split.
  - destruct (gateway_without_key parseStub textOf "Cannot read properties of null"
                "text.match is not a function" answering offline "Forecast the next value."
                "Google Gemini::flash" keys) as (H & _).
    apply H. right. reflexivity.
  - destruct (gateway_without_key parseStub textOf "Cannot read properties of null"
                "text.match is not a function" answering offline "Forecast the next value."
                "Mistral::large" keys) as (_ & H & _).
    apply (H "sk-mi-test"); [reflexivity | discriminate | discriminate | discriminate].
Defined.

Lemma openRouter_http_failure_witness :
  cleanMessage alpha
    "[alpha] Rate limit hit for this model. Please retry shortly or check your OpenRouter account limits."
  = "Rate limit hit for this model. Please retry shortly or check your OpenRouter account limits."
  /\ isRetryable
       (ErrorObj
          "[alpha] Rate limit hit for this model. Please retry shortly or check your OpenRouter account limits.")
     = true.
Proof.
  destruct (openRouter_http_failure parseStub textOf "Cannot read properties of null"
              "text.match is not a function" rateLimited offline "Forecast the next value."
              alpha keys "sk-or-test"
              {| resp_ok := false; resp_status := 429; resp_text := Fulfilled "{}";
                 resp_json := Rejected (ErrorObj "Unexpected end of JSON input") |})
    as (_ & Hclean & Hretry).
  - reflexivity.
  - reflexivity.
  - discriminate.
  - reflexivity.
  - reflexivity.
  - split; [exact Hclean|]. apply Hretry. simpl. auto.
Defined.

Lemma gateway_errors_have_text_witness :
  JsString.truthy
    (cleanMessage alpha
       "[alpha] Rate limit hit for this model. Please retry shortly or check your OpenRouter account limits.")
  = true.
Proof.
  destruct (gateway_errors_have_text parseStub textOf "Cannot read properties of null"
              "text.match is not a function" rateLimited offline "Forecast the next value."
              alpha keys
              (ErrorObj
                  "[alpha] Rate limit hit for this model. Please retry shortly or check your OpenRouter account limits."))
    as [Hplatform|Htext].
  - reflexivity.
  - reflexivity.
  - exact Htext.
Defined.

Lemma parseJsonFromText_span_witness :
  parseJsonFromText parseStub "Cannot read properties of null" "text.match is not a function"
    (Some (JString "Here it is: {} as asked"))
  = Fulfilled (JObject []).
Proof.
  destruct (parseJsonFromText_span parseStub "Cannot read properties of null"
              "text.match is not a function" "Here it is: {} as asked") as (H & _).
  rewrite (H "Here it is: " "" " as asked"); reflexivity.
Defined.

Lemma every_forecast_is_judged_witness :
  In (JudgeCall 0 beta) (trace busyRun)
  /\ dict_get (evaluations (firstResult busyRun)) beta = None
  /\ hasError (persistentModelErrors busyRun) beta = true.
Proof.
  destruct (every_forecast_is_judged busyForecaster harshJudge halfJitter config2 ticks3
              (firstResult busyRun) beta) as (Hcall & _ & Hcase).
  - left. reflexivity.
  - simpl. auto.
  - split; [exact Hcall|]. split; [reflexivity|].
    destruct Hcase as [Hin|[_ Herr]]; [|exact Herr].
    exfalso. simpl in Hin. destruct Hin as [Heq|[]]. discriminate Heq.
Defined.

Lemma no_predictions_requested_witness :
  trace (simulate steadyForecaster fairJudge halfJitter configNone ticks3) = []
  /\ exists res,
       runBacktest sqrtApprox steadyForecaster fairJudge halfJitter configNone ticks3
       = Returned res []
       /\ topPerformers res = [].
Proof.
  destruct (no_predictions_requested sqrtApprox steadyForecaster fairJudge halfJitter
              configNone ticks3) as (Htrace & res & Hres & Htop & _).
  - reflexivity.
  - discriminate.
  - discriminate.
  - simpl. lia.
  - split; [exact Htrace|]. exists res. split; assumption.
Defined.

Lemma gateway_failures_are_permanent_witness :
  map tickIndex (tickResults patchyRun) = [0; 1]%nat
  /\ dict_get (persistentModelErrors patchyRun) beta
     = Some "Rate limit hit for this model. Please retry shortly or check your OpenRouter account limits."
  /\ aligned ticks3 0 (tickResults patchyRun).
Proof.
  split; [reflexivity|]. split; [reflexivity|].
  destruct (gateway_failures_are_permanent parseStub textOf "Cannot read properties of null"
              "text.match is not a function" patchy
              (fun _ _ _ => offline) renderStub castStub keys fairJudge halfJitter config2
              ticks3) as [_ H].
  - intros tick slot attempt request m message [->|[->|(apiKey & _ & [Hf|Hj])]].
    + apply cleanMessage_plain; [reflexivity | discriminate].
    + apply cleanMessage_plain; [reflexivity | discriminate].
    + unfold patchy in Hf. destruct (slot =? 0)%nat; discriminate Hf.
    + destruct Hj as (response & Hf & Hjson). unfold patchy in Hf.
      destruct (slot =? 0)%nat; injection Hf as <-; [discriminate Hjson|].
      injection Hjson as <-. apply cleanMessage_plain; [reflexivity | discriminate].
  - exact H.
Defined.

Lemma client_error_retry_depends_on_name_witness :
  isRetryable (ErrorObj "[mistral-small-2503] Invalid API Key provided for OpenRouter.") = true
  /\ isRetryable (ErrorObj "[alpha] Invalid API Key provided for OpenRouter.") = false.
Proof.
  split.
  - apply (client_error_retry_depends_on_name (Some "mistral-small-2503") 401).
    simpl. auto.
  - apply (client_error_retry_depends_on_name (Some "alpha") 401). simpl. auto.
Defined.

Lemma known_prefix_decides_witness :
  getSourceProvider "meta-llama/llama-3-gpt" = "Meta".
Proof.
  destruct (known_prefix_decides "meta-llama/llama-3-gpt") as [H _].
  apply (H "meta-llama/" "Meta" "llama-3-gpt"); [simpl; auto | reflexivity].
Defined.

Lemma openRouter_catalogue_witness :
  map (fun nm => (pm_id (nm_model nm), pm_modality (nm_model nm), allowed (compatibility nm)))
    catalogue
  = [("openai/gpt-4o", "multimodal", true); ("acme/painter", "multimodal", false)]
  /\ Forall (fun nm => reasoning (compatibility nm) = true) catalogue.
Proof.
  destruct (openRouter_catalogue noNumber textOf plainNumber zeroPrice
              "Cannot read properties of null" "id.startsWith is not a function"
              (Some (JArray rawCatalogue)) "OpenRouter") as (_ & H & _).
  specialize (H rawCatalogue catalogue eq_refl eq_refl).
  split; [reflexivity|].
  apply Forall_forall. intros nm Hnm.
  apply (Forall2_flip) in H.
  induction H as [|nm' m models items Hone _ IH]; [destruct Hnm|].
  destruct Hnm as [->|Hnm]; [apply Hone | apply IH, Hnm].
Defined.

Lemma scores_read_forecasts_only_witness :
  calculateAggregateScores sqrtApprox ticks3 regraded [alpha; beta] []
  = calculateAggregateScores sqrtApprox ticks3 resultsDuel [alpha; beta] [].
Proof.
  apply (scores_read_forecasts_only sqrtApprox ticks3 regraded resultsDuel [alpha; beta] []).
  reflexivity.
Defined.

Lemma no_forecast_after_failure_witness :
  (exists slot, In (ForecastCall 0 slot beta 0) (trace busyRun))
  /\ (tickIndex (firstResult busyRun) <= 0)%nat.
Proof.
  destruct (no_forecast_after_failure busyForecaster harshJudge halfJitter config2 ticks3
              (firstResult busyRun) beta) as [Hcall Hbound].
  - left. reflexivity.
  - simpl. tauto.
  - split; [exact Hcall|]. apply Hbound. left.
    exists "Model returned malformed JSON.". simpl. tauto.
Defined.
